(** * xray-audit: a shallow embedding of the ingestion pipeline

    The development follows the Python sources module by module:
    [parser.py], [error_parser.py], [filtering.py], [tailer.py],
    [storage.py], [runtime_config.py] and [collector.py].

    Conventions.
    - A Python [str] is modelled by its UTF-8 byte sequence ([string]);
      the character classes ([\d], [\s], [isdigit], [strip], [lower]) are
      the ASCII ones: the model is that of the code on ASCII text.
    - Python integers are [Z]; a [float] is an IEEE 754 binary64 number
      ([spec_float] at precision 53), rounded to nearest even.  [int] of
      a string of digits is the number they denote: the strings are
      taken to hold at most [sys.int_max_str_digits] digits, 4300 by
      default, beyond which [int] raises [ValueError].
    - [None] is [option]'s [None]; a raised exception is an explicit
      [Raise] result. *)

From stdpp Require Import gmap strings list.
From Stdlib Require Import ZArith QArith Ascii String DecimalString Lia.
From Stdlib Require Import Floats.SpecFloat.

Set Warnings "-register-all".

Local Open Scope string_scope.
Local Open Scope Z_scope.

(** ** Python string primitives *)

Module Py.

Definition ord (a : ascii) : N := N_of_ascii a.

Definition chr (n : N) : ascii := ascii_of_N n.

(** [str.isspace] on ASCII: TAB, LF, VT, FF, CR, FS, GS, RS, US and SPACE. *)
Definition isspace (a : ascii) : bool :=
  let n := ord a in
  (((9 <=? n) && (n <=? 13)) || ((28 <=? n) && (n <=? 32)))%N.

Definition isdigit_chr (a : ascii) : bool :=
  let n := ord a in ((48 <=? n) && (n <=? 57))%N.

Definition isupper_chr (a : ascii) : bool :=
  let n := ord a in ((65 <=? n) && (n <=? 90))%N.

Definition islower_chr (a : ascii) : bool :=
  let n := ord a in ((97 <=? n) && (n <=? 122))%N.

Definition isalpha_chr (a : ascii) : bool := isupper_chr a || islower_chr a.

(** The class [\w] of the [re] module. *)
Definition isword_chr (a : ascii) : bool :=
  isalpha_chr a || isdigit_chr a || Ascii.eqb a "_".

Definition ishex_chr (a : ascii) : bool :=
  let n := ord a in
  (isdigit_chr a || ((65 <=? n) && (n <=? 70)) || ((97 <=? n) && (n <=? 102)))%N.

Definition lower_chr (a : ascii) : ascii :=
  if isupper_chr a then chr (ord a + 32) else a.

Fixpoint lower (s : string) : string :=
  match s with
  | EmptyString => EmptyString
  | String a s' => String (lower_chr a) (lower s')
  end.

Fixpoint rev_onto (s acc : string) : string :=
  match s with
  | EmptyString => acc
  | String a s' => rev_onto s' (String a acc)
  end.

Definition rev (s : string) : string := rev_onto s EmptyString.

Fixpoint lstrip_by (f : ascii -> bool) (s : string) : string :=
  match s with
  | EmptyString => EmptyString
  | String a s' => if f a then lstrip_by f s' else s
  end.

Definition rstrip_by (f : ascii -> bool) (s : string) : string :=
  rev (lstrip_by f (rev s)).

(** [s.strip()] *)
Definition strip (s : string) : string := rstrip_by isspace (lstrip_by isspace s).

Fixpoint mem_chr (a : ascii) (chars : string) : bool :=
  match chars with
  | EmptyString => false
  | String c chars' => Ascii.eqb a c || mem_chr a chars'
  end.

(** [s.rstrip(chars)] *)
Definition rstrip_chars (chars s : string) : string :=
  rstrip_by (fun a => mem_chr a chars) s.

(** [s.startswith(p)] *)
Fixpoint startswith (p s : string) : bool :=
  match p, s with
  | EmptyString, _ => true
  | String a p', String b s' => Ascii.eqb a b && startswith p' s'
  | String _ _, EmptyString => false
  end.

(** [s[n:]] for [0 <= n] *)
Fixpoint drop (n : nat) (s : string) : string :=
  match n, s with
  | O, _ => s
  | S n', String _ s' => drop n' s'
  | S _, EmptyString => EmptyString
  end.

(** [s[:n]] for [0 <= n] *)
Fixpoint take (n : nat) (s : string) : string :=
  match n, s with
  | O, _ => EmptyString
  | S n', String a s' => String a (take n' s')
  | S _, EmptyString => EmptyString
  end.

(** [sub in s] *)
Fixpoint contains (sub s : string) : bool :=
  startswith sub s ||
  match s with
  | EmptyString => false
  | String _ s' => contains sub s'
  end.

(** [s.count(c)] for a one-character [c] *)
Fixpoint count_chr (c : ascii) (s : string) : nat :=
  match s with
  | EmptyString => O
  | String a s' => (if Ascii.eqb a c then 1 else 0)%nat + count_chr c s'
  end.

(** [s.split(c)] for a one-character separator [c]; the result is never
    empty. *)
Fixpoint split_chr (c : ascii) (s : string) : list string :=
  match s with
  | EmptyString => [EmptyString]
  | String a s' =>
      if Ascii.eqb a c then EmptyString :: split_chr c s'
      else match split_chr c s' with
           | [] => [String a EmptyString]
           | w :: ws => String a w :: ws
           end
  end.

(** [s.split(c, maxsplit)] for a one-character separator [c] *)
Fixpoint split_chr_max (c : ascii) (maxsplit : nat) (s : string) : list string :=
  match maxsplit with
  | O => [s]
  | S m =>
      (fix scan (t : string) (acc : string) : list string :=
         match t with
         | EmptyString => [rev acc]
         | String a t' =>
             if Ascii.eqb a c then rev acc :: split_chr_max c m t'
             else scan t' (String a acc)
         end) s EmptyString
  end.

(** [s.rsplit(c, 1)] when [c] occurs in [s]: the text before and after the
    last occurrence. *)
Fixpoint rsplit1 (c : ascii) (s : string) : option (string * string) :=
  match s with
  | EmptyString => None
  | String a s' =>
      match rsplit1 c s' with
      | Some (h, t) => Some (String a h, t)
      | None => if Ascii.eqb a c then Some (EmptyString, s') else None
      end
  end.

Fixpoint all_chr (f : ascii -> bool) (s : string) : bool :=
  match s with
  | EmptyString => true
  | String a s' => f a && all_chr f s'
  end.

(** [s.isdigit()] *)
Definition isdigit (s : string) : bool :=
  negb (String.eqb s EmptyString) && all_chr isdigit_chr s.

Fixpoint int_acc (s : string) (acc : Z) : Z :=
  match s with
  | EmptyString => acc
  | String a s' => int_acc s' (10 * acc + Z.of_N (ord a - 48))
  end.

(** [int(s)] for a string of decimal digits *)
Definition int_of_digits (s : string) : Z := int_acc s 0.

Fixpoint replace_fuel (old new s : string) (fuel : nat) : string :=
  match fuel with
  | O => s
  | S fuel' =>
      if startswith old s
      then new ++ replace_fuel old new (drop (String.length old) s) fuel'
      else match s with
           | EmptyString => EmptyString
           | String a s' => String a (replace_fuel old new s' fuel')
           end
  end.

(** [s.replace(old, new)] for a non-empty [old] *)
Definition replace (old new s : string) : string :=
  replace_fuel old new s (S (String.length s)).

(** [sep.join(parts)] *)
Fixpoint join (sep : string) (parts : list string) : string :=
  match parts with
  | [] => EmptyString
  | [p] => p
  | p :: ps => p ++ sep ++ join sep ps
  end.

(** Truthiness of a string *)
Definition truthy (s : string) : bool := negb (String.eqb s EmptyString).

End Py.

(** ** A backtracking matcher for the regular expressions of the source

    The matcher follows the priority order of Python's [re]: alternatives
    left to right, greedy repetition longest first, lazy repetition
    shortest first.  Continuations carry the captures, so that a capture
    made on an abandoned branch is forgotten. *)

Module Re.

Inductive regex : Type :=
| Eps
| Cls (f : ascii -> bool)
| Seq (r1 r2 : regex)
| Alt (r1 r2 : regex)
| Star (r : regex)
| StarLazy (r : regex)
| Grp (name : string) (r : regex)
| Bol
| Eol
| Wordb.

Record pos : Type := { prev : option ascii; rest : string }.

Definition captures := list (string * string).

Fixpoint group (c : captures) (name : string) : option string :=
  match c with
  | [] => None
  | (n, v) :: c' => if String.eqb n name then Some v else group c' name
  end.

Definition consumed (p p' : pos) : string :=
  Py.take (String.length (rest p) - String.length (rest p')) (rest p).

Definition is_word (o : option ascii) : bool :=
  match o with
  | Some a => Py.isword_chr a
  | None => false
  end.

Definition next (p : pos) : option ascii :=
  match rest p with
  | EmptyString => None
  | String a _ => Some a
  end.

Fixpoint run (r : regex) (p : pos) (c : captures)
    (k : pos -> captures -> option captures) {struct r} : option captures :=
  match r with
  | Eps => k p c
  | Cls f =>
      match rest p with
      | String a t => if f a then k {| prev := Some a; rest := t |} c else None
      | EmptyString => None
      end
  | Seq r1 r2 => run r1 p c (fun p' c' => run r2 p' c' k)
  | Alt r1 r2 =>
      match run r1 p c k with
      | Some res => Some res
      | None => run r2 p c k
      end
  | Star r1 =>
      (fix loop (fuel : nat) (p : pos) (c : captures) {struct fuel} :=
         match fuel with
         | O => k p c
         | S fuel' =>
             match run r1 p c (fun p' c' =>
                     if (String.length (rest p') <? String.length (rest p))%nat
                     then loop fuel' p' c' else None) with
             | Some res => Some res
             | None => k p c
             end
         end) (S (String.length (rest p))) p c
  | StarLazy r1 =>
      (fix loop (fuel : nat) (p : pos) (c : captures) {struct fuel} :=
         match fuel with
         | O => k p c
         | S fuel' =>
             match k p c with
             | Some res => Some res
             | None =>
                 run r1 p c (fun p' c' =>
                   if (String.length (rest p') <? String.length (rest p))%nat
                   then loop fuel' p' c' else None)
             end
         end) (S (String.length (rest p))) p c
  | Grp name r1 =>
      run r1 p c (fun p' c' => k p' ((name, consumed p p') :: c'))
  | Bol => match prev p with None => k p c | Some _ => None end
  | Eol =>
      match rest p with
      | EmptyString => k p c
      | String a EmptyString => if Ascii.eqb a "010" then k p c else None
      | _ => None
      end
  | Wordb => if xorb (is_word (prev p)) (is_word (next p)) then k p c else None
  end.

(** Derived forms *)
Definition Plus (r : regex) : regex := Seq r (Star r).
Definition PlusLazy (r : regex) : regex := Seq r (StarLazy r).
Definition Opt (r : regex) : regex := Alt r Eps.
Definition Chr (a : ascii) : regex := Cls (Ascii.eqb a).

Fixpoint Lit (s : string) : regex :=
  match s with
  | EmptyString => Eps
  | String a EmptyString => Chr a
  | String a s' => Seq (Chr a) (Lit s')
  end.

Fixpoint Seqs (rs : list regex) : regex :=
  match rs with
  | [] => Eps
  | [r] => r
  | r :: rs' => Seq r (Seqs rs')
  end.

Fixpoint Alts (rs : list regex) : regex :=
  match rs with
  | [] => Eps
  | [r] => r
  | r :: rs' => Alt r (Alts rs')
  end.

(** [r{n}] *)
Fixpoint Times (n : nat) (r : regex) : regex :=
  match n with
  | O => Eps
  | S O => r
  | S n' => Seq r (Times n' r)
  end.

(** [r{0,n}], greedy *)
Fixpoint UpTo (n : nat) (r : regex) : regex :=
  match n with
  | O => Eps
  | S n' => Opt (Seq r (UpTo n' r))
  end.

(** [r{lo,hi}] with [lo <= hi], greedy *)
Definition Between (lo hi : nat) (r : regex) : regex :=
  Seq (Times lo r) (UpTo (hi - lo) r).

(** The classes [\s], [\S], [\d] and [.] *)
Definition space : regex := Cls Py.isspace.
Definition nonspace : regex := Cls (fun a => negb (Py.isspace a)).
Definition digit : regex := Cls Py.isdigit_chr.
Definition dot : regex := Cls (fun a => negb (Ascii.eqb a "010")).
Definition NotChr (a : ascii) : regex := Cls (fun b => negb (Ascii.eqb b a)).

(** The group holding the whole match, [m.group(0)] *)
Definition g0 : string := "0".

Definition run_at (r : regex) (p : pos) : option captures :=
  run (Grp g0 r) p [] (fun _ c => Some c).

(** [re.match(r, s)]: a match anchored at the start of [s] *)
Definition rmatch (r : regex) (s : string) : option captures :=
  run_at r {| prev := None; rest := s |}.

(** [re.search(r, s)]: the leftmost match, with its start index *)
Fixpoint search_from (r : regex) (i : nat) (p : pos) (fuel : nat)
    : option (nat * captures) :=
  match run_at r p with
  | Some c => Some (i, c)
  | None =>
      match fuel, rest p with
      | S fuel', String a t =>
          search_from r (S i) {| prev := Some a; rest := t |} fuel'
      | _, _ => None
      end
  end.

Definition search (r : regex) (s : string) : option (nat * captures) :=
  search_from r 0 {| prev := None; rest := s |} (String.length s).

(** [re.sub(r, repl, s)] for a pattern [r] that matches no empty text: the
    non-overlapping matches are replaced from left to right. *)
Fixpoint sub_from (r : regex) (repl : string) (p : pos) (fuel : nat) : string :=
  match fuel with
  | O => rest p
  | S fuel' =>
      match rest p with
      | EmptyString => EmptyString
      | String a t =>
          match run_at r p with
          | Some c =>
              match group c g0 with
              | Some (String b m) =>
                  let n := String.length (String b m) in
                  repl ++ sub_from r repl
                            {| prev := Some (List.last (list_ascii_of_string m) b);
                               rest := Py.drop n (rest p) |} fuel'
              | _ => String a (sub_from r repl {| prev := Some a; rest := t |} fuel')
              end
          | None => String a (sub_from r repl {| prev := Some a; rest := t |} fuel')
          end
      end
  end.

Definition sub (r : regex) (repl s : string) : string :=
  sub_from r repl {| prev := None; rest := s |} (String.length s).

(** [m.group(name) or ""] *)
Definition group_or_empty (c : captures) (name : string) : string :=
  match group c name with
  | Some v => v
  | None => EmptyString
  end.

End Re.

(** ** The standard library's [ipaddress.ip_address]

    Only the question whether the constructor raises matters to the
    source; the model follows CPython's [_ip_int_from_string] of
    [IPv4Address] and [IPv6Address]. *)

Module Ipaddress.

(** [IPv4Address._parse_octet] does not raise *)
Definition octet_ok (o : string) : bool :=
  Py.isdigit o
  && (String.length o <=? 3)%nat
  && (String.eqb o "0" || negb (Py.startswith "0" o))
  && (Py.int_of_digits o <=? 255).

Definition ipv4_ok (s : string) : bool :=
  negb (Py.contains "/" s)
  && Py.truthy s
  && let octets := Py.split_chr "." s in
     (List.length octets =? 4)%nat && forallb octet_ok octets.

(** [IPv6Address._parse_hextet] does not raise *)
Definition hextet_ok (h : string) : bool :=
  Py.truthy h && Py.all_chr Py.ishex_chr h && (String.length h <=? 4)%nat.

(** [ip_str.partition('%')] followed by the scope check of
    [_split_scope_id]; [None] when it raises *)
Definition split_scope_id (s : string) : option string :=
  match Py.split_chr_max "%" 1 s with
  | [addr] => Some addr
  | [addr; scope] =>
      if Py.truthy scope && negb (Py.contains "%" scope) then Some addr else None
  | _ => None
  end.

(** The indices [1 <= i < len(parts) - 1] with an empty part *)
Fixpoint inner_empty (parts : list string) (i : nat) : list nat :=
  match parts with
  | [] | [_] => []
  | p :: ps =>
      ((if (1 <=? i)%nat && negb (Py.truthy p) then [i] else [])
         ++ inner_empty ps (S i))%list
  end.

Definition first_empty (parts : list string) : bool :=
  match parts with
  | p :: _ => negb (Py.truthy p)
  | [] => false
  end.

Definition last_empty (parts : list string) : bool :=
  match List.rev parts with
  | p :: _ => negb (Py.truthy p)
  | [] => false
  end.

Definition ipv6_parts_ok (parts0 : list string) : bool :=
  if (List.length parts0 <? 3)%nat then false else
  let lastp := List.last parts0 EmptyString in
  let v4 := Py.contains "." lastp in
  if v4 && negb (ipv4_ok lastp) then false else
  let parts :=
    if v4 then (List.removelast parts0 ++ ["0"; "0"])%list else parts0 in
  let n := List.length parts in
  if (9 <? n)%nat then false else
  match inner_empty parts 0 with
  | _ :: _ :: _ => false
  | [skip_index] =>
      let hi0 := skip_index in
      let lo0 := (n - skip_index - 1)%nat in
      let hi := if first_empty parts then (hi0 - 1)%nat else hi0 in
      let lo := if last_empty parts then (lo0 - 1)%nat else lo0 in
      if first_empty parts && negb (hi =? 0)%nat then false else
      if last_empty parts && negb (lo =? 0)%nat then false else
      if (8 <? hi + lo + 1)%nat then false else
      forallb hextet_ok (List.firstn hi parts)
      && forallb hextet_ok (List.skipn (n - lo) parts)
  | [] =>
      (n =? 8)%nat && negb (first_empty parts) && negb (last_empty parts)
      && forallb hextet_ok parts
  end.

Definition ipv6_ok (s : string) : bool :=
  negb (Py.contains "/" s)
  && match split_scope_id s with
     | Some addr => Py.truthy addr && ipv6_parts_ok (Py.split_chr ":" addr)
     | None => false
     end.

(** [ipaddress.ip_address(s)] returns instead of raising [ValueError] *)
Definition ip_address_ok (s : string) : bool := ipv4_ok s || ipv6_ok s.

End Ipaddress.

(** ** [datetime.strptime] for the two formats of the source *)

Module Datetime.

Record datetime : Type := {
  year : Z; month : Z; day : Z;
  hour : Z; minute : Z; second : Z; microsecond : Z
}.

Import Re.

Definition one_of (s : string) : regex := Cls (fun a => Py.mem_chr a s).

(** The directive patterns of [_strptime.TimeRE] *)
Definition re_Y : regex := Grp "Y" (Times 4 digit).
Definition re_m : regex :=
  Grp "m" (Alts [Seq (Chr "1") (one_of "012"); Seq (Chr "0") (one_of "123456789");
                 one_of "123456789"]).
Definition re_d : regex :=
  Grp "d" (Alts [Seq (Chr "3") (one_of "01"); Seq (one_of "12") digit;
                 Seq (Chr "0") (one_of "123456789"); one_of "123456789";
                 Seq (Chr " ") (one_of "123456789")]).
Definition re_H : regex :=
  Grp "H" (Alts [Seq (Chr "2") (one_of "0123"); Seq (one_of "01") digit; digit]).
Definition re_M : regex :=
  Grp "M" (Alts [Seq (one_of "012345") digit; digit]).
Definition re_S : regex :=
  Grp "S" (Alts [Seq (Chr "6") (one_of "01"); Seq (one_of "012345") digit; digit]).
Definition re_f : regex := Grp "f" (Between 1 6 digit).

(** ["%Y/%m/%d %H:%M:%S"] *)
Definition fmt_seconds : regex :=
  Seqs [re_Y; Chr "/"; re_m; Chr "/"; re_d; Plus space;
        re_H; Chr ":"; re_M; Chr ":"; re_S].

(** ["%Y/%m/%d %H:%M:%S.%f"] *)
Definition fmt_micros : regex := Seqs [fmt_seconds; Chr "."; re_f].

Definition is_leap (y : Z) : bool :=
  (y mod 4 =? 0) && (negb (y mod 100 =? 0) || (y mod 400 =? 0)).

Definition days_in_month (y m : Z) : Z :=
  if m =? 2 then (if is_leap y then 29 else 28)
  else if (m =? 4) || (m =? 6) || (m =? 9) || (m =? 11) then 30
  else 31.

Fixpoint zeros (n : nat) : string :=
  match n with
  | O => EmptyString
  | S n' => String "0" (zeros n')
  end.

(** The fields are read as [_strptime] reads them; the constructor of
    [datetime] rejects year 0, a day beyond the month and the leap seconds
    60 and 61 that the pattern of [%S] lets through. *)
Definition of_groups (c : captures) : option datetime :=
  let num name := Py.int_of_digits (Py.strip (group_or_empty c name)) in
  let f := match group c "f" with
           | Some s => Py.int_of_digits (s ++ zeros (6 - String.length s))
           | None => 0
           end in
  let y := num "Y" in
  let m := num "m" in
  let d := num "d" in
  let S := num "S" in
  if (1 <=? y) && (d <=? days_in_month y m) && (S <=? 59)
  then Some {| year := y; month := m; day := d;
               hour := num "H"; minute := num "M"; second := S;
               microsecond := f |}
  else None.

(** [datetime.strptime(s, fmt)]; [None] stands for [ValueError] *)
Definition strptime (fmt : regex) (s : string) : option datetime :=
  match rmatch fmt s with
  | Some c =>
      if (String.length (group_or_empty c g0) =? String.length s)%nat
      then of_groups c
      else None
  | None => None
  end.

End Datetime.

(** ** Exceptions

    A call returns a value or raises.  [int] of a string of digits always
    returns: the interpreter's optional limit on the length of such a
    string is off. *)

Inductive exn : Type :=
| ValueError
| OverflowError
| DatabaseError
| CacheError.

Inductive result (A : Type) : Type :=
| Ok (a : A)
| Raise (e : exn).

Arguments Ok {A} a.
Arguments Raise {A} e.

(** ** Python's [float]

    IEEE 754 binary64: precision 53, largest exponent 1024, every
    operation rounded to nearest, ties to even. *)

Module Float.

Definition prec : Z := 53.
Definition emax : Z := 1024.

(** The float nearest to the integer [n] *)
Definition of_int (n : Z) : spec_float := binary_normalize prec emax n 0 false.

(** The float nearest to [n / d]: [float(s)] for a decimal numeral [s]
    of value [n / d], infinite when the value is out of range *)
Definition of_ratio (n : Z) (d : positive) : spec_float :=
  match n with
  | Z0 => S754_zero false
  | Zpos p => SFdiv prec emax (S754_finite false p 0) (S754_finite false d 0)
  | Zneg p => SFdiv prec emax (S754_finite true p 0) (S754_finite false d 0)
  end.

Definition mul (x y : spec_float) : spec_float := SFmul prec emax x y.

Definition sub (x y : spec_float) : spec_float := SFsub prec emax x y.

(** [x / y] for a nonzero [y] *)
Definition div (x y : spec_float) : spec_float := SFdiv prec emax x y.

(** [int(x)]: the integer part, [OverflowError] on an infinity and
    [ValueError] on a NaN *)
Definition to_int (x : spec_float) : result Z :=
  match x with
  | S754_zero _ => Ok 0
  | S754_finite s m e => Ok (cond_Zopp s (Z.shiftl (Zpos m) e))
  | S754_infinity _ => Raise OverflowError
  | S754_nan => Raise ValueError
  end.

(** [x >= n] for an integer [n]: Python compares the two exactly. *)
Definition ge_int (x : spec_float) (n : Z) : bool :=
  match x with
  | S754_zero _ => n <=? 0
  | S754_finite s m (Zneg p) => n * 2 ^ Zpos p <=? cond_Zopp s (Zpos m)
  | S754_finite s m e => n <=? cond_Zopp s (Zpos m) * 2 ^ e
  | S754_infinity s => negb s
  | S754_nan => false
  end.

(** [max(x, y)]: [y] when [y > x], else [x] *)
Definition max (x y : spec_float) : spec_float := if SFltb x y then y else x.

End Float.

(** ** [hashlib.sha256(...).hexdigest()]

    The digest is kept symbolic: a formal term over the hashed text, that
    is, an ideal hash without collisions. *)

Inductive hexdigest : Type := Sha256 (preimage : string).

(** ** models.py *)

Record AccessEvent : Type := {
  a_event_time : Datetime.datetime;
  user_email : string;
  a_src : string;
  a_dest_raw : string;
  a_dest_host : string;
  a_dest_port : option Z;
  status : string;
  detour : string;
  reason : string;
  is_domain : bool;
  confidence : string
}.

(** [ips_json] is [json.dumps(ips)]; the model keeps the list the JSON
    array encodes. *)
Record DNSEvent : Type := {
  d_event_time : Datetime.datetime;
  dns_server : string;
  domain : string;
  ips_json : list string;
  dns_status : string;
  elapsed_ms : option Z;
  error_text : string
}.

Record ParsedEvent : Type := {
  event_time : Datetime.datetime;
  event_type : string;
  raw_line : string;
  raw_hash : hexdigest;
  access : option AccessEvent;
  dns : option DNSEvent
}.

Record ParsedErrorEvent : Type := {
  e_event_time : Datetime.datetime;
  level : string;
  session_id : option Z;
  component : string;
  message : string;
  e_src : string;
  e_dest_raw : string;
  e_dest_host : string;
  e_dest_port : option Z;
  category : string;
  signature_hash : hexdigest;
  is_noise : bool;
  e_raw_line : string;
  e_raw_hash : hexdigest
}.

(** ** parser.py *)

Module Parser.

Import Re.

(** The patterns of the source are quoted in [re.VERBOSE] layout, where
    white space is not significant.

    [^from \s+ (?P<src>\S+) \s+ (?P<status>accepted|rejected) \s+ (?P<dest>\S+)
     (?: \s+ \[ (?P<detour> [^\]]+ ) \] )?  (?P<tail> .* ) $] *)
Definition _ACCESS_RE : regex :=
  Seqs [Bol; Lit "from"; Plus space;
        Grp "src" (Plus nonspace); Plus space;
        Grp "status" (Alt (Lit "accepted") (Lit "rejected")); Plus space;
        Grp "dest" (Plus nonspace);
        Opt (Seqs [Plus space; Chr "["; Grp "detour" (Plus (NotChr "]")); Chr "]"]);
        Grp "tail" (Star dot); Eol].

(** [^ (?P<server> .+? ) \s+ (?P<status>got answer:|cache HIT:|cache OPTIMISTE:) \s+
     (?P<domain>\S+) \s+ -> \s+ \[ (?P<ips> [^\]]* ) \]  (?P<tail> .* ) $] *)
Definition _DNS_RE : regex :=
  Seqs [Bol; Grp "server" (PlusLazy dot); Plus space;
        Grp "status" (Alts [Lit "got answer:"; Lit "cache HIT:"; Lit "cache OPTIMISTE:"]);
        Plus space; Grp "domain" (Plus nonspace); Plus space; Lit "->"; Plus space;
        Chr "["; Grp "ips" (Star (NotChr "]")); Chr "]";
        Grp "tail" (Star dot); Eol].

(** [(?: ^ | \s ) email: \s* (\S+) \s* $] *)
Definition email_re : regex :=
  Seqs [Alt Bol space; Lit "email:"; Star space; Grp "1" (Plus nonspace);
        Star space; Eol].

(** [< ( [^>]* ) >] *)
Definition err_re : regex :=
  Seqs [Chr "<"; Grp "1" (Star (NotChr ">")); Chr ">"].

(** [^ ( \d+ (?: \. \d+ )? ) (ns|us|ms|s|m|h) $] *)
Definition duration_re : regex :=
  Seqs [Bol; Grp "1" (Seq (Plus digit) (Opt (Seq (Chr ".") (Plus digit))));
        Grp "2" (Alts [Lit "ns"; Lit "us"; Lit "ms"; Lit "s"; Lit "m"; Lit "h"]);
        Eol].

(** [^ \[ (.+) \] (?: : (\d+) )? $] *)
Definition bracket_re : regex :=
  Seqs [Bol; Chr "["; Grp "1" (Plus dot); Chr "]";
        Opt (Seq (Chr ":") (Grp "2" (Plus digit))); Eol].

Definition _parse_timestamp_prefix (line : string)
    : option Datetime.datetime * string :=
  match Py.split_chr_max " " 2 (Py.strip line) with
  | [p0; p1; p2] =>
      let stamp := p0 ++ " " ++ p1 in
      let body := Py.strip p2 in
      match Datetime.strptime Datetime.fmt_micros stamp with
      | Some t => (Some t, body)
      | None =>
          match Datetime.strptime Datetime.fmt_seconds stamp with
          | Some t => (Some t, body)
          | None => (None, EmptyString)
          end
      end
  | _ => (None, EmptyString)
  end.

Fixpoint pow10 (n : nat) : positive :=
  match n with
  | O => 1%positive
  | S n' => (10 * pow10 n')%positive
  end.

(** [float(s)] for [s] matching [\d+(?:\.\d+)?]: the float nearest to
    the decimal value *)
Definition float_of_decimal (s : string) : spec_float :=
  match Py.split_chr_max "." 1 s with
  | [ip; fp] =>
      Float.of_ratio
        (Py.int_of_digits ip * Zpos (pow10 (String.length fp)) + Py.int_of_digits fp)
        (pow10 (String.length fp))
  | _ => Float.of_ratio (Py.int_of_digits s) 1
  end.

(** [return int(x)] *)
Definition return_int (x : spec_float) : result (option Z) :=
  match Float.to_int x with
  | Ok n => Ok (Some n)
  | Raise e => Raise e
  end.

(** The unit dispatch of [_parse_duration_ms], after the pattern matched *)
Definition duration_of (value : spec_float) (unit : string) : result (option Z) :=
  if String.eqb unit "ns" then return_int (Float.div value (Float.of_int 1000000))
  else if String.eqb unit "us" then return_int (Float.div value (Float.of_int 1000))
  else if String.eqb unit "ms" then return_int value
  else if String.eqb unit "s" then return_int (Float.mul value (Float.of_int 1000))
  else if String.eqb unit "m" then return_int (Float.mul value (Float.of_int 60000))
  else if String.eqb unit "h" then return_int (Float.mul value (Float.of_int 3600000))
  else Ok None.

(** The micro sign U+00B5 in UTF-8 *)
Definition micro_sign : string := String (Py.chr 194) (String (Py.chr 181) EmptyString).

Definition _parse_duration_ms (raw : string) : result (option Z) :=
  let token := Py.replace (micro_sign ++ "s") "us" (Py.strip raw) in
  if negb (Py.truthy token) then Ok None else
  match rmatch duration_re token with
  | None => Ok None
  | Some m =>
      duration_of (float_of_decimal (group_or_empty m "1")) (group_or_empty m "2")
  end.

Definition _is_ip (value : string) : bool := Ipaddress.ip_address_ok value.

(** The loop [for prefix in ("tcp:", "udp:")] with its [break] *)
Definition strip_scheme (raw : string) : string :=
  if Py.startswith "tcp:" raw then Py.drop 4 raw
  else if Py.startswith "udp:" raw then Py.drop 4 raw
  else raw.

Definition opt_port (c : captures) (name : string) : option Z :=
  match group c name with
  | Some d => if Py.truthy d then Some (Py.int_of_digits d) else None
  | None => None
  end.

Definition split_tail (raw : string) : string * option Z :=
  if (Py.count_chr ":" raw =? 1)%nat then
    match Py.rsplit1 ":" raw with
    | Some (host, maybe_port) =>
        if Py.isdigit maybe_port then (host, Some (Py.int_of_digits maybe_port))
        else (raw, None)
    | None => (raw, None)
    end
  else if (1 <? Py.count_chr ":" raw)%nat then
    if _is_ip raw then (raw, None)
    else match Py.rsplit1 ":" raw with
         | Some (host, maybe_port) =>
             if Py.isdigit maybe_port then (host, Some (Py.int_of_digits maybe_port))
             else (raw, None)
         | None => (raw, None)
         end
  else (raw, None).

Definition _split_host_port (dest : string) : string * option Z :=
  let raw := strip_scheme (Py.strip dest) in
  let after_bracket :=
    if _is_ip raw then (raw, None) else split_tail raw in
  if Py.startswith "[" raw then
    match rmatch bracket_re raw with
    | Some m => (group_or_empty m "1", opt_port m "2")
    | None => after_bracket
    end
  else after_bracket.

Definition _parse_access (event_time : Datetime.datetime) (body : string)
    : option AccessEvent :=
  match rmatch _ACCESS_RE body with
  | None => None
  | Some m =>
      let src := group_or_empty m "src" in
      let status := group_or_empty m "status" in
      let dest_raw := group_or_empty m "dest" in
      let detour := Py.strip (group_or_empty m "detour") in
      let tail := Py.strip (group_or_empty m "tail") in
      let '(email, reason) :=
        match search email_re tail with
        | Some (start, em) =>
            let e := Py.strip (group_or_empty em "1") in
            (if Py.truthy e then e else "unknown", Py.strip (Py.take start tail))
        | None => ("unknown", tail)
        end in
      let '(dest_host, dest_port) := _split_host_port dest_raw in
      let is_domain := Py.truthy dest_host && negb (_is_ip dest_host) in
      let confidence := if is_domain then "high" else "low" in
      Some {| a_event_time := event_time;
              user_email := email;
              a_src := src;
              a_dest_raw := dest_raw;
              a_dest_host := dest_host;
              a_dest_port := dest_port;
              status := status;
              detour := detour;
              reason := reason;
              is_domain := is_domain;
              confidence := confidence |}
  end.

Definition _parse_dns (event_time : Datetime.datetime) (body : string)
    : result (option DNSEvent) :=
  match rmatch _DNS_RE body with
  | None => Ok None
  | Some m =>
      let ips_raw := Py.strip (group_or_empty m "ips") in
      let ips := List.filter Py.truthy
                             (List.map Py.strip (Py.split_chr "," ips_raw)) in
      let tail0 := Py.strip (group_or_empty m "tail") in
      let '(error_text, tail) :=
        match search err_re tail0 with
        | Some (_, em) =>
            (Py.strip (group_or_empty em "1"),
             Py.strip (Py.replace (group_or_empty em g0) EmptyString tail0))
        | None => (EmptyString, tail0)
        end in
      match (if Py.truthy tail then _parse_duration_ms tail else Ok None) with
      | Raise e => Raise e
      | Ok elapsed =>
          Ok (Some {| d_event_time := event_time;
                      dns_server := Py.strip (group_or_empty m "server");
                      domain := Py.strip (group_or_empty m "domain");
                      ips_json := ips;
                      dns_status := Py.strip (group_or_empty m "status");
                      elapsed_ms := elapsed;
                      error_text := error_text |})
      end
  end.

Definition parse_line (raw_line : string) : result (option ParsedEvent) :=
  match _parse_timestamp_prefix raw_line with
  | (None, _) => Ok None
  | (Some event_time, body) =>
      let normalized_raw := Py.rstrip_chars (String "013" (String "010" EmptyString)) raw_line in
      let raw_hash := Sha256 normalized_raw in
      match _parse_access event_time body with
      | Some a =>
          Ok (Some {| event_time := event_time; event_type := "access";
                      raw_line := normalized_raw; raw_hash := raw_hash;
                      access := Some a; dns := None |})
      | None =>
          match _parse_dns event_time body with
          | Raise e => Raise e
          | Ok (Some d) =>
              Ok (Some {| event_time := event_time; event_type := "dns";
                          raw_line := normalized_raw; raw_hash := raw_hash;
                          access := None; dns := Some d |})
          | Ok None =>
              Ok (Some {| event_time := event_time; event_type := "unknown";
                          raw_line := normalized_raw; raw_hash := raw_hash;
                          access := None; dns := None |})
          end
      end
  end.

End Parser.

(** ** error_parser.py *)

Module ErrorParser.

Import Re.

Definition component_chr (a : ascii) : bool :=
  Py.isalpha_chr a || Py.isdigit_chr a || Py.mem_chr a "_./-".

(** [_LINE_RE], in [re.VERBOSE] layout:

    [^ (?P<date> \d{4}/\d{2}/\d{2} ) \s+
       (?P<time> \d{2}:\d{2}:\d{2} (?: \. \d{1,6} )? ) \s+
       \[ (?P<level> [A-Za-z]+ ) \] \s+
       (?: (?: \[ (?P<sid> \d+ ) \] ) \s+ )?
       (?: (?P<component> [A-Za-z0-9_./-]+ ) : \s+ )?
       (?P<message> .* ) $] *)
Definition _LINE_RE : regex :=
  Seqs [Bol;
        Grp "date" (Seqs [Times 4 digit; Chr "/"; Times 2 digit; Chr "/"; Times 2 digit]);
        Plus space;
        Grp "time" (Seqs [Times 2 digit; Chr ":"; Times 2 digit; Chr ":"; Times 2 digit;
                          Opt (Seq (Chr ".") (Between 1 6 digit))]);
        Plus space;
        Chr "["; Grp "level" (Plus (Cls Py.isalpha_chr)); Chr "]"; Plus space;
        Opt (Seqs [Chr "["; Grp "sid" (Plus digit); Chr "]"; Plus space]);
        Opt (Seqs [Grp "component" (Plus (Cls component_chr)); Chr ":"; Plus space]);
        Grp "message" (Star dot); Eol].

(** [\bfrom \s+ (?P<src>\S+)] *)
Definition _SRC_RE : regex :=
  Seqs [Wordb; Lit "from"; Plus space; Grp "src" (Plus nonspace)].

(** [\bfor \s+ (?P<dest> (?:tcp|udp) : \S+ )] *)
Definition _DEST_RE : regex :=
  Seqs [Wordb; Lit "for"; Plus space;
        Grp "dest" (Seqs [Alt (Lit "tcp") (Lit "udp"); Chr ":"; Plus nonspace])].

(** [\b (?: \d{1,3} \. ){3} \d{1,3} \b] *)
Definition _IPV4_RE : regex :=
  Seqs [Wordb; Times 3 (Seq (Between 1 3 digit) (Chr ".")); Between 1 3 digit; Wordb].

(** [\b \d+ \b] *)
Definition _DIGITS_RE : regex := Seqs [Wordb; Plus digit; Wordb].

Definition level_rank (level : string) : Z :=
  let key := Py.lower (Py.strip level) in
  if String.eqb key "debug" then 10
  else if String.eqb key "info" then 20
  else if String.eqb key "warning" then 30
  else if String.eqb key "error" then 40
  else if String.eqb key "unknown" then 0
  else 0.

Definition _normalize_level (raw : string) : string :=
  let value := Py.lower (Py.strip raw) in
  if existsb (String.eqb value) ["debug"; "info"; "warning"; "error"]
  then value else "unknown".

Definition _parse_datetime (raw : string) : option Datetime.datetime :=
  match Datetime.strptime Datetime.fmt_micros raw with
  | Some t => Some t
  | None => Datetime.strptime Datetime.fmt_seconds raw
  end.

Definition _classify (component message level : string) : string :=
  let c := Py.lower component in
  let m := Py.lower message in
  if (Py.contains "proxy/vless/encoding" c || Py.contains "proxy/vless/encoding" m)
     && Py.contains "invalid request version" m
  then "probe_invalid_vless"
  else if Py.contains "127.0.0.1" m && Py.contains "detour [api]" m
  then "api_loopback"
  else if Py.contains "dns" c || Py.contains "dns" m
  then (if Py.contains "timeout" m || Py.contains "failed" m || Py.contains "error" m
        then "dns_error" else "dns_info")
  else if Py.contains "timeout" m || Py.contains "deadline exceeded" m
          || Py.contains "i/o timeout" m
  then "network_timeout"
  else if Py.contains "refused" m || Py.contains "connection reset" m
  then "network_refused"
  else if Py.contains "invalid user" m || Py.contains "failed to find user" m
          || Py.contains "unauthorized" m
  then "auth_error"
  else if Py.contains "dispatch" c || Py.contains "dispatcher" c
  then "routing"
  else if String.eqb level "error" then "runtime_error"
  else if String.eqb level "warning" then "runtime_warning"
  else if String.eqb level "debug" then "debug_trace"
  else "runtime_info".

Definition _normalize_message_signature (component message : string) : string :=
  let norm := sub _IPV4_RE "<ip>" message in
  let norm := sub _DIGITS_RE "<num>" norm in
  Py.lower component ++ "|" ++ Py.lower (Py.strip norm).

Definition _is_ip (value : string) : bool := Ipaddress.ip_address_ok value.

Definition _split_host_port (dest : string) : string * option Z :=
  let raw := Parser.strip_scheme (Py.strip dest) in
  let after_bracket :=
    let plain := if _is_ip raw then (raw, None) else (raw, None) in
    if (Py.count_chr ":" raw =? 1)%nat then
      match Py.rsplit1 ":" raw with
      | Some (host, maybe_port) =>
          if Py.isdigit maybe_port then (host, Some (Py.int_of_digits maybe_port))
          else plain
      | None => plain
      end
    else plain in
  if Py.startswith "[" raw then
    match rmatch Parser.bracket_re raw with
    | Some m => (group_or_empty m "1", Parser.opt_port m "2")
    | None => after_bracket
    end
  else after_bracket.

(** [category in {"probe_invalid_vless", "api_loopback", "scan_noise"}] *)
Definition noise_categories : list string :=
  ["probe_invalid_vless"; "api_loopback"; "scan_noise"].

Definition parse_error_line (raw_line : string) : option ParsedErrorEvent :=
  let normalized := Py.rstrip_chars (String "013" (String "010" EmptyString)) raw_line in
  match rmatch _LINE_RE (Py.strip normalized) with
  | None => None
  | Some m =>
      let dt_raw := group_or_empty m "date" ++ " " ++ group_or_empty m "time" in
      match _parse_datetime dt_raw with
      | None => None
      | Some event_time =>
          let level :=
            _normalize_level
              (let l := group_or_empty m "level" in
               if Py.truthy l then l else "unknown") in
          let session_raw := Py.strip (group_or_empty m "sid") in
          let session_id :=
            if Py.isdigit session_raw then Some (Py.int_of_digits session_raw)
            else None in
          let component := Py.strip (group_or_empty m "component") in
          let message := Py.strip (group_or_empty m "message") in
          let src :=
            match search _SRC_RE message with
            | Some (_, sm) => Py.strip (group_or_empty sm "src")
            | None => EmptyString
            end in
          let '(dest_raw, (dest_host, dest_port)) :=
            match search _DEST_RE message with
            | Some (_, dm) =>
                let dest_raw := Py.strip (group_or_empty dm "dest") in
                (dest_raw, _split_host_port dest_raw)
            | None => (EmptyString, (EmptyString, None))
            end in
          let category := _classify component message level in
          let is_noise := existsb (String.eqb category) noise_categories in
          let signature := _normalize_message_signature component message in
          Some {| e_event_time := event_time;
                  level := level;
                  session_id := session_id;
                  component := component;
                  message := message;
                  e_src := src;
                  e_dest_raw := dest_raw;
                  e_dest_host := dest_host;
                  e_dest_port := dest_port;
                  category := category;
                  signature_hash := Sha256 signature;
                  is_noise := is_noise;
                  e_raw_line := normalized;
                  e_raw_hash := Sha256 normalized |}
      end
  end.

End ErrorParser.

(** ** filtering.py *)

Module Filtering.

(** The attributes of [settings] that [should_drop_event] reads; the
    collector passes them in a [SimpleNamespace]. *)
Record FilterSettings : Type := {
  drop_api_to_api : bool;
  drop_loopback_traffic : bool;
  drop_invalid_vless_probe : bool;
  exclude_detours : list string
}.

Definition in_strs (s : string) (l : list string) : bool := existsb (String.eqb s) l.

Definition should_drop_event (ev : ParsedEvent) (settings : FilterSettings) : bool :=
  match access ev with
  | None => false
  | Some a =>
      if drop_api_to_api settings && String.eqb (detour a) "api -> api" then true
      else if negb (Nat.eqb (List.length (exclude_detours settings)) 0)
              && in_strs (detour a) (exclude_detours settings) then true
      else if drop_invalid_vless_probe settings
              && (String.eqb (status a) "rejected"
                  && String.eqb (a_dest_raw a) "proxy/vless/encoding:"
                  && Py.contains "invalid request version" (Py.lower (reason a)))
      then true
      else if drop_loopback_traffic settings then
        let src := Py.lower (a_src a) in
        let dst := Py.lower (a_dest_host a) in
        if Py.startswith "127.0.0.1" src || Py.startswith "[::1]" src
           || Py.startswith "::1" src then true
        else if in_strs dst ["127.0.0.1"; "localhost"; "::1"; "[::1]"] then true
        else false
      else false
  end.

End Filtering.

(** ** tailer.py

    The file system is the part of the operating system the tailer
    observes: a directory entry per path ([os.path.exists], [st_ino]) and
    the bytes of every inode, linked or merely held open.  A read sees the
    current bytes of the inode, lines end at LF, and [tell()] is the byte
    position: what the text mode of Python does on [plain] text, where
    it neither translates a line ending nor holds a byte back, as long
    as the bytes at and after the position of an open handle are only
    appended to, or the handle is new.  The handle of the model has no
    read-ahead buffer: where bytes are rewritten in place under an open
    handle, the handle of Python may still return what it has read
    ahead. *)

Module Tailer.

(** ASCII text without carriage returns *)
Definition plain (data : string) : bool :=
  Py.all_chr (fun a => ((Py.ord a <? 128) && negb (Py.ord a =? 13))%N) data.

Record file_system : Type := {
  dentry : gmap string Z;
  blocks : gmap Z string
}.

Definition content (fs : file_system) (ino : Z) : string :=
  default EmptyString (blocks fs !! ino).

Record stat_result : Type := { st_ino : Z; st_size : Z }.

(** [os.stat(path)]; [None] when [os.path.exists(path)] is false *)
Definition stat (fs : file_system) (path : string) : option stat_result :=
  match dentry fs !! path with
  | Some ino =>
      Some {| st_ino := ino; st_size := Z.of_nat (String.length (content fs ino)) |}
  | None => None
  end.

(** An open file: the inode it was opened on and the position of the next
    read. *)
Record handle : Type := { h_ino : Z; h_pos : Z }.

Record LogTailer : Type := {
  path : string;
  _fh : option handle;
  _inode : option Z;
  _offset : Z
}.

(** [LogTailer(path)] *)
Definition init (path : string) : LogTailer :=
  {| path := path; _fh := None; _inode := None; _offset := 0 |}.

Definition set_state (t : LogTailer) (inode : option Z) (offset : Z) : LogTailer :=
  {| path := path t; _fh := _fh t; _inode := inode; _offset := Z.max 0 offset |}.

Definition state (t : LogTailer) : option Z * Z := (_inode t, _offset t).

Definition close (t : LogTailer) : LogTailer :=
  {| path := path t; _fh := None; _inode := _inode t; _offset := _offset t |}.

Definition _open (fs : file_system) (t : LogTailer) : bool * LogTailer :=
  match stat fs (path t) with
  | None => (false, t)
  | Some st =>
      let offset := if st_size st <? _offset t then 0 else _offset t in
      (true, {| path := path t;
                _fh := Some {| h_ino := st_ino st; h_pos := offset |};
                _inode := Some (st_ino st);
                _offset := offset |})
  end.

Definition _ensure_open (fs : file_system) (t : LogTailer) : bool * LogTailer :=
  match _fh t with
  | Some _ => (true, t)
  | None => _open fs t
  end.

Definition _check_rotation_or_truncate (fs : file_system) (t : LogTailer) : LogTailer :=
  match stat fs (path t) with
  | None => t
  | Some st =>
      let rotated :=
        match _inode t with
        | Some i => negb (st_ino st =? i)
        | None => false
        end in
      if rotated then
        snd (_open fs {| path := path t; _fh := None; _inode := _inode t; _offset := 0 |})
      else
        match _fh t with
        | Some h =>
            if st_size st <? _offset t
            then {| path := path t; _fh := Some {| h_ino := h_ino h; h_pos := 0 |};
                    _inode := _inode t; _offset := 0 |}
            else t
        | None => t
        end
  end.

(** The text up to and including the first LF *)
Fixpoint first_line (s : string) : string :=
  match s with
  | EmptyString => EmptyString
  | String a s' =>
      if Ascii.eqb a "010" then String a EmptyString else String a (first_line s')
  end.

(** [fh.readline()]: the line and the handle after it *)
Definition readline (fs : file_system) (h : handle) : string * handle :=
  let line := first_line (Py.drop (Z.to_nat (h_pos h)) (content fs (h_ino h))) in
  (line, {| h_ino := h_ino h; h_pos := h_pos h + Z.of_nat (String.length line) |}).

(** The [while len(out) < max_lines] loop, [n] lines still allowed *)
Fixpoint read_loop (fs : file_system) (n : nat) (h : handle) (offset : Z)
    : list string * handle * Z :=
  match n with
  | O => ([], h, offset)
  | S n' =>
      let '(line, h') := readline fs h in
      if Py.truthy line then
        let '(out, h'', offset') := read_loop fs n' h' (h_pos h') in
        (line :: out, h'', offset')
      else ([], h, offset)
  end.

Definition read_new_lines (fs : file_system) (t : LogTailer) (max_lines : Z)
    : list string * LogTailer :=
  match _ensure_open fs t with
  | (false, _) => ([], t)
  | (true, t1) =>
      match _fh t1 with
      | None => ([], t1)
      | Some h =>
          let '(out, h', offset') := read_loop fs (Z.to_nat max_lines) h (_offset t1) in
          let t2 := {| path := path t1; _fh := Some h'; _inode := _inode t1;
                       _offset := offset' |} in
          match out with
          | [] => ([], _check_rotation_or_truncate fs t2)
          | _ :: _ => (out, t2)
          end
      end
  end.

(** *** What the environment does to a log file *)

(** [open(path, "w").write(data)]: truncate in place, or create on a fresh
    inode [ino] *)
Definition write_text (fs : file_system) (path : string) (ino : Z) (data : string)
    : file_system :=
  match dentry fs !! path with
  | Some i => {| dentry := dentry fs; blocks := <[i := data]> (blocks fs) |}
  | None => {| dentry := <[path := ino]> (dentry fs);
               blocks := <[ino := data]> (blocks fs) |}
  end.

(** [open(path, "a").write(data)] on an existing file *)
Definition append (fs : file_system) (path : string) (data : string) : file_system :=
  match dentry fs !! path with
  | Some i => {| dentry := dentry fs;
                 blocks := <[i := content fs i ++ data]> (blocks fs) |}
  | None => fs
  end.

(** Rotation by rename: the path now names a new inode [ino] holding
    [data]; the old inode keeps its bytes for whoever has it open. *)
Definition rotate (fs : file_system) (path : string) (ino : Z) (data : string)
    : file_system :=
  {| dentry := <[path := ino]> (dentry fs); blocks := <[ino := data]> (blocks fs) |}.

Definition empty_fs : file_system := {| dentry := ∅; blocks := ∅ |}.

End Tailer.

(** ** Effects

    Effectful code runs in a state monad with an explicit outcome: a value,
    or a raised exception. *)

Definition M (S A : Type) : Type := S -> result A * S.

Definition ret {S A : Type} (a : A) : M S A := fun s => (Ok a, s).

Definition raise {S A : Type} (e : exn) : M S A := fun s => (Raise e, s).

Definition bind {S A B : Type} (m : M S A) (k : A -> M S B) : M S B :=
  fun s =>
    match m s with
    | (Ok a, s') => k a s'
    | (Raise e, s') => (Raise e, s')
    end.

Definition get {S : Type} : M S S := fun s => (Ok s, s).

Definition put {S : Type} (s : S) : M S unit := fun _ => (Ok tt, s).

Definition modify {S : Type} (f : S -> S) : M S unit := fun s => (Ok tt, f s).

Notation "'let*' x ':=' m 'in' k" := (bind m (fun x => k))
  (at level 10, x pattern, m at level 100, k at level 200).

Notation "m ';;' k" := (bind m (fun _ => k))
  (at level 100, k at level 200, right associativity).

(** Run [m] on a component of the state. *)
Definition zoom {S T A : Type} (proj : S -> T) (inj : T -> S -> S) (m : M T A)
    : M S A :=
  fun s => let '(r, t) := m (proj s) in (r, inj t s).

(** ** storage.py

    Each table is a finite map on its unique key.  The wall-clock columns
    ([ingested_at], [updated_at], [changed_at]) are left out.  A call to
    MySQL either commits its transaction as a whole or raises and leaves
    the tables as they were; which of the two is decided by the next entry
    of [faults].  The [journal] lists the committed transactions, oldest
    first. *)

Module Storage.

Definition digest_key (h : hexdigest) : string :=
  match h with Sha256 s => s end.

Record raw_row : Type := {
  rr_id : Z;
  rr_event_time : Datetime.datetime;
  rr_event_type : string;
  rr_raw_line : string;
  rr_raw_hash : hexdigest;
  rr_node_id : string
}.

(** The values a configuration entry can take: what [json.loads] yields. *)
Inductive pyval : Type :=
| PNone
| PBool (b : bool)
| PInt (z : Z)
| PFloat (x : spec_float)
| PStr (s : string)
| PList (l : list pyval)
| PDict (l : list (string * pyval)).

(** [value_json] holds [json.dumps(value)]; the model keeps the value. *)
Record config_row : Type := {
  value_json : pyval;
  value_type : string;
  scope : string;
  updated_by : string
}.

Record history_row : Type := {
  h_config_key : string;
  old_value_json : option pyval;
  new_value_json : pyval;
  changed_by : string;
  source_ip : string
}.

Record database : Type := {
  audit_raw_events : gmap string raw_row;
  auto_increment : Z;
  audit_access_events : gmap Z AccessEvent;
  audit_dns_events : gmap Z DNSEvent;
  audit_error_events : gmap string (ParsedErrorEvent * string);
  collector_state : gmap string (option Z * Z);
  audit_runtime_config : gmap string config_row;
  audit_runtime_config_history : list history_row
}.

Definition empty_db : database :=
  {| audit_raw_events := ∅; auto_increment := 1;
     audit_access_events := ∅; audit_dns_events := ∅;
     audit_error_events := ∅; collector_state := ∅;
     audit_runtime_config := ∅; audit_runtime_config_history := [] |}.

Inductive commit : Type :=
| CommitEvents (events : list ParsedEvent)
| CommitErrorEvents (events : list ParsedErrorEvent)
| CommitState (file_path : string) (inode : option Z) (offset : Z)
| CommitConfig (keys : list string).

Record mysql : Type := {
  tables : database;
  journal : list commit;
  faults : list bool
}.

(** One transaction: [f] computes the new tables and the value returned. *)
Definition transaction {A : Type} (f : database -> database * A) (c : commit)
    : M mysql A :=
  fun s =>
    match faults s with
    | true :: rest =>
        (Raise DatabaseError,
         {| tables := tables s; journal := journal s; faults := rest |})
    | _ =>
        let '(d, a) := f (tables s) in
        (Ok a, {| tables := d; journal := (journal s ++ [c])%list;
                  faults := List.tl (faults s) |})
    end.

(** A [SELECT]: it may raise, it changes nothing. *)
Definition query {A : Type} (f : database -> A) : M mysql A :=
  fun s =>
    match faults s with
    | true :: rest =>
        (Raise DatabaseError,
         {| tables := tables s; journal := journal s; faults := rest |})
    | _ =>
        (Ok (f (tables s)),
         {| tables := tables s; journal := journal s; faults := List.tl (faults s) |})
    end.

Definition load_state (file_path : string) : M mysql (option Z * Z) :=
  query (fun d =>
    match collector_state d !! file_path with
    | Some row => row
    | None => (None, 0)
    end).

Definition set_collector_state (file_path : string) (inode : option Z) (offset : Z)
    (d : database) : database :=
  {| audit_raw_events := audit_raw_events d;
     auto_increment := auto_increment d;
     audit_access_events := audit_access_events d;
     audit_dns_events := audit_dns_events d;
     audit_error_events := audit_error_events d;
     collector_state := <[file_path := (inode, offset)]> (collector_state d);
     audit_runtime_config := audit_runtime_config d;
     audit_runtime_config_history := audit_runtime_config_history d |}.

Definition save_state (file_path : string) (inode : option Z) (offset : Z)
    : M mysql unit :=
  transaction (fun d => (set_collector_state file_path inode offset d, tt))
              (CommitState file_path inode offset).

(** [ON DUPLICATE KEY UPDATE] of the child rows and of the error rows
    lists every column but [event_time]: the row that was there keeps
    its time. *)
Definition keep_access_time (old : option AccessEvent) (a : AccessEvent)
    : AccessEvent :=
  match old with
  | Some o =>
      {| a_event_time := a_event_time o; user_email := user_email a;
         a_src := a_src a; a_dest_raw := a_dest_raw a;
         a_dest_host := a_dest_host a; a_dest_port := a_dest_port a;
         status := status a; detour := detour a; reason := reason a;
         is_domain := is_domain a; confidence := confidence a |}
  | None => a
  end.

Definition keep_dns_time (old : option DNSEvent) (x : DNSEvent) : DNSEvent :=
  match old with
  | Some o =>
      {| d_event_time := d_event_time o; dns_server := dns_server x;
         domain := domain x; ips_json := ips_json x;
         dns_status := dns_status x; elapsed_ms := elapsed_ms x;
         error_text := error_text x |}
  | None => x
  end.

Definition keep_error_time (old : ParsedErrorEvent) (ev : ParsedErrorEvent)
    : ParsedErrorEvent :=
  {| e_event_time := e_event_time old; level := level ev;
     session_id := session_id ev; component := component ev;
     message := message ev; e_src := e_src ev; e_dest_raw := e_dest_raw ev;
     e_dest_host := e_dest_host ev; e_dest_port := e_dest_port ev;
     category := category ev; signature_hash := signature_hash ev;
     is_noise := is_noise ev; e_raw_line := e_raw_line ev;
     e_raw_hash := e_raw_hash old |}.

(** The statements [ingest_events] runs for one event: the upsert of the
    raw row on [raw_hash], which yields its id and on a duplicate updates
    [raw_line] only, then the upsert of the child row on [raw_event_id]. *)
Definition ingest_event (node_id : string) (d : database) (ev : ParsedEvent)
    : database :=
  let key := digest_key (raw_hash ev) in
  let '(raw_id, next) :=
    match audit_raw_events d !! key with
    | Some row => (rr_id row, auto_increment d)
    | None => (auto_increment d, auto_increment d + 1)
    end in
  let row :=
    match audit_raw_events d !! key with
    | Some old =>
        {| rr_id := rr_id old; rr_event_time := rr_event_time old;
           rr_event_type := rr_event_type old; rr_raw_line := raw_line ev;
           rr_raw_hash := rr_raw_hash old; rr_node_id := rr_node_id old |}
    | None =>
        {| rr_id := raw_id; rr_event_time := event_time ev;
           rr_event_type := event_type ev; rr_raw_line := raw_line ev;
           rr_raw_hash := raw_hash ev; rr_node_id := node_id |}
    end in
  {| audit_raw_events := <[key := row]> (audit_raw_events d);
     auto_increment := next;
     audit_access_events :=
       match access ev with
       | Some a =>
           <[raw_id := keep_access_time (audit_access_events d !! raw_id) a]>
             (audit_access_events d)
       | None => audit_access_events d
       end;
     audit_dns_events :=
       match access ev, dns ev with
       | None, Some x =>
           <[raw_id := keep_dns_time (audit_dns_events d !! raw_id) x]>
             (audit_dns_events d)
       | _, _ => audit_dns_events d
       end;
     audit_error_events := audit_error_events d;
     collector_state := collector_state d;
     audit_runtime_config := audit_runtime_config d;
     audit_runtime_config_history := audit_runtime_config_history d |}.

Record counts : Type := { c_raw : Z; c_access : Z; c_dns : Z }.

Definition count_events (events : list ParsedEvent) : counts :=
  {| c_raw := Z.of_nat (List.length events);
     c_access := Z.of_nat (List.length (List.filter (fun ev => bool_decide (is_Some (access ev))) events));
     c_dns := Z.of_nat (List.length (List.filter
                (fun ev => bool_decide (access ev = None ∧ is_Some (dns ev))) events)) |}.

Definition ingest_events (events : list ParsedEvent) (node_id : string)
    : M mysql counts :=
  match events with
  | [] => ret {| c_raw := 0; c_access := 0; c_dns := 0 |}
  | _ :: _ =>
      transaction
        (fun d => (List.fold_left (ingest_event node_id) events d, count_events events))
        (CommitEvents events)
  end.

(** The upsert of an error row on [raw_hash].  On a duplicate the row
    keeps its [event_time], [raw_hash] and [node_id]; the statement also
    sets [ingested_at] to the time of the server, a column that is not
    part of the model: the rows of the model are the rows of the table
    without [id] and [ingested_at]. *)
Definition ingest_error_event (node_id : string) (d : database)
    (ev : ParsedErrorEvent) : database :=
  {| audit_raw_events := audit_raw_events d;
     auto_increment := auto_increment d;
     audit_access_events := audit_access_events d;
     audit_dns_events := audit_dns_events d;
     audit_error_events :=
       <[digest_key (e_raw_hash ev) :=
           match audit_error_events d !! digest_key (e_raw_hash ev) with
           | Some (old, node) => (keep_error_time old ev, node)
           | None => (ev, node_id)
           end]> (audit_error_events d);
     collector_state := collector_state d;
     audit_runtime_config := audit_runtime_config d;
     audit_runtime_config_history := audit_runtime_config_history d |}.

Definition ingest_error_events (events : list ParsedErrorEvent) (node_id : string)
    : M mysql Z :=
  match events with
  | [] => ret 0
  | _ :: _ =>
      transaction
        (fun d => (List.fold_left (ingest_error_event node_id) events d,
                   Z.of_nat (List.length events)))
        (CommitErrorEvents events)
  end.

(** [type(value).__name__] *)
Definition type_name (v : pyval) : string :=
  match v with
  | PNone => "NoneType"
  | PBool _ => "bool"
  | PInt _ => "int"
  | PFloat _ => "float"
  | PStr _ => "str"
  | PList _ => "list"
  | PDict _ => "dict"
  end.

Definition upsert_config (changed_by source_ip : string) (d : database)
    (kv : string * pyval) : database :=
  let '(key, value) := kv in
  let old_json := value_json <$> (audit_runtime_config d !! key) in
  {| audit_raw_events := audit_raw_events d;
     auto_increment := auto_increment d;
     audit_access_events := audit_access_events d;
     audit_dns_events := audit_dns_events d;
     audit_error_events := audit_error_events d;
     collector_state := collector_state d;
     audit_runtime_config :=
       <[key := {| value_json := value; value_type := type_name value;
                   scope := "runtime"; updated_by := changed_by |}]>
         (audit_runtime_config d);
     audit_runtime_config_history :=
       (audit_runtime_config_history d ++
        [{| h_config_key := key; old_value_json := old_json;
            new_value_json := value; changed_by := changed_by;
            source_ip := source_ip |}])%list |}.

Definition runtime_config_upsert (values : list (string * pyval))
    (changed_by source_ip : string) : M mysql unit :=
  match values with
  | [] => ret tt
  | _ :: _ =>
      transaction
        (fun d => (List.fold_left (upsert_config changed_by source_ip) values d, tt))
        (CommitConfig (List.map fst values))
  end.

(** [runtime_config_all]: the rows in the order of their keys *)
Definition runtime_config_all : M mysql (list (string * config_row)) :=
  query (fun d => map_to_list (audit_runtime_config d)).

End Storage.

(** ** runtime_config.py *)

Module RuntimeConfig.

Import Storage.

Record RuntimeConfigField : Type := {
  config_key : string;
  group : string;
  label : string;
  description : string;
  field_type : string;
  min_value : option spec_float;
  max_value : option spec_float;
  options : option (list string)
}.

Definition fld (key group label description value_type : string)
    (lo hi : option spec_float) (opts : option (list string)) : RuntimeConfigField :=
  {| config_key := key; group := group; label := label;
     description := description; field_type := value_type;
     min_value := lo; max_value := hi; options := opts |}.

(** The bounds of the source: an integer literal, which Python compares
    with a float exactly (these are small enough to be floats), or a
    decimal literal. *)
Definition num (z : Z) : option spec_float := Some (Float.of_int z).
Definition dec (n : Z) (d : positive) : option spec_float := Some (Float.of_ratio n d).

(** The dictionary [EDITABLE_FIELDS], in the order of the source *)
Definition EDITABLE_FIELDS : list RuntimeConfigField :=
  [ fld "AUDIT_BATCH_SIZE" "collector" "Batch Size"
        "Maximum parsed rows buffered before flush." "int" (num 1) (num 20000) None;
    fld "AUDIT_FLUSH_INTERVAL_SECONDS" "collector" "Flush Interval Seconds"
        "Maximum flush interval even if batch is not full." "float"
        (dec 1 10) (num 30) None;
    fld "AUDIT_POLL_INTERVAL_SECONDS" "collector" "Poll Interval Seconds"
        "Tailer sleep interval when no new lines." "float" (dec 5 100) (num 10) None;
    fld "AUDIT_ERROR_MIN_LEVEL" "filter" "Error Min Level"
        "Minimum level to ingest from error log." "enum" None None
        (Some ["debug"; "info"; "warning"; "error"]);
    fld "AUDIT_ERROR_DROP_NOISE" "filter" "Drop Error Noise"
        "Drop known noisy error categories at collector side." "bool" None None None;
    fld "AUDIT_DROP_API_TO_API" "filter" "Drop API->API"
        "Drop access events with detour exactly 'api -> api'." "bool" None None None;
    fld "AUDIT_DROP_LOOPBACK_TRAFFIC" "filter" "Drop Loopback Traffic"
        "Drop loopback source/destination access traffic." "bool" None None None;
    fld "AUDIT_DROP_INVALID_VLESS_PROBE" "filter" "Drop Invalid VLESS Probe"
        "Drop rejected invalid-request-version VLESS probe noise." "bool" None None None;
    fld "AUDIT_EXCLUDE_DETOURS" "filter" "Exclude Detours"
        "Comma separated detours to drop." "csv" None None None;
    fld "AUDIT_RETENTION_DAYS" "retention" "Retention Days"
        "Keep at most this many days in audit tables." "int" (num 1) (num 3650) None;
    fld "AUDIT_RETENTION_CLEANUP_INTERVAL_SECONDS" "retention"
        "Retention Cleanup Interval Seconds"
        "How often retention cleanup job runs." "int" (num 60) (num 86400) None;
    fld "AUDIT_RETENTION_DELETE_BATCH_SIZE" "retention" "Retention Delete Batch Size"
        "Rows deleted per retention SQL batch." "int" (num 100) (num 200000) None;
    fld "AUDIT_GEOIP_ENABLED" "geoip" "GeoIP Enabled"
        "Enable remote GeoIP lookups for source IP." "bool" None None None;
    fld "AUDIT_GEOIP_TIMEOUT_SECONDS" "geoip" "GeoIP Timeout Seconds"
        "HTTP timeout for GeoIP provider requests." "float" (dec 1 2) (num 30) None;
    fld "AUDIT_GEOIP_CACHE_TTL_HOURS" "geoip" "GeoIP Cache TTL Hours"
        "Cache time for IP geo results in DB." "int" (num 1) (num 8760) None;
    fld "AUDIT_GEOIP_BATCH_LIMIT" "geoip" "GeoIP Batch Limit"
        "Maximum IP count allowed in one batch API call." "int" (num 1) (num 2000) None;
    fld "AUDIT_REDIS_ENABLED" "cache" "Redis Enabled"
        "Enable redis-backed realtime cache paths." "bool" None None None;
    fld "AUDIT_AI_SUMMARY_ENABLED" "collector" "AI Summary Enabled"
        "Toggle AI summary worker loop without restart." "bool" None None None;
    fld "AUDIT_AI_SUMMARY_INTERVAL_SECONDS" "collector" "AI Summary Interval Seconds"
        "Polling interval for AI summary worker." "int" (num 10) (num 86400) None;
    fld "AUDIT_AI_SUMMARY_WINDOW_MINUTES" "collector" "AI Summary Window Minutes"
        "Window size for AI summary payload." "int" (num 1) (num 1440) None;
    fld "AUDIT_AI_SUMMARY_MAX_ITEMS" "collector" "AI Summary Max Items"
        "Maximum aggregated rows passed to LLM summary." "int" (num 20) (num 5000) None ].

(** [EDITABLE_FIELDS[key]]; [None] when [key not in EDITABLE_FIELDS] *)
Definition editable_field (key : string) : option RuntimeConfigField :=
  List.find (fun f => String.eqb (config_key f) key) EDITABLE_FIELDS.

(** [str(z)] *)
Definition str_of_int (z : Z) : string := NilZero.string_of_int (Z.to_int z).

(** [float(z)] raises [OverflowError] when [z] rounds to [2^1024] or
    beyond. *)
Definition float_of_int (z : Z) : result spec_float :=
  match Float.of_int z with
  | S754_infinity _ => Raise OverflowError
  | x => Ok x
  end.

(** [x != 0] *)
Definition float_nonzero (x : spec_float) : bool :=
  match x with
  | S754_zero _ => false
  | _ => true
  end.

(** [int(s)] for a string: optional sign, decimal digits, single
    underscores between digits, white space around; [None] for
    [ValueError]. *)
Definition int_of_str (s : string) : option Z :=
  let t := Py.strip s in
  let '(negative, body) :=
    match t with
    | String "-" r => (true, r)
    | String "+" r => (false, r)
    | _ => (false, t)
    end in
  let parts := Py.split_chr "_" body in
  if forallb Py.isdigit parts
  then let v := Py.int_of_digits (Py.join EmptyString parts) in
       Some (if negative then - v else v)
  else None.

Definition _check_range (field : RuntimeConfigField) (value : spec_float) : result unit :=
  match min_value field with
  | Some lo => if SFltb value lo then Raise ValueError else
      match max_value field with
      | Some hi => if SFltb hi value then Raise ValueError else Ok tt
      | None => Ok tt
      end
  | None =>
      match max_value field with
      | Some hi => if SFltb hi value then Raise ValueError else Ok tt
      | None => Ok tt
      end
  end.

Section Builtins.

(** Two builtins of Python are parameters of the model: [repr] of a float,
    a list or a dictionary, and [float] of a string ([None] for
    [ValueError]). *)
Variable py_repr : pyval -> string.
Variable float_of_str : string -> option spec_float.

(** [str(raw)] *)
Definition py_str (raw : pyval) : string :=
  match raw with
  | PNone => "None"
  | PBool true => "True"
  | PBool false => "False"
  | PInt z => str_of_int z
  | PStr s => s
  | _ => py_repr raw
  end.

(** [int(raw)] inside its [try]: [None] when it raises *)
Definition py_int (raw : pyval) : option Z :=
  match raw with
  | PBool b => Some (if b then 1 else 0)
  | PInt z => Some z
  | PFloat x => match Float.to_int x with Ok n => Some n | Raise _ => None end
  | PStr s => int_of_str s
  | _ => None
  end.

(** [float(raw)] inside its [try]: [None] when it raises *)
Definition py_float (raw : pyval) : option spec_float :=
  match raw with
  | PBool b => Some (Float.of_int (if b then 1 else 0))
  | PInt z => match float_of_int z with Ok x => Some x | Raise _ => None end
  | PFloat x => Some x
  | PStr s => float_of_str s
  | _ => None
  end.

Definition in_strs (s : string) (l : list string) : bool := existsb (String.eqb s) l.

Definition _normalize_value (field : RuntimeConfigField) (raw : pyval) : result pyval :=
  if String.eqb (field_type field) "bool" then
    match raw with
    | PBool b => Ok (PBool b)
    | PInt z => Ok (PBool (negb (z =? 0)))
    | PFloat x => Ok (PBool (float_nonzero x))
    | _ =>
        let txt := Py.lower (Py.strip (py_str raw)) in
        if in_strs txt ["1"; "true"; "yes"; "on"] then Ok (PBool true)
        else if in_strs txt ["0"; "false"; "no"; "off"] then Ok (PBool false)
        else Raise ValueError
    end
  else if String.eqb (field_type field) "int" then
    match py_int raw with
    | None => Raise ValueError
    | Some value =>
        match float_of_int value with
        | Raise e => Raise e
        | Ok x =>
            match _check_range field x with
            | Raise e => Raise e
            | Ok _ => Ok (PInt value)
            end
        end
    end
  else if String.eqb (field_type field) "float" then
    match py_float raw with
    | None => Raise ValueError
    | Some value =>
        match _check_range field value with
        | Raise e => Raise e
        | Ok _ => Ok (PFloat value)
        end
    end
  else if String.eqb (field_type field) "enum" then
    let value := Py.lower (Py.strip (py_str raw)) in
    if in_strs value (default [] (options field)) then Ok (PStr value)
    else Raise ValueError
  else if String.eqb (field_type field) "csv" then
    match raw with
    | PList l =>
        Ok (PStr (Py.join "," (List.filter Py.truthy
                                 (List.map (fun x => Py.strip (py_str x)) l))))
    | _ =>
        Ok (PStr (Py.join "," (List.filter Py.truthy
                                 (List.map Py.strip (Py.split_chr "," (py_str raw))))))
    end
  else Ok (PStr (py_str raw)).

(** [d[key] = value] on a dictionary kept in insertion order *)
Fixpoint dict_set (d : list (string * pyval)) (key : string) (value : pyval)
    : list (string * pyval) :=
  match d with
  | [] => [(key, value)]
  | (k, v) :: d' =>
      if String.eqb k key then (k, value) :: d' else (k, v) :: dict_set d' key value
  end.

(** The validation loop of [update_items] *)
Fixpoint normalize_items (values normalized : list (string * pyval))
    : result (list (string * pyval)) :=
  match values with
  | [] => Ok normalized
  | (key, raw_value) :: rest =>
      match editable_field key with
      | None => Raise ValueError
      | Some field =>
          match _normalize_value field raw_value with
          | Raise e => Raise e
          | Ok v => normalize_items rest (dict_set normalized key v)
          end
      end
  end.

Record RuntimeConfigManager : Type := {
  _defaults : list (string * pyval);
  _overrides : gmap string pyval;
  _override_meta : gmap string string
}.

Record env : Type := { conn : mysql; manager : RuntimeConfigManager }.

Definition with_conn {A : Type} (m : M mysql A) : M env A :=
  zoom conn (fun c e => {| conn := c; manager := manager e |}) m.

(** The body of the loop of [refresh] over the rows read *)
Definition refresh_row (acc : gmap string pyval * gmap string string)
    (row : string * config_row) : gmap string pyval * gmap string string :=
  let '(key, r) := row in
  match editable_field key with
  | None => acc
  | Some field =>
      match _normalize_value field (value_json r) with
      | Raise _ => acc
      | Ok value => (<[key := value]> (fst acc), <[key := updated_by r]> (snd acc))
      end
  end.

(** [refresh(force=True)] *)
Definition refresh_force : M env unit :=
  let* rows := with_conn runtime_config_all in
  let '(overrides, meta) := List.fold_left refresh_row rows (∅, ∅) in
  modify (fun e =>
    {| conn := conn e;
       manager := {| _defaults := _defaults (manager e);
                     _overrides := overrides;
                     _override_meta := meta |} |}).

Record item : Type := {
  i_config_key : string;
  i_value : option pyval;
  i_source : string;
  i_updated_by : option string
}.

Fixpoint dict_get (d : list (string * pyval)) (key : string) : option pyval :=
  match d with
  | [] => None
  | (k, v) :: d' => if String.eqb k key then Some v else dict_get d' key
  end.

(** [current_items], once the cache has been refreshed *)
Definition current_items (m : RuntimeConfigManager) : list item :=
  List.map (fun f =>
    let key := config_key f in
    match _overrides m !! key with
    | Some v => {| i_config_key := key; i_value := Some v; i_source := "db";
                   i_updated_by := _override_meta m !! key |}
    | None => {| i_config_key := key; i_value := dict_get (_defaults m) key;
                 i_source := "env"; i_updated_by := None |}
    end) EDITABLE_FIELDS.

(** [update_items(values, changed_by, source_ip)] for a dictionary
    [values], given by its items *)
Definition update_items (values : list (string * pyval)) (changed_by source_ip : string)
    : M env (list item) :=
  match normalize_items values [] with
  | Raise e => raise e
  | Ok normalized =>
      with_conn (runtime_config_upsert normalized changed_by source_ip) ;;
      refresh_force ;;
      let* e := get in
      ret (current_items (manager e))
  end.

End Builtins.

End RuntimeConfig.

(** ** collector.py

    One iteration of [run_forever] is a function of the values the
    iteration reads from the runtime configuration ([Knobs]) and of the
    monotonic clock.  The reads themselves, by which the manager of
    the runtime configuration refreshes its cache from MySQL when the
    cache is older than its time to live, are taken to succeed: a read
    that raises, in the try block or in the handler of the loop, where
    it ends [run_forever], is no outcome of the model.  The wall-clock
    fields of the statistics are left out.  A call to Redis may raise
    and has no other effect on the state modelled.  The retention step
    is kept as a call that may raise; its deletions are not modelled. *)

Module Collector.

Import Storage Tailer.

Record Settings : Type := {
  node_id : string;
  log_path : string;
  error_log_path : string;
  error_log_enabled : bool;
  redis_enabled : bool
}.

Record CollectorStats : Type := {
  lines_read_total : Z;
  parse_fail_total : Z;
  filtered_total : Z;
  error_lines_read_total : Z;
  error_parse_fail_total : Z;
  error_filtered_total : Z;
  batches_flushed : Z;
  raw_written_total : Z;
  access_written_total : Z;
  dns_written_total : Z;
  error_written_total : Z;
  db_write_fail_total : Z;
  last_event_time : option Datetime.datetime;
  last_error_event_time : option Datetime.datetime;
  last_error : option exn;
  inode : option Z;
  offset : Z;
  error_inode : option Z;
  error_offset : Z
}.

Definition initial_stats : CollectorStats :=
  {| lines_read_total := 0; parse_fail_total := 0; filtered_total := 0;
     error_lines_read_total := 0; error_parse_fail_total := 0;
     error_filtered_total := 0; batches_flushed := 0; raw_written_total := 0;
     access_written_total := 0; dns_written_total := 0; error_written_total := 0;
     db_write_fail_total := 0; last_event_time := None;
     last_error_event_time := None; last_error := None;
     inode := None; offset := 0; error_inode := None; error_offset := 0 |}.

(** The counters of the access side: lines read, parse failures, lines
    filtered, and the time of the last event kept *)
Definition count_access (dl dp df : Z) (t : option Datetime.datetime)
    (s : CollectorStats) : CollectorStats :=
  {| lines_read_total := lines_read_total s + dl;
     parse_fail_total := parse_fail_total s + dp;
     filtered_total := filtered_total s + df;
     error_lines_read_total := error_lines_read_total s;
     error_parse_fail_total := error_parse_fail_total s;
     error_filtered_total := error_filtered_total s;
     batches_flushed := batches_flushed s;
     raw_written_total := raw_written_total s;
     access_written_total := access_written_total s;
     dns_written_total := dns_written_total s;
     error_written_total := error_written_total s;
     db_write_fail_total := db_write_fail_total s;
     last_event_time := match t with Some _ => t | None => last_event_time s end;
     last_error_event_time := last_error_event_time s;
     last_error := last_error s;
     inode := inode s; offset := offset s;
     error_inode := error_inode s; error_offset := error_offset s |}.

Definition count_error (dl dp df : Z) (t : option Datetime.datetime)
    (s : CollectorStats) : CollectorStats :=
  {| lines_read_total := lines_read_total s;
     parse_fail_total := parse_fail_total s;
     filtered_total := filtered_total s;
     error_lines_read_total := error_lines_read_total s + dl;
     error_parse_fail_total := error_parse_fail_total s + dp;
     error_filtered_total := error_filtered_total s + df;
     batches_flushed := batches_flushed s;
     raw_written_total := raw_written_total s;
     access_written_total := access_written_total s;
     dns_written_total := dns_written_total s;
     error_written_total := error_written_total s;
     db_write_fail_total := db_write_fail_total s;
     last_event_time := last_event_time s;
     last_error_event_time :=
       match t with Some _ => t | None => last_error_event_time s end;
     last_error := last_error s;
     inode := inode s; offset := offset s;
     error_inode := error_inode s; error_offset := error_offset s |}.

(** [stats.inode, stats.offset = tailer.state()] *)
Definition note_state (st : option Z * Z) (s : CollectorStats) : CollectorStats :=
  {| lines_read_total := lines_read_total s;
     parse_fail_total := parse_fail_total s;
     filtered_total := filtered_total s;
     error_lines_read_total := error_lines_read_total s;
     error_parse_fail_total := error_parse_fail_total s;
     error_filtered_total := error_filtered_total s;
     batches_flushed := batches_flushed s;
     raw_written_total := raw_written_total s;
     access_written_total := access_written_total s;
     dns_written_total := dns_written_total s;
     error_written_total := error_written_total s;
     db_write_fail_total := db_write_fail_total s;
     last_event_time := last_event_time s;
     last_error_event_time := last_error_event_time s;
     last_error := last_error s;
     inode := fst st; offset := snd st;
     error_inode := error_inode s; error_offset := error_offset s |}.

Definition note_error_state (st : option Z * Z) (s : CollectorStats) : CollectorStats :=
  {| lines_read_total := lines_read_total s;
     parse_fail_total := parse_fail_total s;
     filtered_total := filtered_total s;
     error_lines_read_total := error_lines_read_total s;
     error_parse_fail_total := error_parse_fail_total s;
     error_filtered_total := error_filtered_total s;
     batches_flushed := batches_flushed s;
     raw_written_total := raw_written_total s;
     access_written_total := access_written_total s;
     dns_written_total := dns_written_total s;
     error_written_total := error_written_total s;
     db_write_fail_total := db_write_fail_total s;
     last_event_time := last_event_time s;
     last_error_event_time := last_error_event_time s;
     last_error := last_error s;
     inode := inode s; offset := offset s;
     error_inode := fst st; error_offset := snd st |}.

(** The block of [_flush] under the lock *)
Definition note_flush (c : counts) (error_written : Z) (st est : option Z * Z)
    (s : CollectorStats) : CollectorStats :=
  {| lines_read_total := lines_read_total s;
     parse_fail_total := parse_fail_total s;
     filtered_total := filtered_total s;
     error_lines_read_total := error_lines_read_total s;
     error_parse_fail_total := error_parse_fail_total s;
     error_filtered_total := error_filtered_total s;
     batches_flushed := batches_flushed s + 1;
     raw_written_total := raw_written_total s + c_raw c;
     access_written_total := access_written_total s + c_access c;
     dns_written_total := dns_written_total s + c_dns c;
     error_written_total := error_written_total s + error_written;
     db_write_fail_total := db_write_fail_total s;
     last_event_time := last_event_time s;
     last_error_event_time := last_error_event_time s;
     last_error := None;
     inode := fst st; offset := snd st;
     error_inode := fst est; error_offset := snd est |}.

(** The handler of the loop: one more failure, [_set_error(err)] *)
Definition note_failure (e : exn) (s : CollectorStats) : CollectorStats :=
  {| lines_read_total := lines_read_total s;
     parse_fail_total := parse_fail_total s;
     filtered_total := filtered_total s;
     error_lines_read_total := error_lines_read_total s;
     error_parse_fail_total := error_parse_fail_total s;
     error_filtered_total := error_filtered_total s;
     batches_flushed := batches_flushed s;
     raw_written_total := raw_written_total s;
     access_written_total := access_written_total s;
     dns_written_total := dns_written_total s;
     error_written_total := error_written_total s;
     db_write_fail_total := db_write_fail_total s + 1;
     last_event_time := last_event_time s;
     last_error_event_time := last_error_event_time s;
     last_error := Some e;
     inode := inode s; offset := offset s;
     error_inode := error_inode s; error_offset := error_offset s |}.

(** What an iteration reads from the runtime configuration, before the
    clamps of the loop *)
Record Knobs : Type := {
  k_batch_size : Z;
  k_flush_interval : spec_float;
  k_poll_interval : spec_float;
  k_error_min_level : string;
  k_error_drop_noise : bool;
  k_filter : Filtering.FilterSettings;
  k_redis_enabled : bool;
  k_retention_cleanup_interval : Z
}.

(** The collector and what surrounds it: the disk, the MySQL server, the
    outcomes of the next calls to Redis, and the variables of
    [run_forever]. *)
Record state : Type := {
  disk : file_system;
  ingestor : mysql;
  redis_faults : list bool;
  tailer : LogTailer;
  error_tailer : option LogTailer;
  stats : CollectorStats;
  batch : list ParsedEvent;
  error_batch : list ParsedErrorEvent;
  last_flush : spec_float;
  last_retention : spec_float
}.

Definition set_disk (d : file_system) (s : state) : state :=
  {| disk := d; ingestor := ingestor s; redis_faults := redis_faults s;
     tailer := tailer s; error_tailer := error_tailer s; stats := stats s;
     batch := batch s; error_batch := error_batch s;
     last_flush := last_flush s; last_retention := last_retention s |}.

Definition set_ingestor (m : mysql) (s : state) : state :=
  {| disk := disk s; ingestor := m; redis_faults := redis_faults s;
     tailer := tailer s; error_tailer := error_tailer s; stats := stats s;
     batch := batch s; error_batch := error_batch s;
     last_flush := last_flush s; last_retention := last_retention s |}.

Definition set_redis_faults (f : list bool) (s : state) : state :=
  {| disk := disk s; ingestor := ingestor s; redis_faults := f;
     tailer := tailer s; error_tailer := error_tailer s; stats := stats s;
     batch := batch s; error_batch := error_batch s;
     last_flush := last_flush s; last_retention := last_retention s |}.

Definition set_tailer (t : LogTailer) (s : state) : state :=
  {| disk := disk s; ingestor := ingestor s; redis_faults := redis_faults s;
     tailer := t; error_tailer := error_tailer s; stats := stats s;
     batch := batch s; error_batch := error_batch s;
     last_flush := last_flush s; last_retention := last_retention s |}.

Definition set_error_tailer (t : option LogTailer) (s : state) : state :=
  {| disk := disk s; ingestor := ingestor s; redis_faults := redis_faults s;
     tailer := tailer s; error_tailer := t; stats := stats s;
     batch := batch s; error_batch := error_batch s;
     last_flush := last_flush s; last_retention := last_retention s |}.

Definition set_stats (st : CollectorStats) (s : state) : state :=
  {| disk := disk s; ingestor := ingestor s; redis_faults := redis_faults s;
     tailer := tailer s; error_tailer := error_tailer s; stats := st;
     batch := batch s; error_batch := error_batch s;
     last_flush := last_flush s; last_retention := last_retention s |}.

Definition set_batches (b : list ParsedEvent) (eb : list ParsedErrorEvent)
    (s : state) : state :=
  {| disk := disk s; ingestor := ingestor s; redis_faults := redis_faults s;
     tailer := tailer s; error_tailer := error_tailer s; stats := stats s;
     batch := b; error_batch := eb;
     last_flush := last_flush s; last_retention := last_retention s |}.

Definition set_last_flush (t : spec_float) (s : state) : state :=
  {| disk := disk s; ingestor := ingestor s; redis_faults := redis_faults s;
     tailer := tailer s; error_tailer := error_tailer s; stats := stats s;
     batch := batch s; error_batch := error_batch s;
     last_flush := t; last_retention := last_retention s |}.

Definition set_last_retention (t : spec_float) (s : state) : state :=
  {| disk := disk s; ingestor := ingestor s; redis_faults := redis_faults s;
     tailer := tailer s; error_tailer := error_tailer s; stats := stats s;
     batch := batch s; error_batch := error_batch s;
     last_flush := last_flush s; last_retention := t |}.

(** A call to the ingestor *)
Definition db {A : Type} (m : M mysql A) : M state A := zoom ingestor set_ingestor m.

(** A call to Redis: it raises when the next outcome says so. *)
Definition redis_call : M state unit :=
  fun s =>
    match redis_faults s with
    | true :: rest => (Raise CacheError, set_redis_faults rest s)
    | _ => (Ok tt, set_redis_faults (List.tl (redis_faults s)) s)
    end.

Section WithSettings.

Variable settings : Settings.

Definition cache_on (k : Knobs) : bool := k_redis_enabled k && redis_enabled settings.

Definition _publish_health (k : Knobs) : M state unit :=
  if cache_on k then redis_call else ret tt.

Definition _flush (k : Knobs) (batch : list ParsedEvent)
    (error_batch : list ParsedErrorEvent) : M state unit :=
  match batch, error_batch with
  | [], [] => ret tt
  | _, _ =>
      let* raw_counts :=
        match batch with
        | [] => ret {| c_raw := 0; c_access := 0; c_dns := 0 |}
        | _ :: _ =>
            let* c := db (ingest_events batch (node_id settings)) in
            (if cache_on k then redis_call else ret tt) ;;
            ret c
        end in
      let* s := get in
      let '(inode, offset) := Tailer.state (tailer s) in
      db (save_state (log_path settings) inode offset) ;;
      let* err :=
        match error_tailer s with
        | None => ret (0, (None, 0))
        | Some et =>
            let '(error_inode, error_offset) := Tailer.state et in
            db (save_state (error_log_path settings) error_inode error_offset) ;;
            let* error_written :=
              match error_batch with
              | [] => ret 0
              | _ :: _ => db (ingest_error_events error_batch (node_id settings))
              end in
            ret (error_written, (error_inode, error_offset))
        end in
      modify (fun s => set_stats (note_flush raw_counts (fst err) (inode, offset)
                                             (snd err) (stats s)) s) ;;
      _publish_health k
  end.

(** The body of [for line in lines] on the access side; an exception of
    the parser leaves the loop. *)
Definition consume_line (f : Filtering.FilterSettings) (line : string)
    : M (list ParsedEvent * CollectorStats) unit :=
  fun '(batch, st) =>
    match Parser.parse_line line with
    | Raise e => (Raise e, (batch, count_access 1 0 0 None st))
    | Ok None => (Ok tt, (batch, count_access 1 1 0 None st))
    | Ok (Some parsed) =>
        if Filtering.should_drop_event parsed f
        then (Ok tt, (batch, count_access 1 0 1 None st))
        else (Ok tt, ((batch ++ [parsed])%list,
                      count_access 1 0 0 (Some (event_time parsed)) st))
    end.

Fixpoint for_each {S A : Type} (body : A -> M S unit) (l : list A) : M S unit :=
  match l with
  | [] => ret tt
  | a :: l' => body a ;; for_each body l'
  end.

(** The body of [for line in error_lines] *)
Definition consume_error_line (min_error_level_rank : Z) (error_drop_noise : bool)
    (acc : list ParsedErrorEvent * CollectorStats) (line : string)
    : list ParsedErrorEvent * CollectorStats :=
  let '(error_batch, st) := acc in
  match ErrorParser.parse_error_line line with
  | None => (error_batch, count_error 1 1 0 None st)
  | Some parsed_error =>
      if ErrorParser.level_rank (level parsed_error) <? min_error_level_rank
      then (error_batch, count_error 1 0 1 None st)
      else if error_drop_noise && is_noise parsed_error
      then (error_batch, count_error 1 0 1 None st)
      else ((error_batch ++ [parsed_error])%list,
            count_error 1 0 0 (Some (e_event_time parsed_error)) st)
  end.

Definition min_error_level_rank (k : Knobs) : Z :=
  ErrorParser.level_rank (Py.lower (Py.strip (k_error_min_level k))).

Definition nonempty {A : Type} (l : list A) : bool :=
  match l with [] => false | _ :: _ => true end.

(** The [try] block of the loop *)
Definition iteration_body (k : Knobs) (now : spec_float) : M state unit :=
  let batch_size := Z.max 1 (k_batch_size k) in
  let flush_interval := Float.max (Float.of_ratio 1 10) (k_flush_interval k) in
  let* s0 := get in
  let '(lines, t) :=
    read_new_lines (disk s0) (tailer s0) (Z.max 64 (batch_size * 4)) in
  modify (set_tailer t) ;;
  let* error_lines :=
    match error_tailer s0 with
    | None => ret []
    | Some et =>
        let '(ls, et') := read_new_lines (disk s0) et (Z.max 32 (batch_size * 2)) in
        modify (set_error_tailer (Some et')) ;;
        ret ls
    end in
  (if nonempty lines then
     zoom (fun s => (batch s, stats s))
          (fun '(b, st) s => set_stats st (set_batches b (error_batch s) s))
          (for_each (consume_line (k_filter k)) lines) ;;
     modify (fun s => set_stats (note_state (Tailer.state (tailer s)) (stats s)) s)
   else ret tt) ;;
  (if nonempty error_lines then
     modify (fun s =>
       let '(eb, st) :=
         List.fold_left (consume_error_line (min_error_level_rank k)
                                            (k_error_drop_noise k))
                        error_lines (error_batch s, stats s) in
       let st' := match error_tailer s with
                  | Some et => note_error_state (Tailer.state et) st
                  | None => st
                  end in
       set_stats st' (set_batches (batch s) eb s))
   else ret tt) ;;
  let* s1 := get in
  let should_flush :=
    (nonempty (batch s1) || nonempty (error_batch s1))
    && ((batch_size <=? Z.of_nat (List.length (batch s1)))
        || (batch_size <=? Z.of_nat (List.length (error_batch s1)))
        || SFleb flush_interval (Float.sub now (last_flush s1))) in
  (if should_flush then
     _flush k (batch s1) (error_batch s1) ;;
     modify (fun s => set_last_flush now (set_batches [] [] s))
   else ret tt) ;;
  let* s2 := get in
  (if Float.ge_int (Float.sub now (last_retention s2))
                   (Z.max 60 (k_retention_cleanup_interval k))
   then db (query (fun _ => tt)) ;;
        _publish_health k ;;
        modify (set_last_retention now)
   else ret tt) ;;
  (if negb (nonempty lines) && negb (nonempty error_lines)
   then _publish_health k
   else ret tt).

(** One iteration with the handler of the loop.  An exception raised by
    the handler itself ends [run_forever]. *)
Definition iteration (k : Knobs) (now : spec_float) : M state unit :=
  fun s =>
    match iteration_body k now s with
    | (Ok tt, s') => (Ok tt, s')
    | (Raise e, s') =>
        _publish_health k (set_stats (note_failure e (stats s')) s')
    end.

(** The prologue of [run_forever], at time [now]: the tailers resume from
    the persisted state. *)
Definition startup (now : spec_float) : M state unit :=
  let* st := db (load_state (log_path settings)) in
  modify (fun s =>
    set_stats (note_state st (stats s))
              (set_tailer (Tailer.set_state (tailer s) (fst st) (snd st)) s)) ;;
  let* s := get in
  match error_tailer s with
  | None => ret tt
  | Some et =>
      let* est := db (load_state (error_log_path settings)) in
      modify (fun s =>
        set_stats (note_error_state est (stats s))
                  (set_error_tailer (Some (Tailer.set_state et (fst est) (snd est))) s))
  end ;;
  modify (fun s =>
    set_last_retention (S754_zero false) (set_last_flush now (set_batches [] [] s))).

(** The epilogue of [run_forever], once the stop event is set *)
Definition final_flush (k : Knobs) : M state unit :=
  let* s := get in
  if nonempty (batch s) || nonempty (error_batch s)
  then _flush k (batch s) (error_batch s)
  else ret tt.

(** [AuditCollector(settings)] on a given disk and server *)
Definition new (d : file_system) (m : mysql) (rf : list bool) : state :=
  {| disk := d; ingestor := m; redis_faults := rf;
     tailer := Tailer.init (log_path settings);
     error_tailer := if error_log_enabled settings
                     then Some (Tailer.init (error_log_path settings)) else None;
     stats := initial_stats; batch := []; error_batch := [];
     last_flush := S754_zero false; last_retention := S754_zero false |}.

(** What happens between the start and the end of [run_forever]: the
    collector runs an iteration, or the environment appends to a log,
    replaces its content in place, rotates it, or makes the next calls to
    MySQL or Redis fail. *)
Inductive event : Type :=
| Tick (k : Knobs) (now : spec_float)
| Append (path data : string)
| WriteText (path : string) (ino : Z) (data : string)
| Rotate (path : string) (ino : Z) (data : string)
| MysqlFaults (f : list bool)
| RedisFaults (f : list bool).

Definition step (e : event) : M state unit :=
  match e with
  | Tick k now => iteration k now
  | Append p data => modify (fun s => set_disk (Tailer.append (disk s) p data) s)
  | WriteText p ino data =>
      modify (fun s => set_disk (Tailer.write_text (disk s) p ino data) s)
  | Rotate p ino data =>
      modify (fun s => set_disk (Tailer.rotate (disk s) p ino data) s)
  | MysqlFaults f =>
      modify (fun s =>
        set_ingestor {| tables := tables (ingestor s);
                        journal := journal (ingestor s); faults := f |} s)
  | RedisFaults f => modify (set_redis_faults f)
  end.

Fixpoint run (es : list event) : M state unit :=
  match es with
  | [] => ret tt
  | e :: es' => step e ;; run es'
  end.

End WithSettings.

End Collector.

(** * Sample inputs and the predicates the properties are stated with *)

Definition LF : string := String "010" EmptyString.

Definition sample_access_line : string :=
  "2026/02/18 10:00:00.123456 from 1.2.3.4:12345 accepted tcp:example.com:443 [socks-in -> direct] email: user@example.com".

(** An access line whose destination is the bare scheme *)
Definition empty_host_line : string :=
  "2026/02/18 10:00:00 from 1.2.3.4:1 accepted tcp:".

(** ** The four drop predicates of the access filter, in the words of the
    specification *)

Module DropRules.

Import Filtering.

Definition api_to_api (cfg : FilterSettings) (a : AccessEvent) : Prop :=
  drop_api_to_api cfg = true /\ detour a = "api -> api".

Definition excluded_detour (cfg : FilterSettings) (a : AccessEvent) : Prop :=
  In (detour a) (exclude_detours cfg).

Definition invalid_vless_probe (cfg : FilterSettings) (a : AccessEvent) : Prop :=
  drop_invalid_vless_probe cfg = true
  /\ status a = "rejected"
  /\ a_dest_raw a = "proxy/vless/encoding:"
  /\ Py.contains "invalid request version" (Py.lower (reason a)) = true.

Definition loopback (cfg : FilterSettings) (a : AccessEvent) : Prop :=
  drop_loopback_traffic cfg = true
  /\ ((exists p, In p ["127.0.0.1"; "[::1]"; "::1"]
                 /\ Py.startswith p (Py.lower (a_src a)) = true)
      \/ In (Py.lower (a_dest_host a)) ["127.0.0.1"; "localhost"; "::1"; "[::1]"]).

End DropRules.

(** ** The categories of the error classifier *)

Definition classifier_categories : list string :=
  ["probe_invalid_vless"; "api_loopback"; "dns_error"; "dns_info";
   "network_timeout"; "network_refused"; "auth_error"; "routing";
   "runtime_error"; "runtime_warning"; "debug_trace"; "runtime_info"].

(** Twelve inputs of [_classify], one per category *)
Definition classifier_samples : list (string * string * string) :=
  [ ("proxy/vless/encoding", "invalid request version", "info");
    ("", "127.0.0.1 detour [api]", "info");
    ("dns", "lookup failed", "info");
    ("dns", "lookup", "info");
    ("", "i/o timeout", "info");
    ("", "connection refused", "info");
    ("", "invalid user", "info");
    ("app/dispatcher", "", "info");
    ("", "", "error");
    ("", "", "warning");
    ("", "", "debug");
    ("", "", "info") ].

Definition classify_sample (x : string * string * string) : string :=
  ErrorParser._classify (fst (fst x)) (snd (fst x)) (snd x).

(** Error-log lines of the four levels *)
Definition sample_error_lines : list string :=
  [ "2026/02/18 10:11:55.397153 [Debug] app/dispatcher: default route" ++ LF;
    "2026/02/18 10:11:56.000000 [Info] proxy/vless/encoding: invalid request version from 1.2.3.4:2222" ++ LF;
    "2026/02/18 10:11:57.000000 [Warning] [12345] proxy/vless/inbound: received request for tcp:example.com:443" ++ LF;
    "2026/02/18 10:11:58.000000 [Error] transport: dial i/o timeout" ++ LF ].

(** ** Sample events *)

Definition sample_time : Datetime.datetime :=
  {| Datetime.year := 2026; Datetime.month := 2; Datetime.day := 18;
     Datetime.hour := 10; Datetime.minute := 0; Datetime.second := 0;
     Datetime.microsecond := 123456 |}.

(** The access event of the line
    [... from 127.0.0.1:50000 accepted tcp:127.0.0.1:62789 [api -> api]] *)
Definition api_access : AccessEvent :=
  {| a_event_time := sample_time; user_email := "unknown";
     a_src := "127.0.0.1:50000"; a_dest_raw := "tcp:127.0.0.1:62789";
     a_dest_host := "127.0.0.1"; a_dest_port := Some 62789;
     status := "accepted"; detour := "api -> api"; reason := "";
     is_domain := false; confidence := "low" |}.

Definition api_line : string :=
  "2026/02/18 10:00:00.123456 from 127.0.0.1:50000 accepted tcp:127.0.0.1:62789 [api -> api]".

Definition api_event : ParsedEvent :=
  {| event_time := sample_time; event_type := "access";
     raw_line := api_line; raw_hash := Sha256 api_line;
     access := Some api_access; dns := None |}.

Definition unknown_line : string :=
  "2026/02/18 10:00:00.123456 something not matching access or dns".

Definition unknown_event : ParsedEvent :=
  {| event_time := sample_time; event_type := "unknown";
     raw_line := unknown_line; raw_hash := Sha256 unknown_line;
     access := None; dns := None |}.

(** The filter settings of a default installation *)
Definition default_filter : Filtering.FilterSettings :=
  {| Filtering.drop_api_to_api := true;
     Filtering.drop_loopback_traffic := true;
     Filtering.drop_invalid_vless_probe := false;
     Filtering.exclude_detours := [] |}.

(** The error-log line of an invalid VLESS probe *)
Definition probe_line : string :=
  "2026/02/18 10:11:55.397153 [Info] proxy/vless/encoding: invalid request version from 1.2.3.4:2222".

(** A time of the monotonic clock, in whole seconds *)
Definition seconds (n : Z) : spec_float := Float.of_int n.

(** The values an iteration reads from a default configuration *)
Definition default_knobs : Collector.Knobs :=
  {| Collector.k_batch_size := 300;
     Collector.k_flush_interval := seconds 1;
     Collector.k_poll_interval := Float.of_ratio 2 10;
     Collector.k_error_min_level := "warning";
     Collector.k_error_drop_noise := false;
     Collector.k_filter := default_filter;
     Collector.k_redis_enabled := false;
     Collector.k_retention_cleanup_interval := 3600 |}.

(** ** Lines of a text and consistency of a tailer *)

(** [s.splitlines(keepends=True)] for LF-terminated lines *)
Fixpoint splitlines (s : string) : list string :=
  match s with
  | EmptyString => []
  | String a s' =>
      if Ascii.eqb a "010" then String a EmptyString :: splitlines s'
      else match splitlines s' with
           | [] => [String a EmptyString]
           | l :: ls => String a l :: ls
           end
  end.

(** The inode recorded by the tailer is the one of its open handle, as
    [_open] leaves it. *)
Definition handle_recorded (t : Tailer.LogTailer) : Prop :=
  forall h, Tailer._fh t = Some h -> Tailer._inode t = Some (Tailer.h_ino h).

(** ** The copytruncate scenario: write a line and poll, truncate and
    poll, write another line and poll *)

Module Scenario.

Import Tailer.

Definition log : string := "access.log".
Definition fs1 : file_system := write_text empty_fs log 7 ("a" ++ LF).
Definition poll1 : list string * LogTailer := read_new_lines fs1 (init log) 4096.
Definition fs2 : file_system := write_text fs1 log 8 EmptyString.
Definition poll2 : list string * LogTailer := read_new_lines fs2 (snd poll1) 4096.
Definition fs3 : file_system := write_text fs2 log 9 ("b" ++ LF).
Definition poll3 : list string * LogTailer := read_new_lines fs3 (snd poll2) 4096.

End Scenario.

(** ** Invalid items of a configuration update *)

Module ConfigRules.

Import Storage RuntimeConfig.

(** An item is invalid when its key is not in the editable schema or its
    value fails the validation of its field. *)
Definition invalid_item (py_repr : pyval -> string)
    (float_of_str : string -> option spec_float) (kv : string * pyval) : Prop :=
  match editable_field (fst kv) with
  | None => True
  | Some field =>
      exists e, _normalize_value py_repr float_of_str field (snd kv) = Raise e
  end.

(** An integer beyond the range of a float, as a batch size *)
Definition huge_batch_size : list (string * pyval) :=
  [("AUDIT_BATCH_SIZE", PInt (10 ^ 400))].

(** A batch whose second item is out of range *)
Definition mixed_batch : list (string * pyval) :=
  [("AUDIT_BATCH_SIZE", PInt 500); ("AUDIT_RETENTION_DAYS", PInt 0)].

Definition empty_manager : RuntimeConfigManager :=
  {| _defaults := []; _overrides := ∅; _override_meta := ∅ |}.

Definition empty_env : env :=
  {| conn := {| tables := empty_db; journal := []; faults := [] |};
     manager := empty_manager |}.

End ConfigRules.

(** ** A collector on two log files *)

Module Site.

Import Storage Tailer Collector.

Definition settings : Settings :=
  {| node_id := "node-1";
     log_path := "/var/log/xray/access.log";
     error_log_path := "/var/log/xray/error.log";
     error_log_enabled := true;
     redis_enabled := false |}.

Definition warning_line : string :=
  "2026/02/18 10:11:57.000000 [Warning] [12345] proxy/vless/inbound: received request for tcp:example.com:443"
  ++ LF.

(** An empty access log on inode 1, an error log of one line on inode 2 *)
Definition disk0 : file_system :=
  write_text (write_text empty_fs (log_path settings) 1 EmptyString)
             (error_log_path settings) 2 warning_line.

(** A server with empty tables whose calls fail as [f] says *)
Definition server (f : list bool) : mysql :=
  {| tables := empty_db; journal := []; faults := f |}.

(** The first iteration of a collector started at time 0, at time 100 *)
Definition first_iteration (f : list bool) : result unit * state :=
  (startup settings (seconds 0) ;; iteration settings default_knobs (seconds 100))
    (new settings disk0 (server f) []).

(** The collector process dies and a new one starts on the same disk
    and tables, and runs an iteration at time 200. *)
Definition restart (s : state) : result unit * state :=
  (startup settings (seconds 150) ;; iteration settings default_knobs (seconds 200))
    (new settings (disk s)
         {| tables := tables (ingestor s); journal := journal (ingestor s);
            faults := [] |} []).

(** The persisted offset of a path, as [load_state] reads it *)
Definition persisted (s : state) (file_path : string) : option Z * Z :=
  match collector_state (tables (ingestor s)) !! file_path with
  | Some row => row
  | None => (None, 0)
  end.

End Site.

(** ** Offsets under appends

    The invariant that ties a collector to its disk and tables while the
    logs are only appended to. *)

Module Monotone.

Import Storage Tailer Collector.

(** The tailer agrees with the file at its path: an open handle is on the
    inode the path names and stands at the stored offset, within the file;
    a closed tailer has an offset the file, if there is one, covers. *)
Definition tailer_ok (fs : file_system) (t : LogTailer) : Prop :=
  0 <= _offset t
  /\ match _fh t with
     | Some h =>
         dentry fs !! path t = Some (h_ino h)
         /\ _inode t = Some (h_ino h)
         /\ h_pos h = _offset t
         /\ _offset t <= Z.of_nat (String.length (content fs (h_ino h)))
     | None =>
         forall st, stat fs (path t) = Some st -> _offset t <= st_size st
     end.

(** [last_offset] of a path in [collector_state], 0 without a row *)
Definition persisted_offset (m : mysql) (file_path : string) : Z :=
  match collector_state (tables m) !! file_path with
  | Some row => snd row
  | None => 0
  end.

Definition inv (cfg : Settings) (s : state) : Prop :=
  log_path cfg <> error_log_path cfg
  /\ path (tailer s) = log_path cfg
  /\ tailer_ok (disk s) (tailer s)
  /\ persisted_offset (ingestor s) (log_path cfg) <= _offset (tailer s)
  /\ match error_tailer s with
     | Some et =>
         path et = error_log_path cfg
         /\ tailer_ok (disk s) et
         /\ persisted_offset (ingestor s) (error_log_path cfg) <= _offset et
     | None => True
     end.

(** The events that leave every inode in place and every file at least as
    long as it was, what is appended being plain text *)
Definition append_only (e : event) : Prop :=
  match e with
  | Append _ data => plain data = true
  | Tick _ _ | MysqlFaults _ | RedisFaults _ => True
  | WriteText _ _ _ | Rotate _ _ _ => False
  end.

(** The file at a path, if there is one, holds plain text. *)
Definition file_plain (fs : file_system) (file_path : string) : bool :=
  match dentry fs !! file_path with
  | Some ino => plain (content fs ino)
  | None => true
  end.

Definition logs_plain (cfg : Settings) (fs : file_system) : Prop :=
  file_plain fs (log_path cfg) = true /\ file_plain fs (error_log_path cfg) = true.

(** The invariant, together with lower bounds on the two persisted
    offsets and the directory as it was *)
Definition frame (cfg : Settings) (lo le : Z) (d0 : gmap string Z) (s : state) : Prop :=
  inv cfg s
  /\ lo <= persisted_offset (ingestor s) (log_path cfg)
  /\ le <= persisted_offset (ingestor s) (error_log_path cfg)
  /\ dentry (disk s) = d0.

(** [frame] while the two tailers stay as they are *)
Definition locked (cfg : Settings) (lo le : Z) (d0 : gmap string Z)
    (t : LogTailer) (et : option LogTailer) (s : state) : Prop :=
  frame cfg lo le d0 s /\ tailer s = t /\ error_tailer s = et.

(** A computation keeps a predicate on the state, whatever its outcome. *)
Definition preserves {A : Type} (P : state -> Prop) (m : M state A) : Prop :=
  forall s, P s -> P (snd (m s)).

End Monotone.

(** ** A log truncated in place between two flushes *)

Module Truncation.

Import Storage Tailer Collector.

Definition short_line : string :=
  "2026/02/18 10:00:05 from 1.2.3.4:1 accepted tcp:a.io:80" ++ LF.

(** The access log holds one line on inode 1; the error log is empty. *)
Definition disk0 : file_system :=
  write_text (write_text empty_fs (log_path Site.settings) 1 (sample_access_line ++ LF))
             (error_log_path Site.settings) 2 EmptyString.

Definition start : state := new Site.settings disk0 (Site.server []) [].

(** An iteration that flushes the line *)
Definition first_flush : list event := [Tick default_knobs (seconds 100)].

(** The log is truncated in place and polled, a shorter line is written,
    and the next iteration flushes it. *)
Definition second_flush : list event :=
  [ WriteText (log_path Site.settings) 9 EmptyString;
    Tick default_knobs (seconds 101);
    WriteText (log_path Site.settings) 9 short_line;
    Tick default_knobs (seconds 103) ].

Definition after_first : state :=
  snd ((startup Site.settings (seconds 0) ;; run Site.settings first_flush) start).

Definition after_second : state :=
  snd (run Site.settings second_flush after_first).

(** The same log, appended to instead *)
Definition appended : list event :=
  [ Tick default_knobs (seconds 100);
    Append (log_path Site.settings) short_line;
    Tick default_knobs (seconds 103) ].

Definition started : state := snd (startup Site.settings (seconds 0) start).

End Truncation.

(** ** One file under both settings

    When [log_path] and [error_log_path] name the same file, the two
    tailers save their offsets in the same row of [collector_state], the
    error tailer last; a poll takes at most 64 lines from the access log
    and 32 from the error log when the batch size is 1. *)

Module SharedPath.

Import Storage Tailer Collector.

Definition settings : Settings :=
  {| node_id := "node-1";
     log_path := "/var/log/xray/access.log";
     error_log_path := "/var/log/xray/access.log";
     error_log_enabled := true;
     redis_enabled := false |}.

(** [n] lines that neither parser takes *)
Definition filler (n : nat) : string :=
  string_of_list_ascii (List.concat (List.repeat ["x"%char; "010"%char] n)).

(** 106 lines, 384 bytes: an access line first and another one as line 66 *)
Definition text : string :=
  (sample_access_line ++ LF) ++ filler 64 ++ Truncation.short_line ++ filler 40.

Definition disk0 : file_system := write_text empty_fs (log_path settings) 1 text.

Definition one_by_one : Knobs :=
  {| k_batch_size := 1;
     k_flush_interval := k_flush_interval default_knobs;
     k_poll_interval := k_poll_interval default_knobs;
     k_error_min_level := k_error_min_level default_knobs;
     k_error_drop_noise := k_error_drop_noise default_knobs;
     k_filter := k_filter default_knobs;
     k_redis_enabled := false;
     k_retention_cleanup_interval := k_retention_cleanup_interval default_knobs |}.

Definition started : state :=
  snd (startup settings (seconds 0) (new settings disk0 (Site.server []) [])).

(** The second flush fails at its second save_state, the third succeeds;
    nothing is written to the file in between. *)
Definition after_first : state :=
  snd (run settings [Tick one_by_one (seconds 100)] started).

Definition after_second : state :=
  snd (run settings [MysqlFaults [false; false; true]; Tick one_by_one (seconds 101)]
           after_first).

Definition after_third : state :=
  snd (run settings [MysqlFaults []; Tick one_by_one (seconds 102)] after_second).

End SharedPath.

(** ** Duration tokens *)

Module Duration.

(** Milliseconds per unit *)
Definition unit_factor (unit : string) : option Q :=
  if String.eqb unit "ns" then Some (1 # 1000000)
  else if String.eqb unit "us" then Some (1 # 1000)
  else if String.eqb unit "ms" then Some (1 # 1)
  else if String.eqb unit "s" then Some (1000 # 1)
  else if String.eqb unit "m" then Some (60000 # 1)
  else if String.eqb unit "h" then Some (3600000 # 1)
  else None.

(** The number written [ip] or [ip.fp] in decimal *)
Definition decimal_value (ip : string) (fp : option string) : Q :=
  match fp with
  | Some f =>
      Qmake (Py.int_of_digits ip * Zpos (Parser.pow10 (String.length f))
             + Py.int_of_digits f)
            (Parser.pow10 (String.length f))
  | None => inject_Z (Py.int_of_digits ip)
  end.

(** The digits of a token, before its unit *)
Definition numeral (ip : string) (fp : option string) : string :=
  match fp with
  | Some f => ip ++ "." ++ f
  | None => ip
  end.

(** The token: digits, an optional fraction, a unit *)
Definition token (ip : string) (fp : option string) (unit : string) : string :=
  numeral ip fp ++ unit.

(** The DNS line of the sample, ending in a duration token *)
Definition dns_line (tok : string) : string :=
  "2026/02/18 10:00:01.000001 8.8.8.8 got answer: api.github.com. -> [1.1.1.1, 8.8.8.8] "
  ++ tok.

Definition elapsed_of (tok : string) : option Z :=
  match Parser.parse_line (dns_line tok) with
  | Ok (Some ev) => match dns ev with Some d => elapsed_ms d | None => None end
  | _ => None
  end.

(** The float nearest to a fraction *)
Definition nearest (q : Q) : spec_float := Float.of_ratio (Qnum q) (Qden q).

(** A float of milliseconds from a float in the given unit: a division
    or a multiplication by the constant of the unit, rounded *)
Definition to_millis (unit : string) (x : spec_float) : option spec_float :=
  if String.eqb unit "ns" then Some (Float.div x (Float.of_int 1000000))
  else if String.eqb unit "us" then Some (Float.div x (Float.of_int 1000))
  else if String.eqb unit "ms" then Some x
  else if String.eqb unit "s" then Some (Float.mul x (Float.of_int 1000))
  else if String.eqb unit "m" then Some (Float.mul x (Float.of_int 60000))
  else if String.eqb unit "h" then Some (Float.mul x (Float.of_int 3600000))
  else None.

(** The value of a finite float, as a fraction *)
Definition value (x : spec_float) : Q :=
  match x with
  | S754_finite s m (Zneg p) => Qmake (cond_Zopp s (Zpos m)) (2 ^ p)
  | S754_finite s m e => inject_Z (cond_Zopp s (Zpos m) * 2 ^ e)
  | _ => 0
  end.

(** A float that is not a NaN and whose sign is positive *)
Definition positive_sign (x : spec_float) : Prop :=
  match x with
  | S754_zero s | S754_infinity s | S754_finite s _ _ => s = false
  | S754_nan => False
  end.

(** A one followed by 309 zeros: the least power of ten beyond the floats *)
Definition long_numeral : string :=
  String "1" (string_of_list_ascii (List.repeat "0"%char 309)).

(** The loop of the matcher on a starred character class *)
Definition star_cls (f : ascii -> bool)
    (k : Re.pos -> Re.captures -> option Re.captures)
    : nat -> Re.pos -> Re.captures -> option Re.captures :=
  fix loop (fuel : nat) (p : Re.pos) (c : Re.captures) {struct fuel} :=
    match fuel with
    | O => k p c
    | S fuel' =>
        match Re.run (Re.Cls f) p c (fun p' c' =>
                if (String.length (Re.rest p') <? String.length (Re.rest p))%nat
                then loop fuel' p' c' else None) with
        | Some res => Some res
        | None => k p c
        end
    end.

(** The loop of [split(c, 1)] *)
Definition scan1 (c : ascii) : string -> string -> list string :=
  fix scan (t acc : string) : list string :=
    match t with
    | EmptyString => [Py.rev acc]
    | String a t' =>
        if Ascii.eqb a c then Py.rev acc :: Py.split_chr_max c 0 t'
        else scan t' (String a acc)
    end.

(** The fraction of a token, with its point *)
Definition fraction (fp : option string) : string :=
  match fp with
  | Some f => "." ++ f
  | None => EmptyString
  end.

(** The head of a text fails a class, or the text is empty. *)
Definition stops (f : ascii -> bool) (r : string) : Prop :=
  match r with
  | EmptyString => True
  | String a _ => f a = false
  end.

(** The unit and the end of the token, the last part of the pattern *)
Definition unit_re : Re.regex :=
  Re.Seq (Re.Grp "2" (Re.Alts [Re.Lit "ns"; Re.Lit "us"; Re.Lit "ms";
                               Re.Lit "s"; Re.Lit "m"; Re.Lit "h"]))
         Re.Eol.

(** The position of the matcher once it has consumed [s] to the end *)
Definition at_end (s : string) : Re.pos :=
  {| Re.prev := match list_ascii_of_string s with
                | [] => None
                | a :: l => Some (List.last l a)
                end;
     Re.rest := EmptyString |}.

End Duration.

(** * Further predicates *)

(** ** The lines of a poll *)

Module Lines.

Definition no_lf (s : string) : bool :=
  Py.all_chr (fun a => negb (Ascii.eqb a "010")) s.

(** A line that ends at its only LF *)
Definition terminated (l : string) : Prop :=
  exists body, l = body ++ LF /\ no_lf body = true.

(** A line as [readline] returns it: terminated, or what is left of the
    file when it holds no further LF *)
Definition is_line (l : string) : Prop :=
  terminated l \/ (l <> EmptyString /\ no_lf l = true).

(** Where a tailer without a handle starts to read a file of [size]
    bytes: at its offset, or at 0 when the file is shorter *)
Definition resume_at (size offset : Z) : Z :=
  if size <? Z.max 0 offset then 0 else Z.max 0 offset.

(** The lines of a poll: all terminated, except possibly the last *)
Fixpoint shape (ls : list string) : Prop :=
  match ls with
  | [] => True
  | l :: ls' =>
      match ls' with
      | [] => is_line l
      | _ :: _ => terminated l /\ shape ls'
      end
  end.

(** What happens to a log that is only appended to while a tailer
    follows it: bytes are appended to the file at the path of the
    tailer, or the tailer polls. *)
Inductive action : Type :=
| Appended (data : string)
| Polled (max_lines : Z).

Definition plain_action (a : action) : bool :=
  match a with
  | Appended data => Tailer.plain data
  | Polled _ => true
  end.

(** The file system and the tailer after the actions, and the lines of
    all the polls, in order *)
Fixpoint follow (acts : list action) (fs : Tailer.file_system) (t : Tailer.LogTailer)
    : Tailer.file_system * Tailer.LogTailer * list string :=
  match acts with
  | [] => (fs, t, [])
  | Appended data :: rest => follow rest (Tailer.append fs (Tailer.path t) data) t
  | Polled n :: rest =>
      let '(lines, t1) := Tailer.read_new_lines fs t n in
      let '(fs', t', out) := follow rest fs t1 in
      (fs', t', (lines ++ out)%list)
  end.

End Lines.

(** ** The strings of the model and those of Python

    The strings of the model are strings of bytes, and its character
    classes are those of ASCII; on a string of ASCII characters they are
    those of [str].  [int] takes at most [sys.int_max_str_digits] digits
    from a string, 4300 unless configured otherwise, and raises
    [ValueError] beyond. *)

Module Text.

Definition ascii_text (s : string) : bool :=
  Py.all_chr (fun a => (Py.ord a <? 128)%N) s.

Definition int_max_str_digits : nat := 4300.

(** [int(s)] for a string of decimal digits *)
Definition int_of_str_digits (s : string) : result Z :=
  if (int_max_str_digits <? String.length s)%nat then Raise ValueError
  else Ok (Py.int_of_digits s).

(** A line on which no [int] of the parsers can raise *)
Definition short_ascii (line : string) : Prop :=
  ascii_text line = true /\ (String.length line <= int_max_str_digits)%nat.

End Text.

(** ** A small log *)

Module Sample.

Import Tailer.

Definition log : string := "x.log".

(** Two lines and the unterminated start of a third *)
Definition text : string := "one" ++ LF ++ "two" ++ LF ++ "thr".

Definition fs : file_system := write_text empty_fs log 1 text.

(** The path on a new inode, after a rotation by rename *)
Definition rotated : file_system := rotate fs log 2 ("new" ++ LF).

(** A tailer that has read the whole of [text] *)
Definition at_end : LogTailer := snd (read_new_lines fs (init log) 10).

(** The events of the warning line of the site's error log *)
Definition error_events : list ParsedErrorEvent :=
  match ErrorParser.parse_error_line Site.warning_line with
  | Some ev => [ev]
  | None => []
  end.

(** A collector that publishes to Redis *)
Definition cached_settings : Collector.Settings :=
  {| Collector.node_id := "node-1";
     Collector.log_path := "/var/log/xray/access.log";
     Collector.error_log_path := "/var/log/xray/error.log";
     Collector.error_log_enabled := true;
     Collector.redis_enabled := true |}.

Definition cached_knobs : Collector.Knobs :=
  {| Collector.k_batch_size := 300;
     Collector.k_flush_interval := seconds 1;
     Collector.k_poll_interval := Float.of_ratio 2 10;
     Collector.k_error_min_level := "warning";
     Collector.k_error_drop_noise := false;
     Collector.k_filter := default_filter;
     Collector.k_redis_enabled := true;
     Collector.k_retention_cleanup_interval := 3600 |}.

End Sample.

(** ** Integrity of the event tables *)

Module Integrity.

Import Storage.

(** The id of a raw row is below the counter and is the id of no other
    row. *)
Definition ids_ok (d : database) : Prop :=
  (forall k row, audit_raw_events d !! k = Some row -> rr_id row < auto_increment d)
  /\ (forall k1 k2 r1 r2,
        audit_raw_events d !! k1 = Some r1 -> audit_raw_events d !! k2 = Some r2 ->
        rr_id r1 = rr_id r2 -> k1 = k2).

Definition has_raw (d : database) (id : Z) : Prop :=
  exists k row, audit_raw_events d !! k = Some row /\ rr_id row = id.

(** Every child row refers to a raw row. *)
Definition children_ok (d : database) : Prop :=
  (forall id a, audit_access_events d !! id = Some a -> has_raw d id)
  /\ (forall id x, audit_dns_events d !! id = Some x -> has_raw d id).

(** Events of one hash are one event, as the events parsed from one line
    are. *)
Definition consistent (events : list ParsedEvent) : Prop :=
  forall e1 e2, In e1 events -> In e2 events -> raw_hash e1 = raw_hash e2 -> e1 = e2.

Definition consistent_errors (events : list ParsedErrorEvent) : Prop :=
  forall e1 e2, In e1 events -> In e2 events -> e_raw_hash e1 = e_raw_hash e2 -> e1 = e2.

(** The rows of the event tables, without the counter of the ids *)
Definition rows (d : database)
    : gmap string raw_row * gmap Z AccessEvent * gmap Z DNSEvent
      * gmap string (ParsedErrorEvent * string) :=
  (audit_raw_events d, audit_access_events d, audit_dns_events d,
   audit_error_events d).

(** A row holds the fields of an event part, whatever its [event_time]:
    the upsert of a row that is there leaves its time as it is. *)
Definition holds_access (row a : AccessEvent) : Prop :=
  row = keep_access_time (Some row) a.

Definition holds_dns (row x : DNSEvent) : Prop :=
  row = keep_dns_time (Some row) x.

Definition holds_error (row ev : ParsedErrorEvent) : Prop :=
  row = keep_error_time row ev.

(** The event is stored: its raw row holds its line and its child row
    holds the fields of its payload. *)
Definition stored (d : database) (ev : ParsedEvent) : Prop :=
  exists row,
    audit_raw_events d !! digest_key (raw_hash ev) = Some row
    /\ rr_raw_line row = raw_line ev
    /\ match access ev, dns ev with
       | Some a, _ =>
           exists c, audit_access_events d !! rr_id row = Some c /\ holds_access c a
       | None, Some x =>
           exists c, audit_dns_events d !! rr_id row = Some c /\ holds_dns c x
       | None, None => True
       end.

(** The event is stored as [node] has written it, under a hash that was
    new: its raw row carries its time, type, line and hash and the name
    of the node, and its child row is its payload, time included. *)
Definition stored_new (node : string) (d : database) (ev : ParsedEvent) : Prop :=
  exists row,
    audit_raw_events d !! digest_key (raw_hash ev) = Some row
    /\ row = {| rr_id := rr_id row; rr_event_time := event_time ev;
                rr_event_type := event_type ev; rr_raw_line := raw_line ev;
                rr_raw_hash := raw_hash ev; rr_node_id := node |}
    /\ match access ev, dns ev with
       | Some a, _ => audit_access_events d !! rr_id row = Some a
       | None, Some x => audit_dns_events d !! rr_id row = Some x
       | None, None => True
       end.

(** The row [ingest_error_events] leaves for an event on the tables [d]:
    the event itself under [node] when its hash is new, else the row
    that was there with the fields of the event, under the node and with
    the time it had *)
Definition error_row (node : string) (d : database) (ev : ParsedErrorEvent)
    : ParsedErrorEvent * string :=
  match audit_error_events d !! digest_key (e_raw_hash ev) with
  | Some (old, nd) => (keep_error_time old ev, nd)
  | None => (ev, node)
  end.

End Integrity.

(** ** Parsed events *)

Module Parsed.

(** The characters of [rstrip("\r\n")] *)
Definition crlf : string := String "013" (String "010" EmptyString).

Definition is_crlf (a : ascii) : bool := Py.mem_chr a crlf.

(** [raw_line.rstrip("\r\n")] *)
Definition normalized (raw_line : string) : string := Py.rstrip_chars crlf raw_line.

(** The events the parsers return *)
Definition parsed (ev : ParsedEvent) : Prop :=
  exists raw_line, Parser.parse_line raw_line = Ok (Some ev).

Definition parsed_error (ev : ParsedErrorEvent) : Prop :=
  exists raw_line, ErrorParser.parse_error_line raw_line = Some ev.

(** The three shapes of a parsed event *)
Definition well_formed (ev : ParsedEvent) : Prop :=
  match access ev, dns ev with
  | Some a, None => event_type ev = "access" /\ a_event_time a = event_time ev
  | None, Some d => event_type ev = "dns" /\ d_event_time d = event_time ev
  | None, None => event_type ev = "unknown"
  | Some _, Some _ => False
  end.

End Parsed.

(** ** The loop of the collector *)

Module Loop.

Import Storage Collector.

(** The lines the access counters account for: the parse failures, the
    lines filtered and the events waiting in the batch *)
Definition accounted (b : list ParsedEvent) (st : CollectorStats) : Z :=
  parse_fail_total st + filtered_total st + Z.of_nat (List.length b).

Definition accounted_errors (eb : list ParsedErrorEvent) (st : CollectorStats) : Z :=
  error_parse_fail_total st + error_filtered_total st + Z.of_nat (List.length eb).

(** An iteration that publishes to Redis *)
Definition cached (cfg : Settings) (e : event) : Prop :=
  match e with
  | Tick k _ => cache_on cfg k = true
  | _ => False
  end.

(** The journal [j] extends [j0] by commits among which a batch holds [ev]. *)
Definition committed (j0 j : list commit) (ev : ParsedEvent) : Prop :=
  exists pre b post, j = (j0 ++ pre ++ CommitEvents b :: post)%list /\ In ev b.

Definition committed_error (j0 j : list commit) (ev : ParsedErrorEvent) : Prop :=
  exists pre b post, j = (j0 ++ pre ++ CommitErrorEvents b :: post)%list /\ In ev b.

(** What a flush that succeeds leaves in the tables and appends to the
    journal: the events, the state of the access log, and with an error
    tailer the state of the error log and the error events *)
Definition flushed_tables (cfg : Settings) (b : list ParsedEvent)
    (eb : list ParsedErrorEvent) (s : state) : database :=
  let d1 := List.fold_left (ingest_event (node_id cfg)) b (tables (ingestor s)) in
  let d2 := set_collector_state (log_path cfg) (Tailer._inode (tailer s))
                                (Tailer._offset (tailer s)) d1 in
  match error_tailer s with
  | None => d2
  | Some et =>
      List.fold_left (ingest_error_event (node_id cfg)) eb
        (set_collector_state (error_log_path cfg) (Tailer._inode et)
                             (Tailer._offset et) d2)
  end.

Definition flushed_journal (cfg : Settings) (b : list ParsedEvent)
    (eb : list ParsedErrorEvent) (s : state) : list commit :=
  ((match b with [] => [] | _ :: _ => [CommitEvents b] end)
   ++ [CommitState (log_path cfg) (Tailer._inode (tailer s)) (Tailer._offset (tailer s))]
   ++ match error_tailer s with
      | None => []
      | Some et =>
          CommitState (error_log_path cfg) (Tailer._inode et) (Tailer._offset et)
          :: match eb with [] => [] | _ :: _ => [CommitErrorEvents eb] end
      end)%list.

(** The process stops and starts again at time [now] on the same disk
    and tables, the server and Redis answering. *)
Definition restarted (cfg : Settings) (now : spec_float) (s : state) : state :=
  snd (startup cfg now
         (new cfg (disk s)
              {| tables := tables (ingestor s); journal := journal (ingestor s);
                 faults := [] |} [])).

(** From [s] to [s'] the batches and the tailers' presence are the same
    and the journal is extended. *)
Definition extends (s s' : state) : Prop :=
  batch s' = batch s /\ error_batch s' = error_batch s
  /\ (error_tailer s' = None <-> error_tailer s = None)
  /\ exists more, journal (ingestor s') = (journal (ingestor s) ++ more)%list.

(** From [s] to [s'] every waiting event still waits or is in a batch
    committed since. *)
Definition kept (s s' : state) : Prop :=
  (error_tailer s' = None <-> error_tailer s = None)
  /\ (exists more, journal (ingestor s') = (journal (ingestor s) ++ more)%list)
  /\ (forall ev, In ev (batch s) ->
        In ev (batch s')
        \/ committed (journal (ingestor s)) (journal (ingestor s')) ev)
  /\ (forall ev, In ev (error_batch s) ->
        In ev (error_batch s')
        \/ committed_error (journal (ingestor s)) (journal (ingestor s')) ev).

(** Error events wait only in a collector that reads the error log. *)
Definition error_batch_ok (s : state) : Prop :=
  error_tailer s = None -> error_batch s = [].

(** A computation that leaves the batches alone and only extends the
    journal, whatever its outcome *)
Definition quiet {A : Type} (m : M state A) : Prop :=
  forall s, extends s (snd (m s)).

(** What an iteration started in [s0] keeps while it handles the lines
    [error_lines] of the error log *)
Definition guarded (s0 : state) (error_lines : list string) (s : state) : Prop :=
  kept s0 s /\ error_batch_ok s
  /\ (nonempty error_lines = true -> error_tailer s <> None).

End Loop.

(** ** Reading the configuration

    [config.py] reads the environment, [RuntimeConfigManager] the cache
    of overrides, as [refresh] leaves it, then the defaults. *)

Module Getters.

Import Storage RuntimeConfig.

(** [tuple(x for x in [x.strip() for x in raw.split(",")] if x)] *)
Definition csv_parts (raw : string) : list string :=
  List.filter Py.truthy (List.map Py.strip (Py.split_chr "," raw)).

(** An entry of a comma separated list in its canonical form: not empty,
    without white space around it and without a comma *)
Definition clean (p : string) : Prop :=
  p <> EmptyString /\ Py.strip p = p /\ Py.count_chr "," p = 0%nat.

(** [_env_csv(name, default)], given [os.getenv(name)] *)
Definition _env_csv (env_value : option string) (default : string) : list string :=
  csv_parts (match env_value with Some v => v | None => default end).

Section Get.

Variable py_repr : pyval -> string.
Variable float_of_str : string -> option spec_float.

Definition get (m : RuntimeConfigManager) (key : string) (fallback : pyval) : pyval :=
  match _overrides m !! key with
  | Some v => v
  | None =>
      match dict_get (_defaults m) key with
      | Some v => v
      | None => fallback
      end
  end.

Definition get_bool (m : RuntimeConfigManager) (key : string) (fallback : bool) : bool :=
  match get m key (PBool fallback) with
  | PBool b => b
  | PInt z => negb (z =? 0)
  | PFloat x => float_nonzero x
  | v => in_strs (Py.lower (Py.strip (py_str py_repr v))) ["1"; "true"; "yes"; "on"]
  end.

Definition get_int (m : RuntimeConfigManager) (key : string) (fallback : Z) : Z :=
  match py_int (get m key (PInt fallback)) with
  | Some n => n
  | None => fallback
  end.

Definition get_float (m : RuntimeConfigManager) (key : string) (fallback : spec_float)
    : spec_float :=
  match py_float float_of_str (get m key (PFloat fallback)) with
  | Some x => x
  | None => fallback
  end.

Definition get_csv_tuple (m : RuntimeConfigManager) (key : string)
    (fallback : list string) : list string :=
  match get m key (PStr (Py.join "," fallback)) with
  | PList l => List.filter Py.truthy (List.map (fun x => Py.strip (py_str py_repr x)) l)
  | v => csv_parts (py_str py_repr v)
  end.

End Get.

End Getters.

Module Getters_Sample.

(** The comma separated field of the schema *)
Definition detours_field : RuntimeConfig.RuntimeConfigField :=
  match RuntimeConfig.editable_field "AUDIT_EXCLUDE_DETOURS" with
  | Some f => f
  | None => RuntimeConfig.fld "" "" "" "" "" None None None
  end.

(** The batch size of the schema, an integer between 1 and 20000 *)
Definition batch_field : RuntimeConfig.RuntimeConfigField :=
  match RuntimeConfig.editable_field "AUDIT_BATCH_SIZE" with
  | Some f => f
  | None => RuntimeConfig.fld "" "" "" "" "" None None None
  end.

(** A manager whose default for the detours comes from the environment *)
Definition detours_env : option string := Some " direct, block ,".

Definition detours_manager : RuntimeConfig.RuntimeConfigManager :=
  {| RuntimeConfig._defaults :=
       [("AUDIT_EXCLUDE_DETOURS",
         Storage.PStr (Py.join "," (Getters._env_csv detours_env EmptyString)))];
     RuntimeConfig._overrides := ∅;
     RuntimeConfig._override_meta := ∅ |}.

(** A boolean field of the schema, and a cache that holds a text for it *)
Definition redis_field : RuntimeConfig.RuntimeConfigField :=
  match RuntimeConfig.editable_field "AUDIT_REDIS_ENABLED" with
  | Some f => f
  | None => RuntimeConfig.fld "" "" "" "" "" None None None
  end.

Definition text_manager : RuntimeConfig.RuntimeConfigManager :=
  {| RuntimeConfig._defaults := [];
     RuntimeConfig._overrides := {[ "AUDIT_REDIS_ENABLED" := Storage.PStr " Yes " ]};
     RuntimeConfig._override_meta := ∅ |}.

(** Stand-ins for [repr] and for [float] of a string *)
Definition no_repr (v : Storage.pyval) : string := EmptyString.
Definition no_float (s : string) : option spec_float := None.

(** An update of two keys on an empty configuration *)
Definition two_items : list (string * Storage.pyval) :=
  [("AUDIT_BATCH_SIZE", Storage.PStr " 500 ");
   ("AUDIT_ERROR_MIN_LEVEL", Storage.PStr "Error")].

Definition updated : result (list RuntimeConfig.item) * RuntimeConfig.env :=
  RuntimeConfig.update_items no_repr no_float two_items "admin" "10.0.0.1"
                             ConfigRules.empty_env.

Definition updated_items : list RuntimeConfig.item :=
  match fst updated with
  | Ok items => items
  | Raise _ => []
  end.

End Getters_Sample.

(** ** An access log with a line on which the parser raises *)

Module Overflow.

Import Storage Tailer Collector.

(** Three lines: an access line, a DNS line whose duration is beyond the
    floats, and the access line again *)
Definition log : string :=
  sample_access_line ++ LF
  ++ Duration.dns_line (Duration.long_numeral ++ "ms") ++ LF
  ++ sample_access_line ++ LF.

Definition disk : file_system :=
  write_text (write_text empty_fs (log_path Site.settings) 1 log)
             (error_log_path Site.settings) 2 Site.warning_line.

Definition start : state := new Site.settings disk (Site.server []) [].

(** What the iteration reads from the access log, and what its loop does
    with it *)
Definition poll : list string * LogTailer :=
  read_new_lines disk (tailer start)
                 (Z.max 64 (Z.max 1 (k_batch_size default_knobs) * 4)).

Definition looped : result unit * (list ParsedEvent * CollectorStats) :=
  for_each (consume_line (k_filter default_knobs)) (fst poll) (batch start, stats start).

End Overflow.

(** ** api.py: the window of a summary *)

Module Api.

(** [s[:-1]] and the last character of a non-empty [s] *)
Fixpoint unsnoc (s : string) : option (string * ascii) :=
  match s with
  | EmptyString => None
  | String a s' =>
      match unsnoc s' with
      | Some (x, z) => Some (String a x, z)
      | None => Some (EmptyString, a)
      end
  end.

(** The seconds of a unit; 0 for a character that is no unit *)
Definition unit_seconds (u : ascii) : Z :=
  if Ascii.eqb u "h" then 3600
  else if Ascii.eqb u "m" then 60
  else if Ascii.eqb u "s" then 1
  else 0.

(** [value = int(raw[:-1]) * factor], refused when it is below 1 *)
Definition scaled (digits : string) (factor : Z) : result (option Z) :=
  match Text.int_of_str_digits digits with
  | Ok n =>
      let value := n * factor in
      if value <? 1 then Ok None else Ok (Some value)
  | Raise e => Raise e
  end.

(** [_parse_window_to_seconds(window)]; [Ok None] stands for the
    [HTTPException] with status 400, [Raise ValueError] for the
    exception of [int] on more digits than it takes. *)
Definition _parse_window_to_seconds (window : string) : result (option Z) :=
  let raw := Py.lower (Py.strip window) in
  match unsnoc raw with
  | None => Ok None
  | Some (digits, last) =>
      if Ascii.eqb last "h" && Py.isdigit digits then scaled digits 3600
      else if Ascii.eqb last "m" && Py.isdigit digits then scaled digits 60
      else if Ascii.eqb last "s" && Py.isdigit digits then scaled digits 1
      else Ok None
  end.

End Api.

(** * Properties *)

(** ** The access parser *)

Section ParserFacts.

Import Parser.

(** C8: parsing the sample access line yields an event of type access
    with user_email user@example.com, dest_host example.com, dest_port
    443, is_domain true, status accepted and detour socks-in -> direct. *)
Theorem parse_line_sample_access :
  exists ev a,
    parse_line sample_access_line = Ok (Some ev)
    /\ event_type ev = "access"
    /\ access ev = Some a
    /\ user_email a = "user@example.com"
    /\ a_dest_host a = "example.com"
    /\ a_dest_port a = Some 443
    /\ is_domain a = true
    /\ status a = "accepted"
    /\ detour a = "socks-in -> direct".
Proof.
  do 2 eexists. split.
  - vm_compute. reflexivity.
  - cbn. repeat split; reflexivity.
Qed.

(** What [_parse_access] stores in [is_domain] and [confidence] *)
Lemma _parse_access_domain (t : Datetime.datetime) (body : string) (a : AccessEvent) :
  _parse_access t body = Some a ->
  is_domain a = Py.truthy (a_dest_host a) && negb (_is_ip (a_dest_host a))
  /\ confidence a = (if is_domain a then "high" else "low").
Proof.
  unfold _parse_access.
  destruct (Re.rmatch _ACCESS_RE body) as [m|]; [|discriminate].
  destruct (Re.search email_re _) as [[start em]|];
    destruct (_split_host_port _) as [host port];
    intros [= <-]; cbn; split; reflexivity.
Qed.

Lemma parse_line_access (line : string) (ev : ParsedEvent) (a : AccessEvent) :
  parse_line line = Ok (Some ev) -> access ev = Some a ->
  exists body, _parse_access (event_time ev) body = Some a.
Proof.
  unfold parse_line.
  destruct (_parse_timestamp_prefix line) as [[t|] body]; [|discriminate].
  destruct (_parse_access t body) as [a'|] eqn:Ha.
  - intros [= <-]; cbn. intros [= <-]. eauto.
  - destruct (_parse_dns t body) as [[d|]|e]; [| |discriminate];
      intros [= <-]; cbn; discriminate.
Qed.

Lemma truthy_spec (s : string) : Py.truthy s = true <-> s <> EmptyString.
Proof.
  unfold Py.truthy. destruct (String.eqb_spec s EmptyString); cbn; split;
    congruence.
Qed.

(** C6, as amended: for every access line parsed into an AccessEvent,
    is_domain is true if and only if dest_host is not empty and is not
    parseable as an IP address, confidence is high if and only if
    is_domain is true, and it is low otherwise.  In particular an empty
    dest_host, which is not parseable as an IP address, has is_domain
    false and confidence low. *)
Theorem access_event_is_domain (line : string) (ev : ParsedEvent) (a : AccessEvent) :
  parse_line line = Ok (Some ev) ->
  access ev = Some a ->
  (is_domain a = true <->
     a_dest_host a <> EmptyString /\ _is_ip (a_dest_host a) = false)
  /\ (confidence a = "high" <-> is_domain a = true)
  /\ (confidence a = "low" <-> is_domain a = false)
  /\ (a_dest_host a = EmptyString ->
      _is_ip (a_dest_host a) = false
      /\ is_domain a = false /\ confidence a = "low").
Proof.
  intros Hp Ha.
  destruct (parse_line_access _ _ _ Hp Ha) as [body Hb].
  destruct (_parse_access_domain _ _ _ Hb) as [Hd Hc].
  split; [|split; [|split]].
  - rewrite Hd, andb_true_iff, negb_true_iff, truthy_spec. reflexivity.
  - rewrite Hc. destruct (is_domain a); split; intros H; try reflexivity;
      discriminate.
  - rewrite Hc. destruct (is_domain a); split; intros H; try reflexivity;
      discriminate.
  - intros He. rewrite Hc, Hd, He. repeat split; vm_compute; reflexivity.
Qed.

Lemma access_event_is_domain_witness :
  exists ev a,
    parse_line empty_host_line = Ok (Some ev) /\ access ev = Some a
    /\ a_dest_host a = EmptyString
    /\ (is_domain a = true <->
          a_dest_host a <> EmptyString /\ _is_ip (a_dest_host a) = false)
    /\ (confidence a = "high" <-> is_domain a = true)
    /\ (confidence a = "low" <-> is_domain a = false)
    /\ _is_ip (a_dest_host a) = false
    /\ is_domain a = false /\ confidence a = "low".
Proof.
  eexists. eexists.
  assert (Hp : parse_line empty_host_line = Ok (Some _)) by (vm_compute; reflexivity).
  split; [exact Hp|]. split; [reflexivity|]. split; [reflexivity|].
  destruct (access_event_is_domain _ _ _ Hp eq_refl) as (H1 & H2 & H3 & H4).
  split; [exact H1|]. split; [exact H2|]. split; [exact H3|].
  exact (H4 eq_refl).
Defined.

(** C6, as stated, fails: on a line whose destination is the bare scheme
    the host is empty, hence not an IP address, and is_domain is false. *)
Lemma is_domain_iff_not_ip_fails :
  ~ (forall line ev a,
       parse_line line = Ok (Some ev) -> access ev = Some a ->
       (is_domain a = true <-> _is_ip (a_dest_host a) = false)
       /\ (confidence a = "high" <-> is_domain a = true)).
Proof.
  intros H.
  assert (Hp : exists ev a, parse_line empty_host_line = Ok (Some ev)
                            /\ access ev = Some a
                            /\ a_dest_host a = EmptyString
                            /\ is_domain a = false).
  { do 2 eexists. split; [vm_compute; reflexivity|]. cbn. auto. }
  destruct Hp as (ev & a & Hp & Ha & Hh & Hd).
  destruct (H _ _ _ Hp Ha) as [[_ Hi] _].
  rewrite Hh in Hi. rewrite Hi in Hd; [discriminate|].
  vm_compute. reflexivity.
Qed.

End ParserFacts.

(** ** The access filter *)

Section FilterFacts.

Import Filtering DropRules.

Lemma in_strs_In (s : string) (l : list string) : in_strs s l = true <-> In s l.
Proof.
  unfold in_strs. rewrite existsb_exists. split.
  - intros (x & Hx & He). apply String.eqb_eq in He. subst. exact Hx.
  - intros H. exists s. split; [exact H|apply String.eqb_refl].
Qed.

Lemma excluded_spec (cfg : FilterSettings) (a : AccessEvent) :
  negb (Nat.eqb (List.length (exclude_detours cfg)) 0)
  && in_strs (detour a) (exclude_detours cfg) = true
  <-> excluded_detour cfg a.
Proof.
  unfold excluded_detour. rewrite andb_true_iff, in_strs_In. split.
  - intros [_ H]. exact H.
  - intros H. split; [|exact H].
    destruct (exclude_detours cfg); [destruct H|reflexivity].
Qed.

Lemma loopback_spec (cfg : FilterSettings) (a : AccessEvent) :
  drop_loopback_traffic cfg
  && (Py.startswith "127.0.0.1" (Py.lower (a_src a))
      || Py.startswith "[::1]" (Py.lower (a_src a))
      || Py.startswith "::1" (Py.lower (a_src a))
      || in_strs (Py.lower (a_dest_host a)) ["127.0.0.1"; "localhost"; "::1"; "[::1]"])
  = true
  <-> loopback cfg a.
Proof.
  unfold loopback.
  rewrite andb_true_iff, !orb_true_iff, in_strs_In. split.
  - intros [Hf H]. split; [exact Hf|].
    destruct H as [H|H]; [|right; exact H].
    left. destruct H as [H|H]; [destruct H as [H|H]|];
      (eexists; split; [|exact H]; cbn; auto).
  - intros [Hf H]. split; [exact Hf|].
    destruct H as [(p & Hp & H)|H]; [|right; exact H]. left.
    simpl in Hp. repeat (destruct Hp as [<-|Hp]; [auto|]). destruct Hp.
Qed.

(** C9: should_drop_event is a function of the event and the filter
    configuration alone; it returns false for every event without an
    access payload, and for an access event it returns true if and only
    if one of the four configured drop predicates holds. *)
Theorem should_drop_event_spec (ev : ParsedEvent) (cfg : FilterSettings) :
  (access ev = None -> should_drop_event ev cfg = false)
  /\ (forall a, access ev = Some a ->
        (should_drop_event ev cfg = true <->
           api_to_api cfg a \/ excluded_detour cfg a
           \/ invalid_vless_probe cfg a \/ loopback cfg a)).
Proof.
  unfold should_drop_event. split.
  - intros ->. reflexivity.
  - intros a ->.
    rewrite <- loopback_spec, <- excluded_spec.
    unfold api_to_api, invalid_vless_probe.
    destruct (drop_api_to_api cfg && String.eqb (detour a) "api -> api") eqn:H1.
    { apply andb_true_iff in H1 as [H1 H1']. apply String.eqb_eq in H1'. tauto. }
    destruct (negb (Nat.eqb (List.length (exclude_detours cfg)) 0)
              && in_strs (detour a) (exclude_detours cfg)) eqn:H2.
    { tauto. }
    destruct (drop_invalid_vless_probe cfg
              && (String.eqb (status a) "rejected"
                  && String.eqb (a_dest_raw a) "proxy/vless/encoding:"
                  && Py.contains "invalid request version" (Py.lower (reason a))))
      eqn:H3.
    { apply andb_true_iff in H3 as [H3 H3'].
      apply andb_true_iff in H3' as [H3' H3''].
      apply andb_true_iff in H3' as [H3' H3'''].
      apply String.eqb_eq in H3', H3'''. tauto. }
    assert (N1 : ~ (drop_api_to_api cfg = true /\ detour a = "api -> api")).
    { intros [Ha Hb]. rewrite Ha, Hb in H1. discriminate. }
    assert (N3 : ~ (drop_invalid_vless_probe cfg = true
                    /\ status a = "rejected"
                    /\ a_dest_raw a = "proxy/vless/encoding:"
                    /\ Py.contains "invalid request version" (Py.lower (reason a)) = true)).
    { intros (Ha & Hb & Hc & Hd). rewrite Ha, Hb, Hc, Hd in H3. discriminate. }
    destruct (drop_loopback_traffic cfg); cbn [andb].
    + destruct (Py.startswith "127.0.0.1" (Py.lower (a_src a))
                || Py.startswith "[::1]" (Py.lower (a_src a))
                || Py.startswith "::1" (Py.lower (a_src a))) eqn:H4; cbn [orb].
      * tauto.
      * destruct (in_strs (Py.lower (a_dest_host a)) _); intuition congruence.
    + intuition congruence.
Qed.

End FilterFacts.

Lemma should_drop_event_spec_witness :
  Parser.parse_line api_line = Ok (Some api_event)
  /\ Filtering.should_drop_event unknown_event default_filter = false
  /\ Filtering.should_drop_event api_event default_filter = true.
Proof.
  split; [vm_compute; reflexivity|]. split.
  - apply (proj1 (should_drop_event_spec unknown_event default_filter)).
    reflexivity.
  - apply (proj2 (should_drop_event_spec api_event default_filter)
                 api_access eq_refl).
    left. split; reflexivity.
Defined.

(** ** The error classifier *)

Section ClassifierFacts.

Import ErrorParser.

Lemma classify_in_categories (c m l : string) :
  In (_classify c m l) classifier_categories.
Proof.
  unfold _classify, classifier_categories.
  repeat match goal with
         | |- context [if ?b then _ else _] => destruct b
         end;
    simpl; repeat (first [left; reflexivity | right]).
Qed.

Lemma classify_not_scan_noise (c m l : string) : _classify c m l <> "scan_noise".
Proof.
  intros H. pose proof (classify_in_categories c m l) as Hin.
  rewrite H in Hin. simpl in Hin.
  repeat (destruct Hin as [Hin|Hin]; [discriminate Hin|]). exact Hin.
Qed.

Lemma classifier_samples_cover :
  List.map classify_sample classifier_samples = classifier_categories.
Proof. vm_compute. reflexivity. Qed.

Lemma classifier_categories_nodup : List.NoDup classifier_categories.
Proof.
  unfold classifier_categories.
  repeat (apply List.NoDup_cons;
          [simpl; intros H;
           repeat (destruct H as [H|H]; [discriminate H|]); exact H|]).
  apply List.NoDup_nil.
Qed.

Lemma parse_error_line_category (line : string) (ev : ParsedErrorEvent) :
  parse_error_line line = Some ev ->
  category ev = _classify (component ev) (message ev) (level ev)
  /\ is_noise ev = existsb (String.eqb (category ev)) noise_categories.
Proof.
  unfold parse_error_line.
  destruct (Re.rmatch _LINE_RE _) as [m|]; [|discriminate].
  destruct (_parse_datetime _) as [t|]; [|discriminate].
  destruct (Re.search _DEST_RE _) as [[i dm]|].
  - destruct (_split_host_port _) as [h p]. intros [= <-]. cbn. auto.
  - intros [= <-]. cbn. auto.
Qed.

(** C10, as amended: the classifier is total and returns exactly one of
    the twelve categories probe_invalid_vless, api_loopback, dns_error,
    dns_info, network_timeout, network_refused, auth_error, routing,
    runtime_error, runtime_warning, debug_trace, runtime_info, each of
    which it does return; scan_noise is not among them, so every parsed
    error event with is_noise true has category probe_invalid_vless or
    api_loopback. *)
Theorem classify_total_range :
  (forall c m l, In (_classify c m l) classifier_categories)
  /\ List.length classifier_categories = 12%nat
  /\ (forall cat, In cat classifier_categories -> exists c m l, _classify c m l = cat)
  /\ (forall c m l, _classify c m l <> "scan_noise")
  /\ (forall line ev,
        parse_error_line line = Some ev -> is_noise ev = true ->
        category ev = "probe_invalid_vless" \/ category ev = "api_loopback").
Proof.
  split; [exact classify_in_categories|].
  split; [reflexivity|].
  split.
  { intros cat Hin. rewrite <- classifier_samples_cover in Hin.
    apply List.in_map_iff in Hin as ([[c m] l] & <- & _). eauto. }
  split; [exact classify_not_scan_noise|].
  intros line ev Hp Hn.
  destruct (parse_error_line_category _ _ Hp) as [Hc Hi].
  rewrite Hn in Hi. symmetry in Hi. apply existsb_exists in Hi as (x & Hx & He).
  apply String.eqb_eq in He. subst x. simpl in Hx.
  destruct Hx as [Hx|Hx]; [left; congruence|].
  destruct Hx as [Hx|Hx]; [right; congruence|].
  destruct Hx as [Hx|Hx]; [|destruct Hx].
  exfalso. apply (classify_not_scan_noise (component ev) (message ev) (level ev)).
  congruence.
Qed.

Lemma classify_total_range_witness :
  exists ev,
    parse_error_line probe_line = Some ev /\ is_noise ev = true
    /\ (category ev = "probe_invalid_vless" \/ category ev = "api_loopback").
Proof.
  eexists.
  assert (Hp : parse_error_line probe_line = Some _) by (vm_compute; reflexivity).
  split; [exact Hp|]. split; [reflexivity|].
  exact (proj2 (proj2 (proj2 (proj2 classify_total_range))) _ _ Hp eq_refl).
Defined.

(** C10, as stated, fails: no set of eleven categories holds every value
    the classifier returns. *)
Lemma classify_not_eleven :
  ~ (exists cats : list string,
       List.length cats = 11%nat /\ forall c m l, In (_classify c m l) cats).
Proof.
  intros (cats & Hlen & Hall).
  assert (Hincl : List.incl classifier_categories cats).
  { intros cat Hin. rewrite <- classifier_samples_cover in Hin.
    apply List.in_map_iff in Hin as ([[c m] l] & <- & _). apply Hall. }
  pose proof (List.NoDup_incl_length classifier_categories_nodup Hincl) as Hle.
  rewrite Hlen in Hle. simpl in Hle. lia.
Qed.

End ClassifierFacts.

(** ** The level threshold of the collector loop *)

Section LevelFilter.

Import ErrorParser Collector.

Lemma consume_error_line_appends (r : Z) (dn : bool)
    (eb : list ParsedErrorEvent) (st : CollectorStats) (line : string) :
  exists added,
    fst (consume_error_line r dn (eb, st) line) = (eb ++ added)%list
    /\ Forall (fun ev => r <= level_rank (level ev)) added.
Proof.
  unfold consume_error_line.
  destruct (parse_error_line line) as [ev|].
  - destruct (level_rank (level ev) <? r) eqn:Hr.
    + exists []. cbn. rewrite List.app_nil_r. auto.
    + destruct (dn && is_noise ev).
      * exists []. cbn. rewrite List.app_nil_r. auto.
      * exists [ev]. cbn. split; [reflexivity|].
        constructor; [|constructor]. apply Z.ltb_ge in Hr. exact Hr.
  - exists []. cbn. rewrite List.app_nil_r. auto.
Qed.

Lemma consume_error_lines_append (r : Z) (dn : bool) (lines : list string) :
  forall (eb : list ParsedErrorEvent) (st : CollectorStats),
  exists added,
    fst (List.fold_left (consume_error_line r dn) lines (eb, st)) = (eb ++ added)%list
    /\ Forall (fun ev => r <= level_rank (level ev)) added.
Proof.
  induction lines as [|line lines IH]; intros eb st.
  - exists []. cbn. rewrite List.app_nil_r. auto.
  - cbn [List.fold_left].
    destruct (consume_error_line_appends r dn eb st line) as (a1 & H1 & F1).
    destruct (consume_error_line r dn (eb, st) line) as [eb1 st1]. cbn in H1.
    subst eb1.
    destruct (IH (eb ++ a1)%list st1) as (a2 & H2 & F2).
    exists (a1 ++ a2)%list. rewrite H2, List.app_assoc. split; [reflexivity|].
    apply Forall_app. auto.
Qed.

(** C4: the ranks are debug 10, info 20, warning 30, error 40 and unknown
    0, and for a configured minimum level among info, warning and error,
    every event the loop appends to the error batch has a level rank
    greater than or equal to the rank of the minimum level. *)
Theorem error_batch_level_threshold (k : Knobs) (min_level : string)
    (lines : list string) (eb : list ParsedErrorEvent) (st : CollectorStats) :
  In min_level ["info"; "warning"; "error"] ->
  k_error_min_level k = min_level ->
  (level_rank "debug" = 10 /\ level_rank "info" = 20 /\ level_rank "warning" = 30
   /\ level_rank "error" = 40 /\ level_rank "unknown" = 0)
  /\ exists added,
       fst (List.fold_left
              (consume_error_line (min_error_level_rank k) (k_error_drop_noise k))
              lines (eb, st)) = (eb ++ added)%list
       /\ Forall (fun ev => level_rank min_level <= level_rank (level ev)) added.
Proof.
  intros Hmin Hk. split; [repeat split; reflexivity|].
  assert (Hr : min_error_level_rank k = level_rank min_level).
  { unfold min_error_level_rank. rewrite Hk. simpl in Hmin.
    destruct Hmin as [<-|Hmin]; [reflexivity|].
    destruct Hmin as [<-|Hmin]; [reflexivity|].
    destruct Hmin as [<-|Hmin]; [reflexivity|destruct Hmin]. }
  rewrite Hr. apply consume_error_lines_append.
Qed.

Lemma error_batch_level_threshold_witness :
  exists added,
    fst (List.fold_left
           (consume_error_line (min_error_level_rank default_knobs) false)
           sample_error_lines ([], initial_stats)) = added
    /\ List.length added = 2%nat
    /\ Forall (fun ev => 30 <= level_rank (level ev)) added.
Proof.
  destruct (error_batch_level_threshold default_knobs "warning" sample_error_lines
              [] initial_stats) as (_ & added & Ha & Hf).
  - simpl. auto.
  - reflexivity.
  - exists added. split; [exact Ha|]. split; [|exact Hf].
    simpl in Ha. rewrite <- Ha. vm_compute. reflexivity.
Defined.

End LevelFilter.

(** ** The tailer *)

Section TailerFacts.

Import Tailer.

Lemma drop_drop (n m : nat) (s : string) :
  Py.drop n (Py.drop m s) = Py.drop (m + n) s.
Proof.
  revert s. induction m as [|m IH]; intros s; [reflexivity|].
  destruct s as [|a s]; cbn.
  - destruct n; reflexivity.
  - apply IH.
Qed.

Lemma splitlines_first_line (s : string) :
  s <> EmptyString ->
  splitlines s
  = first_line s :: splitlines (Py.drop (String.length (first_line s)) s).
Proof.
  induction s as [|a s IH]; intros Hne; [congruence|].
  cbn [splitlines first_line]. destruct (Ascii.eqb a "010"); [reflexivity|].
  cbn [String.length Py.drop].
  destruct (string_dec s EmptyString) as [->|Hs]; [reflexivity|].
  rewrite (IH Hs). reflexivity.
Qed.

Lemma first_line_empty (s : string) : Py.truthy (first_line s) = false -> s = EmptyString.
Proof.
  destruct s as [|a s]; [reflexivity|]. cbn.
  destruct (Ascii.eqb a "010"); discriminate.
Qed.

(** The loop of [read_new_lines] returns the next lines of the open file. *)
Lemma read_loop_lines (fs : file_system) (n : nat) :
  forall (h : handle) (off : Z),
    0 <= h_pos h ->
    fst (fst (read_loop fs n h off))
    = firstn n (splitlines (Py.drop (Z.to_nat (h_pos h)) (content fs (h_ino h)))).
Proof.
  induction n as [|n IH]; intros h off Hpos; [reflexivity|].
  cbn [read_loop readline].
  destruct (Py.truthy (first_line _)) eqn:Hl.
  - specialize (IH {| h_ino := h_ino h;
                      h_pos := h_pos h + Z.of_nat (String.length
                        (first_line (Py.drop (Z.to_nat (h_pos h)) (content fs (h_ino h))))) |}
                   (h_pos h + Z.of_nat (String.length
                        (first_line (Py.drop (Z.to_nat (h_pos h)) (content fs (h_ino h))))))).
    cbn [h_ino h_pos] in IH.
    destruct (read_loop fs n _ _) as [[out h''] off'']. cbn [fst] in *.
    rewrite IH by lia.
    destruct (Py.drop (Z.to_nat (h_pos h)) (content fs (h_ino h))) as [|a s] eqn:Hd;
      [vm_compute in Hl; discriminate Hl|].
    rewrite (splitlines_first_line (String a s)) by discriminate. cbn [firstn]. f_equal. f_equal. f_equal.
    rewrite <- Hd, drop_drop. f_equal. lia.
  - apply first_line_empty in Hl. rewrite Hl. reflexivity.
Qed.

(** A loop that returns no line leaves the handle and the offset alone. *)
Lemma read_loop_nil (fs : file_system) (n : nat) (h h' : handle) (off off' : Z) :
  read_loop fs n h off = ([], h', off') -> h' = h /\ off' = off.
Proof.
  destruct n as [|n]; cbn [read_loop readline].
  - intros [= <- <-]. auto.
  - destruct (Py.truthy _).
    + destruct (read_loop fs n _ _) as [[out h''] off'']. discriminate.
    + intros [= <- <-]. auto.
Qed.

Lemma stat_size_nonneg (fs : file_system) (p : string) (st : stat_result) :
  stat fs p = Some st -> 0 <= st_size st.
Proof.
  unfold stat. destruct (dentry fs !! p); [|discriminate].
  intros [= <-]. cbn. lia.
Qed.

(** A poll of a tailer whose handle stands at position 0 returns the first
    lines of whatever the file holds. *)
Lemma read_new_lines_from_start (fs : file_system) (t : LogTailer) (h : handle)
    (m : Z) :
  _fh t = Some h -> h_pos h = 0 ->
  fst (read_new_lines fs t m)
  = firstn (Z.to_nat m) (splitlines (content fs (h_ino h))).
Proof.
  intros Hfh Hpos. unfold read_new_lines, _ensure_open. rewrite Hfh.
  cbv beta iota. rewrite Hfh.
  pose proof (read_loop_lines fs (Z.to_nat m) h (_offset t)) as Hl.
  rewrite Hpos in Hl. change (Z.to_nat 0) with 0%nat in Hl. cbn [Py.drop] in Hl.
  destruct (read_loop fs (Z.to_nat m) h (_offset t)) as [[out h'] off'].
  cbn [fst] in Hl. rewrite <- Hl by lia.
  destruct out; reflexivity.
Qed.

(** C3: when the stored offset exceeds the size of the file, a poll that
    yields no line leaves the handle at position 0 and the stored offset
    at 0, so the next poll returns the lines of whatever plain text the
    file then holds, read from its first byte. *)
Theorem copytruncate_resumes_from_zero (fs : file_system) (t : LogTailer)
    (n : Z) (st : stat_result) (t' : LogTailer) :
  stat fs (path t) = Some st ->
  st_size st < _offset t ->
  read_new_lines fs t n = ([], t') ->
  _offset t' = 0
  /\ exists h',
       _fh t' = Some h' /\ h_pos h' = 0
       /\ (handle_recorded t -> h_ino h' = st_ino st)
       /\ forall fs' m,
            plain (content fs' (h_ino h')) = true ->
            fst (read_new_lines fs' t' m)
            = firstn (Z.to_nat m) (splitlines (content fs' (h_ino h'))).
Proof.
  intros Hst Hlt Hread.
  pose proof (stat_size_nonneg _ _ _ Hst) as Hsz.
  assert (Hmain : _offset t' = 0
                  /\ exists h', _fh t' = Some h' /\ h_pos h' = 0
                                /\ (handle_recorded t -> h_ino h' = st_ino st)).
  { unfold read_new_lines, _ensure_open in Hread.
    destruct (_fh t) as [h|] eqn:Hfh.
    - (* the file is open *)
      cbv beta iota in Hread. rewrite Hfh in Hread.
      destruct (read_loop fs (Z.to_nat n) h (_offset t)) as [[out h1] off1] eqn:Hloop.
      destruct out as [|l out]; [|discriminate].
      apply read_loop_nil in Hloop as [-> ->].
      injection Hread as <-.
      unfold _check_rotation_or_truncate. cbn [path _inode _fh _offset].
      rewrite Hst.
      destruct (match _inode t with
                | Some i => negb (st_ino st =? i)
                | None => false
                end) eqn:Hrot.
      + unfold _open. cbn [path _offset]. rewrite Hst.
        destruct (st_size st <? 0) eqn:Hneg; [apply Z.ltb_lt in Hneg; lia|].
        cbn. split; [reflexivity|]. eexists. split; [reflexivity|]. cbn. auto.
      + apply Z.ltb_lt in Hlt. rewrite Hlt. cbn.
        split; [reflexivity|]. eexists. split; [reflexivity|]. cbn.
        split; [reflexivity|]. intros Hrec. specialize (Hrec h Hfh).
        rewrite Hrec in Hrot. apply negb_false_iff, Z.eqb_eq in Hrot. auto.
    - (* the file is opened by this poll *)
      unfold _open in Hread. rewrite Hst in Hread.
      apply Z.ltb_lt in Hlt. rewrite Hlt in Hread. cbn [_fh] in Hread.
      destruct (read_loop fs (Z.to_nat n) _ _) as [[out h1] off1] eqn:Hloop.
      destruct out as [|l out]; [|discriminate].
      apply read_loop_nil in Hloop as [-> ->].
      injection Hread as <-.
      unfold _check_rotation_or_truncate. cbn [path _inode _fh _offset].
      rewrite Hst. rewrite Z.eqb_refl. cbn [negb].
      destruct (st_size st <? 0) eqn:Hneg; [apply Z.ltb_lt in Hneg; lia|].
      cbn. split; [reflexivity|]. eexists. split; [reflexivity|]. cbn. auto. }
  destruct Hmain as (Hoff & h' & Hfh' & Hpos' & Hino).
  split; [exact Hoff|]. exists h'. repeat split; auto.
  intros fs' m _. apply read_new_lines_from_start; assumption.
Qed.

Lemma copytruncate_resumes_from_zero_witness :
  fst Scenario.poll1 = ["a" ++ LF]
  /\ fst Scenario.poll2 = []
  /\ _offset (snd Scenario.poll2) = 0
  /\ fst Scenario.poll3 = ["b" ++ LF].
Proof.
  assert (Hst : stat Scenario.fs2 (path (snd Scenario.poll1))
                = Some {| st_ino := 7; st_size := 0 |})
    by (vm_compute; reflexivity).
  assert (Hlt : st_size {| st_ino := 7; st_size := 0 |} < _offset (snd Scenario.poll1))
    by (vm_compute; reflexivity).
  assert (Hr : read_new_lines Scenario.fs2 (snd Scenario.poll1) 4096
               = ([], snd Scenario.poll2))
    by (vm_compute; reflexivity).
  assert (Hrec : handle_recorded (snd Scenario.poll1)).
  { intros h Hh. vm_compute in Hh. injection Hh as <-. vm_compute. reflexivity. }
  destruct (copytruncate_resumes_from_zero _ _ _ _ _ Hst Hlt Hr)
    as (Hoff & h' & Hfh & Hpos & Hino & Hnext).
  split; [vm_compute; reflexivity|].
  split; [vm_compute; reflexivity|].
  split; [exact Hoff|].
  unfold Scenario.poll3. rewrite Hnext; rewrite (Hino Hrec); vm_compute; reflexivity.
Defined.

End TailerFacts.

(** ** Updates of the runtime configuration *)

Section ConfigFacts.

Import Storage RuntimeConfig ConfigRules.

Variable py_repr : pyval -> string.
Variable float_of_str : string -> option spec_float.

Lemma normalize_items_invalid (values : list (string * pyval)) :
  forall normalized,
    Exists (invalid_item py_repr float_of_str) values ->
    exists e, normalize_items py_repr float_of_str values normalized = Raise e.
Proof.
  induction values as [|[key raw] values IH]; intros normalized Hex.
  - inversion Hex.
  - cbn [normalize_items].
    destruct (editable_field key) as [field|] eqn:Hf; [|eauto].
    destruct (_normalize_value py_repr float_of_str field raw) as [v|e] eqn:Hn;
      [|eauto].
    apply IH. inversion Hex as [? ? Hinv|? ? Hrest]; subst; [|exact Hrest].
    unfold invalid_item in Hinv. cbn [fst snd] in Hinv. rewrite Hf in Hinv.
    destruct Hinv as [e He]. congruence.
Qed.

(** A batch with an invalid item is rejected as a whole: [update_items]
    raises, and neither the tables nor the cache of the manager change. *)
Lemma update_items_rejects_atomically (values : list (string * pyval))
    (changed_by source_ip : string) (e : env) :
  Exists (invalid_item py_repr float_of_str) values ->
  exists ex,
    update_items py_repr float_of_str values changed_by source_ip e = (Raise ex, e).
Proof.
  intros Hex. unfold update_items.
  destruct (normalize_items_invalid values [] Hex) as [ex ->].
  exists ex. reflexivity.
Qed.

(** C5 at the input that breaks it: an integer beyond the range of a
    float, given to an integer field, fails the range check, yet what
    [update_items] raises is the [OverflowError] of the conversion to
    float, not the validation error; nothing is persisted. *)
Theorem update_items_overflow_escapes (changed_by source_ip : string) (e : env) :
  Exists (invalid_item py_repr float_of_str) huge_batch_size
  /\ update_items py_repr float_of_str huge_batch_size changed_by source_ip e
     = (Raise OverflowError, e).
Proof.
  assert (Hn : _normalize_value py_repr float_of_str
                 (fld "AUDIT_BATCH_SIZE" "collector" "Batch Size"
                      "Maximum parsed rows buffered before flush." "int"
                      (num 1) (num 20000) None) (PInt (10 ^ 400))
               = Raise OverflowError).
  { vm_compute. reflexivity. }
  split.
  - constructor. unfold invalid_item. cbn [fst snd].
    change (editable_field "AUDIT_BATCH_SIZE")
      with (Some (fld "AUDIT_BATCH_SIZE" "collector" "Batch Size"
                      "Maximum parsed rows buffered before flush." "int"
                      (num 1) (num 20000) None)).
    cbv beta iota. eexists. exact Hn.
  - assert (Hi : normalize_items py_repr float_of_str huge_batch_size []
                 = Raise OverflowError) by (vm_compute; reflexivity).
    unfold update_items. rewrite Hi. reflexivity.
Qed.

(** A batch whose second item is out of range raises the validation error
    and persists nothing, not even its valid first item. *)
Example update_items_mixed_batch :
  update_items py_repr float_of_str mixed_batch "admin" "10.0.0.1" empty_env
  = (Raise ValueError, empty_env).
Proof. vm_compute. reflexivity. Qed.

(** A valid batch is persisted: one row and one history row per key. *)
Example update_items_valid_batch :
  let '(r, e) := update_items py_repr float_of_str
                   [("AUDIT_BATCH_SIZE", PStr " 500 "); ("AUDIT_ERROR_MIN_LEVEL", PStr "Error")]
                   "admin" "10.0.0.1" empty_env in
  (exists items, r = Ok items)
  /\ value_json <$> (audit_runtime_config (tables (conn e)) !! "AUDIT_BATCH_SIZE")
     = Some (PInt 500)
  /\ value_json <$> (audit_runtime_config (tables (conn e)) !! "AUDIT_ERROR_MIN_LEVEL")
     = Some (PStr "error")
  /\ List.length (audit_runtime_config_history (tables (conn e))) = 2%nat
  /\ _overrides (manager e) !! "AUDIT_BATCH_SIZE" = Some (PInt 500).
Proof.
  destruct (update_items _ _ _ _ _ _) as [r e] eqn:Hu.
  vm_compute in Hu. injection Hu as <- <-.
  split; [eexists; reflexivity|]. repeat split; vm_compute; reflexivity.
Qed.

End ConfigFacts.

(** ** The flush protocol *)

Section FlushFacts.

Import Storage Collector Site.

(** Every flush of error events alone, on a server that does not fail,
    commits the state of both logs first and the rows of the events last. *)
Lemma flush_error_batch_journal (cfg : Settings) (k : Knobs) (s : state)
    (et : Tailer.LogTailer) (ev : ParsedErrorEvent) (eb : list ParsedErrorEvent) :
  error_tailer s = Some et ->
  faults (ingestor s) = [] ->
  journal (ingestor (snd (_flush cfg k [] (ev :: eb) s)))
  = (journal (ingestor s)
     ++ [CommitState (log_path cfg) (Tailer._inode (tailer s)) (Tailer._offset (tailer s));
         CommitState (error_log_path cfg) (Tailer._inode et) (Tailer._offset et);
         CommitErrorEvents (ev :: eb)])%list.
Proof.
  intros Het Hf. unfold _flush, bind, ret, get, db, zoom, save_state,
    ingest_error_events, transaction, modify, _publish_health, redis_call.
  cbn. rewrite Hf. cbn. rewrite Het. cbn.
  destruct (cache_on cfg k); cbn.
  - destruct (redis_faults s) as [|[] ?]; cbn; rewrite <- !List.app_assoc; reflexivity.
  - rewrite <- !List.app_assoc. reflexivity.
Qed.

(** The access side keeps the order: the rows first, the offset after. *)
Lemma flush_access_batch_journal (cfg : Settings) (k : Knobs) (s : state)
    (et : Tailer.LogTailer) (ev : ParsedEvent) (b : list ParsedEvent) :
  error_tailer s = Some et ->
  faults (ingestor s) = [] ->
  cache_on cfg k = false ->
  journal (ingestor (snd (_flush cfg k (ev :: b) [] s)))
  = (journal (ingestor s)
     ++ [CommitEvents (ev :: b);
         CommitState (log_path cfg) (Tailer._inode (tailer s)) (Tailer._offset (tailer s));
         CommitState (error_log_path cfg) (Tailer._inode et) (Tailer._offset et)])%list.
Proof.
  intros Het Hf Hc. unfold _flush, bind, ret, get, db, zoom, save_state,
    ingest_events, transaction, modify, _publish_health.
  rewrite Hc. cbn. rewrite Hf. cbn. rewrite Het. cbn.
  rewrite <- !List.app_assoc. reflexivity.
Qed.

(** C1 at the input that breaks it: a flush of one error event.  The
    offset of the error log is committed before the rows of the error
    events; when the insertion of the rows then fails, the persisted
    offset already covers the line and no row is stored.  The event is
    then only in the memory of the process: a collector that starts again
    from the persisted state never reads the line. *)
Theorem flush_commits_error_offset_before_error_rows :
  let committed := snd (first_iteration []) in
  let failed := snd (first_iteration [false; false; false; false; true]) in
  let resumed := snd (restart failed) in
  (exists ev,
     ErrorParser.parse_error_line warning_line = Some ev
     /\ journal (ingestor committed)
        = [CommitState (log_path settings) (Some 1) 0;
           CommitState (error_log_path settings) (Some 2) 107;
           CommitErrorEvents [ev]]
     /\ error_batch failed = [ev])
  /\ String.length warning_line = 107%nat
  /\ persisted failed (error_log_path settings) = (Some 2, 107)
  /\ audit_error_events (tables (ingestor failed)) = ∅
  /\ persisted resumed (error_log_path settings) = (Some 2, 107)
  /\ error_batch resumed = []
  /\ audit_error_events (tables (ingestor resumed)) = ∅.
Proof.
  cbv zeta. split.
  - eexists. split; [vm_compute; reflexivity|].
    split; vm_compute; reflexivity.
  - repeat split; vm_compute; reflexivity.
Qed.

End FlushFacts.

(** ** Persisted offsets *)

Section OffsetFacts.

Import Storage Tailer Collector Monotone.

Lemma length_drop (n : nat) (s : string) :
  String.length (Py.drop n s) = (String.length s - n)%nat.
Proof.
  revert s. induction n as [|n IH]; intros s; cbn.
  - lia.
  - destruct s as [|a s]; cbn; [reflexivity|apply IH].
Qed.

Lemma length_append (s1 s2 : string) :
  String.length (s1 ++ s2) = (String.length s1 + String.length s2)%nat.
Proof.
  induction s1 as [|a s1 IH]; [reflexivity|].
  change (S (String.length (s1 ++ s2)) = S (String.length s1 + String.length s2)).
  rewrite IH. reflexivity.
Qed.

Lemma length_first_line (s : string) :
  (String.length (first_line s) <= String.length s)%nat.
Proof.
  induction s as [|a s IH]; cbn; [lia|].
  destruct (Ascii.eqb a "010"); cbn; lia.
Qed.

(** The loop of [read_new_lines] moves the handle forward, within the
    file, and keeps the offset equal to its position. *)
Lemma read_loop_within (fs : file_system) (n : nat) :
  forall (h : handle) (off : Z) (out : list string) (h' : handle) (off' : Z),
    0 <= off -> h_pos h = off ->
    off <= Z.of_nat (String.length (content fs (h_ino h))) ->
    read_loop fs n h off = (out, h', off') ->
    h_ino h' = h_ino h /\ h_pos h' = off' /\ off <= off'
    /\ off' <= Z.of_nat (String.length (content fs (h_ino h))).
Proof.
  induction n as [|n IH]; intros h off out h' off' H0 Hp Hle; cbn [read_loop readline].
  - intros [= <- <- <-]. auto with zarith.
  - destruct (Py.truthy _).
    + destruct (read_loop fs n _ _) as [[out1 h1] off1] eqn:Hloop.
      intros [= <- <- <-].
      pose proof (length_first_line (Py.drop (Z.to_nat (h_pos h)) (content fs (h_ino h)))) as Hl.
      rewrite length_drop in Hl.
      apply IH in Hloop; cbn [h_ino h_pos] in *; [|lia|reflexivity|lia].
      destruct Hloop as (Hi & Hq & Hlo & Hhi). repeat split; auto; lia.
    + intros [= <- <- <-]. auto with zarith.
Qed.

Lemma tailer_ok_open (fs : file_system) (t : LogTailer) (h : handle) :
  tailer_ok fs t -> _fh t = Some h ->
  stat fs (path t)
  = Some {| st_ino := h_ino h;
            st_size := Z.of_nat (String.length (content fs (h_ino h))) |}.
Proof.
  intros [_ Hok] Hfh. rewrite Hfh in Hok. destruct Hok as (Hd & _).
  unfold stat. rewrite Hd. reflexivity.
Qed.

(** A poll keeps the tailer in agreement with the file and never moves
    the offset back. *)
Lemma read_new_lines_ok (fs : file_system) (t : LogTailer) (n : Z) :
  tailer_ok fs t ->
  tailer_ok fs (snd (read_new_lines fs t n))
  /\ path (snd (read_new_lines fs t n)) = path t
  /\ _offset t <= _offset (snd (read_new_lines fs t n)).
Proof.
  intros Hok.
  assert (Hopen : forall t1 h,
            tailer_ok fs t1 -> _fh t1 = Some h ->
            let r := match read_loop fs (Z.to_nat n) h (_offset t1) with
                     | (out, h', offset') =>
                         let t2 := {| path := path t1; _fh := Some h';
                                      _inode := _inode t1; _offset := offset' |} in
                         match out with
                         | [] => ([], _check_rotation_or_truncate fs t2)
                         | _ :: _ => (out, t2)
                         end
                     end in
            tailer_ok fs (snd r) /\ path (snd r) = path t1
            /\ _offset t1 <= _offset (snd r)).
  { intros t1 h Hok1 Hfh. cbv zeta.
    pose proof Hok1 as [H0 Hh]. rewrite Hfh in Hh.
    destruct Hh as (Hd & Hi & Hp & Hle).
    destruct (read_loop fs (Z.to_nat n) h (_offset t1)) as [[out h'] off'] eqn:Hloop.
    apply read_loop_within in Hloop; auto.
    destruct Hloop as (Hi' & Hp' & Hlo & Hhi).
    assert (Hok2 : tailer_ok fs {| path := path t1; _fh := Some h';
                                   _inode := _inode t1; _offset := off' |}).
    { split; cbn; [lia|]. rewrite Hi'. auto. }
    destruct out as [|l out]; cbn [snd]; [|auto].
    unfold _check_rotation_or_truncate. cbn [path _inode _fh _offset].
    unfold stat. rewrite Hd. rewrite Hi. rewrite Z.eqb_refl. cbn [negb st_size st_ino].
    destruct (Z.of_nat _ <? off') eqn:Hlt; [apply Z.ltb_lt in Hlt; lia|].
    rewrite Hi in Hok2. split; [exact Hok2|]. cbn. auto. }
  unfold read_new_lines, _ensure_open.
  destruct (_fh t) as [h|] eqn:Hfh.
  - cbv beta iota. rewrite Hfh. apply (Hopen t h Hok Hfh).
  - unfold _open. destruct (stat fs (path t)) as [st|] eqn:Hst.
    + destruct Hok as [H0 Hcl]. rewrite Hfh in Hcl. specialize (Hcl st Hst).
      destruct (st_size st <? _offset t) eqn:Hlt; [apply Z.ltb_lt in Hlt; lia|].
      cbv beta iota. cbn [_fh].
      set (t1 := {| path := path t;
                    _fh := Some {| h_ino := st_ino st; h_pos := _offset t |};
                    _inode := Some (st_ino st); _offset := _offset t |}).
      assert (Hok1 : tailer_ok fs t1).
      { split; cbn; [exact H0|].
        unfold stat in Hst. destruct (dentry fs !! path t) as [i|] eqn:Hd;
          [|discriminate].
        injection Hst as <-. cbn in *. auto. }
      exact (Hopen t1 _ Hok1 eq_refl).
    + cbn. split; [exact Hok|]. split; [reflexivity|lia].
Qed.

Lemma content_append (fs : file_system) (p data : string) (i : Z) :
  (String.length (content fs i) <= String.length (content (append fs p data) i))%nat.
Proof.
  unfold append. destruct (dentry fs !! p) as [j|]; [|lia].
  unfold content at 2. cbn [blocks].
  destruct (decide (j = i)) as [->|Hne].
  - rewrite lookup_insert_eq. cbn. rewrite length_append. lia.
  - rewrite lookup_insert_ne by exact Hne. unfold content. lia.
Qed.

Lemma dentry_append (fs : file_system) (p data : string) :
  dentry (append fs p data) = dentry fs.
Proof. unfold append. destruct (dentry fs !! p); reflexivity. Qed.

Lemma tailer_ok_append (fs : file_system) (p data : string) (t : LogTailer) :
  tailer_ok fs t -> tailer_ok (append fs p data) t.
Proof.
  intros [H0 Hok]. split; [exact H0|].
  destruct (_fh t) as [h|].
  - destruct Hok as (Hd & Hi & Hp & Hle). rewrite dentry_append.
    pose proof (content_append fs p data (h_ino h)). repeat split; auto; lia.
  - intros st Hst. unfold stat in Hst. rewrite dentry_append in Hst.
    destruct (dentry fs !! path t) as [i|] eqn:Hd; [|discriminate].
    injection Hst as <-. cbn.
    specialize (Hok _ ltac:(unfold stat; rewrite Hd; reflexivity)). cbn in Hok.
    pose proof (content_append fs p data i). lia.
Qed.

End OffsetFacts.

Section FrameFacts.

Import Storage Tailer Collector Monotone.

Variable cfg : Settings.
Variables lo le : Z.
Variable d0 : gmap string Z.

Abbreviation frame := (frame cfg lo le d0).
Abbreviation locked := (locked cfg lo le d0).

(** *** The rules of the monad *)

Lemma preserves_ret {A : Type} (P : state -> Prop) (a : A) : preserves P (ret a).
Proof. intros s H. exact H. Qed.

Lemma preserves_bind {A B : Type} (P : state -> Prop) (m : M state A)
    (k : A -> M state B) :
  preserves P m -> (forall a, preserves P (k a)) -> preserves P (bind m k).
Proof.
  intros Hm Hk s H. unfold bind. specialize (Hm s H).
  destruct (m s) as [[a|e] s1]; cbn [snd] in *; [apply Hk; exact Hm|exact Hm].
Qed.

Lemma preserves_get_bind {B : Type} (P : state -> Prop) (k : state -> M state B) :
  (forall s, P s -> P (snd (k s s))) -> preserves P (bind get k).
Proof. intros Hk s H. unfold bind, get. apply Hk. exact H. Qed.

Lemma preserves_modify (P : state -> Prop) (f : state -> state) :
  (forall s, P s -> P (f s)) -> preserves P (modify f).
Proof. intros Hf s H. apply Hf. exact H. Qed.

Lemma preserves_if {A : Type} (P : state -> Prop) (b : bool) (m1 m2 : M state A) :
  preserves P m1 -> preserves P m2 -> preserves P (if b then m1 else m2).
Proof. destruct b; auto. Qed.

(** *** What the predicates depend on *)

Lemma locked_view (t : LogTailer) (et : option LogTailer) (s s' : state) :
  locked t et s ->
  disk s' = disk s -> tailer s' = tailer s -> error_tailer s' = error_tailer s ->
  collector_state (tables (ingestor s')) = collector_state (tables (ingestor s)) ->
  locked t et s'.
Proof.
  unfold Monotone.locked, Monotone.frame, inv, persisted_offset.
  intros H Hd Ht He Hc. rewrite Hd, Ht, He, Hc. exact H.
Qed.

Lemma locked_frame (s : state) :
  frame s <-> locked (tailer s) (error_tailer s) s.
Proof. unfold Monotone.locked. tauto. Qed.

Lemma preserves_locked_frame {A : Type} (m : M state A) :
  (forall t et, preserves (locked t et) m) -> preserves frame m.
Proof.
  intros Hm s H. apply locked_frame in H. apply Hm in H. apply H.
Qed.

(** *** The server calls *)

Lemma locked_db {A : Type} (t : LogTailer) (et : option LogTailer) (m : M mysql A) :
  (forall my, collector_state (tables (snd (m my))) = collector_state (tables my)) ->
  preserves (locked t et) (db m).
Proof.
  intros Hm s H. unfold db, zoom. specialize (Hm (ingestor s)).
  destruct (m (ingestor s)) as [r my]. cbn [snd] in *.
  apply (locked_view _ _ s); auto.
Qed.

Lemma transaction_state {A : Type} (f : database -> database * A) (c : commit) :
  (forall d, collector_state (fst (f d)) = collector_state d) ->
  forall my, collector_state (tables (snd (transaction f c my)))
             = collector_state (tables my).
Proof.
  intros Hf my. unfold transaction. specialize (Hf (tables my)).
  destruct (faults my) as [|[] rest]; cbn; try reflexivity;
    destruct (f (tables my)); cbn in *; exact Hf.
Qed.

Lemma query_state {A : Type} (f : database -> A) (my : mysql) :
  collector_state (tables (snd (query f my))) = collector_state (tables my).
Proof. unfold query. destruct (faults my) as [|[] rest]; reflexivity. Qed.

Lemma ingest_events_state (events : list ParsedEvent) (node : string) (my : mysql) :
  collector_state (tables (snd (ingest_events events node my)))
  = collector_state (tables my).
Proof.
  unfold ingest_events. destruct events as [|ev events]; [reflexivity|].
  apply transaction_state. intros d. cbn [fst].
  generalize (ev :: events). intros l. revert d.
  induction l as [|x l IH]; intros d; [reflexivity|].
  cbn [List.fold_left]. rewrite IH. unfold ingest_event.
  destruct (audit_raw_events d !! _); reflexivity.
Qed.

Lemma ingest_error_events_state (events : list ParsedErrorEvent) (node : string)
    (my : mysql) :
  collector_state (tables (snd (ingest_error_events events node my)))
  = collector_state (tables my).
Proof.
  unfold ingest_error_events. destruct events as [|ev events]; [reflexivity|].
  apply transaction_state. intros d. cbn [fst].
  generalize (ev :: events). intros l. revert d.
  induction l as [|x l IH]; intros d; [reflexivity|].
  cbn [List.fold_left]. rewrite IH. reflexivity.
Qed.

Lemma locked_redis_call (t : LogTailer) (et : option LogTailer) :
  preserves (locked t et) redis_call.
Proof.
  intros s H. unfold redis_call.
  destruct (redis_faults s) as [|[] rest]; cbn [snd];
    apply (locked_view _ _ s); auto.
Qed.

Lemma locked_publish_health (t : LogTailer) (et : option LogTailer) (k : Knobs) :
  preserves (locked t et) (_publish_health cfg k).
Proof.
  unfold _publish_health. apply preserves_if;
    [apply locked_redis_call|apply preserves_ret].
Qed.

Lemma persisted_offset_set (my : mysql) (j : list commit) (f : list bool)
    (p q : string) (i : option Z) (o : Z) :
  persisted_offset {| tables := set_collector_state p i o (tables my);
                      journal := j; faults := f |} q
  = if decide (p = q) then o else persisted_offset my q.
Proof.
  unfold persisted_offset, set_collector_state. cbn [tables collector_state].
  rewrite lookup_insert. destruct (decide (p = q)); reflexivity.
Qed.

(** Saving the state of the access tailer keeps the invariant. *)
Lemma locked_save_log (t : LogTailer) (et : option LogTailer) :
  preserves (locked t et)
            (db (save_state (log_path cfg) (_inode t) (_offset t))).
Proof.
  intros s H. unfold db, zoom, save_state, transaction.
  destruct (faults (ingestor s)) as [|[] rest]; cbn [snd fst];
    try (apply (locked_view _ _ s); auto; fail).
  all: destruct H as ((Hinv & Hlo & Hle & Hd) & Ht & He);
    destruct Hinv as (Hne & Hp & Hok & Hpo & Herr);
    unfold Monotone.locked, Monotone.frame, inv;
    cbn [disk ingestor tailer error_tailer set_ingestor];
    rewrite !persisted_offset_set;
    destruct (decide (log_path cfg = log_path cfg)) as [_|?]; [|congruence];
    destruct (decide (log_path cfg = error_log_path cfg)) as [?|_]; [congruence|];
    subst t;
    (split;
     [split;
      [split; [exact Hne|split; [exact Hp|split; [exact Hok|split; [lia|exact Herr]]]]
      |split; [lia|split; [lia|exact Hd]]]
     |split; [reflexivity|exact He]]).
Qed.

(** Saving the state of the error tailer keeps the invariant. *)
Lemma locked_save_error (t et : LogTailer) :
  preserves (locked t (Some et))
            (db (save_state (error_log_path cfg) (_inode et) (_offset et))).
Proof.
  intros s H. unfold db, zoom, save_state, transaction.
  destruct (faults (ingestor s)) as [|[] rest]; cbn [snd fst];
    try (apply (locked_view _ _ s); auto; fail).
  all: destruct H as ((Hinv & Hlo & Hle & Hd) & Ht & He);
    destruct Hinv as (Hne & Hp & Hok & Hpo & Herr);
    rewrite He in Herr; destruct Herr as (Hpe & Hoke & Hpoe);
    unfold Monotone.locked, Monotone.frame, inv;
    cbn [disk ingestor tailer error_tailer set_ingestor];
    rewrite !persisted_offset_set, He;
    destruct (decide (error_log_path cfg = error_log_path cfg)) as [_|?]; [|congruence];
    destruct (decide (error_log_path cfg = log_path cfg)) as [?|_]; [congruence|];
    (split;
     [split;
      [split; [exact Hne|split; [exact Hp|split; [exact Hok|split; [lia|
         split; [exact Hpe|split; [exact Hoke|lia]]]]]]
      |split; [lia|split; [lia|exact Hd]]]
     |split; [exact Ht|reflexivity]]).
Qed.

Lemma locked_set_stats (t : LogTailer) (et : option LogTailer)
    (f : state -> CollectorStats) :
  preserves (locked t et) (modify (fun s => set_stats (f s) s)).
Proof. apply preserves_modify. intros s H. apply (locked_view _ _ s); auto. Qed.

(** *** The flush *)

Lemma locked_flush (t : LogTailer) (et : option LogTailer) (k : Knobs)
    (b : list ParsedEvent) (eb : list ParsedErrorEvent) :
  preserves (locked t et) (_flush cfg k b eb).
Proof.
  assert (Hraw : forall b',
            preserves (locked t et)
              (match b' with
               | [] => ret {| c_raw := 0; c_access := 0; c_dns := 0 |}
               | _ :: _ =>
                   let* c := db (ingest_events b' (node_id cfg)) in
                   (if cache_on cfg k then redis_call else ret tt) ;;
                   ret c
               end)).
  { intros [|ev b']; [apply preserves_ret|].
    apply preserves_bind; [apply locked_db, ingest_events_state|].
    intros c. apply preserves_bind; [|intros; apply preserves_ret].
    apply preserves_if; [apply locked_redis_call|apply preserves_ret]. }
  assert (Hrest : forall rc : counts,
            preserves (locked t et)
              (let* s := get in
               let '(inode, offset) := Tailer.state (tailer s) in
               db (save_state (log_path cfg) inode offset) ;;
               let* err :=
                 match error_tailer s with
                 | None => ret (0, (None, 0))
                 | Some et =>
                     let '(error_inode, error_offset) := Tailer.state et in
                     db (save_state (error_log_path cfg) error_inode error_offset) ;;
                     let* error_written :=
                       match eb with
                       | [] => ret 0
                       | _ :: _ => db (ingest_error_events eb (node_id cfg))
                       end in
                     ret (error_written, (error_inode, error_offset))
                 end in
               modify (fun s => set_stats (note_flush rc (fst err) (inode, offset)
                                                      (snd err) (stats s)) s) ;;
               _publish_health cfg k)).
  { intros rc. apply preserves_get_bind. intros s H.
    unfold Tailer.state. cbv beta iota.
    pose proof H as (_ & Ht & He). rewrite Ht, He.
    refine (preserves_bind _ _ _ _ _ s H); [apply locked_save_log|]. intros _.
    apply preserves_bind.
    - destruct et as [et'|]; [|apply preserves_ret].
      apply preserves_bind; [apply locked_save_error|]. intros _.
      apply preserves_bind; [|intros; apply preserves_ret].
      destruct eb; [apply preserves_ret|].
      apply locked_db, ingest_error_events_state.
    - intros err. apply preserves_bind; [|intros; apply locked_publish_health].
      apply (locked_set_stats t et
               (fun s => note_flush rc (fst err) (_inode t, _offset t) (snd err)
                                    (stats s))). }
  unfold _flush.
  destruct b as [|ev b]; [destruct eb as [|e eb]; [apply preserves_ret|]|].
  - apply preserves_bind; [apply (Hraw [])|apply Hrest].
  - apply preserves_bind; [apply (Hraw (ev :: b))|apply Hrest].
Qed.

(** *** One iteration *)

Lemma bind_at {A B : Type} (P Q : state -> Prop) (m : M state A)
    (k : A -> M state B) (s : state) :
  Q (snd (m s)) ->
  (forall a s1, Q s1 -> P s1 -> P (snd (k a s1))) ->
  P (snd (m s)) ->
  P (snd (bind m k s)).
Proof.
  intros HQ Hk HP. unfold bind.
  destruct (m s) as [[a|e] s1]; cbn [snd] in *; [apply Hk; assumption|exact HP].
Qed.

Lemma frame_set_tailer (s : state) (n : Z) :
  frame s ->
  frame (set_tailer (snd (read_new_lines (disk s) (tailer s) n)) s).
Proof.
  intros ((Hne & Hp & Hok & Hpo & Herr) & Hlo & Hle & Hd).
  destruct (read_new_lines_ok (disk s) (tailer s) n Hok) as (Hok' & Hp' & Hmono).
  unfold Monotone.frame, inv.
  cbn [disk ingestor tailer error_tailer set_tailer].
  split; [|auto].
  split; [exact Hne|]. split; [congruence|]. split; [exact Hok'|].
  split; [lia|exact Herr].
Qed.

Lemma frame_set_error_tailer (s : state) (et : LogTailer) (n : Z) :
  frame s -> error_tailer s = Some et ->
  frame (set_error_tailer (Some (snd (read_new_lines (disk s) et n))) s).
Proof.
  intros ((Hne & Hp & Hok & Hpo & Herr) & Hlo & Hle & Hd) He.
  rewrite He in Herr. destruct Herr as (Hpe & Hoke & Hpoe).
  destruct (read_new_lines_ok (disk s) et n Hoke) as (Hok' & Hp' & Hmono).
  unfold Monotone.frame, inv.
  cbn [disk ingestor tailer error_tailer set_error_tailer].
  split; [|auto].
  split; [exact Hne|]. split; [exact Hp|]. split; [exact Hok|].
  split; [exact Hpo|]. split; [congruence|]. split; [exact Hok'|lia].
Qed.

(** The part of an iteration that follows the two polls *)
Lemma locked_after_polls (t : LogTailer) (et : option LogTailer) (k : Knobs)
    (now : spec_float) (lines error_lines : list string) :
  preserves (locked t et)
    ((if nonempty lines then
        zoom (fun s => (batch s, stats s))
             (fun '(b, st) s => set_stats st (set_batches b (error_batch s) s))
             (for_each (consume_line (k_filter k)) lines) ;;
        modify (fun s => set_stats (note_state (Tailer.state (tailer s)) (stats s)) s)
      else ret tt) ;;
     (if nonempty error_lines then
        modify (fun s =>
          let '(eb, st) :=
            List.fold_left (consume_error_line (min_error_level_rank k)
                                               (k_error_drop_noise k))
                           error_lines (error_batch s, stats s) in
          let st' := match error_tailer s with
                     | Some et => note_error_state (Tailer.state et) st
                     | None => st
                     end in
          set_stats st' (set_batches (batch s) eb s))
      else ret tt) ;;
     let* s1 := get in
     let should_flush :=
       (nonempty (batch s1) || nonempty (error_batch s1))
       && ((Z.max 1 (k_batch_size k) <=? Z.of_nat (List.length (batch s1)))
           || (Z.max 1 (k_batch_size k) <=? Z.of_nat (List.length (error_batch s1)))
           || SFleb (Float.max (Float.of_ratio 1 10) (k_flush_interval k))
                    (Float.sub now (last_flush s1))) in
     (if should_flush then
        _flush cfg k (batch s1) (error_batch s1) ;;
        modify (fun s => set_last_flush now (set_batches [] [] s))
      else ret tt) ;;
     let* s2 := get in
     (if Float.ge_int (Float.sub now (last_retention s2))
                      (Z.max 60 (k_retention_cleanup_interval k))
      then db (query (fun _ => tt)) ;;
           _publish_health cfg k ;;
           modify (set_last_retention now)
      else ret tt) ;;
     (if negb (nonempty lines) && negb (nonempty error_lines)
      then _publish_health cfg k
      else ret tt)).
Proof.
  apply preserves_bind.
  { apply preserves_if; [|apply preserves_ret].
    apply preserves_bind.
    - intros s H. unfold zoom.
      destruct (for_each _ _ _) as [r [b st]]. cbn [snd].
      apply (locked_view _ _ s); auto.
    - intros _. apply preserves_modify. intros s H.
      apply (locked_view _ _ s); auto. }
  intros _. apply preserves_bind.
  { apply preserves_if; [|apply preserves_ret].
    apply preserves_modify. intros s H.
    destruct (List.fold_left _ _ _) as [eb st].
    apply (locked_view _ _ s); auto. }
  intros _. apply preserves_get_bind. intros s1 H1. cbv zeta.
  refine (preserves_bind _ _ _ _ _ s1 H1).
  { apply preserves_if; [|apply preserves_ret].
    apply preserves_bind; [apply locked_flush|]. intros _.
    apply preserves_modify. intros s H. apply (locked_view _ _ s); auto. }
  intros _. apply preserves_get_bind. intros s2 H2.
  refine (preserves_bind _ _ _ _ _ s2 H2).
  { apply preserves_if; [|apply preserves_ret].
    apply preserves_bind; [apply locked_db; intros my; apply query_state|].
    intros _. apply preserves_bind; [apply locked_publish_health|].
    intros _. apply preserves_modify. intros s H. apply (locked_view _ _ s); auto. }
  intros _. apply preserves_if; [apply locked_publish_health|apply preserves_ret].
Qed.

Lemma frame_iteration_body (k : Knobs) (now : spec_float) :
  preserves frame (iteration_body cfg k now).
Proof.
  unfold iteration_body. apply preserves_get_bind. intros s H.
  pose proof (frame_set_tailer s (Z.max 64 (Z.max 1 (k_batch_size k) * 4)) H) as Ht.
  destruct (read_new_lines (disk s) (tailer s) _) as [lines t']. cbn [snd] in Ht.
  apply (bind_at frame
           (fun s1 => error_tailer s1 = error_tailer s /\ disk s1 = disk s));
    [cbn; auto| |exact Ht].
  intros _ s1 [He Hd] H1.
  apply (bind_at frame (fun _ => True)); [exact I| |].
  - intros error_lines s2 _ H2. revert s2 H2.
    apply preserves_locked_frame. intros t et. apply locked_after_polls.
  - destruct (error_tailer s) as [et|] eqn:Hes; [|exact H1].
    pose proof (frame_set_error_tailer s1 et
                  (Z.max 32 (Z.max 1 (k_batch_size k) * 2)) H1 He) as Het.
    rewrite Hd in Het.
    destruct (read_new_lines (disk s) et _) as [ls et']. exact Het.
Qed.

Lemma frame_iteration (k : Knobs) (now : spec_float) :
  preserves frame (iteration cfg k now).
Proof.
  intros s H. unfold iteration.
  pose proof (frame_iteration_body k now s H) as Hb.
  destruct (iteration_body cfg k now s) as [[[]|e] s1]; cbn [snd] in *; [exact Hb|].
  apply (preserves_locked_frame (_publish_health cfg k));
    [intros t et; apply locked_publish_health|].
  apply locked_frame in Hb. apply locked_frame.
  apply (locked_view _ _ s1); auto.
Qed.

Lemma frame_step (e : event) : append_only e -> preserves frame (step cfg e).
Proof.
  destruct e as [k now|p data|p ino data|p ino data|f|f]; cbn [append_only step];
    intros Ha; try contradiction.
  - apply frame_iteration.
  - apply preserves_modify.
    intros s ((Hne & Hp & Hok & Hpo & Herr) & Hlo & Hle & Hd).
    unfold Monotone.frame, inv. cbn [disk ingestor tailer error_tailer set_disk].
    rewrite dentry_append.
    split; [|auto].
    split; [exact Hne|]. split; [exact Hp|].
    split; [apply tailer_ok_append; exact Hok|]. split; [exact Hpo|].
    destruct (error_tailer s) as [et|]; [|exact I].
    destruct Herr as (Hpe & Hoke & Hpoe).
    split; [exact Hpe|]. split; [apply tailer_ok_append; exact Hoke|exact Hpoe].
  - apply preserves_modify. intros s H. apply locked_frame in H. apply locked_frame.
    apply (locked_view _ _ s); auto.
  - apply preserves_modify. intros s H. apply locked_frame in H. apply locked_frame.
    apply (locked_view _ _ s); auto.
Qed.

Lemma frame_run (es : list event) :
  Forall append_only es -> preserves frame (run cfg es).
Proof.
  induction es as [|e es IH]; intros Hall; cbn [run].
  - apply preserves_ret.
  - inversion Hall as [|? ? He Hes]; subst.
    apply preserves_bind; [apply frame_step; exact He|intros _; apply IH; exact Hes].
Qed.

End FrameFacts.

Section OffsetMonotone.

Import Storage Tailer Collector Monotone.

(** A collector that starts on logs at least as long as the persisted
    offsets satisfies the invariant once [startup] has returned. *)
Lemma inv_startup (cfg : Settings) (d : file_system) (my : mysql)
    (rf : list bool) (now : spec_float) (s : state) :
  log_path cfg <> error_log_path cfg ->
  (forall st, stat d (log_path cfg) = Some st ->
              persisted_offset my (log_path cfg) <= st_size st) ->
  (forall st, stat d (error_log_path cfg) = Some st ->
              persisted_offset my (error_log_path cfg) <= st_size st) ->
  startup cfg now (new cfg d my rf) = (Ok tt, s) ->
  inv cfg s.
Proof.
  intros Hne Hl He.
  unfold startup, new, bind, db, zoom, load_state, query, modify, get, ret.
  cbn [ingestor set_ingestor].
  destruct (faults my) as [|[] rest] eqn:Hf; cbn; try discriminate.
  - (* no fault listed *)
    destruct (error_log_enabled cfg); cbn; intros [= <-];
      unfold inv, tailer_ok, persisted_offset, Tailer.set_state; cbn;
      fold (persisted_offset my (log_path cfg));
      fold (persisted_offset my (error_log_path cfg)).
    + unfold persisted_offset in *.
      destruct (collector_state (tables my) !! log_path cfg) as [[i o]|];
        destruct (collector_state (tables my) !! error_log_path cfg) as [[i' o']|];
        cbn in *; repeat split; auto; try lia; intros st Hst;
        pose proof (stat_size_nonneg _ _ _ Hst);
        try specialize (Hl _ Hst); try specialize (He _ Hst); lia.
    + unfold persisted_offset in *.
      destruct (collector_state (tables my) !! log_path cfg) as [[i o]|];
        cbn in *; repeat split; auto; try lia; intros st Hst;
        pose proof (stat_size_nonneg _ _ _ Hst);
        try specialize (Hl _ Hst); try specialize (He _ Hst); lia.
  - (* the first call succeeds *)
    destruct (error_log_enabled cfg); cbn.
    + destruct rest as [|[] rest']; cbn; try discriminate; intros [= <-];
        unfold inv, tailer_ok, persisted_offset, Tailer.set_state; cbn;
        unfold persisted_offset in *;
        destruct (collector_state (tables my) !! log_path cfg) as [[i o]|];
        destruct (collector_state (tables my) !! error_log_path cfg) as [[i' o']|];
        cbn in *; repeat split; auto; try lia; intros st Hst;
        pose proof (stat_size_nonneg _ _ _ Hst);
        try specialize (Hl _ Hst); try specialize (He _ Hst); lia.
    + intros [= <-];
        unfold inv, tailer_ok, persisted_offset, Tailer.set_state; cbn;
        unfold persisted_offset in *;
        destruct (collector_state (tables my) !! log_path cfg) as [[i o]|];
        cbn in *; repeat split; auto; try lia; intros st Hst;
        pose proof (stat_size_nonneg _ _ _ Hst);
        try specialize (Hl _ Hst); try specialize (He _ Hst); lia.
Qed.

(** C2, as amended: while the access log and the error log have
    different paths (the first clause of [inv]), hold plain text and are
    only appended to, so that no inode changes and no file is truncated,
    the persisted last_offset of either path never decreases across any
    sequence of iterations and flushes, whatever calls to the server
    fail.  (It may go back to 0 on an inode change or on a truncation
    below the offset, and it may decrease when both settings name one
    file.) *)
Theorem persisted_offset_monotone (cfg : Settings) (es : list event) (s : state) :
  inv cfg s ->
  logs_plain cfg (disk s) ->
  Forall append_only es ->
  inv cfg (snd (run cfg es s))
  /\ dentry (disk (snd (run cfg es s))) = dentry (disk s)
  /\ persisted_offset (ingestor s) (log_path cfg)
     <= persisted_offset (ingestor (snd (run cfg es s))) (log_path cfg)
  /\ persisted_offset (ingestor s) (error_log_path cfg)
     <= persisted_offset (ingestor (snd (run cfg es s))) (error_log_path cfg).
Proof.
  intros Hinv _ Hall.
  assert (H : frame cfg (persisted_offset (ingestor s) (log_path cfg))
                    (persisted_offset (ingestor s) (error_log_path cfg))
                    (dentry (disk s)) s).
  { split; [exact Hinv|]. split; [lia|]. split; [lia|reflexivity]. }
  apply (frame_run cfg _ _ _ es Hall) in H.
  destruct H as (Hi & Hlo & Hle & Hd). auto.
Qed.

Lemma persisted_offset_monotone_witness :
  Site.persisted (snd (run Site.settings Truncation.appended Truncation.started))
                 (log_path Site.settings) = (Some 1, 176)
  /\ persisted_offset (ingestor Truncation.started) (log_path Site.settings)
     <= persisted_offset
          (ingestor (snd (run Site.settings Truncation.appended Truncation.started)))
          (log_path Site.settings).
Proof.
  split; [vm_compute; reflexivity|].
  assert (Hinv : inv Site.settings Truncation.started).
  { apply (inv_startup Site.settings Truncation.disk0 (Site.server []) [] (seconds 0)).
    - discriminate.
    - intros st Hst. apply (stat_size_nonneg _ _ _ Hst).
    - intros st Hst. apply (stat_size_nonneg _ _ _ Hst).
    - vm_compute. reflexivity. }
  apply (persisted_offset_monotone Site.settings Truncation.appended
           Truncation.started Hinv).
  - split; vm_compute; reflexivity.
  - repeat constructor.
Defined.

(** The two log paths have to differ: with one file under both settings,
    never written to after the start, the persisted offset goes from 182
    to 384 and back to 364, the row being saved from the access tailer
    and then from the error tailer, which is behind. *)
Example shared_path_offsets :
  disk SharedPath.after_third = disk SharedPath.started
  /\ Site.persisted SharedPath.after_first (log_path SharedPath.settings) = (Some 1, 182)
  /\ Site.persisted SharedPath.after_second (log_path SharedPath.settings) = (Some 1, 384)
  /\ Site.persisted SharedPath.after_third (log_path SharedPath.settings) = (Some 1, 364).
Proof. repeat split; vm_compute; reflexivity. Qed.

(** The two flushes around a truncation in place: the inode is the same,
    the persisted offset goes from 120 back to 56. *)
Example truncation_offsets :
  Tailer.dentry (disk Truncation.after_first) !! log_path Site.settings = Some 1
  /\ Tailer.dentry (disk Truncation.after_second) !! log_path Site.settings = Some 1
  /\ Site.persisted Truncation.after_first (log_path Site.settings) = (Some 1, 120)
  /\ Site.persisted Truncation.after_second (log_path Site.settings) = (Some 1, 56).
Proof. repeat split; vm_compute; reflexivity. Qed.

(** C2, as stated, fails: after a flush, a truncation of the log in place
    followed by a shorter line makes the next flush persist a smaller
    offset under the same inode. *)
Lemma persisted_offset_decreases_after_truncation :
  ~ (forall es : list event,
       let s' := snd (run Site.settings es Truncation.after_first) in
       fst (Site.persisted s' (log_path Site.settings))
       = fst (Site.persisted Truncation.after_first (log_path Site.settings)) ->
       snd (Site.persisted Truncation.after_first (log_path Site.settings))
       <= snd (Site.persisted s' (log_path Site.settings))).
Proof.
  intros H. specialize (H Truncation.second_flush). cbv zeta in H.
  assert (Hi : fst (Site.persisted
                      (snd (run Site.settings Truncation.second_flush
                                Truncation.after_first))
                      (log_path Site.settings))
               = fst (Site.persisted Truncation.after_first (log_path Site.settings)))
    by (vm_compute; reflexivity).
  specialize (H Hi). vm_compute in H. apply H. reflexivity.
Qed.

End OffsetMonotone.

(** ** Durations *)

Section DurationFacts.

Import Parser Duration.

Lemma run_star_cls (f : ascii -> bool) (p : Re.pos) (c : Re.captures)
    (k : Re.pos -> Re.captures -> option Re.captures) :
  Re.run (Re.Star (Re.Cls f)) p c k = star_cls f k (S (String.length (Re.rest p))) p c.
Proof. reflexivity. Qed.

(** A greedy star takes every character of the class when what follows
    then matches. *)
Lemma star_cls_greedy (f : ascii -> bool)
    (k : Re.pos -> Re.captures -> option Re.captures) (r : string)
    (c res : Re.captures) :
  stops f r ->
  (forall q, Re.rest q = r -> k q c = Some res) ->
  forall (ds : string) (fuel : nat) (prev : option ascii),
    Py.all_chr f ds = true ->
    (String.length ds < fuel)%nat ->
    star_cls f k fuel {| Re.prev := prev; Re.rest := ds ++ r |} c = Some res.
Proof.
  intros Hstop Hk ds. induction ds as [|a ds IH]; intros fuel prev Hall Hfuel.
  - destruct fuel as [|fuel]; [lia|].
    change (EmptyString ++ r) with r. cbn [star_cls Re.run Re.rest].
    destruct r as [|b r']; [apply Hk; reflexivity|].
    cbn in Hstop. rewrite Hstop. apply Hk. reflexivity.
  - destruct fuel as [|fuel]; [cbn in Hfuel; lia|].
    change (String a ds ++ r) with (String a (ds ++ r)).
    cbn [Py.all_chr] in Hall. apply andb_true_iff in Hall as [Ha Hall].
    cbn [star_cls Re.run Re.rest]. rewrite Ha. cbn [Re.rest String.length].
    rewrite (proj2 (Nat.ltb_lt _ _)) by lia.
    rewrite IH; [reflexivity|exact Hall|cbn in Hfuel; lia].
Qed.

Lemma run_plus_cls (f : ascii -> bool)
    (k : Re.pos -> Re.captures -> option Re.captures) (r : string)
    (c res : Re.captures) (a : ascii) (ds : string) (prev : option ascii) :
  stops f r ->
  (forall q, Re.rest q = r -> k q c = Some res) ->
  Py.all_chr f (String a ds) = true ->
  Re.run (Re.Plus (Re.Cls f)) {| Re.prev := prev; Re.rest := String a ds ++ r |} c k
  = Some res.
Proof.
  intros Hstop Hk Hall. cbn [Py.all_chr] in Hall.
  apply andb_true_iff in Hall as [Ha Hall].
  change (String a ds ++ r) with (String a (ds ++ r)).
  unfold Re.Plus.
  change (Re.run (Re.Seq (Re.Cls f) (Re.Star (Re.Cls f)))
            {| Re.prev := prev; Re.rest := String a (ds ++ r) |} c k)
    with (if f a
          then Re.run (Re.Star (Re.Cls f)) {| Re.prev := Some a; Re.rest := ds ++ r |} c k
          else None).
  rewrite Ha, run_star_cls.
  apply star_cls_greedy; auto. cbn [Re.rest]. rewrite length_append. lia.
Qed.

Lemma unit_cases (u : string) (f : Q) :
  unit_factor u = Some f ->
  In u ["ns"; "us"; "ms"; "s"; "m"; "h"].
Proof.
  unfold unit_factor.
  repeat match goal with
         | |- context [String.eqb u ?x] => destruct (String.eqb_spec u x); [subst; simpl; tauto|]
         end.
  discriminate.
Qed.

Lemma run_unit (u : string) (f : Q) (q : Re.pos) (c : Re.captures)
    (k : Re.pos -> Re.captures -> option Re.captures) :
  unit_factor u = Some f ->
  Re.rest q = u ->
  Re.run unit_re q c k = k (at_end u) (("2", u) :: c).
Proof.
  intros Hu Hq. apply unit_cases in Hu. destruct q as [prev rest]. cbn in Hq. subst rest.
  simpl in Hu.
  repeat (destruct Hu as [<-|Hu]; [vm_compute; destruct (k _ _); reflexivity|]).
  destruct Hu.
Qed.

Lemma app_assoc_str (a b c : string) : (a ++ b) ++ c = a ++ (b ++ c).
Proof.
  induction a as [|x a IH]; [reflexivity|].
  change (String x ((a ++ b) ++ c) = String x (a ++ (b ++ c))). rewrite IH. reflexivity.
Qed.

Lemma take_app (a b : string) :
  Py.take (String.length (a ++ b) - String.length b) (a ++ b) = a.
Proof.
  rewrite length_append. replace (String.length a + String.length b - String.length b)%nat
    with (String.length a) by lia.
  induction a as [|x a IH]; cbn.
  - destruct b; reflexivity.
  - change (String x a ++ b) with (String x (a ++ b)). cbn. rewrite IH. reflexivity.
Qed.

Lemma isdigit_cons (s : string) :
  Py.isdigit s = true ->
  exists a ds, s = String a ds /\ Py.all_chr Py.isdigit_chr (String a ds) = true.
Proof.
  unfold Py.isdigit. destruct s as [|a ds]; [discriminate|].
  cbn [String.eqb negb andb]. eauto.
Qed.

Lemma token_split (ip : string) (fp : option string) (u : string) :
  token ip fp u = ip ++ (fraction fp ++ u) /\ numeral ip fp = ip ++ fraction fp.
Proof.
  unfold token, numeral, fraction. destruct fp as [f|].
  - rewrite !app_assoc_str. auto.
  - split; [reflexivity|]. induction ip as [|x ip IH]; [reflexivity|].
    change (String x ip = String x (ip ++ EmptyString)). rewrite <- IH. reflexivity.
Qed.

(** The pattern of durations matches a well-formed token, and captures
    its digits and its unit. *)
Lemma duration_re_match (ip : string) (fp : option string) (u : string) (f : Q) :
  Py.isdigit ip = true ->
  (forall x, fp = Some x -> Py.isdigit x = true) ->
  unit_factor u = Some f ->
  Re.rmatch duration_re (token ip fp u)
  = Some [(Re.g0, Re.consumed {| Re.prev := None; Re.rest := token ip fp u |} (at_end u));
          ("2", u); ("1", numeral ip fp)].
Proof.
  intros Hip Hfp Hu.
  destruct (token_split ip fp u) as [Htok Hnum].
  set (p0 := {| Re.prev := None; Re.rest := token ip fp u |}).
  set (kf := fun (p : Re.pos) (c : Re.captures) =>
               Some ((Re.g0, Re.consumed p0 p) :: c)).
  set (k1 := fun (p : Re.pos) (c : Re.captures) =>
               Re.run unit_re p (("1", Re.consumed p0 p) :: c) kf).
  set (frac_re := Re.Seq (Re.Chr ".") (Re.Plus Re.digit)).
  change (Re.rmatch duration_re (token ip fp u))
    with (Re.run (Re.Plus Re.digit) p0 []
            (fun p c => match Re.run frac_re p c k1 with
                        | Some res => Some res
                        | None => k1 p c
                        end)).
  assert (Hk1 : forall q, Re.rest q = u ->
            k1 q [] = Some [(Re.g0, Re.consumed p0 (at_end u)); ("2", u);
                            ("1", numeral ip fp)]).
  { intros q Hq.
    assert (Hc : Re.consumed p0 q = numeral ip fp).
    { unfold Re.consumed, p0. cbn [Re.rest]. rewrite Hq. unfold token.
      apply take_app. }
    unfold k1. rewrite (run_unit u f q _ kf Hu Hq). unfold kf. rewrite Hc.
    reflexivity. }
  destruct (isdigit_cons ip Hip) as (a & ds & -> & Hall).
  unfold p0 at 1. rewrite Htok.
  apply run_plus_cls; [| |exact Hall].
  - (* what follows the digits is no digit *)
    destruct fp as [x|]; [reflexivity|].
    apply unit_cases in Hu. simpl in Hu.
    repeat (destruct Hu as [<-|Hu]; [reflexivity|]). destruct Hu.
  - intros q Hq. destruct fp as [x|].
    + (* a fraction *)
      destruct (isdigit_cons x (Hfp x eq_refl)) as (b & fs & -> & Hallf).
      destruct q as [prev rest]. cbn [Re.rest] in Hq. subst rest.
      change (Re.run frac_re
                {| Re.prev := prev; Re.rest := fraction (Some (String b fs)) ++ u |}
                [] k1)
        with (Re.run (Re.Plus Re.digit)
                {| Re.prev := Some "."%char; Re.rest := String b fs ++ u |} [] k1).
      assert (Hfrac : Re.run (Re.Plus Re.digit)
                        {| Re.prev := Some "."%char; Re.rest := String b fs ++ u |}
                        [] k1
                      = Some [(Re.g0, Re.consumed p0 (at_end u)); ("2", u);
                              ("1", numeral (String a ds) (Some (String b fs)))]).
      { apply run_plus_cls; [|exact Hk1|exact Hallf].
        apply unit_cases in Hu. simpl in Hu.
        repeat (destruct Hu as [<-|Hu]; [reflexivity|]). destruct Hu. }
      rewrite Hfrac. reflexivity.
    + (* no fraction *)
      change (fraction None ++ u) with u in Hq.
      assert (Hnone : Re.run frac_re q [] k1 = None).
      { destruct q as [prev rest]. cbn [Re.rest] in Hq. subst rest.
        apply unit_cases in Hu. simpl in Hu.
        repeat (destruct Hu as [<-|Hu]; [reflexivity|]). destruct Hu. }
      rewrite Hnone. apply Hk1. exact Hq.
Qed.

(** *** The token survives [strip] and [replace] *)

Lemma digit_ord (a : ascii) :
  Py.isdigit_chr a = true -> (48 <= Py.ord a <= 57)%N.
Proof.
  unfold Py.isdigit_chr. intros H. apply andb_true_iff in H as [H1 H2].
  apply N.leb_le in H1, H2. lia.
Qed.

Lemma digit_not_space (a : ascii) : Py.isdigit_chr a = true -> Py.isspace a = false.
Proof.
  intros H. apply digit_ord in H. unfold Py.isspace.
  destruct (N.leb_spec 9 (Py.ord a)), (N.leb_spec (Py.ord a) 13),
    (N.leb_spec 28 (Py.ord a)), (N.leb_spec (Py.ord a) 32); cbn; try reflexivity; lia.
Qed.

Lemma digit_not_chr (a : ascii) (n : N) :
  Py.isdigit_chr a = true -> (n < 48 \/ 57 < n)%N -> (n < 256)%N ->
  Ascii.eqb a (Py.chr n) = false.
Proof.
  intros H Hn Hlt. apply digit_ord in H.
  destruct (Ascii.eqb_spec a (Py.chr n)) as [->|]; [|reflexivity].
  unfold Py.ord, Py.chr in H. rewrite N_ascii_embedding in H by exact Hlt. lia.
Qed.

Lemma all_chr_app (f : ascii -> bool) (a b : string) :
  Py.all_chr f (a ++ b) = Py.all_chr f a && Py.all_chr f b.
Proof.
  induction a as [|x a IH]; [reflexivity|].
  change (String x a ++ b) with (String x (a ++ b)). cbn. rewrite IH.
  apply andb_assoc.
Qed.

Lemma all_chr_impl (f g : ascii -> bool) (s : string) :
  (forall a, f a = true -> g a = true) ->
  Py.all_chr f s = true -> Py.all_chr g s = true.
Proof.
  intros Hfg. induction s as [|a s IH]; cbn; [reflexivity|].
  intros H. apply andb_true_iff in H as [H1 H2]. rewrite (Hfg _ H1), (IH H2).
  reflexivity.
Qed.

Lemma rev_onto_app (a b acc : string) :
  Py.rev_onto (a ++ b) acc = Py.rev_onto b (Py.rev_onto a acc).
Proof.
  revert acc. induction a as [|x a IH]; intros acc; [reflexivity|].
  change (String x a ++ b) with (String x (a ++ b)). cbn. apply IH.
Qed.

Lemma rev_onto_rev (s acc1 acc2 : string) :
  Py.rev_onto (Py.rev_onto s acc1) acc2 = Py.rev_onto acc1 (s ++ acc2).
Proof.
  revert acc1 acc2. induction s as [|x s IH]; intros acc1 acc2; [reflexivity|].
  cbn [Py.rev_onto]. rewrite IH. reflexivity.
Qed.

Lemma app_nil_str (s : string) : s ++ EmptyString = s.
Proof.
  induction s as [|x s IH]; [reflexivity|].
  change (String x (s ++ EmptyString) = String x s). rewrite IH. reflexivity.
Qed.

Lemma rev_rev (s : string) : Py.rev (Py.rev s) = s.
Proof. unfold Py.rev. rewrite rev_onto_rev. cbn. apply app_nil_str. Qed.

Lemma rstrip_by_last (f : ascii -> bool) (x : string) (z : ascii) :
  f z = false ->
  Py.rstrip_by f (x ++ String z EmptyString) = x ++ String z EmptyString.
Proof.
  intros Hz. unfold Py.rstrip_by, Py.rev. rewrite rev_onto_app.
  cbn [Py.rev_onto Py.lstrip_by]. rewrite Hz. cbn [Py.rev_onto].
  rewrite rev_onto_rev. reflexivity.
Qed.

Lemma replace_fuel_absent (c0 : ascii) (old new : string) (fuel : nat) :
  forall s,
    Py.all_chr (fun a => negb (Ascii.eqb a c0)) s = true ->
    Py.replace_fuel (String c0 old) new s fuel = s.
Proof.
  induction fuel as [|fuel IH]; intros s Hs; [reflexivity|].
  destruct s as [|a s]; [reflexivity|].
  cbn [Py.all_chr] in Hs. apply andb_true_iff in Hs as [Ha Hs].
  apply negb_true_iff in Ha. cbn [Py.replace_fuel Py.startswith].
  rewrite Ascii.eqb_sym, Ha. cbn [andb]. rewrite IH by exact Hs. reflexivity.
Qed.

Lemma unit_last (u : string) (f : Q) :
  unit_factor u = Some f ->
  exists x z, u = x ++ String z EmptyString /\ Py.isspace z = false
              /\ Py.all_chr (fun a => negb (Ascii.eqb a (Py.chr 194))) u = true.
Proof.
  intros Hu. apply unit_cases in Hu. simpl in Hu.
  destruct Hu as [<-|Hu]; [exists "n", "s"%char; repeat split; reflexivity|].
  destruct Hu as [<-|Hu]; [exists "u", "s"%char; repeat split; reflexivity|].
  destruct Hu as [<-|Hu]; [exists "m", "s"%char; repeat split; reflexivity|].
  destruct Hu as [<-|Hu]; [exists "", "s"%char; repeat split; reflexivity|].
  destruct Hu as [<-|Hu]; [exists "", "m"%char; repeat split; reflexivity|].
  destruct Hu as [<-|Hu]; [exists "", "h"%char; repeat split; reflexivity|].
  destruct Hu.
Qed.

Section Token.

Variable ip : string.
Variable fp : option string.
Variable u : string.
Variable f : Q.
Hypothesis Hip : Py.isdigit ip = true.
Hypothesis Hfp : forall x, fp = Some x -> Py.isdigit x = true.
Hypothesis Hu : unit_factor u = Some f.

Lemma token_strip : Py.strip (token ip fp u) = token ip fp u.
Proof.
  destruct (unit_last u f Hu) as (x & z & Hx & Hz & _).
  destruct (isdigit_cons ip Hip) as (a & ds & Ha & Hall).
  unfold Py.strip.
  assert (Hl : Py.lstrip_by Py.isspace (token ip fp u) = token ip fp u).
  { destruct (token_split ip fp u) as [-> _]. rewrite Ha.
    change (String a ds ++ fraction fp ++ u) with (String a (ds ++ fraction fp ++ u)).
    cbn [Py.lstrip_by]. cbn [Py.all_chr] in Hall.
    apply andb_true_iff in Hall as [Hd _]. rewrite (digit_not_space _ Hd). reflexivity. }
  rewrite Hl. unfold token. rewrite Hx, <- app_assoc_str.
  apply rstrip_by_last. exact Hz.
Qed.

Lemma token_no_micro :
  Py.replace (micro_sign ++ "s") "us" (token ip fp u) = token ip fp u.
Proof.
  destruct (unit_last u f Hu) as (_ & _ & _ & _ & Hun).
  destruct (isdigit_cons ip Hip) as (a & ds & Ha & Hall).
  assert (Hdig : forall s, Py.all_chr Py.isdigit_chr s = true ->
                   Py.all_chr (fun a => negb (Ascii.eqb a (Py.chr 194))) s = true).
  { intros s. apply all_chr_impl. intros b Hb. apply negb_true_iff.
    apply digit_not_chr; [exact Hb|lia|lia]. }
  unfold Py.replace.
  change (micro_sign ++ "s") with (String (Py.chr 194) (String (Py.chr 181) "s")).
  apply replace_fuel_absent.
  destruct (token_split ip fp u) as [-> _].
  rewrite !all_chr_app, Hun, Ha, (Hdig _ Hall).
  destruct fp as [x|]; [|reflexivity].
  destruct (isdigit_cons x (Hfp x eq_refl)) as (b & fs & -> & Hallf).
  unfold fraction. change ("." ++ String b fs) with (String "." (String b fs)).
  change (Py.all_chr (fun a0 => negb (Ascii.eqb a0 (Py.chr 194)))
            (String "." (String b fs)))
    with (Py.all_chr (fun a0 => negb (Ascii.eqb a0 (Py.chr 194))) (String b fs)).
  rewrite (Hdig _ Hallf). reflexivity.
Qed.

Lemma token_truthy : Py.truthy (token ip fp u) = true.
Proof.
  destruct (isdigit_cons ip Hip) as (a & ds & Ha & _).
  destruct (token_split ip fp u) as [-> _]. rewrite Ha. reflexivity.
Qed.

Lemma scan1_found (c : ascii) (fs : string) :
  forall (s acc : string),
    Py.all_chr (fun a => negb (Ascii.eqb a c)) s = true ->
    scan1 c (s ++ String c fs) acc = [Py.rev (Py.rev_onto s acc); fs].
Proof.
  induction s as [|a s IH]; intros acc Hs.
  - change (EmptyString ++ String c fs) with (String c fs). cbn [scan1].
    rewrite Ascii.eqb_refl. reflexivity.
  - change (String a s ++ String c fs) with (String a (s ++ String c fs)).
    cbn [Py.all_chr] in Hs. apply andb_true_iff in Hs as [Ha Hs].
    apply negb_true_iff in Ha. cbn [scan1]. rewrite Ha. apply IH. exact Hs.
Qed.

Lemma scan1_absent (c : ascii) :
  forall (s acc : string),
    Py.all_chr (fun a => negb (Ascii.eqb a c)) s = true ->
    scan1 c s acc = [Py.rev (Py.rev_onto s acc)].
Proof.
  induction s as [|a s IH]; intros acc Hs; [reflexivity|].
  cbn [Py.all_chr] in Hs. apply andb_true_iff in Hs as [Ha Hs].
  apply negb_true_iff in Ha. cbn [scan1]. rewrite Ha. apply IH. exact Hs.
Qed.

Lemma numeral_value :
  float_of_decimal (numeral ip fp) = nearest (decimal_value ip fp).
Proof.
  destruct (isdigit_cons ip Hip) as (a & ds & Ha & Hall).
  assert (Hnd : Py.all_chr (fun a => negb (Ascii.eqb a ".")) ip = true).
  { rewrite Ha. revert Hall. apply all_chr_impl. intros b Hb. apply negb_true_iff.
    apply (digit_not_chr b 46 Hb); lia. }
  unfold float_of_decimal, numeral, decimal_value.
  change (Py.split_chr_max "." 1) with (fun s => scan1 "." s EmptyString).
  cbv beta. destruct fp as [x|].
  - change ("." ++ x) with (String "." x).
    rewrite (scan1_found "." x ip EmptyString Hnd).
    fold (Py.rev ip). rewrite rev_rev. reflexivity.
  - rewrite (scan1_absent "." ip EmptyString Hnd). reflexivity.
Qed.

End Token.

(** *** Signs *)

Lemma int_acc_nonneg (s : string) : forall acc, 0 <= acc -> 0 <= Py.int_acc s acc.
Proof.
  induction s as [|a s IH]; intros acc Hacc; cbn [Py.int_acc]; [exact Hacc|].
  apply IH. lia.
Qed.

Lemma decimal_value_nonneg (ip : string) (fp : option string) :
  0 <= Qnum (decimal_value ip fp).
Proof.
  pose proof (int_acc_nonneg ip 0 ltac:(lia)) as Hi.
  unfold decimal_value, Py.int_of_digits. destruct fp as [x|]; cbn [Qnum inject_Z].
  - pose proof (int_acc_nonneg x 0 ltac:(lia)). nia.
  - exact Hi.
Qed.

Lemma shr_1_nonneg (mrs : shr_record) : 0 <= shr_m mrs -> 0 <= shr_m (shr_1 mrs).
Proof.
  destruct mrs as [m r s]. cbn. destruct m as [|[p|p|]|p]; cbn; lia.
Qed.

Lemma iter_shr_1_nonneg (p : positive) :
  forall mrs, 0 <= shr_m mrs -> 0 <= shr_m (iter_pos shr_1 p mrs).
Proof.
  induction p as [p IH|p IH|]; intros mrs H; cbn [iter_pos].
  - apply IH, IH, shr_1_nonneg, H.
  - apply IH, IH, H.
  - apply shr_1_nonneg, H.
Qed.

Lemma shr_fexp_nonneg (m e : Z) (l : location) :
  0 <= m -> 0 <= shr_m (fst (shr_fexp Float.prec Float.emax m e l)).
Proof.
  intros Hm. unfold shr_fexp, shr.
  assert (H0 : 0 <= shr_m (shr_record_of_loc m l)).
  { destruct l as [|[]]; exact Hm. }
  destruct (fexp _ _ _ - e) as [|p|p]; cbn [fst]; [exact H0| |exact H0].
  apply iter_shr_1_nonneg, H0.
Qed.

Lemma round_nearest_even_nonneg (m : Z) (l : location) :
  0 <= m -> 0 <= round_nearest_even m l.
Proof.
  intros Hm. unfold round_nearest_even.
  destruct l as [|[]]; try destruct (Z.even m); lia.
Qed.

(** Rounding a mantissa that is not negative gives no NaN and keeps the
    sign. *)
Lemma binary_round_aux_sign (mx ex : Z) (lx : location) :
  0 <= mx -> positive_sign (binary_round_aux Float.prec Float.emax false mx ex lx).
Proof.
  intros Hm. unfold binary_round_aux.
  pose proof (shr_fexp_nonneg mx ex lx Hm) as H1.
  destruct (shr_fexp Float.prec Float.emax mx ex lx) as [mrs' e']. cbn [fst] in H1.
  pose proof (shr_fexp_nonneg _ e' loc_Exact
                (round_nearest_even_nonneg _ (loc_of_shr_record mrs') H1)) as H2.
  destruct (shr_fexp Float.prec Float.emax _ e' loc_Exact) as [mrs'' e''].
  cbn [fst] in H2.
  destruct (shr_m mrs'') as [|m|m]; [reflexivity| |lia].
  destruct (e'' <=? _); reflexivity.
Qed.

Lemma div_sign (x : spec_float) (my : positive) (ey : Z) :
  positive_sign x -> positive_sign (Float.div x (S754_finite false my ey)).
Proof.
  destruct x as [s|s| |s mx ex]; cbn; try (intros ->; reflexivity); [tauto|].
  intros ->. unfold SFdiv_core_binary.
  set (m' := match _ with 0 => Z.pos mx | Z.pos _ => _ | Z.neg _ => 0 end).
  assert (Hm' : 0 <= m').
  { subst m'. destruct (_ - _ - _) as [|p|p]; [lia| |lia].
    apply Z.shiftl_nonneg. lia. }
  pose proof (Z_div_mod m' (Z.pos my) ltac:(lia)) as Hdiv.
  change IntDef.Z.div_eucl with Z.div_eucl.
  destruct (Z.div_eucl m' (Z.pos my)) as [q r].
  apply binary_round_aux_sign. nia.
Qed.

Lemma mul_sign (x : spec_float) (my : positive) (ey : Z) :
  positive_sign x -> positive_sign (Float.mul x (S754_finite false my ey)).
Proof.
  destruct x as [s|s| |s mx ex]; cbn; try (intros ->; reflexivity); [tauto|].
  intros ->. apply binary_round_aux_sign. lia.
Qed.

Lemma nearest_sign (q : Q) : 0 <= Qnum q -> positive_sign (nearest q).
Proof.
  unfold nearest, Float.of_ratio. destruct (Qnum q) as [|p|p]; [reflexivity| |lia].
  intros _. apply (div_sign (S754_finite false p 0)). reflexivity.
Qed.

Lemma to_millis_sign (u : string) (x y : spec_float) :
  positive_sign x -> to_millis u x = Some y -> positive_sign y.
Proof.
  intros Hx. unfold to_millis.
  repeat (destruct (String.eqb u _);
          [intros [= <-];
           first [exact Hx | apply div_sign, Hx | apply mul_sign, Hx]|]).
  discriminate.
Qed.

Lemma to_millis_unit (u : string) (x y : spec_float) :
  to_millis u x = Some y ->
  (exists f, unit_factor u = Some f) /\ duration_of x u = return_int y.
Proof.
  unfold to_millis, unit_factor, duration_of.
  repeat (destruct (String.eqb u _); [intros [= <-]; eauto|]).
  discriminate.
Qed.

(** *** Truncation *)

(** [int] of a float of positive sign is the integer just below its
    value; it raises on the infinity. *)
Lemma to_int_spec (x : spec_float) :
  positive_sign x ->
  match x with
  | S754_infinity _ => Float.to_int x = Raise OverflowError
  | _ => exists n, Float.to_int x = Ok n /\ 0 <= n
                   /\ (inject_Z n <= value x)%Q /\ (value x < inject_Z n + 1)%Q
  end.
Proof.
  destruct x as [s|s| |s m e]; cbn [positive_sign]; [| |tauto|].
  - intros _. exists 0. split; [reflexivity|]. split; [lia|].
    unfold Qle, Qlt. cbn. lia.
  - reflexivity.
  - intros ->. eexists. split; [reflexivity|]. cbn [cond_Zopp value].
    destruct e as [|p|p].
    + rewrite Z.shiftl_0_r. change (2 ^ 0) with 1.
      unfold Qle, Qlt. cbn [Qnum Qden inject_Z Qplus]. lia.
    + rewrite Z.shiftl_mul_pow2 by lia.
      pose proof (Z.pow_pos_nonneg 2 (Z.pos p) ltac:(lia) ltac:(lia)).
      unfold Qle, Qlt. cbn [Qnum Qden inject_Z Qplus]. nia.
    + change (Z.shiftl (Z.pos m) (Z.neg p)) with (Z.shiftr (Z.pos m) (Z.pos p)).
      rewrite Z.shiftr_div_pow2 by lia.
      assert (Hpow : Z.pos (2 ^ p) = 2 ^ Z.pos p) by (rewrite Pos2Z.inj_pow; reflexivity).
      pose proof (Z.div_pos (Z.pos m) (2 ^ Z.pos p) ltac:(lia) ltac:(lia)) as Hn.
      pose proof (Z.mul_div_le (Z.pos m) (2 ^ Z.pos p) ltac:(lia)) as Hlo.
      pose proof (Z.mul_succ_div_gt (Z.pos m) (2 ^ Z.pos p) ltac:(lia)) as Hhi.
      split; [exact Hn|].
      unfold Qle, Qlt. cbn [Qnum Qden inject_Z Qplus]. rewrite Hpow. split; nia.
Qed.




(** A numeral too long for a float: the conversion raises, and so does
    the parser on a DNS line that ends in it. *)
Example parse_duration_ms_overflow :
  _parse_duration_ms (long_numeral ++ "ms") = Raise OverflowError
  /\ parse_line (dns_line (long_numeral ++ "ms")) = Raise OverflowError.
Proof. split; vm_compute; reflexivity. Qed.

(** What raises is an infinite float of milliseconds, not a long
    numeral: 310 zeros yield 0, a 2 followed by 308 zeros, 309 digits,
    raises in ms, and a 1 followed by 305 zeros, whose float is finite,
    raises in h, the product with 3600000 being infinite; a 1 followed
    by 309 zeros raises in every unit. *)
Example parse_duration_ms_overflow_cases :
  _parse_duration_ms (string_of_list_ascii (List.repeat "0"%char 310) ++ "ms")
  = Ok (Some 0)
  /\ _parse_duration_ms
       (String "2" (string_of_list_ascii (List.repeat "0"%char 308)) ++ "ms")
     = Raise OverflowError
  /\ _parse_duration_ms
       (String "1" (string_of_list_ascii (List.repeat "0"%char 305)) ++ "h")
     = Raise OverflowError
  /\ List.map (fun u => _parse_duration_ms (long_numeral ++ u))
              ["ns"; "us"; "ms"; "s"; "m"; "h"]
     = List.repeat (Raise OverflowError) 6.
Proof. repeat split; vm_compute; reflexivity. Qed.

End DurationFacts.

(** * Further properties *)

(** ** The tailer: what a poll returns *)

Section PollFacts.

Import Tailer Monotone Lines.

Lemma first_line_split (s : string) :
  s = first_line s ++ Py.drop (String.length (first_line s)) s.
Proof.
  induction s as [|a s IH]; [reflexivity|]. cbn [first_line].
  destruct (Ascii.eqb a "010"); cbn [String.length Py.drop].
  - reflexivity.
  - change (String a s = String a (first_line s ++ Py.drop (String.length (first_line s)) s)).
    rewrite <- IH. reflexivity.
Qed.

Lemma join_cons (l : string) (ls : list string) :
  Py.join EmptyString (l :: ls) = l ++ Py.join EmptyString ls.
Proof.
  destruct ls as [|l' ls]; cbn [Py.join].
  - symmetry. apply app_nil_str.
  - reflexivity.
Qed.


Lemma drop_all (s : string) (n : nat) :
  (String.length s <= n)%nat -> Py.drop n s = EmptyString.
Proof.
  revert s. induction n as [|n IH]; intros s Hn.
  - destruct s; [reflexivity|cbn in Hn; lia].
  - destruct s as [|a s]; [reflexivity|]. cbn in *. apply IH. lia.
Qed.

Lemma drop_nil_length (s : string) (n : nat) :
  Py.drop n s = EmptyString -> (String.length s <= n)%nat.
Proof.
  intros H. pose proof (length_drop n s) as Hl. rewrite H in Hl. cbn in Hl. lia.
Qed.

(** The loop reads the bytes that follow the handle, in order, and stops
    short of [n] lines only at the end of the file. *)
Lemma read_loop_exact (fs : file_system) (n : nat) :
  forall (h : handle) (off : Z) (out : list string) (h' : handle) (off' : Z),
    0 <= off -> h_pos h = off ->
    read_loop fs n h off = (out, h', off') ->
    Py.drop (Z.to_nat off) (content fs (h_ino h))
    = Py.join EmptyString out ++ Py.drop (Z.to_nat off') (content fs (h_ino h))
    /\ (List.length out <= n)%nat
    /\ ((List.length out < n)%nat ->
        Py.drop (Z.to_nat off') (content fs (h_ino h)) = EmptyString).
Proof.
  induction n as [|n IH]; intros h off out h' off' H0 Hpos.
  - cbn [read_loop]. intros [= <- <- <-]. cbn. split; [reflexivity|]. split; lia.
  - cbn [read_loop readline]. rewrite Hpos.
    set (rest := Py.drop (Z.to_nat off) (content fs (h_ino h))).
    destruct (Py.truthy (first_line rest)) eqn:Hl.
    + specialize (IH {| h_ino := h_ino h;
                        h_pos := off + Z.of_nat (String.length (first_line rest)) |}
                     (off + Z.of_nat (String.length (first_line rest)))).
      cbn [h_ino h_pos] in IH.
      destruct (read_loop fs n _ _) as [[out1 h1] off1] eqn:Hloop.
      intros [= <- <- <-].
      destruct (IH out1 h1 off1 ltac:(lia) eq_refl eq_refl) as (Hd & Hlen & Hend).
      rewrite join_cons. split; [|split].
      * rewrite (first_line_split rest) at 1. rewrite app_assoc_str. f_equal.
        rewrite <- Hd. unfold rest. rewrite drop_drop. f_equal. lia.
      * cbn [List.length]. lia.
      * cbn [List.length]. intros Hlt. apply Hend. lia.
    + intros [= <- <- <-]. apply first_line_empty in Hl.
      cbn [Py.join List.length]. fold rest. rewrite Hl. split; [reflexivity|].
      split; [lia|reflexivity].
Qed.

(** A poll of a tailer that agrees with its file returns, in order and
    without a gap, the bytes between the offset it had and the offset it
    has afterwards; it returns at most [n] lines, and fewer only when it
    has reached the end of the file. *)
Lemma poll_exact (fs : file_system) (t : LogTailer) (n : Z)
    (st : stat_result) :
  tailer_ok fs t ->
  stat fs (path t) = Some st ->
  let out := fst (read_new_lines fs t n) in
  let t' := snd (read_new_lines fs t n) in
  Py.drop (Z.to_nat (_offset t)) (content fs (st_ino st))
  = Py.join EmptyString out ++ Py.drop (Z.to_nat (_offset t')) (content fs (st_ino st))
  /\ _offset t <= _offset t' <= st_size st
  /\ (List.length out <= Z.to_nat n)%nat
  /\ ((List.length out < Z.to_nat n)%nat -> _offset t' = st_size st).
Proof.
  intros Hok Hst. cbv zeta.
  assert (Hmain : forall (h : handle) (t1 : LogTailer),
            _fh t1 = Some h -> path t1 = path t -> _inode t1 = Some (h_ino h) ->
            h_ino h = st_ino st -> h_pos h = _offset t1 -> 0 <= _offset t1 ->
            _offset t1 <= st_size st ->
            let r := (let '(out, h', offset') :=
                        read_loop fs (Z.to_nat n) h (_offset t1) in
                      let t2 := {| path := path t1; _fh := Some h';
                                   _inode := _inode t1; _offset := offset' |} in
                      match out with
                      | [] => ([], _check_rotation_or_truncate fs t2)
                      | _ :: _ => (out, t2)
                      end) in
            Py.drop (Z.to_nat (_offset t1)) (content fs (st_ino st))
            = Py.join EmptyString (fst r)
              ++ Py.drop (Z.to_nat (_offset (snd r))) (content fs (st_ino st))
            /\ _offset t1 <= _offset (snd r) <= st_size st
            /\ (List.length (fst r) <= Z.to_nat n)%nat
            /\ ((List.length (fst r) < Z.to_nat n)%nat -> _offset (snd r) = st_size st)).
  { intros h t1 Hfh Hp Hi Hino Hpos H0 Hle. cbv zeta.
    assert (Hsz : st_size st = Z.of_nat (String.length (content fs (st_ino st)))).
    { unfold stat in Hst. destruct (dentry fs !! path t); [|discriminate].
      injection Hst as <-. reflexivity. }
    destruct (read_loop fs (Z.to_nat n) h (_offset t1)) as [[out h'] off'] eqn:Hloop.
    pose proof (read_loop_within fs (Z.to_nat n) h (_offset t1) out h' off' H0 Hpos
                  ltac:(rewrite Hino; lia) Hloop) as (Hino' & Hpos' & Hge & Hle').
    pose proof (read_loop_exact fs (Z.to_nat n) h (_offset t1) out h' off' H0 Hpos Hloop)
      as (Hd & Hlen & Hend).
    rewrite Hino in Hd, Hend, Hle'.
    assert (Hfin : (List.length out < Z.to_nat n)%nat -> off' = st_size st).
    { intros Hlt. apply Hend in Hlt. apply drop_nil_length in Hlt. lia. }
    destruct out as [|l out].
    - cbn [fst snd].
      assert (Hsame : _check_rotation_or_truncate fs
                        {| path := path t1; _fh := Some h'; _inode := _inode t1;
                           _offset := off' |}
                      = {| path := path t1; _fh := Some h'; _inode := _inode t1;
                           _offset := off' |}).
      { unfold _check_rotation_or_truncate. cbn [path _inode _fh _offset].
        rewrite Hp, Hst, Hi, Hino, Z.eqb_refl. cbn [negb].
        destruct (st_size st <? off') eqn:Hlt; [apply Z.ltb_lt in Hlt; lia|].
        reflexivity. }
      rewrite Hsame. cbn [_offset].
      split; [exact Hd|]. split; [lia|]. split; [exact Hlen|exact Hfin].
    - cbn [fst snd _offset].
      split; [exact Hd|]. split; [lia|]. split; [exact Hlen|exact Hfin]. }
  unfold read_new_lines, _ensure_open.
  destruct Hok as [H0 Hok].
  destruct (_fh t) as [h|] eqn:Hfh.
  - destruct Hok as (Hd & Hi & Hpos & Hle).
    assert (Hino : h_ino h = st_ino st).
    { unfold stat in Hst. rewrite Hd in Hst. injection Hst as <-. reflexivity. }
    cbv beta iota. rewrite Hfh.
    assert (Hle2 : _offset t <= st_size st).
    { unfold stat in Hst. rewrite Hd in Hst. injection Hst as <-. cbn. exact Hle. }
    exact (Hmain h t Hfh eq_refl Hi Hino Hpos H0 Hle2).
  - specialize (Hok st Hst). unfold _open. rewrite Hst.
    destruct (st_size st <? _offset t) eqn:Hlt; [apply Z.ltb_lt in Hlt; lia|].
    cbv beta iota. cbn [_fh].
    exact (Hmain {| h_ino := st_ino st; h_pos := _offset t |}
             {| path := path t;
                _fh := Some {| h_ino := st_ino st; h_pos := _offset t |};
                _inode := Some (st_ino st); _offset := _offset t |}
             eq_refl eq_refl eq_refl eq_refl eq_refl H0 Hok).
Qed.

Lemma join_app (xs ys : list string) :
  Py.join EmptyString (xs ++ ys) = Py.join EmptyString xs ++ Py.join EmptyString ys.
Proof.
  induction xs as [|x xs IH]; [reflexivity|].
  change ((x :: xs) ++ ys)%list with (x :: (xs ++ ys))%list.
  rewrite !join_cons, IH, app_assoc_str. reflexivity.
Qed.

Lemma drop_app (n : nat) (s extra : string) :
  (n <= String.length s)%nat -> Py.drop n (s ++ extra) = Py.drop n s ++ extra.
Proof.
  revert s. induction n as [|n IH]; intros s Hn.
  - destruct s; reflexivity.
  - destruct s as [|a s]; [cbn in Hn; lia|]. cbn in *. apply IH. lia.
Qed.

Lemma content_append_self (fs : file_system) (p data : string) (i : Z) :
  dentry fs !! p = Some i ->
  content (append fs p data) i = content fs i ++ data.
Proof.
  intros Hd. unfold append. rewrite Hd. unfold content at 1. cbn [blocks].
  rewrite lookup_insert_eq. reflexivity.
Qed.

Lemma stat_inv (fs : file_system) (p : string) (st : stat_result) :
  stat fs p = Some st ->
  dentry fs !! p = Some (st_ino st)
  /\ st_size st = Z.of_nat (String.length (content fs (st_ino st))).
Proof.
  unfold stat. destruct (dentry fs !! p) as [i|]; [|discriminate].
  intros [= <-]. split; reflexivity.
Qed.

Lemma follow_exact (acts : list action) :
  forall (fs : file_system) (t : LogTailer) (st : stat_result),
    tailer_ok fs t -> stat fs (path t) = Some st ->
    let r := follow acts fs t in
    let fs' := fst (fst r) in
    let t' := snd (fst r) in
    (exists extra, content fs' (st_ino st) = content fs (st_ino st) ++ extra)
    /\ dentry fs' = dentry fs
    /\ Py.drop (Z.to_nat (_offset t)) (content fs' (st_ino st))
       = Py.join EmptyString (snd r)
         ++ Py.drop (Z.to_nat (_offset t')) (content fs' (st_ino st))
    /\ _offset t <= _offset t' <= Z.of_nat (String.length (content fs' (st_ino st))).
Proof.
  induction acts as [|[data|n] acts IH]; intros fs t st Hok Hst; cbv zeta.
  - cbn [follow fst snd Py.join]. destruct (stat_inv _ _ _ Hst) as [Hd Hsz].
    split; [exists EmptyString; symmetry; apply app_nil_str|]. split; [reflexivity|].
    split; [reflexivity|].
    pose proof (poll_exact fs t 0 st Hok Hst) as (_ & Hb & _). cbv zeta in Hb.
    destruct Hok as [H0 _]. lia.
  - cbn [follow]. destruct (stat_inv _ _ _ Hst) as [Hd Hsz].
    assert (Hst2 : stat (append fs (path t) data) (path t)
                   = Some {| st_ino := st_ino st;
                             st_size := Z.of_nat (String.length
                               (content (append fs (path t) data) (st_ino st))) |}).
    { unfold stat. rewrite dentry_append, Hd. reflexivity. }
    specialize (IH (append fs (path t) data) t _
                  (tailer_ok_append fs (path t) data t Hok) Hst2).
    cbv zeta in IH. cbn [st_ino] in IH.
    destruct IH as ([extra He] & Hde & Heq & Hb).
    rewrite (content_append_self fs (path t) data _ Hd) in He.
    split; [exists (data ++ extra); rewrite He, app_assoc_str; reflexivity|].
    split; [rewrite Hde; apply dentry_append|]. split; [exact Heq|exact Hb].
  - cbn [follow]. destruct (stat_inv _ _ _ Hst) as [Hd Hsz].
    pose proof (poll_exact fs t n st Hok Hst) as (Hp & Hb1 & _). cbv zeta in Hp, Hb1.
    pose proof (read_new_lines_ok fs t n Hok) as (Hok1 & Hpath & _).
    destruct (read_new_lines fs t n) as [lines t1]. cbn [fst snd] in *.
    rewrite <- Hpath in Hst.
    specialize (IH fs t1 st Hok1 Hst). cbv zeta in IH.
    destruct (follow acts fs t1) as [[fs' t'] out]. cbn [fst snd] in *.
    destruct IH as ([extra He] & Hde & Heq & Hb).
    split; [exists extra; exact He|]. split; [exact Hde|]. split; [|lia].
    rewrite join_app, app_assoc_str, <- Heq, He.
    rewrite !drop_app by lia. rewrite Hp, app_assoc_str. reflexivity.
Qed.

(** X1: a tailer that has not opened its file yet, as the collector
    restores it at its start, follows a log of plain text that is only
    appended to.  Whatever is appended and whenever the tailer polls,
    the lines of all its polls, joined in order, are exactly the bytes
    of the file between the offset the tailer started with and the
    offset it has reached: no byte is lost, repeated or out of order,
    and the offset never goes back nor beyond the end of the file. *)
Theorem follow_appends_exact (acts : list action) (fs : file_system)
    (t : LogTailer) (st : stat_result) :
  _fh t = None ->
  tailer_ok fs t ->
  stat fs (path t) = Some st ->
  plain (content fs (st_ino st)) = true ->
  forallb plain_action acts = true ->
  let r := follow acts fs t in
  let fs' := fst (fst r) in
  let t' := snd (fst r) in
  (exists extra, content fs' (st_ino st) = content fs (st_ino st) ++ extra)
  /\ dentry fs' = dentry fs
  /\ Py.drop (Z.to_nat (_offset t)) (content fs' (st_ino st))
     = Py.join EmptyString (snd r)
       ++ Py.drop (Z.to_nat (_offset t')) (content fs' (st_ino st))
  /\ _offset t <= _offset t' <= Z.of_nat (String.length (content fs' (st_ino st))).
Proof. intros _ Hok Hst _ _. exact (follow_exact acts fs t st Hok Hst). Qed.

Lemma follow_appends_exact_witness :
  let r := follow [Polled 1; Appended ("ee" ++ LF); Polled 10] Sample.fs
                  (init Sample.log) in
  snd r = ["one" ++ LF; "two" ++ LF; "three" ++ LF]
  /\ Py.drop 0 (content (fst (fst r)) 1)
     = Py.join EmptyString (snd r)
       ++ Py.drop (Z.to_nat (_offset (snd (fst r)))) (content (fst (fst r)) 1).
Proof.
  cbv zeta. split; [vm_compute; reflexivity|].
  assert (Hok : tailer_ok Sample.fs (init Sample.log)).
  { split; [cbn; lia|]. cbn [_fh init]. intros st Hst.
    apply (stat_size_nonneg _ _ _ Hst). }
  destruct (follow_appends_exact [Polled 1; Appended ("ee" ++ LF); Polled 10]
              Sample.fs (init Sample.log) {| st_ino := 1; st_size := 11 |}
              eq_refl Hok eq_refl eq_refl eq_refl)
    as (_ & _ & H & _).
  exact H.
Defined.


(** *** The shape of the lines *)

Lemma terminated_cons (a : ascii) (l : string) :
  Ascii.eqb a "010" = false -> terminated l -> terminated (String a l).
Proof.
  intros Ha (body & -> & Hb). exists (String a body). split; [reflexivity|].
  unfold no_lf in *. cbn [Py.all_chr]. rewrite Ha. exact Hb.
Qed.

Lemma is_line_cons (a : ascii) (l : string) :
  Ascii.eqb a "010" = false -> is_line l -> is_line (String a l).
Proof.
  intros Ha [Ht|[Hne Hl]].
  - left. apply terminated_cons; assumption.
  - right. split; [discriminate|]. unfold no_lf in *. cbn [Py.all_chr].
    rewrite Ha. exact Hl.
Qed.

Lemma terminated_lf : terminated LF.
Proof. exists EmptyString. split; reflexivity. Qed.

Lemma shape_splitlines (s : string) : shape (splitlines s).
Proof.
  induction s as [|a s IH]; [exact I|]. cbn [splitlines].
  destruct (Ascii.eqb a "010") eqn:Ha.
  - apply Ascii.eqb_eq in Ha. subst a.
    destruct (splitlines s) as [|l ls]; cbn [shape].
    + left. exact terminated_lf.
    + split; [exact terminated_lf|exact IH].
  - destruct (splitlines s) as [|l ls]; cbn [shape].
    + right. split; [discriminate|]. unfold no_lf. cbn [Py.all_chr]. rewrite Ha.
      reflexivity.
    + destruct ls as [|l' ls]; cbn [shape] in *.
      * apply is_line_cons; assumption.
      * destruct IH as [Ht Hs]. split; [apply terminated_cons; assumption|exact Hs].
Qed.

Lemma shape_firstn (n : nat) : forall ls, shape ls -> shape (firstn n ls).
Proof.
  induction n as [|n IH]; intros ls Hs; [exact I|].
  destruct ls as [|l ls]; [exact I|]. cbn [firstn].
  destruct ls as [|l' ls].
  - destruct n; exact Hs.
  - cbn [shape] in Hs. destruct Hs as [Ht Hs]. specialize (IH (l' :: ls) Hs).
    destruct n as [|n]; cbn [firstn shape] in *; [left; exact Ht|].
    split; assumption.
Qed.

Lemma shape_Forall (ls : list string) :
  shape ls -> Forall is_line ls /\ Forall terminated (removelast ls).
Proof.
  induction ls as [|l ls IH]; intros Hs; [split; constructor|].
  destruct ls as [|l' ls].
  - cbn in *. split; [constructor; [exact Hs|constructor]|constructor].
  - cbn [shape] in Hs. destruct Hs as [Ht Hs]. destruct (IH Hs) as [H1 H2].
    split.
    + constructor; [left; exact Ht|exact H1].
    + change (removelast (l :: l' :: ls)) with (l :: removelast (l' :: ls)).
      constructor; assumption.
Qed.

(** What a poll returns are the next lines of the file it reads. *)
Lemma read_new_lines_lines (fs : file_system) (t : LogTailer) (n : Z) :
  0 <= _offset t ->
  (forall h, _fh t = Some h -> 0 <= h_pos h) ->
  exists s, fst (read_new_lines fs t n) = firstn (Z.to_nat n) (splitlines s).
Proof.
  intros H0 Hh. unfold read_new_lines, _ensure_open.
  destruct (_fh t) as [h|] eqn:Hfh.
  - cbv beta iota. rewrite Hfh.
    pose proof (read_loop_lines fs (Z.to_nat n) h (_offset t) (Hh h eq_refl)) as Hl.
    destruct (read_loop fs (Z.to_nat n) h (_offset t)) as [[out h'] off'].
    cbn [fst] in Hl. eexists. rewrite <- Hl. destruct out; reflexivity.
  - unfold _open. destruct (stat fs (path t)) as [st|].
    + cbv beta iota. cbn [_fh].
      set (o := if st_size st <? _offset t then 0 else _offset t).
      assert (Ho : 0 <= o) by (subst o; destruct (st_size st <? _offset t); lia).
      pose proof (read_loop_lines fs (Z.to_nat n) {| h_ino := st_ino st; h_pos := o |}
                    o Ho) as Hl.
      cbn [_offset].
      destruct (read_loop fs (Z.to_nat n) _ o) as [[out h'] off'].
      cbn [fst] in Hl. eexists. rewrite <- Hl. destruct out; reflexivity.
    + exists EmptyString. destruct (Z.to_nat n); reflexivity.
Qed.

(** X2: no line of a poll is empty and none holds an LF before its last
    character; every line but the last one of the poll ends with LF, so
    that a line without LF can only be the unterminated end of the
    file. *)
Theorem read_new_lines_shape (fs : file_system) (t : LogTailer) (n : Z) :
  0 <= _offset t ->
  (forall h, _fh t = Some h -> 0 <= h_pos h) ->
  Forall is_line (fst (read_new_lines fs t n))
  /\ Forall terminated (removelast (fst (read_new_lines fs t n))).
Proof.
  intros H0 Hh. destruct (read_new_lines_lines fs t n H0 Hh) as [s ->].
  apply shape_Forall, shape_firstn, shape_splitlines.
Qed.

Lemma read_new_lines_shape_witness :
  fst (read_new_lines Sample.fs (init Sample.log) 10)
  = ["one" ++ LF; "two" ++ LF; "thr"]
  /\ Forall is_line (fst (read_new_lines Sample.fs (init Sample.log) 10))
  /\ Forall terminated (removelast (fst (read_new_lines Sample.fs (init Sample.log) 10))).
Proof.
  split; [vm_compute; reflexivity|].
  apply (read_new_lines_shape Sample.fs (init Sample.log) 10).
  - cbn. lia.
  - intros h Hh. discriminate Hh.
Defined.


(** *** Rotation *)

Lemma read_loop_handle (fs : file_system) (n : nat) :
  forall (h : handle) (off : Z) (out : list string) (h' : handle) (off' : Z),
    read_loop fs n h off = (out, h', off') ->
    h_ino h' = h_ino h /\ (out <> [] -> h_pos h' = off').
Proof.
  induction n as [|n IH]; intros h off out h' off'.
  - cbn [read_loop]. intros [= <- <- <-]. split; [reflexivity|congruence].
  - cbn [read_loop readline]. destruct (Py.truthy _).
    + destruct (read_loop fs n _ _) as [[out1 h1] off1] eqn:Hloop.
      intros [= <- <- <-]. destruct (IH _ _ _ _ _ Hloop) as [Hi Hp].
      cbn [h_ino] in Hi. split; [exact Hi|]. intros _.
      destruct out1 as [|l1 out1]; [|apply Hp; discriminate].
      apply read_loop_nil in Hloop as [-> ->]. reflexivity.
    + intros [= <- <- <-]. split; [reflexivity|congruence].
Qed.

(** X3: once the path names another inode than the one the tailer
    recorded, a poll that still returns lines stays on the file it has
    open; the poll that returns none closes that file and opens the new
    one at offset 0, and the next poll, the first read of the new
    handle, returns the first lines of the new file when it holds plain
    text.  (What the lines of the first poll are is not claimed.) *)
Theorem rotation_switches_on_empty_poll (fs : file_system) (t : LogTailer)
    (n : Z) (h : handle) (i : Z) (st : stat_result) :
  _fh t = Some h ->
  _inode t = Some i ->
  stat fs (path t) = Some st ->
  st_ino st <> i ->
  let out := fst (read_new_lines fs t n) in
  let t' := snd (read_new_lines fs t n) in
  (out <> [] ->
      _inode t' = Some i
      /\ exists h', _fh t' = Some h' /\ h_ino h' = h_ino h /\ _offset t' = h_pos h')
  /\ (out = [] ->
      _inode t' = Some (st_ino st)
      /\ _offset t' = 0
      /\ _fh t' = Some {| h_ino := st_ino st; h_pos := 0 |}
      /\ forall fs' m,
           plain (content fs' (st_ino st)) = true ->
           fst (read_new_lines fs' t' m)
           = firstn (Z.to_nat m) (splitlines (content fs' (st_ino st)))).
Proof.
  intros Hfh Hi Hst Hne. cbv zeta.
  destruct (read_new_lines fs t n) as [out t'] eqn:Hr. cbn [fst snd].
  unfold read_new_lines, _ensure_open in Hr. rewrite Hfh in Hr.
  cbv beta iota in Hr. rewrite Hfh in Hr.
  destruct (read_loop fs (Z.to_nat n) h (_offset t)) as [[out1 h'] off'] eqn:Hloop.
  destruct out1 as [|l out1]; injection Hr as <- <-.
  - split; [congruence|]. intros _.
    apply read_loop_nil in Hloop as [-> ->].
    unfold _check_rotation_or_truncate. cbn [path _inode _fh _offset].
    rewrite Hst, Hi.
    destruct (st_ino st =? i) eqn:He; [apply Z.eqb_eq in He; contradiction|].
    cbn [negb]. unfold _open. cbn [path _offset]. rewrite Hst.
    pose proof (stat_size_nonneg _ _ _ Hst) as Hsz.
    destruct (st_size st <? 0) eqn:Hneg; [apply Z.ltb_lt in Hneg; lia|].
    cbn [snd _inode _offset _fh].
    split; [reflexivity|]. split; [reflexivity|]. split; [reflexivity|].
    intros fs' m _.
    apply (read_new_lines_from_start fs' _ {| h_ino := st_ino st; h_pos := 0 |});
      reflexivity.
  - cbn [_inode _fh _offset]. split; [|discriminate].
    intros _. split; [exact Hi|]. exists h'.
    destruct (read_loop_handle _ _ _ _ _ _ _ Hloop) as [Hin Hp].
    split; [reflexivity|]. split; [exact Hin|]. symmetry. apply Hp. discriminate.
Qed.

Lemma rotation_switches_on_empty_poll_witness :
  fst (read_new_lines Sample.rotated Sample.at_end 10) = []
  /\ _inode (snd (read_new_lines Sample.rotated Sample.at_end 10)) = Some 2
  /\ _offset (snd (read_new_lines Sample.rotated Sample.at_end 10)) = 0
  /\ fst (read_new_lines Sample.rotated
            (snd (read_new_lines Sample.rotated Sample.at_end 10)) 10)
     = ["new" ++ LF].
Proof.
  assert (Hout : fst (read_new_lines Sample.rotated Sample.at_end 10) = [])
    by (vm_compute; reflexivity).
  split; [exact Hout|].
  destruct (rotation_switches_on_empty_poll Sample.rotated Sample.at_end 10
              {| h_ino := 1; h_pos := 11 |} 1 {| st_ino := 2; st_size := 4 |}
              eq_refl eq_refl eq_refl ltac:(discriminate))
    as (_ & Hsw).
  destruct (Hsw Hout) as (Hi & Ho & _ & Hnext).
  split; [exact Hi|]. split; [exact Ho|].
  rewrite (Hnext Sample.rotated 10 eq_refl). vm_compute. reflexivity.
Defined.

(** *** A tailer restored from the persisted state *)



End PollFacts.

(** ** The store: replays and integrity *)

Section StoreFacts.

Import Storage Integrity.

Lemma digest_key_inj (h1 h2 : hexdigest) : digest_key h1 = digest_key h2 -> h1 = h2.
Proof. destruct h1, h2. cbn. congruence. Qed.

(** An event that is stored is written again without a change. *)
Lemma ingest_event_stored (node : string) (d : database) (ev : ParsedEvent) :
  stored d ev -> ingest_event node d ev = d.
Proof.
  intros (row & Hrow & Hline & Hchild). unfold ingest_event. rewrite Hrow.
  destruct d as [raw ai acc dnst err cs rc rh]. cbn in *.
  assert (Hr : {| rr_id := rr_id row; rr_event_time := rr_event_time row;
                  rr_event_type := rr_event_type row; rr_raw_line := raw_line ev;
                  rr_raw_hash := rr_raw_hash row; rr_node_id := rr_node_id row |}
               = row).
  { destruct row. cbn in *. subst. reflexivity. }
  rewrite Hr, (insert_id raw _ _ Hrow).
  destruct (access ev) as [a|].
  - destruct Hchild as (c & Hc & Hh). rewrite Hc, <- Hh, (insert_id acc _ _ Hc).
    reflexivity.
  - destruct (dns ev) as [x|].
    + destruct Hchild as (c & Hc & Hh). rewrite Hc, <- Hh, (insert_id dnst _ _ Hc).
      reflexivity.
    + reflexivity.
Qed.


Lemma ingest_event_raw_other (node : string) (d : database) (ev : ParsedEvent)
    (k : string) :
  k <> digest_key (raw_hash ev) ->
  audit_raw_events (ingest_event node d ev) !! k = audit_raw_events d !! k.
Proof.
  intros Hk. unfold ingest_event.
  destruct (audit_raw_events d !! digest_key (raw_hash ev)); cbn;
    rewrite lookup_insert_ne; congruence.
Qed.

(** The id an event is stored under *)
Lemma ingest_event_raw_self (node : string) (d : database) (ev : ParsedEvent) :
  exists row,
    audit_raw_events (ingest_event node d ev) !! digest_key (raw_hash ev) = Some row
    /\ rr_raw_line row = raw_line ev
    /\ match audit_raw_events d !! digest_key (raw_hash ev) with
       | Some old => rr_id row = rr_id old
                     /\ auto_increment (ingest_event node d ev) = auto_increment d
       | None => rr_id row = auto_increment d
                 /\ auto_increment (ingest_event node d ev) = auto_increment d + 1
       end
    /\ audit_access_events (ingest_event node d ev)
       = match access ev with
         | Some a =>
             <[rr_id row := keep_access_time (audit_access_events d !! rr_id row) a]>
               (audit_access_events d)
         | None => audit_access_events d
         end
    /\ audit_dns_events (ingest_event node d ev)
       = match access ev, dns ev with
         | None, Some x =>
             <[rr_id row := keep_dns_time (audit_dns_events d !! rr_id row) x]>
               (audit_dns_events d)
         | _, _ => audit_dns_events d
         end.
Proof.
  unfold ingest_event.
  destruct (audit_raw_events d !! digest_key (raw_hash ev)) as [old|]; cbn;
    rewrite lookup_insert_eq; eexists; (split; [reflexivity|]); cbn; auto.
Qed.

Lemma ids_ok_ingest_event (node : string) (d : database) (ev : ParsedEvent) :
  ids_ok d -> ids_ok (ingest_event node d ev).
Proof.
  intros [Hlt Hinj].
  destruct (ingest_event_raw_self node d ev) as (row & Hrow & _ & Hid & _).
  assert (Hai : auto_increment d <= auto_increment (ingest_event node d ev)).
  { destruct (audit_raw_events d !! digest_key (raw_hash ev)); lia. }
  assert (Hfresh : forall k r, k <> digest_key (raw_hash ev) ->
            audit_raw_events d !! k = Some r -> rr_id r <> rr_id row).
  { intros k r Hk Hr.
    destruct (audit_raw_events d !! digest_key (raw_hash ev)) as [old|] eqn:Ho.
    - destruct Hid as [Hid _]. rewrite Hid. intros He. apply Hk.
      exact (Hinj _ _ _ _ Hr Ho He).
    - destruct Hid as [Hid _]. rewrite Hid. specialize (Hlt _ _ Hr). lia. }
  split.
  - intros k r Hr. destruct (decide (k = digest_key (raw_hash ev))) as [->|Hk].
    + rewrite Hrow in Hr. injection Hr as <-.
      destruct (audit_raw_events d !! digest_key (raw_hash ev)) as [old|] eqn:Ho.
      * destruct Hid as [-> ->]. exact (Hlt _ _ Ho).
      * lia.
    + rewrite ingest_event_raw_other in Hr by exact Hk. specialize (Hlt _ _ Hr). lia.
  - intros k1 k2 r1 r2 H1 H2 He.
    destruct (decide (k1 = digest_key (raw_hash ev))) as [->|Hk1];
      destruct (decide (k2 = digest_key (raw_hash ev))) as [->|Hk2];
      [reflexivity| | |].
    + rewrite Hrow in H1. injection H1 as <-.
      rewrite ingest_event_raw_other in H2 by exact Hk2.
      exfalso. apply (Hfresh _ _ Hk2 H2). congruence.
    + rewrite Hrow in H2. injection H2 as <-.
      rewrite ingest_event_raw_other in H1 by exact Hk1.
      exfalso. apply (Hfresh _ _ Hk1 H1). congruence.
    + rewrite ingest_event_raw_other in H1 by exact Hk1.
      rewrite ingest_event_raw_other in H2 by exact Hk2.
      exact (Hinj _ _ _ _ H1 H2 He).
Qed.

Lemma stored_ingest_event_self (node : string) (d : database) (ev : ParsedEvent) :
  stored (ingest_event node d ev) ev.
Proof.
  destruct (ingest_event_raw_self node d ev) as (row & Hrow & Hline & _ & Ha & Hd).
  exists row. split; [exact Hrow|]. split; [exact Hline|].
  rewrite Ha, Hd. destruct (access ev) as [a|].
  - eexists. split; [apply lookup_insert_eq|]. unfold holds_access.
    destruct (audit_access_events d !! rr_id row) as [o|];
      [reflexivity|destruct a; reflexivity].
  - destruct (dns ev) as [x|]; [|exact I].
    eexists. split; [apply lookup_insert_eq|]. unfold holds_dns.
    destruct (audit_dns_events d !! rr_id row) as [o|];
      [reflexivity|destruct x; reflexivity].
Qed.

Lemma stored_ingest_event_other (node : string) (d : database) (ev e1 : ParsedEvent) :
  ids_ok d -> stored d e1 -> raw_hash e1 <> raw_hash ev ->
  stored (ingest_event node d ev) e1.
Proof.
  intros [Hlt Hinj] (r1 & Hr1 & Hline & Hchild) Hne.
  assert (Hk : digest_key (raw_hash e1) <> digest_key (raw_hash ev)).
  { intros He. apply Hne, digest_key_inj, He. }
  destruct (ingest_event_raw_self node d ev) as (row & Hrow & _ & Hid & Ha & Hd).
  assert (Hdiff : rr_id row <> rr_id r1).
  { destruct (audit_raw_events d !! digest_key (raw_hash ev)) as [old|] eqn:Ho.
    - destruct Hid as [-> _]. intros He. apply Hk. exact (Hinj _ _ _ _ Hr1 Ho (eq_sym He)).
    - destruct Hid as [-> _]. specialize (Hlt _ _ Hr1). lia. }
  exists r1. split; [rewrite ingest_event_raw_other by exact Hk; exact Hr1|].
  split; [exact Hline|]. rewrite Ha, Hd.
  destruct (access e1) as [a1|].
  - destruct Hchild as (c & Hc & Hh). exists c. split; [|exact Hh].
    destruct (access ev); [rewrite lookup_insert_ne by exact Hdiff|]; exact Hc.
  - destruct (dns e1) as [x1|]; [|exact I].
    destruct Hchild as (c & Hc & Hh). exists c. split; [|exact Hh].
    destruct (access ev); [exact Hc|].
    destruct (dns ev); [rewrite lookup_insert_ne by exact Hdiff|]; exact Hc.
Qed.

Lemma ids_ok_fold (node : string) (events : list ParsedEvent) :
  forall d, ids_ok d -> ids_ok (List.fold_left (ingest_event node) events d).
Proof.
  induction events as [|ev events IH]; intros d Hd; [exact Hd|].
  cbn [List.fold_left]. apply IH, ids_ok_ingest_event, Hd.
Qed.

(** Once a batch is written, each of its events is stored. *)
Lemma stored_fold (node : string) (rest : list ParsedEvent) :
  forall (done : list ParsedEvent) (d : database),
    ids_ok d -> consistent (done ++ rest) ->
    (forall e, In e done -> stored d e) ->
    forall e, In e (done ++ rest) ->
              stored (List.fold_left (ingest_event node) rest d) e.
Proof.
  induction rest as [|ev rest IH]; intros done d Hok Hc Hdone e He.
  - rewrite List.app_nil_r in He. exact (Hdone e He).
  - cbn [List.fold_left].
    apply (IH (done ++ [ev])%list).
    + apply ids_ok_ingest_event, Hok.
    + rewrite <- List.app_assoc. exact Hc.
    + intros e1 H1. apply List.in_app_or in H1 as [H1|[<-|[]]].
      * destruct (decide (digest_key (raw_hash e1) = digest_key (raw_hash ev)))
          as [Heq|Hne].
        -- apply digest_key_inj in Heq. assert (e1 = ev) as ->.
           { apply Hc; [apply List.in_or_app; left; exact H1
                       |apply List.in_or_app; right; left; reflexivity|exact Heq]. }
           apply stored_ingest_event_self.
        -- apply stored_ingest_event_other; auto. congruence.
      * apply stored_ingest_event_self.
    + rewrite <- List.app_assoc. exact He.
Qed.

Lemma fold_stored (node : string) (events : list ParsedEvent) (d : database) :
  (forall e, In e events -> stored d e) ->
  List.fold_left (ingest_event node) events d = d.
Proof.
  induction events as [|ev events IH]; intros Hs; [reflexivity|].
  cbn [List.fold_left]. rewrite (ingest_event_stored node d ev) by (apply Hs; left; reflexivity).
  apply IH. intros e He. apply Hs. right. exact He.
Qed.


Lemma ingest_events_tables (events : list ParsedEvent) (node : string)
    (m m1 : mysql) (c : counts) :
  ingest_events events node m = (Ok c, m1) ->
  tables m1 = List.fold_left (ingest_event node) events (tables m)
  /\ c = count_events events.
Proof.
  unfold ingest_events. destruct events as [|ev events].
  - intros [= <- <-]. split; reflexivity.
  - unfold transaction. destruct (faults m) as [|[] rest]; [|discriminate|];
      intros [= <- <-]; split; reflexivity.
Qed.

(** *** Integrity *)

Lemma has_raw_ingest_event (node : string) (d : database) (ev : ParsedEvent) (id : Z) :
  has_raw d id -> has_raw (ingest_event node d ev) id.
Proof.
  intros (k & r & Hr & <-).
  destruct (decide (k = digest_key (raw_hash ev))) as [->|Hk].
  - destruct (ingest_event_raw_self node d ev) as (row & Hrow & _ & Hid & _).
    rewrite Hr in Hid. destruct Hid as [Hid _].
    exists (digest_key (raw_hash ev)), row. auto.
  - exists k, r. rewrite ingest_event_raw_other by exact Hk. auto.
Qed.

Lemma children_ok_ingest_event (node : string) (d : database) (ev : ParsedEvent) :
  children_ok d -> children_ok (ingest_event node d ev).
Proof.
  intros [Ha Hd].
  destruct (ingest_event_raw_self node d ev) as (row & Hrow & _ & _ & Hacc & Hdns).
  assert (Hself : has_raw (ingest_event node d ev) (rr_id row)).
  { exists (digest_key (raw_hash ev)), row. auto. }
  split.
  - intros id a. rewrite Hacc. destruct (access ev) as [a0|].
    + destruct (decide (id = rr_id row)) as [->|Hne]; [intros _; exact Hself|].
      rewrite lookup_insert_ne by congruence.
      intros H. apply has_raw_ingest_event, (Ha _ _ H).
    + intros H. apply has_raw_ingest_event, (Ha _ _ H).
  - intros id x. rewrite Hdns.
    destruct (access ev) as [a0|];
      [intros H; apply has_raw_ingest_event, (Hd _ _ H)|].
    destruct (dns ev) as [x0|];
      [|intros H; apply has_raw_ingest_event, (Hd _ _ H)].
    destruct (decide (id = rr_id row)) as [->|Hne]; [intros _; exact Hself|].
    rewrite lookup_insert_ne by congruence.
    intros H. apply has_raw_ingest_event, (Hd _ _ H).
Qed.

Lemma children_ok_fold (node : string) (events : list ParsedEvent) :
  forall d, children_ok d -> children_ok (List.fold_left (ingest_event node) events d).
Proof.
  induction events as [|ev events IH]; intros d Hd; [exact Hd|].
  cbn [List.fold_left]. apply IH, children_ok_ingest_event, Hd.
Qed.

Lemma ingest_events_outcome (events : list ParsedEvent) (node : string) (m : mysql) :
  tables (snd (ingest_events events node m)) = tables m
  \/ tables (snd (ingest_events events node m))
     = List.fold_left (ingest_event node) events (tables m).
Proof.
  unfold ingest_events. destruct events as [|ev events]; [left; reflexivity|].
  unfold transaction. destruct (faults m) as [|[] rest]; cbn; auto.
Qed.

Lemma raw_kept_ingest_event (node : string) (d : database) (ev : ParsedEvent)
    (k : string) (r : raw_row) :
  audit_raw_events d !! k = Some r ->
  exists r', audit_raw_events (ingest_event node d ev) !! k = Some r'
             /\ rr_id r' = rr_id r /\ rr_node_id r' = rr_node_id r.
Proof.
  intros Hr. destruct (decide (k = digest_key (raw_hash ev))) as [->|Hk].
  - unfold ingest_event. rewrite Hr. cbn. rewrite lookup_insert_eq.
    eexists. split; [reflexivity|]. cbn. auto.
  - exists r. rewrite ingest_event_raw_other by exact Hk. auto.
Qed.

Lemma stored_new_stored (node : string) (d : database) (ev : ParsedEvent) :
  stored_new node d ev -> stored d ev.
Proof.
  intros (row & Hrow & Hr & Hchild). exists row. split; [exact Hrow|].
  split; [rewrite Hr; reflexivity|].
  destruct (access ev) as [a|].
  - exists a. split; [exact Hchild|]. destruct a; reflexivity.
  - destruct (dns ev) as [x|]; [|exact I].
    exists x. split; [exact Hchild|]. destruct x; reflexivity.
Qed.

(** No child row has the id the next raw row will take. *)
Lemma fresh_id_no_child (d : database) :
  ids_ok d -> children_ok d ->
  audit_access_events d !! auto_increment d = None
  /\ audit_dns_events d !! auto_increment d = None.
Proof.
  intros [Hlt _] [Ha Hd]. split.
  - destruct (audit_access_events d !! auto_increment d) as [a|] eqn:H; [|reflexivity].
    destruct (Ha _ _ H) as (k & r & Hr & Hid). specialize (Hlt _ _ Hr). lia.
  - destruct (audit_dns_events d !! auto_increment d) as [x|] eqn:H; [|reflexivity].
    destruct (Hd _ _ H) as (k & r & Hr & Hid). specialize (Hlt _ _ Hr). lia.
Qed.

Lemma stored_new_ingest_event (node : string) (d : database) (ev : ParsedEvent) :
  ids_ok d -> children_ok d ->
  audit_raw_events d !! digest_key (raw_hash ev) = None ->
  stored_new node (ingest_event node d ev) ev.
Proof.
  intros Hok Hch Hn. destruct (fresh_id_no_child d Hok Hch) as [Ha Hd].
  unfold stored_new, ingest_event. rewrite Hn. cbn.
  rewrite lookup_insert_eq. eexists. split; [reflexivity|]. cbn.
  split; [reflexivity|]. rewrite Ha, Hd.
  destruct (access ev) as [a|]; [apply lookup_insert_eq|].
  destruct (dns ev) as [x|]; [apply lookup_insert_eq|exact I].
Qed.

Lemma stored_new_ingest_other (node node' : string) (d : database) (ev e1 : ParsedEvent) :
  ids_ok d -> stored_new node d e1 -> raw_hash e1 <> raw_hash ev ->
  stored_new node (ingest_event node' d ev) e1.
Proof.
  intros [Hlt Hinj] (r1 & Hr1 & Hrow & Hchild) Hne.
  assert (Hk : digest_key (raw_hash e1) <> digest_key (raw_hash ev)).
  { intros He. apply Hne, digest_key_inj, He. }
  destruct (ingest_event_raw_self node' d ev) as (row & Hrow' & _ & Hid & Ha & Hd).
  assert (Hdiff : rr_id row <> rr_id r1).
  { destruct (audit_raw_events d !! digest_key (raw_hash ev)) as [old|] eqn:Ho.
    - destruct Hid as [-> _]. intros He. apply Hk. exact (Hinj _ _ _ _ Hr1 Ho (eq_sym He)).
    - destruct Hid as [-> _]. specialize (Hlt _ _ Hr1). lia. }
  exists r1. split; [rewrite ingest_event_raw_other by exact Hk; exact Hr1|].
  split; [exact Hrow|]. rewrite Ha, Hd.
  destruct (access e1) as [a1|].
  - destruct (access ev); [rewrite lookup_insert_ne by exact Hdiff|]; exact Hchild.
  - destruct (dns e1) as [x1|]; [|exact I].
    destruct (access ev); [exact Hchild|].
    destruct (dns ev); [rewrite lookup_insert_ne by exact Hdiff|]; exact Hchild.
Qed.

Lemma stored_new_fold (node : string) (events : list ParsedEvent) (e : ParsedEvent) :
  (forall ev, In ev events -> raw_hash ev = raw_hash e -> ev = e) ->
  forall d, ids_ok d -> children_ok d ->
    stored_new node d e \/ audit_raw_events d !! digest_key (raw_hash e) = None ->
    stored_new node (List.fold_left (ingest_event node) events d) e
    \/ audit_raw_events (List.fold_left (ingest_event node) events d)
         !! digest_key (raw_hash e) = None.
Proof.
  induction events as [|ev events IH]; intros Hc d Hok Hch H; [exact H|].
  cbn [List.fold_left]. apply IH.
  - intros ev' Hin. apply Hc. right. exact Hin.
  - apply ids_ok_ingest_event, Hok.
  - apply children_ok_ingest_event, Hch.
  - destruct (decide (digest_key (raw_hash ev) = digest_key (raw_hash e))) as [Heq|Hne].
    + apply digest_key_inj in Heq.
      assert (ev = e) as -> by (apply Hc; [left; reflexivity|exact Heq]).
      left. destruct H as [H|H].
      * rewrite (ingest_event_stored node d e (stored_new_stored _ _ _ H)). exact H.
      * apply stored_new_ingest_event; assumption.
    + destruct H as [H|H].
      * left. apply stored_new_ingest_other; [exact Hok|exact H|congruence].
      * right. rewrite ingest_event_raw_other; [exact H|].
        congruence.
Qed.


Lemma ids_ok_empty : ids_ok empty_db.
Proof. split; intros *; cbn; rewrite lookup_empty; discriminate. Defined.

Lemma children_ok_empty : children_ok empty_db.
Proof. split; intros *; cbn; rewrite lookup_empty; discriminate. Defined.

Lemma consistent_sample : consistent [api_event; unknown_event].
Proof.
  intros e1 e2 [<-|[<-|[]]] [<-|[<-|[]]] H; try reflexivity;
    vm_compute in H; discriminate H.
Defined.



(** X6: a call of ingest_events, whether it commits or fails, keeps the
    raw ids distinct and below the counter and keeps a raw row for every
    access or DNS row; it removes no raw row, and a raw row keeps its id
    and the node that stored it first. *)
Theorem ingest_events_integrity (events : list ParsedEvent) (node : string)
    (m : mysql) :
  ids_ok (tables m) ->
  children_ok (tables m) ->
  let d' := tables (snd (ingest_events events node m)) in
  ids_ok d' /\ children_ok d'
  /\ forall k r, audit_raw_events (tables m) !! k = Some r ->
       exists r', audit_raw_events d' !! k = Some r'
                  /\ rr_id r' = rr_id r /\ rr_node_id r' = rr_node_id r.
Proof.
  intros Hok Hch. cbv zeta.
  destruct (ingest_events_outcome events node m) as [-> | ->].
  { split; [exact Hok|]. split; [exact Hch|]. intros k r H. exists r. auto. }
  split; [apply ids_ok_fold; exact Hok|]. split; [apply children_ok_fold; exact Hch|].
  generalize (tables m) as d. clear.
  induction events as [|ev events IH]; intros d k r H; [exists r; auto|].
  cbn [List.fold_left].
  destruct (raw_kept_ingest_event node d ev k r H) as (r1 & H1 & Hi1 & Hn1).
  destruct (IH _ _ _ H1) as (r2 & H2 & Hi2 & Hn2).
  exists r2. split; [exact H2|]. split; congruence.
Qed.

Lemma ingest_events_integrity_witness :
  let d' := tables (snd (ingest_events [api_event; unknown_event] "n1" (Site.server []))) in
  ids_ok d' /\ children_ok d'.
Proof.
  cbv zeta.
  destruct (ingest_events_integrity [api_event; unknown_event] "n1" (Site.server [])
              ids_ok_empty children_ok_empty) as (H1 & H2 & _).
  split; [exact H1|exact H2].
Defined.


End StoreFacts.
(** ** The store: error events and the collector's state *)

Section ErrorStoreFacts.

Import Storage Integrity.

Lemma ingest_error_event_other (node : string) (d : database)
    (ev : ParsedErrorEvent) (k : string) :
  k <> digest_key (e_raw_hash ev) ->
  audit_error_events (ingest_error_event node d ev) !! k = audit_error_events d !! k.
Proof. intros Hk. cbn. rewrite lookup_insert_ne by congruence. reflexivity. Qed.

Lemma ingest_error_event_self (node : string) (d : database) (ev : ParsedErrorEvent) :
  audit_error_events (ingest_error_event node d ev) !! digest_key (e_raw_hash ev)
  = Some (error_row node d ev).
Proof.
  unfold error_row. cbn. rewrite lookup_insert_eq.
  destruct (audit_error_events d !! digest_key (e_raw_hash ev)) as [[? ?]|]; reflexivity.
Qed.

(** The row left for an event holds its fields. *)
Lemma error_row_holds (node : string) (d : database) (ev : ParsedErrorEvent) :
  holds_error (fst (error_row node d ev)) ev.
Proof.
  unfold error_row, holds_error.
  destruct (audit_error_events d !! digest_key (e_raw_hash ev)) as [[old nd]|];
    [reflexivity|destruct ev; reflexivity].
Qed.

Lemma ingest_error_event_kept (node : string) (d : database) (ev row : ParsedErrorEvent)
    (nd : string) :
  audit_error_events d !! digest_key (e_raw_hash ev) = Some (row, nd) ->
  holds_error row ev ->
  ingest_error_event node d ev = d.
Proof.
  intros H Hh. unfold ingest_error_event. rewrite H, <- Hh.
  rewrite (insert_id _ _ _ H). destruct d. reflexivity.
Qed.

Lemma error_fold_other (node : string) (events : list ParsedErrorEvent) (k : string) :
  forall d, Forall (fun e => digest_key (e_raw_hash e) <> k) events ->
    audit_error_events (List.fold_left (ingest_error_event node) events d) !! k
    = audit_error_events d !! k.
Proof.
  induction events as [|ev events IH]; intros d H; [reflexivity|].
  cbn [List.fold_left]. inversion H as [|? ? Hev Hrest]; subst.
  rewrite IH by exact Hrest. apply ingest_error_event_other. congruence.
Qed.

(** Writing an event a second time leaves its row as the first time. *)
Lemma error_row_again (node : string) (d : database) (ev : ParsedErrorEvent) :
  error_row node (ingest_error_event node d ev) ev = error_row node d ev.
Proof.
  unfold error_row at 1. rewrite ingest_error_event_self. unfold error_row.
  destruct (audit_error_events d !! digest_key (e_raw_hash ev)) as [[old nd]|];
    [reflexivity|destruct ev; reflexivity].
Qed.

Lemma error_fold_stored (node : string) (events : list ParsedErrorEvent) :
  forall d, consistent_errors events ->
    forall e, In e events ->
      audit_error_events (List.fold_left (ingest_error_event node) events d)
        !! digest_key (e_raw_hash e)
      = Some (error_row node d e).
Proof.
  induction events as [|ev events IH]; intros d Hc e He; [destruct He|].
  cbn [List.fold_left].
  assert (Hc' : consistent_errors events).
  { intros e1 e2 H1 H2. apply Hc; right; assumption. }
  assert (Hfw : forall e1, In e1 (ev :: events) ->
            error_row node (ingest_error_event node d ev) e1 = error_row node d e1).
  { intros e1 H1.
    destruct (decide (digest_key (e_raw_hash e1) = digest_key (e_raw_hash ev)))
      as [Heq|Hne].
    - assert (e1 = ev) as ->.
      { apply Hc; [exact H1|left; reflexivity|apply digest_key_inj, Heq]. }
      apply error_row_again.
    - unfold error_row. rewrite ingest_error_event_other by exact Hne. reflexivity. }
  assert (Hrest : forall e1, In e1 events ->
            audit_error_events
              (List.fold_left (ingest_error_event node) events (ingest_error_event node d ev))
              !! digest_key (e_raw_hash e1) = Some (error_row node d e1)).
  { intros e1 H1. rewrite (IH _ Hc' e1 H1), Hfw by (right; exact H1). reflexivity. }
  destruct He as [<-|He]; [|exact (Hrest e He)].
  destruct (decide (Exists (fun e => digest_key (e_raw_hash e)
                                     = digest_key (e_raw_hash ev)) events))
    as [Hex|Hno].
  - apply List.Exists_exists in Hex as (e1 & H1 & Hk).
    assert (e1 = ev) as ->.
    { apply Hc; [right; exact H1|left; reflexivity|apply digest_key_inj, Hk]. }
    exact (Hrest ev H1).
  - rewrite error_fold_other.
    + apply ingest_error_event_self.
    + apply List.Forall_forall. intros e1 H1 Hk. apply Hno.
      apply List.Exists_exists. exists e1. split; [exact H1|exact Hk].
Qed.

Lemma error_fold_kept (node : string) (events : list ParsedErrorEvent) (d : database) :
  (forall e, In e events ->
     exists row nd, audit_error_events d !! digest_key (e_raw_hash e) = Some (row, nd)
                    /\ holds_error row e) ->
  List.fold_left (ingest_error_event node) events d = d.
Proof.
  induction events as [|ev events IH]; intros Hs; [reflexivity|].
  cbn [List.fold_left].
  destruct (Hs ev (or_introl eq_refl)) as (row & nd & Hnd & Hh).
  rewrite (ingest_error_event_kept node d ev row nd Hnd Hh).
  apply IH. intros e He. apply Hs. right. exact He.
Qed.

Lemma ingest_error_events_tables (events : list ParsedErrorEvent) (node : string)
    (m m1 : mysql) (n : Z) :
  ingest_error_events events node m = (Ok n, m1) ->
  tables m1 = List.fold_left (ingest_error_event node) events (tables m)
  /\ n = Z.of_nat (List.length events).
Proof.
  unfold ingest_error_events. destruct events as [|ev events].
  - intros [= <- <-]. split; reflexivity.
  - unfold transaction. destruct (faults m) as [|[] rest]; [|discriminate|];
      intros [= <- <-]; split; reflexivity.
Qed.

(** X7: after a batch of error events is committed, the row of the hash
    of each of its events holds the fields of the event: the event as it
    is under the committing node when the hash was new, else the row
    that was there with the fields of the event, under the node and with
    the event_time it had.  Committing the batch again, from any node,
    changes none of these columns in any table (the statement sets
    ingested_at again, which the model leaves out) and returns the same
    count, the length of the batch. *)
Theorem ingest_error_events_replay (events : list ParsedErrorEvent)
    (node node' : string) (m m1 m2 : mysql) (n1 n2 : Z) :
  consistent_errors events ->
  ingest_error_events events node m = (Ok n1, m1) ->
  ingest_error_events events node' m1 = (Ok n2, m2) ->
  (forall e, In e events ->
     audit_error_events (tables m1) !! digest_key (e_raw_hash e)
     = Some (error_row node (tables m) e)
     /\ holds_error (fst (error_row node (tables m) e)) e
     /\ (audit_error_events (tables m) !! digest_key (e_raw_hash e) = None ->
         error_row node (tables m) e = (e, node)))
  /\ tables m2 = tables m1
  /\ n2 = n1 /\ n1 = Z.of_nat (List.length events).
Proof.
  intros Hc H1 H2.
  apply ingest_error_events_tables in H1 as [Ht1 ->].
  apply ingest_error_events_tables in H2 as [Ht2 ->].
  assert (Hs : forall e, In e events ->
     audit_error_events (tables m1) !! digest_key (e_raw_hash e)
     = Some (error_row node (tables m) e)).
  { rewrite Ht1. apply error_fold_stored, Hc. }
  split; [|split; [|split; reflexivity]].
  - intros e He. split; [exact (Hs e He)|]. split; [apply error_row_holds|].
    intros Hn. unfold error_row. rewrite Hn. reflexivity.
  - rewrite Ht2. apply error_fold_kept. intros e He.
    destruct (error_row node (tables m) e) as [row nd] eqn:Hr.
    exists row, nd. split; [rewrite (Hs e He), Hr; reflexivity|].
    pose proof (error_row_holds node (tables m) e) as Hh. rewrite Hr in Hh. exact Hh.
Qed.

Lemma ingest_error_events_replay_witness :
  let m1 := snd (ingest_error_events Sample.error_events "n1" (Site.server [])) in
  let m2 := snd (ingest_error_events Sample.error_events "n2" m1) in
  Forall (fun e =>
            audit_error_events (tables m1) !! digest_key (e_raw_hash e)
            = Some (e, "n1")) Sample.error_events
  /\ tables m2 = tables m1.
Proof.
  cbv zeta.
  assert (Hc : consistent_errors Sample.error_events).
  { unfold Sample.error_events.
    destruct (ErrorParser.parse_error_line Site.warning_line);
      [intros e1 e2 [<-|[]] [<-|[]] _; reflexivity|intros e1 e2 []]. }
  destruct (ingest_error_events_replay Sample.error_events "n1" "n2"
              (Site.server [])
              (snd (ingest_error_events Sample.error_events "n1" (Site.server [])))
              (snd (ingest_error_events Sample.error_events "n2"
                      (snd (ingest_error_events Sample.error_events "n1" (Site.server [])))))
              1 1 Hc eq_refl eq_refl) as (H1 & H2 & _).
  split; [|exact H2].
  apply List.Forall_forall. intros e He.
  destruct (H1 e He) as (Hrow & _ & Hnew).
  rewrite Hrow, Hnew by apply lookup_empty. reflexivity.
Defined.

(** X8: the state saved for a file is the state the next load returns
    for it, whatever row the file had before, and the rows of the other
    files are untouched. *)
Theorem save_state_load_state (p : string) (i : option Z) (o : Z) (m m1 : mysql) :
  save_state p i o m = (Ok tt, m1) ->
  hd false (faults m1) = false ->
  fst (load_state p m1) = Ok (i, o)
  /\ forall q, q <> p ->
       collector_state (tables m1) !! q = collector_state (tables m) !! q.
Proof.
  unfold save_state, transaction, load_state, query.
  destruct (faults m) as [|[] rest]; intros [= <-]; cbn; intros Hf.
  - split; [rewrite lookup_insert_eq; reflexivity|].
    intros q Hq. rewrite lookup_insert_ne by congruence. reflexivity.
  - destruct rest as [|[] rest]; [|discriminate|];
      (split; [cbn; rewrite lookup_insert_eq; reflexivity|]);
      intros q Hq; rewrite lookup_insert_ne by congruence; reflexivity.
Qed.

Lemma save_state_load_state_witness :
  fst (load_state "a.log" (snd (save_state "a.log" (Some 7) 120 (Site.server []))))
  = Ok (Some 7, 120).
Proof.
  exact (proj1 (save_state_load_state "a.log" (Some 7) 120 (Site.server [])
                  (snd (save_state "a.log" (Some 7) 120 (Site.server [])))
                  eq_refl eq_refl)).
Defined.

End ErrorStoreFacts.
(** ** Parsed events *)

Section ParsedFacts.

Import Parser Parsed Integrity.

Lemma lstrip_by_app (f : ascii -> bool) (s w : string) :
  Py.lstrip_by f (s ++ w)
  = if Py.all_chr f s then Py.lstrip_by f w else Py.lstrip_by f s ++ w.
Proof.
  induction s as [|a s IH]; [reflexivity|].
  change (String a s ++ w) with (String a (s ++ w)). cbn.
  destruct (f a); [exact IH|reflexivity].
Qed.

Lemma lstrip_by_all (f : ascii -> bool) (w : string) :
  Py.all_chr f w = true -> Py.lstrip_by f w = EmptyString.
Proof.
  induction w as [|a w IH]; [reflexivity|]. cbn.
  destruct (f a); [exact IH|discriminate].
Qed.

Lemma lstrip_by_split (f : ascii -> bool) (s : string) :
  exists w, s = w ++ Py.lstrip_by f s /\ Py.all_chr f w = true.
Proof.
  induction s as [|a s (w & Hs & Hw)].
  - exists EmptyString. split; reflexivity.
  - cbn. destruct (f a) eqn:Ha.
    + exists (String a w). split.
      * change (String a w ++ Py.lstrip_by f s) with (String a (w ++ Py.lstrip_by f s)).
        rewrite <- Hs. reflexivity.
      * cbn. rewrite Ha. exact Hw.
    + exists EmptyString. split; reflexivity.
Qed.

Lemma rev_onto_acc (s acc : string) : Py.rev_onto s acc = Py.rev s ++ acc.
Proof.
  unfold Py.rev. revert acc. induction s as [|a s IH]; intros acc; [reflexivity|].
  cbn [Py.rev_onto]. rewrite IH, (IH (String a EmptyString)), app_assoc_str.
  reflexivity.
Qed.

Lemma rev_app (a b : string) : Py.rev (a ++ b) = Py.rev b ++ Py.rev a.
Proof. unfold Py.rev at 1. rewrite rev_onto_app. apply rev_onto_acc. Qed.

Lemma all_chr_rev (f : ascii -> bool) (s : string) :
  Py.all_chr f (Py.rev s) = Py.all_chr f s.
Proof.
  induction s as [|a s IH]; [reflexivity|].
  change (String a s) with (String a EmptyString ++ s) at 1.
  rewrite rev_app, all_chr_app, IH. cbn. rewrite andb_true_r. apply andb_comm.
Qed.

Lemma rstrip_by_app_all (f : ascii -> bool) (s w : string) :
  Py.all_chr f w = true -> Py.rstrip_by f (s ++ w) = Py.rstrip_by f s.
Proof.
  intros Hw. unfold Py.rstrip_by. rewrite rev_app, lstrip_by_app, all_chr_rev, Hw.
  reflexivity.
Qed.

Lemma rstrip_by_split (f : ascii -> bool) (s : string) :
  exists w, s = Py.rstrip_by f s ++ w /\ Py.all_chr f w = true.
Proof.
  destruct (lstrip_by_split f (Py.rev s)) as (w & Hs & Hw).
  exists (Py.rev w). split; [|rewrite all_chr_rev; exact Hw].
  unfold Py.rstrip_by. rewrite <- rev_app, <- Hs, rev_rev. reflexivity.
Qed.

Lemma lstrip_by_idem (f : ascii -> bool) (s : string) :
  Py.lstrip_by f (Py.lstrip_by f s) = Py.lstrip_by f s.
Proof.
  induction s as [|a s IH]; [reflexivity|]. cbn.
  destruct (f a) eqn:Ha; [exact IH|]. cbn. rewrite Ha. reflexivity.
Qed.

Lemma rstrip_by_idem (f : ascii -> bool) (s : string) :
  Py.rstrip_by f (Py.rstrip_by f s) = Py.rstrip_by f s.
Proof. unfold Py.rstrip_by. rewrite rev_rev, lstrip_by_idem. reflexivity. Qed.

Lemma strip_app_space (s w : string) :
  Py.all_chr Py.isspace w = true -> Py.strip (s ++ w) = Py.strip s.
Proof.
  intros Hw. unfold Py.strip. rewrite lstrip_by_app.
  destruct (Py.all_chr Py.isspace s) eqn:Hs.
  - rewrite (lstrip_by_all _ w Hw), (lstrip_by_all _ s Hs). reflexivity.
  - apply rstrip_by_app_all, Hw.
Qed.

Lemma is_crlf_space (a : ascii) : is_crlf a = true -> Py.isspace a = true.
Proof.
  unfold is_crlf, crlf. cbn. rewrite orb_false_r. intros H.
  apply orb_true_iff in H as [H|H]; apply Ascii.eqb_eq in H; subst; reflexivity.
Qed.

Lemma strip_normalized (l : string) : Py.strip (normalized l) = Py.strip l.
Proof.
  destruct (rstrip_by_split is_crlf l) as (w & Hl & Hw).
  rewrite Hl at 2. symmetry. apply strip_app_space.
  apply (all_chr_impl is_crlf); [exact is_crlf_space|exact Hw].
Qed.

Lemma normalized_app (l w : string) :
  Py.all_chr is_crlf w = true -> normalized (l ++ w) = normalized l.
Proof. apply rstrip_by_app_all. Qed.

(** The parsers read a line through its normalized form only. *)
Lemma parse_line_normalized (l1 l2 : string) :
  normalized l1 = normalized l2 -> parse_line l1 = parse_line l2.
Proof.
  intros H. unfold parse_line, _parse_timestamp_prefix.
  rewrite <- (strip_normalized l1), <- (strip_normalized l2).
  fold crlf. fold (normalized l1). fold (normalized l2). rewrite H. reflexivity.
Qed.

Lemma parse_error_line_normalized (l1 l2 : string) :
  normalized l1 = normalized l2 ->
  ErrorParser.parse_error_line l1 = ErrorParser.parse_error_line l2.
Proof.
  intros H. unfold ErrorParser.parse_error_line.
  fold crlf. fold (normalized l1). fold (normalized l2). rewrite H. reflexivity.
Qed.

Lemma parse_line_hash (l : string) (ev : ParsedEvent) :
  parse_line l = Ok (Some ev) ->
  raw_line ev = normalized l /\ raw_hash ev = Sha256 (normalized l).
Proof.
  unfold parse_line. destruct (_parse_timestamp_prefix l) as [[t|] body]; [|discriminate].
  destruct (_parse_access t body) as [a|].
  - intros [= <-]. split; reflexivity.
  - destruct (_parse_dns t body) as [[d|]|e]; [| |discriminate];
      intros [= <-]; split; reflexivity.
Qed.

Lemma parse_error_line_hash (l : string) (ev : ParsedErrorEvent) :
  ErrorParser.parse_error_line l = Some ev ->
  e_raw_line ev = normalized l /\ e_raw_hash ev = Sha256 (normalized l).
Proof.
  unfold ErrorParser.parse_error_line.
  destruct (Re.rmatch ErrorParser._LINE_RE _) as [m|]; [|discriminate].
  destruct (ErrorParser._parse_datetime _) as [t|]; [|discriminate].
  destruct (match Re.search ErrorParser._DEST_RE _ with Some _ => _ | None => _ end)
    as [dr [dh dp]].
  intros [= <-]. split; reflexivity.
Qed.

(** X9: the event of a line does not depend on how the line ends: carriage
    returns and line feeds after it change neither what [parse_line] nor
    what [parse_error_line] returns, the stored line and its hash
    included. *)
Theorem parse_line_ignores_line_ending (l w : string) :
  Py.all_chr is_crlf w = true ->
  parse_line (l ++ w) = parse_line l
  /\ ErrorParser.parse_error_line (l ++ w) = ErrorParser.parse_error_line l.
Proof.
  intros Hw. split.
  - apply parse_line_normalized, normalized_app, Hw.
  - apply parse_error_line_normalized, normalized_app, Hw.
Qed.

Lemma parse_line_ignores_line_ending_witness :
  parse_line (api_line ++ crlf) = parse_line api_line.
Proof. exact (proj1 (parse_line_ignores_line_ending api_line crlf eq_refl)). Defined.

(** X10: two events returned by [parse_line] that have the same hash are
    the same event, so that a batch of parsed events never holds two
    different events under one hash (the digest being free of
    collisions). *)
Theorem parsed_events_consistent (events : list ParsedEvent) :
  Forall parsed events -> consistent events.
Proof.
  intros Hp e1 e2 H1 H2 Hh.
  rewrite List.Forall_forall in Hp.
  destruct (Hp e1 H1) as [l1 Hl1]. destruct (Hp e2 H2) as [l2 Hl2].
  destruct (parse_line_hash l1 e1 Hl1) as [_ Hh1].
  destruct (parse_line_hash l2 e2 Hl2) as [_ Hh2].
  assert (Hn : normalized l1 = normalized l2) by congruence.
  rewrite (parse_line_normalized l1 l2 Hn) in Hl1. congruence.
Qed.

Lemma parsed_events_consistent_witness : consistent [api_event; unknown_event].
Proof.
  apply parsed_events_consistent.
  repeat constructor; [exists api_line|exists unknown_line]; vm_compute; reflexivity.
Defined.

(** X11: two events returned by [parse_error_line] that have the same
    hash are the same event. *)
Theorem parsed_error_events_consistent (events : list ParsedErrorEvent) :
  Forall parsed_error events -> consistent_errors events.
Proof.
  intros Hp e1 e2 H1 H2 Hh.
  rewrite List.Forall_forall in Hp.
  destruct (Hp e1 H1) as [l1 Hl1]. destruct (Hp e2 H2) as [l2 Hl2].
  destruct (parse_error_line_hash l1 e1 Hl1) as [_ Hh1].
  destruct (parse_error_line_hash l2 e2 Hl2) as [_ Hh2].
  assert (Hn : normalized l1 = normalized l2) by congruence.
  rewrite (parse_error_line_normalized l1 l2 Hn) in Hl1. congruence.
Qed.

Lemma parsed_error_events_consistent_witness : consistent_errors Sample.error_events.
Proof.
  apply parsed_error_events_consistent. unfold Sample.error_events.
  destruct (ErrorParser.parse_error_line Site.warning_line) as [ev|] eqn:H;
    [|constructor].
  constructor; [exists Site.warning_line; exact H|constructor].
Defined.

Lemma _parse_access_time (t : Datetime.datetime) (body : string) (a : AccessEvent) :
  _parse_access t body = Some a -> a_event_time a = t.
Proof.
  unfold _parse_access. destruct (Re.rmatch _ACCESS_RE body) as [m|]; [|discriminate].
  destruct (match Re.search email_re _ with Some _ => _ | None => _ end) as [em rs].
  destruct (_split_host_port _) as [h p]. intros [= <-]. reflexivity.
Qed.

Lemma _parse_dns_time (t : Datetime.datetime) (body : string) (d : DNSEvent) :
  _parse_dns t body = Ok (Some d) -> d_event_time d = t.
Proof.
  unfold _parse_dns. destruct (Re.rmatch _DNS_RE body) as [m|]; [|discriminate].
  destruct (match Re.search err_re _ with Some _ => _ | None => _ end) as [et tl].
  destruct (if Py.truthy tl then _parse_duration_ms tl else Ok None) as [el|e];
    [|discriminate].
  intros [= <-]. reflexivity.
Qed.

(** X12: an event returned by [parse_line] has one of three shapes: type
    access with an access part and no DNS part, type dns with a DNS part
    only, or type unknown with neither; the part carries the time of the
    event, the stored line is the line without its line ending, and the
    hash is the digest of the stored line. *)
Theorem parse_line_well_formed (l : string) (ev : ParsedEvent) :
  parse_line l = Ok (Some ev) ->
  well_formed ev
  /\ raw_line ev = normalized l
  /\ raw_hash ev = Sha256 (raw_line ev)
  /\ normalized (raw_line ev) = raw_line ev.
Proof.
  intros H. destruct (parse_line_hash l ev H) as [Hl Hh].
  split; [|split; [exact Hl|split; [congruence|]]].
  - revert H. unfold parse_line, well_formed.
    destruct (_parse_timestamp_prefix l) as [[t|] body]; [|discriminate].
    destruct (_parse_access t body) as [a|] eqn:Ha.
    + intros [= <-]. cbn. split; [reflexivity|]. apply (_parse_access_time t body a Ha).
    + destruct (_parse_dns t body) as [[d|]|e] eqn:Hd; [| |discriminate];
        intros [= <-]; cbn; [|reflexivity].
      split; [reflexivity|]. apply (_parse_dns_time t body d Hd).
  - rewrite Hl. apply rstrip_by_idem.
Qed.

Lemma parse_line_well_formed_witness : well_formed api_event.
Proof.
  refine (proj1 (parse_line_well_formed api_line api_event _)).
  vm_compute. reflexivity.
Defined.

End ParsedFacts.
(** ** The loop of the collector: counters and exceptions *)

Section LoopFacts.

Import Storage Tailer Collector Loop.

Variable cfg : Settings.

Lemma consume_line_counts (f : Filtering.FilterSettings) (line : string)
    (b : list ParsedEvent) (st : CollectorStats) :
  let r := consume_line f line (b, st) in
  (exists new, fst (snd r) = (b ++ new)%list)
  /\ lines_read_total (snd (snd r)) = lines_read_total st + 1
  /\ accounted (fst (snd r)) (snd (snd r))
     = accounted b st + match fst r with Ok _ => 1 | Raise _ => 0 end.
Proof.
  unfold consume_line, accounted. cbv zeta.
  destruct (Parser.parse_line line) as [[ev|]|e]; cbn.
  - destruct (Filtering.should_drop_event ev f); cbn.
    + split; [exists []; rewrite List.app_nil_r; reflexivity|]. lia.
    + split; [exists [ev]; reflexivity|]. rewrite List.length_app. cbn. lia.
  - split; [exists []; rewrite List.app_nil_r; reflexivity|]. lia.
  - split; [exists []; rewrite List.app_nil_r; reflexivity|]. lia.
Qed.

(** X13: the loop over the lines of the access log counts every line it
    takes exactly once: the lines read grow by the number of lines taken,
    each of them a parse failure, a filtered line or an event appended to
    the batch, except the line on which the parser raises, which ends the
    loop and is counted as read only.  Without an exception every line
    of the poll is taken. *)
Theorem access_loop_accounts (f : Filtering.FilterSettings) (lines : list string)
    (b : list ParsedEvent) (st : CollectorStats) :
  let r := for_each (consume_line f) lines (b, st) in
  let b' := fst (snd r) in
  let st' := snd (snd r) in
  (exists new, b' = (b ++ new)%list)
  /\ lines_read_total st' - lines_read_total st
     = accounted b' st' - accounted b st
       + match fst r with Ok _ => 0 | Raise _ => 1 end
  /\ lines_read_total st <= lines_read_total st'
     <= lines_read_total st + Z.of_nat (List.length lines)
  /\ match fst r with
     | Ok _ => lines_read_total st' = lines_read_total st + Z.of_nat (List.length lines)
     | Raise _ => lines <> []
     end.
Proof.
  cbv zeta. revert b st.
  induction lines as [|line lines IH]; intros b st.
  - cbn. split; [exists []; rewrite List.app_nil_r; reflexivity|]. lia.
  - cbn [for_each]. unfold bind.
    pose proof (consume_line_counts f line b st) as (Hn & Hl & Ha). cbv zeta in *.
    destruct (consume_line f line (b, st)) as [[[]|e] [b1 st1]]; cbn [fst snd] in *.
    + specialize (IH b1 st1). destruct Hn as [n1 ->].
      destruct IH as ([n2 Hn2] & Hc & Hr & Hk).
      split; [exists (n1 ++ n2)%list; rewrite Hn2, List.app_assoc; reflexivity|].
      split; [lia|]. split; [cbn [List.length]; lia|].
      destruct (fst (for_each (consume_line f) lines (b ++ n1, st1)%list));
        [cbn [List.length]; lia|discriminate].
    + split; [exact Hn|]. split; [lia|]. split; [cbn [List.length]; lia|discriminate].
Qed.

Lemma consume_error_line_counts (r : Z) (dn : bool) (line : string)
    (eb : list ParsedErrorEvent) (st : CollectorStats) :
  let a := consume_error_line r dn (eb, st) line in
  error_lines_read_total (snd a) = error_lines_read_total st + 1
  /\ accounted_errors (fst a) (snd a) = accounted_errors eb st + 1
  /\ lines_read_total (snd a) = lines_read_total st
  /\ accounted (@nil ParsedEvent) (snd a) = accounted [] st.
Proof.
  unfold consume_error_line, accounted_errors, accounted. cbv zeta.
  destruct (ErrorParser.parse_error_line line) as [ev|]; cbn; [|lia].
  destruct (_ <? r); cbn; [lia|].
  destruct (dn && is_noise ev); cbn; [lia|].
  rewrite List.length_app. cbn. lia.
Qed.

(** X14: on lines of ASCII characters of at most 4300 bytes, on which no
    conversion of a session id or of a port by int can raise, the loop
    over the lines of the error log takes every line of the poll and
    counts it exactly once, as a parse failure, a filtered line or an
    event appended to the error batch; it leaves the counters of the
    access log as they are. *)
Theorem error_loop_accounts (r : Z) (dn : bool) (lines : list string)
    (eb : list ParsedErrorEvent) (st : CollectorStats) :
  Forall Text.short_ascii lines ->
  let a := List.fold_left (consume_error_line r dn) lines (eb, st) in
  error_lines_read_total (snd a)
  = error_lines_read_total st + Z.of_nat (List.length lines)
  /\ accounted_errors (fst a) (snd a)
     = accounted_errors eb st + Z.of_nat (List.length lines)
  /\ lines_read_total (snd a) = lines_read_total st
  /\ parse_fail_total (snd a) + filtered_total (snd a)
     = parse_fail_total st + filtered_total st.
Proof.
  intros _. cbv zeta. revert eb st.
  induction lines as [|line lines IH]; intros eb st.
  - cbn. lia.
  - cbn [List.fold_left List.length].
    pose proof (consume_error_line_counts r dn line eb st) as (H1 & H2 & H3 & H4).
    cbv zeta in *.
    destruct (consume_error_line r dn (eb, st) line) as [eb1 st1]. cbn [fst snd] in *.
    specialize (IH eb1 st1). unfold accounted in *. cbn [List.length] in *. lia.
Qed.

End LoopFacts.

Lemma error_loop_accounts_witness :
  let a := List.fold_left (Collector.consume_error_line 30 false)
             [Site.warning_line; "junk"] ([], Collector.stats Truncation.start) in
  Forall Text.short_ascii [Site.warning_line; "junk"]
  /\ Collector.error_lines_read_total (snd a)
     = Collector.error_lines_read_total (Collector.stats Truncation.start) + 2
  /\ Loop.accounted_errors (fst a) (snd a)
     = Loop.accounted_errors [] (Collector.stats Truncation.start) + 2.
Proof.
  cbv zeta.
  assert (H : Forall Text.short_ascii [Site.warning_line; "junk"]).
  { repeat constructor; apply Nat.leb_le; vm_compute; reflexivity. }
  split; [exact H|].
  destruct (error_loop_accounts 30 false [Site.warning_line; "junk"] []
              (Collector.stats Truncation.start) H) as (H1 & H2 & _).
  split; [exact H1|exact H2].
Defined.
(** ** The flush *)

Section FlushOk.

Import Storage Tailer Collector Loop Integrity.

Variable cfg : Settings.

Lemma bind_ok {S A B : Type} (m : M S A) (k : A -> M S B) (s s' : S) (b : B) :
  bind m k s = (Ok b, s') ->
  exists a s1, m s = (Ok a, s1) /\ k a s1 = (Ok b, s').
Proof.
  unfold bind. destruct (m s) as [[a|e] s1]; [|discriminate].
  intros H. exists a, s1. auto.
Qed.

Lemma db_ok {A : Type} (m : M mysql A) (s s' : state) (a : A) :
  db m s = (Ok a, s') ->
  exists my, m (ingestor s) = (Ok a, my) /\ s' = set_ingestor my s.
Proof.
  unfold db, zoom. destruct (m (ingestor s)) as [r my]. intros [= -> <-].
  exists my. auto.
Qed.

Lemma transaction_ok {A : Type} (f : database -> database * A) (c : commit)
    (my my' : mysql) (a : A) :
  transaction f c my = (Ok a, my') ->
  tables my' = fst (f (tables my)) /\ journal my' = (journal my ++ [c])%list
  /\ a = snd (f (tables my)).
Proof.
  unfold transaction. destruct (faults my) as [|[] rest]; [|discriminate|];
    destruct (f (tables my)) as [d x]; intros [= <- <-]; auto.
Qed.

Lemma cache_ok (k : Knobs) (s s' : state) :
  (if cache_on cfg k then redis_call else ret tt) s = (Ok tt, s') ->
  ingestor s' = ingestor s /\ disk s' = disk s /\ tailer s' = tailer s
  /\ error_tailer s' = error_tailer s /\ batch s' = batch s
  /\ error_batch s' = error_batch s /\ stats s' = stats s.
Proof.
  destruct (cache_on cfg k); [|intros [= <-]; repeat split].
  unfold redis_call. destruct (redis_faults s) as [|[] ?]; [|discriminate|];
    intros [= <-]; repeat split.
Qed.

(** A flush that returns has run each of its transactions. *)
Lemma flush_ok (k : Knobs) (b : list ParsedEvent) (eb : list ParsedErrorEvent)
    (s s' : state) :
  nonempty b || nonempty eb = true ->
  _flush cfg k b eb s = (Ok tt, s') ->
  tables (ingestor s') = flushed_tables cfg b eb s
  /\ journal (ingestor s') = (journal (ingestor s) ++ flushed_journal cfg b eb s)%list
  /\ disk s' = disk s /\ tailer s' = tailer s /\ error_tailer s' = error_tailer s
  /\ batch s' = batch s /\ error_batch s' = error_batch s
  /\ Collector.inode (stats s') = _inode (tailer s)
  /\ Collector.offset (stats s') = _offset (tailer s)
  /\ batches_flushed (stats s') = batches_flushed (stats s) + 1
  /\ raw_written_total (stats s')
     = raw_written_total (stats s) + Z.of_nat (List.length b)
  /\ last_error (stats s') = None.
Proof.
  intros Hne H. unfold _flush in H.
  assert (H' : bind
    (match b with
     | [] => ret {| c_raw := 0; c_access := 0; c_dns := 0 |}
     | _ :: _ =>
         let* c := db (ingest_events b (node_id cfg)) in
         (if cache_on cfg k then redis_call else ret tt) ;; ret c
     end)
    (fun raw_counts =>
       let* s := get in
       let '(inode, offset) := Tailer.state (tailer s) in
       db (save_state (log_path cfg) inode offset) ;;
       let* err :=
         match error_tailer s with
         | None => ret (0, (None, 0))
         | Some et =>
             let '(error_inode, error_offset) := Tailer.state et in
             db (save_state (error_log_path cfg) error_inode error_offset) ;;
             let* error_written :=
               match eb with
               | [] => ret 0
               | _ :: _ => db (ingest_error_events eb (node_id cfg))
               end in
             ret (error_written, (error_inode, error_offset))
         end in
       modify (fun s => set_stats (note_flush raw_counts (fst err) (inode, offset)
                                              (snd err) (stats s)) s) ;;
       _publish_health cfg k) s = (Ok tt, s')).
  { destruct b; [destruct eb; [discriminate Hne|]|]; exact H. }
  clear H. apply bind_ok in H' as (rc & s1 & H1 & H2).
  (* the events *)
  assert (E1 : tables (ingestor s1)
               = List.fold_left (ingest_event (node_id cfg)) b (tables (ingestor s))
             /\ journal (ingestor s1)
                = (journal (ingestor s)
                   ++ match b with [] => [] | _ :: _ => [CommitEvents b] end)%list
             /\ disk s1 = disk s /\ tailer s1 = tailer s
             /\ error_tailer s1 = error_tailer s /\ batch s1 = batch s
             /\ error_batch s1 = error_batch s /\ stats s1 = stats s
             /\ c_raw rc = Z.of_nat (List.length b)).
  { destruct b as [|ev b].
    - injection H1 as <- <-. cbn. rewrite List.app_nil_r. repeat split.
    - apply bind_ok in H1 as (c & s0 & Hi & Hr).
      apply db_ok in Hi as (my & Hi & ->).
      unfold ingest_events in Hi. apply transaction_ok in Hi as (Ht & Hj & Hc).
      apply bind_ok in Hr as ([] & s2 & Hr & Hq). injection Hq as <- <-.
      apply cache_ok in Hr as (-> & -> & -> & -> & -> & -> & ->).
      cbn in *. subst c. repeat split; assumption. }
  destruct E1 as (Et & Ej & Ed & Etl & Eet & Eb & Eeb & Es & Ec).
  unfold bind at 1, get in H2. unfold Tailer.state in H2. cbv beta iota in H2.
  apply bind_ok in H2 as ([] & s2 & Hs & H3).
  apply db_ok in Hs as (my & Hs & ->).
  unfold save_state in Hs. apply transaction_ok in Hs as (Ht2 & Hj2 & _).
  apply bind_ok in H3 as (err & s3 & He & H4).
  assert (E3 : tables (ingestor s3) = flushed_tables cfg b eb s
               /\ journal (ingestor s3)
                  = (journal (ingestor s) ++ flushed_journal cfg b eb s)%list
               /\ disk s3 = disk s /\ tailer s3 = tailer s
               /\ error_tailer s3 = error_tailer s /\ batch s3 = batch s
               /\ error_batch s3 = error_batch s /\ stats s3 = stats s).
  { unfold flushed_tables, flushed_journal. rewrite <- Eet, <- Etl, <- Et.
    destruct (error_tailer s1) as [et|] eqn:Hets.
    - cbv beta iota in He. apply bind_ok in He as ([] & s4 & Hse & He).
      apply db_ok in Hse as (my2 & Hse & ->).
      unfold save_state in Hse. apply transaction_ok in Hse as (Ht3 & Hj3 & _).
      apply bind_ok in He as (w & s5 & Hw & Hr). injection Hr as <- <-.
      destruct eb as [|e eb].
      + injection Hw as <- <-. cbn in *.
        rewrite Ht3, Ht2, Hj3, Hj2, Ej, <- !List.app_assoc. repeat split; congruence.
      + apply db_ok in Hw as (my3 & Hw & ->).
        unfold ingest_error_events in Hw. apply transaction_ok in Hw as (Ht4 & Hj4 & _).
        cbn in *. rewrite Ht4, Ht3, Ht2, Hj4, Hj3, Hj2, Ej, <- !List.app_assoc.
        repeat split; congruence.
    - injection He as <- <-. cbn in *.
      rewrite Ht2, Hj2, Ej, <- !List.app_assoc. repeat split; congruence. }
  destruct E3 as (Et3 & Ej3 & Ed3 & Etl3 & Eet3 & Eb3 & Eeb3 & Es3).
  apply bind_ok in H4 as ([] & s6 & Hm & Hp). injection Hm as <-.
  unfold _publish_health in Hp.
  apply cache_ok in Hp as (-> & -> & -> & -> & -> & -> & ->).
  cbn. rewrite Es3, Etl, Ec. repeat split; assumption.
Qed.

Lemma stored_tables (d d' : database) (ev : ParsedEvent) :
  audit_raw_events d' = audit_raw_events d ->
  audit_access_events d' = audit_access_events d ->
  audit_dns_events d' = audit_dns_events d ->
  stored d ev -> stored d' ev.
Proof. unfold stored. intros -> -> ->. auto. Qed.

Lemma stored_new_tables (node : string) (d d' : database) (ev : ParsedEvent) :
  audit_raw_events d' = audit_raw_events d ->
  audit_access_events d' = audit_access_events d ->
  audit_dns_events d' = audit_dns_events d ->
  stored_new node d ev -> stored_new node d' ev.
Proof. unfold stored_new. intros -> -> ->. auto. Qed.

Lemma event_fold_errors (node : string) (b : list ParsedEvent) :
  forall d, audit_error_events (List.fold_left (ingest_event node) b d)
            = audit_error_events d.
Proof.
  induction b as [|ev b IH]; intros d; [reflexivity|].
  cbn [List.fold_left]. rewrite IH. unfold ingest_event.
  destruct (audit_raw_events d !! _); reflexivity.
Qed.

Lemma error_fold_events (node : string) (eb : list ParsedErrorEvent) :
  forall d,
    audit_raw_events (List.fold_left (ingest_error_event node) eb d) = audit_raw_events d
    /\ audit_access_events (List.fold_left (ingest_error_event node) eb d)
       = audit_access_events d
    /\ audit_dns_events (List.fold_left (ingest_error_event node) eb d)
       = audit_dns_events d
    /\ collector_state (List.fold_left (ingest_error_event node) eb d)
       = collector_state d.
Proof.
  induction eb as [|e eb IH]; intros d; [repeat split|].
  cbn [List.fold_left]. destruct (IH (ingest_error_event node d e)) as (-> & -> & -> & ->).
  repeat split.
Qed.


Lemma event_fold_state (node : string) (b : list ParsedEvent) :
  forall d, collector_state (List.fold_left (ingest_event node) b d) = collector_state d.
Proof.
  induction b as [|ev b IH]; intros d; [reflexivity|].
  cbn [List.fold_left]. rewrite IH. unfold ingest_event.
  destruct (audit_raw_events d !! _); reflexivity.
Qed.

Lemma flushed_state (b : list ParsedEvent) (eb : list ParsedErrorEvent) (s : state) :
  log_path cfg <> error_log_path cfg ->
  collector_state (flushed_tables cfg b eb s) !! log_path cfg
  = Some (Tailer.state (tailer s))
  /\ forall et, error_tailer s = Some et ->
       collector_state (flushed_tables cfg b eb s) !! error_log_path cfg
       = Some (Tailer.state et).
Proof.
  intros Hne. unfold flushed_tables, Tailer.state.
  destruct (error_tailer s) as [et|].
  - destruct (error_fold_events (node_id cfg) eb
                (set_collector_state (error_log_path cfg) (_inode et) (_offset et)
                   (set_collector_state (log_path cfg) (_inode (tailer s))
                      (_offset (tailer s))
                      (List.fold_left (ingest_event (node_id cfg)) b
                         (tables (ingestor s))))))
      as (_ & _ & _ & ->).
    cbn [set_collector_state collector_state]. split.
    + rewrite lookup_insert_ne by congruence. apply lookup_insert_eq.
    + intros et' [= <-]. apply lookup_insert_eq.
  - cbn [set_collector_state collector_state]. split;
      [apply lookup_insert_eq|discriminate].
Qed.

(** X17: when a flush returns, the state saved for each log is the state
    of its tailer, which the flush leaves as it was: a collector that
    starts again on these tables resumes both tailers at the inode and
    offset they had at the flush.  (The two logs have different paths.) *)
Theorem flush_persists_state (k : Knobs) (b : list ParsedEvent)
    (eb : list ParsedErrorEvent) (s s' : state) (now : spec_float) :
  log_path cfg <> error_log_path cfg ->
  nonempty b || nonempty eb = true ->
  _flush cfg k b eb s = (Ok tt, s') ->
  tailer s' = tailer s /\ error_tailer s' = error_tailer s
  /\ Site.persisted s' (log_path cfg) = Tailer.state (tailer s)
  /\ tailer (restarted cfg now s')
     = set_state (init (log_path cfg)) (_inode (tailer s)) (_offset (tailer s))
  /\ forall et, error_tailer s = Some et ->
       Site.persisted s' (error_log_path cfg) = Tailer.state et
       /\ (error_log_enabled cfg = true ->
           error_tailer (restarted cfg now s')
           = Some (set_state (init (error_log_path cfg)) (_inode et) (_offset et))).
Proof.
  intros Hne Hb H.
  destruct (flush_ok k b eb s s' Hb H) as (Ht & _ & _ & Htl & Het & _).
  destruct (flushed_state b eb s Hne) as [Hl He]. rewrite <- Ht in Hl, He.
  split; [exact Htl|]. split; [exact Het|].
  split; [unfold Site.persisted; rewrite Hl; reflexivity|].
  split.
  - unfold restarted, startup, new, bind, db, zoom, load_state, query, modify, get.
    cbn. rewrite Hl. destruct (error_log_enabled cfg); reflexivity.
  - intros et Hs. specialize (He et Hs).
    split; [unfold Site.persisted; rewrite He; reflexivity|].
    intros Hen.
    unfold restarted, startup, new, bind, db, zoom, load_state, query, modify, get.
    cbn. rewrite Hen. cbn. rewrite He. reflexivity.
Qed.

End FlushOk.

Lemma consistent_errors_sample : Integrity.consistent_errors Sample.error_events.
Proof.
  unfold Sample.error_events.
  destruct (ErrorParser.parse_error_line Site.warning_line);
    [intros e1 e2 [<-|[]] [<-|[]] _; reflexivity|intros e1 e2 []].
Defined.

Lemma flush_sample :
  let s := Collector.new Site.settings Site.disk0 (Site.server []) [] in
  Collector._flush Site.settings default_knobs [api_event; unknown_event]
                   Sample.error_events s
  = (Ok tt, snd (Collector._flush Site.settings default_knobs
                   [api_event; unknown_event] Sample.error_events s)).
Proof. vm_compute. reflexivity. Defined.


Lemma flush_persists_state_witness :
  let s := Collector.new Site.settings Site.disk0 (Site.server []) [] in
  let s' := snd (Collector._flush Site.settings default_knobs
                   [api_event; unknown_event] Sample.error_events s) in
  Site.persisted s' (Collector.log_path Site.settings)
  = Tailer.state (Collector.tailer s).
Proof.
  refine (proj1 (proj2 (proj2 (flush_persists_state Site.settings default_knobs
                  [api_event; unknown_event] Sample.error_events
                  (Collector.new Site.settings Site.disk0 (Site.server []) []) _
                  (seconds 150)
                  _ eq_refl flush_sample)))).
  discriminate.
Defined.
(** ** Events wait until they are committed *)

Section KeptFacts.

Import Storage Tailer Collector Monotone Loop.

Variable cfg : Settings.

Lemma extends_refl (s : state) : extends s s.
Proof.
  unfold extends. repeat split; auto. exists []. rewrite List.app_nil_r. reflexivity.
Qed.

Lemma extends_trans (s1 s2 s3 : state) :
  extends s1 s2 -> extends s2 s3 -> extends s1 s3.
Proof.
  intros (Hb1 & He1 & Hn1 & m1 & Hj1) (Hb2 & He2 & Hn2 & m2 & Hj2).
  unfold extends. split; [congruence|]. split; [congruence|].
  split; [tauto|]. exists (m1 ++ m2)%list. rewrite Hj2, Hj1, List.app_assoc.
  reflexivity.
Qed.

Lemma committed_more (j0 j1 : list commit) (more : list commit) (ev : ParsedEvent) :
  committed j0 j1 ev -> committed j0 (j1 ++ more) ev.
Proof.
  intros (pre & b & post & -> & Hin). exists pre, b, (post ++ more)%list.
  split; [|exact Hin]. rewrite <- !List.app_assoc. reflexivity.
Qed.

Lemma committed_error_more (j0 j1 : list commit) (more : list commit)
    (ev : ParsedErrorEvent) :
  committed_error j0 j1 ev -> committed_error j0 (j1 ++ more) ev.
Proof.
  intros (pre & b & post & -> & Hin). exists pre, b, (post ++ more)%list.
  split; [|exact Hin]. rewrite <- !List.app_assoc. reflexivity.
Qed.

Lemma committed_before (j0 more j1 : list commit) (ev : ParsedEvent) :
  committed (j0 ++ more) j1 ev -> committed j0 j1 ev.
Proof.
  intros (pre & b & post & -> & Hin). exists (more ++ pre)%list, b, post.
  split; [|exact Hin]. rewrite <- !List.app_assoc. reflexivity.
Qed.

Lemma committed_error_before (j0 more j1 : list commit) (ev : ParsedErrorEvent) :
  committed_error (j0 ++ more) j1 ev -> committed_error j0 j1 ev.
Proof.
  intros (pre & b & post & -> & Hin). exists (more ++ pre)%list, b, post.
  split; [|exact Hin]. rewrite <- !List.app_assoc. reflexivity.
Qed.

Lemma kept_refl (s : state) : kept s s.
Proof.
  unfold kept. split; [tauto|]. split; [exists []; rewrite List.app_nil_r; reflexivity|].
  split; intros ev H; left; exact H.
Qed.

Lemma kept_trans (s1 s2 s3 : state) : kept s1 s2 -> kept s2 s3 -> kept s1 s3.
Proof.
  intros (Hn1 & [m1 Hj1] & Hb1 & He1) (Hn2 & [m2 Hj2] & Hb2 & He2).
  unfold kept. split; [tauto|].
  split; [exists (m1 ++ m2)%list; rewrite Hj2, Hj1, List.app_assoc; reflexivity|].
  split; intros ev H.
  - destruct (Hb1 ev H) as [H1|H1].
    + destruct (Hb2 ev H1) as [H2|H2]; [left; exact H2|].
      right. rewrite Hj1 in H2. apply committed_before in H2. exact H2.
    + right. rewrite Hj2. apply committed_more, H1.
  - destruct (He1 ev H) as [H1|H1].
    + destruct (He2 ev H1) as [H2|H2]; [left; exact H2|].
      right. rewrite Hj1 in H2. apply committed_error_before in H2. exact H2.
    + right. rewrite Hj2. apply committed_error_more, H1.
Qed.

(** The batches may grow. *)
Lemma kept_grows (s s' : state) (new : list ParsedEvent) (enew : list ParsedErrorEvent) :
  batch s' = (batch s ++ new)%list ->
  error_batch s' = (error_batch s ++ enew)%list ->
  error_tailer s' = error_tailer s ->
  ingestor s' = ingestor s ->
  kept s s'.
Proof.
  intros Hb He Ht Hi. unfold kept. rewrite Hb, He, Ht, Hi.
  split; [tauto|]. split; [exists []; rewrite List.app_nil_r; reflexivity|].
  split; intros ev H; left; apply List.in_or_app; left; exact H.
Qed.

Lemma kept_extends (s s' : state) : extends s s' -> kept s s'.
Proof.
  intros (Hb & He & Hn & Hj). unfold kept. rewrite Hb, He.
  split; [exact Hn|]. split; [exact Hj|]. split; intros ev H; left; exact H.
Qed.

Lemma guarded_extends (s0 : state) (el : list string) (s s' : state) :
  guarded s0 el s -> extends s s' -> guarded s0 el s'.
Proof.
  intros (Hk & Hok & Hel) Hx. pose proof Hx as (Hb & He & Hn & Hj).
  split; [apply (kept_trans s0 s s'); [exact Hk|apply kept_extends, Hx]|].
  split.
  - intros Hnone. rewrite He. apply Hok. tauto.
  - intros H1 Hnone. apply (Hel H1). tauto.
Qed.

Lemma quiet_guarded {A : Type} (s0 : state) (el : list string) (m : M state A) :
  quiet m -> preserves (guarded s0 el) m.
Proof. intros Hq s H. apply (guarded_extends s0 el s); [exact H|apply Hq]. Qed.

(** *** Quiet computations *)

Lemma quiet_ret {A : Type} (a : A) : quiet (ret a).
Proof. intros s. apply extends_refl. Qed.

Lemma quiet_bind {A B : Type} (m : M state A) (k : A -> M state B) :
  quiet m -> (forall a, quiet (k a)) -> quiet (bind m k).
Proof.
  intros Hm Hk s. unfold bind. specialize (Hm s).
  destruct (m s) as [[a|e] s1]; cbn [snd] in *; [|exact Hm].
  apply (extends_trans s s1); [exact Hm|apply Hk].
Qed.

Lemma quiet_get_bind {B : Type} (k : state -> M state B) :
  (forall s, quiet (k s)) -> quiet (bind get k).
Proof. intros Hk s. unfold bind, get. apply Hk. Qed.

Lemma quiet_if {A : Type} (b : bool) (m1 m2 : M state A) :
  quiet m1 -> quiet m2 -> quiet (if b then m1 else m2).
Proof. destruct b; auto. Qed.

Lemma quiet_modify (f : state -> state) :
  (forall s, batch (f s) = batch s /\ error_batch (f s) = error_batch s
             /\ error_tailer (f s) = error_tailer s /\ ingestor (f s) = ingestor s) ->
  quiet (modify f).
Proof.
  intros Hf s. destruct (Hf s) as (Hb & He & Ht & Hi).
  unfold modify, extends. cbn [snd]. rewrite Hb, He, Ht, Hi.
  repeat split; auto. exists []. rewrite List.app_nil_r. reflexivity.
Qed.

Lemma quiet_db {A : Type} (m : M mysql A) :
  (forall my, exists more, journal (snd (m my)) = (journal my ++ more)%list) ->
  quiet (db m).
Proof.
  intros Hm s. unfold db, zoom. specialize (Hm (ingestor s)).
  destruct (m (ingestor s)) as [r my]. cbn [snd] in *.
  unfold extends. cbn. repeat split; auto.
Qed.

Lemma transaction_journal {A : Type} (f : database -> database * A) (c : commit)
    (my : mysql) :
  exists more, journal (snd (transaction f c my)) = (journal my ++ more)%list.
Proof.
  unfold transaction. destruct (faults my) as [|[] rest];
    try (destruct (f (tables my)) as [d a]); cbn;
    try (exists [c]; reflexivity); exists []; rewrite List.app_nil_r; reflexivity.
Qed.

Lemma query_journal {A : Type} (f : database -> A) (my : mysql) :
  exists more, journal (snd (query f my)) = (journal my ++ more)%list.
Proof.
  unfold query. destruct (faults my) as [|[] rest]; cbn;
    exists []; rewrite List.app_nil_r; reflexivity.
Qed.

Lemma quiet_redis_call : quiet redis_call.
Proof.
  intros s. unfold redis_call. destruct (redis_faults s) as [|[] ?]; cbn [snd];
    unfold extends; cbn; repeat split; auto;
    exists []; rewrite List.app_nil_r; reflexivity.
Qed.

Lemma quiet_publish_health (k : Knobs) : quiet (_publish_health cfg k).
Proof.
  unfold _publish_health. apply quiet_if; [apply quiet_redis_call|apply quiet_ret].
Qed.

Lemma quiet_flush (k : Knobs) (b : list ParsedEvent) (eb : list ParsedErrorEvent) :
  quiet (_flush cfg k b eb).
Proof.
  assert (Hraw : forall b',
            quiet (match b' with
                   | [] => ret {| c_raw := 0; c_access := 0; c_dns := 0 |}
                   | _ :: _ =>
                       let* c := db (ingest_events b' (node_id cfg)) in
                       (if cache_on cfg k then redis_call else ret tt) ;;
                       ret c
                   end)).
  { intros [|ev b']; [apply quiet_ret|].
    apply quiet_bind; [apply quiet_db; intros my; apply transaction_journal|].
    intros c. apply quiet_bind; [|intros; apply quiet_ret].
    apply quiet_if; [apply quiet_redis_call|apply quiet_ret]. }
  assert (Hrest : forall rc : counts,
            quiet
              (let* s := get in
               let '(inode, offset) := Tailer.state (tailer s) in
               db (save_state (log_path cfg) inode offset) ;;
               let* err :=
                 match error_tailer s with
                 | None => ret (0, (None, 0))
                 | Some et =>
                     let '(error_inode, error_offset) := Tailer.state et in
                     db (save_state (error_log_path cfg) error_inode error_offset) ;;
                     let* error_written :=
                       match eb with
                       | [] => ret 0
                       | _ :: _ => db (ingest_error_events eb (node_id cfg))
                       end in
                     ret (error_written, (error_inode, error_offset))
                 end in
               modify (fun s => set_stats (note_flush rc (fst err) (inode, offset)
                                                      (snd err) (stats s)) s) ;;
               _publish_health cfg k)).
  { intros rc. apply quiet_get_bind. intros s.
    unfold Tailer.state. cbv beta iota.
    apply quiet_bind; [apply quiet_db; intros my; apply transaction_journal|].
    intros _. apply quiet_bind.
    - destruct (error_tailer s) as [et|]; [|apply quiet_ret].
      apply quiet_bind; [apply quiet_db; intros my; apply transaction_journal|].
      intros _. apply quiet_bind; [|intros; apply quiet_ret].
      destruct eb; [apply quiet_ret|].
      apply quiet_db. intros my. apply transaction_journal.
    - intros err. apply quiet_bind; [|intros; apply quiet_publish_health].
      apply quiet_modify. intros s1. repeat split. }
  unfold _flush.
  destruct b as [|ev b]; [destruct eb as [|e eb]; [apply quiet_ret|]|].
  - apply quiet_bind; [apply (Hraw [])|apply Hrest].
  - apply quiet_bind; [apply (Hraw (ev :: b))|apply Hrest].
Qed.

(** *** The steps of an iteration *)

Lemma bind_here {A B : Type} (P : state -> Prop) (m : M state A)
    (k : A -> M state B) (s : state) :
  P (snd (m s)) -> (forall a, preserves P (k a)) -> P (snd (bind m k s)).
Proof.
  intros H Hk. unfold bind.
  destruct (m s) as [[a|e] s1]; cbn [snd] in *; [apply Hk; exact H|exact H].
Qed.

Lemma guarded_grows (s0 : state) (el : list string) (s s' : state)
    (new : list ParsedEvent) (enew : list ParsedErrorEvent) :
  guarded s0 el s ->
  batch s' = (batch s ++ new)%list ->
  error_batch s' = (error_batch s ++ enew)%list ->
  (error_tailer s = None -> enew = []) ->
  error_tailer s' = error_tailer s ->
  ingestor s' = ingestor s ->
  guarded s0 el s'.
Proof.
  intros (Hk & Hok & Hel) Hb He Hn Ht Hi.
  split; [apply (kept_trans s0 s s'); [exact Hk|apply (kept_grows s s' new enew); auto]|].
  split.
  - intros Hnone. rewrite Ht in Hnone. rewrite He, (Hok Hnone), (Hn Hnone). reflexivity.
  - rewrite Ht. exact Hel.
Qed.

Lemma for_each_consume_line_appends (f : Filtering.FilterSettings) (lines : list string) :
  forall (b : list ParsedEvent) (st : CollectorStats),
  exists new, fst (snd (for_each (consume_line f) lines (b, st))) = (b ++ new)%list.
Proof.
  induction lines as [|line lines IH]; intros b st.
  - exists []. cbn. rewrite List.app_nil_r. reflexivity.
  - cbn [for_each]. unfold bind.
    destruct (consume_line_counts f line b st) as ([n1 Hn] & _). cbv zeta in Hn.
    destruct (consume_line f line (b, st)) as [[[]|e] [b1 st1]]; cbn [fst snd] in *.
    + subst b1. destruct (IH (b ++ n1)%list st1) as [n2 Hn2].
      exists (n1 ++ n2)%list. rewrite Hn2, List.app_assoc. reflexivity.
    + exists n1. exact Hn.
Qed.

(** The flush of the waiting batches, followed by their reset *)
Lemma kept_flush_clear (k : Knobs) (now : spec_float) (s1 : state) :
  error_batch_ok s1 ->
  let s' := snd ((_flush cfg k (batch s1) (error_batch s1) ;;
                  modify (fun s => set_last_flush now (set_batches [] [] s))) s1) in
  kept s1 s' /\ error_batch_ok s'
  /\ (error_tailer s' = None <-> error_tailer s1 = None).
Proof.
  intros Hok. cbv zeta. unfold bind.
  pose proof (quiet_flush k (batch s1) (error_batch s1) s1) as Hq.
  destruct (_flush cfg k (batch s1) (error_batch s1) s1) as [[[]|e] s2] eqn:Hf;
    cbn [snd] in *.
  - destruct Hq as (Hb & He & Hn & [more Hj]).
    split; [|split; [intros _; reflexivity|exact Hn]].
    unfold kept. cbn. split; [exact Hn|]. split; [exists more; exact Hj|].
    destruct (nonempty (batch s1) || nonempty (error_batch s1)) eqn:Hne.
    + destruct (flush_ok cfg k _ _ s1 s2 Hne Hf) as (_ & Hj2 & _).
      rewrite Hj2. unfold flushed_journal. split; intros ev Hev; right.
      * destruct (batch s1) as [|e0 b] eqn:Hb1; [destruct Hev|].
        exists [], (e0 :: b). eexists. split; [cbn; reflexivity|exact Hev].
      * destruct (error_tailer s1) as [et|] eqn:Het;
          [|rewrite (Hok Het) in Hev; destruct Hev].
        destruct (error_batch s1) as [|e0 eb] eqn:Heb; [destruct Hev|].
        exists ((match batch s1 with [] => [] | _ :: _ => [CommitEvents (batch s1)] end)
                ++ [CommitState (log_path cfg) (_inode (tailer s1)) (_offset (tailer s1));
                    CommitState (error_log_path cfg) (_inode et) (_offset et)])%list,
               (e0 :: eb), [].
        split; [|exact Hev]. rewrite <- !List.app_assoc. reflexivity.
    + apply orb_false_iff in Hne as [H1 H2].
      destruct (batch s1); [|discriminate]. destruct (error_batch s1); [|discriminate].
      split; intros ev [].
  - split; [apply kept_extends, Hq|]. destruct Hq as (Hb & He & Hn & Hj).
    split; [|exact Hn]. intros Hnone. rewrite He. apply Hok. tauto.
Qed.

Lemma guarded_iteration_body (k : Knobs) (now : spec_float) (s0 : state) :
  error_batch_ok s0 ->
  let s' := snd (iteration_body cfg k now s0) in
  kept s0 s' /\ error_batch_ok s'.
Proof.
  intros Hok0. cbv zeta.
  assert (H0 : guarded s0 [] s0).
  { split; [apply kept_refl|]. split; [exact Hok0|discriminate]. }
  cut (guarded s0 [] (snd (iteration_body cfg k now s0))
       \/ exists el, guarded s0 el (snd (iteration_body cfg k now s0))).
  { intros [H|[el H]]; destruct H as (H1 & H2 & _); auto. }
  right. unfold iteration_body. unfold bind at 1, get at 1.
  destruct (read_new_lines (disk s0) (tailer s0) _) as [lines t].
  unfold bind at 1, modify at 1.
  set (s1 := set_tailer t s0).
  assert (Hx1 : extends s0 s1).
  { unfold extends, s1. cbn. repeat split; auto.
    exists []. rewrite List.app_nil_r. reflexivity. }
  unfold bind at 1.
  destruct (match error_tailer s0 with
            | Some et =>
                let '(ls, et') := read_new_lines (disk s0) et _ in
                modify (set_error_tailer (Some et'));; ret ls
            | None => ret []
            end s1) as [[el|e] s2] eqn:Hpoll.
  2:{ exfalso. destruct (error_tailer s0) as [et|]; [|discriminate Hpoll].
      destruct (read_new_lines (disk s0) et _) as [ls et']. discriminate Hpoll. }
  exists el.
  assert (H2 : guarded s0 el s2).
  { destruct (error_tailer s0) as [et|] eqn:Het.
    - destruct (read_new_lines (disk s0) et _) as [ls et'].
      injection Hpoll as <- <-.
      split; [|split].
      + apply kept_extends. unfold extends. cbn. rewrite Het.
        repeat split; try discriminate.
        exists []. rewrite List.app_nil_r. reflexivity.
      + intros Hn. discriminate Hn.
      + intros _. discriminate.
    - injection Hpoll as <- <-.
      split; [apply kept_extends, Hx1|]. split; [|discriminate].
      intros _. apply Hok0, Het. }
  clear Hpoll. revert s2 H2.
  apply (preserves_bind (guarded s0 el)).
  { apply preserves_if; [|apply preserves_ret].
    apply preserves_bind.
    - intros s H. unfold zoom.
      destruct (for_each_consume_line_appends (k_filter k) lines (batch s) (stats s))
        as [new Hnew].
      destruct (for_each _ _ _) as [r [b st]]. cbn [fst snd] in *.
      apply (guarded_grows s0 el s _ new []); auto.
      cbn. rewrite List.app_nil_r. reflexivity.
    - intros _. apply quiet_guarded, quiet_modify. intros s. repeat split. }
  intros _. apply (preserves_bind (guarded s0 el)).
  { destruct (nonempty el) eqn:Hel; [|apply preserves_ret].
    apply preserves_modify. intros s H.
    destruct (consume_error_lines_append (min_error_level_rank k)
                (k_error_drop_noise k) el (error_batch s) (stats s))
      as (added & Ha & _).
    destruct (List.fold_left _ _ _) as [eb st]. cbn [fst] in Ha.
    apply (guarded_grows s0 el s _ [] added); auto.
    - cbn. rewrite List.app_nil_r. reflexivity.
    - intros Hnone. destruct H as (_ & _ & Hsome). exfalso.
      apply (Hsome Hel), Hnone. }
  intros _. apply preserves_get_bind. intros s3 H3. cbv zeta.
  apply bind_here.
  { destruct (_ && _); [|exact H3].
    destruct H3 as (Hk3 & Hok3 & Hel3).
    destruct (kept_flush_clear k now s3 Hok3) as (Hk & Hok & Hn).
    split; [apply (kept_trans s0 s3); assumption|]. split; [exact Hok|].
    intros H Hnone. apply (Hel3 H). tauto. }
  intros _. apply preserves_get_bind. intros s4 H4.
  refine (preserves_bind (guarded s0 el) _ _ _ _ s4 H4).
  { apply preserves_if; [|apply preserves_ret].
    apply quiet_guarded.
    apply quiet_bind; [apply quiet_db; intros my; apply query_journal|].
    intros _. apply quiet_bind; [apply quiet_publish_health|].
    intros _. apply quiet_modify. intros s. repeat split. }
  intros _. apply preserves_if; [apply quiet_guarded, quiet_publish_health|apply preserves_ret].
Qed.

Lemma guarded_iteration (k : Knobs) (now : spec_float) (s0 : state) :
  error_batch_ok s0 ->
  let s' := snd (iteration cfg k now s0) in
  kept s0 s' /\ error_batch_ok s'.
Proof.
  intros Hok0. cbv zeta. unfold iteration.
  destruct (guarded_iteration_body k now s0 Hok0) as [Hk Hok]. cbv zeta in Hk, Hok.
  destruct (iteration_body cfg k now s0) as [[[]|e] s1]; cbn [snd] in *; [auto|].
  assert (Hx : extends s1 (snd (_publish_health cfg k
                                  (set_stats (note_failure e (stats s1)) s1)))).
  { apply (extends_trans s1 (set_stats (note_failure e (stats s1)) s1));
      [|apply quiet_publish_health].
    unfold extends. cbn. repeat split; auto.
    exists []. rewrite List.app_nil_r. reflexivity. }
  split; [apply (kept_trans s0 s1); [exact Hk|apply kept_extends, Hx]|].
  destruct Hx as (_ & He & Hn & _). intros Hnone. rewrite He. apply Hok. tauto.
Qed.

Lemma guarded_step (e : event) (s0 : state) :
  error_batch_ok s0 ->
  let s' := snd (step cfg e s0) in
  kept s0 s' /\ error_batch_ok s'.
Proof.
  intros Hok0. destruct e as [k now|p data|p ino data|p ino data|f|f]; cbn [step];
    [apply guarded_iteration, Hok0| | | | |];
    (split; [apply kept_extends; unfold extends; cbn; repeat split; auto;
             exists []; rewrite List.app_nil_r; reflexivity
            |exact Hok0]).
Qed.

(** X18: as long as the loop runs, an event that waits in a batch is
    not dropped: after any sequence of iterations that no exception has
    ended, with changes of the logs and failures of the ingestor, of
    Redis or of the parser in between, each event that waited in the
    batch or in the error batch either still waits there or belongs to a
    batch whose transaction was committed in the meantime.  The
    iterations are those whose reads of the runtime configuration
    succeed, the knobs being what they return; an exception that leaves
    the handler ends the loop, and the batches are lost with it. *)
Theorem run_keeps_or_commits (es : list event) (s : state) :
  error_batch_ok s ->
  fst (run cfg es s) = Ok tt ->
  let s' := snd (run cfg es s) in
  (forall ev, In ev (batch s) ->
     In ev (batch s')
     \/ committed (journal (ingestor s)) (journal (ingestor s')) ev)
  /\ (forall ev, In ev (error_batch s) ->
       In ev (error_batch s')
       \/ committed_error (journal (ingestor s)) (journal (ingestor s')) ev).
Proof.
  intros Hok _. cbv zeta.
  cut (kept s (snd (run cfg es s)) /\ error_batch_ok (snd (run cfg es s))).
  { intros [(_ & _ & H1 & H2) _]. auto. }
  revert s Hok. induction es as [|e es IH]; intros s Hok.
  - cbn. split; [apply kept_refl|exact Hok].
  - cbn [run]. unfold bind.
    destruct (guarded_step e s Hok) as [Hk1 Hok1]. cbv zeta in Hk1, Hok1.
    destruct (step cfg e s) as [[[]|e1] s1]; cbn [snd] in *; [|auto].
    destruct (IH s1 Hok1) as [Hk2 Hok2].
    split; [apply (kept_trans s s1); assumption|exact Hok2].
Qed.


End KeptFacts.

Lemma run_keeps_or_commits_witness :
  let s := Collector.set_batches [api_event] []
             (Collector.new Site.settings Site.disk0 (Site.server [true]) []) in
  let s' := snd (Collector.run Site.settings
                   [Collector.Tick default_knobs (seconds 100);
                    Collector.Tick default_knobs (seconds 200)] s) in
  In api_event (Collector.batch s')
  \/ Loop.committed (Storage.journal (Collector.ingestor s))
                    (Storage.journal (Collector.ingestor s')) api_event.
Proof.
  exact (proj1 (run_keeps_or_commits Site.settings
                  [Collector.Tick default_knobs (seconds 100);
                   Collector.Tick default_knobs (seconds 200)]
                  (Collector.set_batches [api_event] []
                     (Collector.new Site.settings Site.disk0 (Site.server [true]) []))
                  (fun _ => eq_refl) ltac:(vm_compute; reflexivity))
               api_event (or_introl eq_refl)).
Defined.
(** ** Levels of the error log *)

Section LevelFacts.

Import ErrorParser.

Lemma normalize_level_rank (raw : string) :
  In (_normalize_level raw) ["debug"; "info"; "warning"; "error"; "unknown"]
  /\ level_rank (_normalize_level raw) = level_rank raw
  /\ _normalize_level (_normalize_level raw) = _normalize_level raw.
Proof.
  unfold _normalize_level, level_rank at 2. cbv zeta.
  set (key := Py.lower (Py.strip raw)). cbn [existsb].
  destruct (String.eqb key "debug") eqn:H1.
  { apply String.eqb_eq in H1. rewrite H1. cbn. auto 10. }
  destruct (String.eqb key "info") eqn:H2.
  { apply String.eqb_eq in H2. rewrite H2. cbn. auto 10. }
  destruct (String.eqb key "warning") eqn:H3.
  { apply String.eqb_eq in H3. rewrite H3. cbn. auto 10. }
  destruct (String.eqb key "error") eqn:H4.
  { apply String.eqb_eq in H4. rewrite H4. cbn. auto 10. }
  cbn. split; [auto 10|]. split; [|reflexivity].
  destruct (String.eqb key "unknown"); reflexivity.
Qed.

Lemma parse_error_line_level (l : string) (ev : ParsedErrorEvent) :
  parse_error_line l = Some ev -> exists raw, level ev = _normalize_level raw.
Proof.
  unfold parse_error_line.
  destruct (Re.rmatch _LINE_RE _) as [m|]; [|discriminate].
  destruct (_parse_datetime _) as [t|]; [|discriminate].
  destruct (match Re.search _DEST_RE _ with Some _ => _ | None => _ end)
    as [dr [dh dp]].
  intros [= <-]. eexists. reflexivity.
Qed.

(** X19: the level of an event returned by [parse_error_line] is one of
    debug, info, warning, error and unknown, in lower case, and
    normalizing it again changes nothing; normalizing a level never
    changes its rank, so the threshold of the collector ranks an event
    as the level written in the log ranks. *)
Theorem parsed_error_level (l : string) (ev : ParsedErrorEvent) :
  parse_error_line l = Some ev ->
  In (level ev) ["debug"; "info"; "warning"; "error"; "unknown"]
  /\ _normalize_level (level ev) = level ev
  /\ forall raw, level_rank (_normalize_level raw) = level_rank raw.
Proof.
  intros H. destruct (parse_error_line_level l ev H) as [raw ->].
  destruct (normalize_level_rank raw) as (H1 & _ & H3).
  split; [exact H1|]. split; [exact H3|].
  intros r. apply (normalize_level_rank r).
Qed.

End LevelFacts.

Lemma parsed_error_level_witness :
  exists ev,
    ErrorParser.parse_error_line Site.warning_line = Some ev
    /\ In (level ev) ["debug"; "info"; "warning"; "error"; "unknown"].
Proof.
  destruct (ErrorParser.parse_error_line Site.warning_line) as [ev|] eqn:H;
    [|vm_compute in H; discriminate H].
  exists ev. split; [reflexivity|].
  exact (proj1 (parsed_error_level Site.warning_line ev H)).
Defined.
(** ** Comma separated lists *)

Section CsvFacts.

Import Storage RuntimeConfig Getters.

Variable py_repr : pyval -> string.
Variable float_of_str : string -> option spec_float.

Lemma rev_nil_inv (s : string) : Py.rev s = EmptyString -> s = EmptyString.
Proof.
  intros H. rewrite <- (rev_rev s), H. reflexivity.
Qed.

(** [rstrip] by structural recursion *)
Lemma rstrip_by_cons (f : ascii -> bool) (a : ascii) (s : string) :
  Py.rstrip_by f (String a s)
  = match Py.rstrip_by f s with
    | EmptyString => if f a then EmptyString else String a EmptyString
    | r => String a r
    end.
Proof.
  unfold Py.rstrip_by.
  change (String a s) with (String a EmptyString ++ s) at 1.
  rewrite rev_app, lstrip_by_app.
  destruct (Py.all_chr f (Py.rev s)) eqn:Hall.
  - rewrite (lstrip_by_all f (Py.rev s) Hall). cbn.
    destruct (f a); reflexivity.
  - rewrite rev_app.
    destruct (Py.lstrip_by f (Py.rev s)) as [|b u] eqn:Hl.
    + exfalso. destruct (lstrip_by_split f (Py.rev s)) as (w & Hw & Hall').
      rewrite Hl, app_nil_str in Hw. rewrite Hw, Hall' in Hall. discriminate.
    + destruct (Py.rev (String b u)) eqn:Hr; [apply rev_nil_inv in Hr; discriminate|].
      reflexivity.
Qed.

Lemma lstrip_by_head (f : ascii -> bool) (s : string) :
  match Py.lstrip_by f s with
  | EmptyString => True
  | String a _ => f a = false
  end.
Proof.
  induction s as [|a s IH]; [exact I|]. cbn.
  destruct (f a) eqn:Ha; [exact IH|exact Ha].
Qed.

Lemma strip_idem (s : string) : Py.strip (Py.strip s) = Py.strip s.
Proof.
  unfold Py.strip.
  pose proof (lstrip_by_head Py.isspace s) as Hh.
  destruct (Py.lstrip_by Py.isspace s) as [|a u]; [reflexivity|].
  assert (Hl : Py.lstrip_by Py.isspace (Py.rstrip_by Py.isspace (String a u))
               = Py.rstrip_by Py.isspace (String a u)).
  { rewrite rstrip_by_cons. destruct (Py.rstrip_by Py.isspace u); rewrite ?Hh;
      cbn; rewrite Hh; reflexivity. }
  rewrite Hl. apply rstrip_by_idem.
Qed.

Lemma count_chr_app (c : ascii) (a b : string) :
  Py.count_chr c (a ++ b) = (Py.count_chr c a + Py.count_chr c b)%nat.
Proof.
  induction a as [|x a IH]; [reflexivity|].
  change (String x a ++ b) with (String x (a ++ b)). cbn. rewrite IH. lia.
Qed.

Lemma count_chr_rev (c : ascii) (s : string) :
  Py.count_chr c (Py.rev s) = Py.count_chr c s.
Proof.
  induction s as [|a s IH]; [reflexivity|].
  change (String a s) with (String a EmptyString ++ s) at 1.
  rewrite rev_app, count_chr_app, IH. cbn. lia.
Qed.

Lemma count_chr_lstrip (c : ascii) (f : ascii -> bool) (s : string) :
  Py.count_chr c s = 0%nat -> Py.count_chr c (Py.lstrip_by f s) = 0%nat.
Proof.
  induction s as [|a s IH]; [reflexivity|]. cbn.
  destruct (f a); [|cbn; auto]. intros H. apply IH. lia.
Qed.

Lemma count_chr_strip (c : ascii) (s : string) :
  Py.count_chr c s = 0%nat -> Py.count_chr c (Py.strip s) = 0%nat.
Proof.
  intros H. unfold Py.strip, Py.rstrip_by.
  rewrite count_chr_rev. apply count_chr_lstrip. rewrite count_chr_rev.
  apply count_chr_lstrip, H.
Qed.

Lemma split_chr_pieces (c : ascii) (s : string) :
  Forall (fun p => Py.count_chr c p = 0%nat) (Py.split_chr c s).
Proof.
  induction s as [|a s IH]; cbn.
  - constructor; [reflexivity|constructor].
  - destruct (Ascii.eqb a c) eqn:Ha.
    + constructor; [reflexivity|exact IH].
    + destruct (Py.split_chr c s) as [|w ws].
      * constructor; [cbn; rewrite Ha; reflexivity|constructor].
      * inversion IH as [|? ? Hw Hws]; subst.
        constructor; [cbn; rewrite Ha; exact Hw|exact Hws].
Qed.

Lemma split_chr_none (c : ascii) (p : string) :
  Py.count_chr c p = 0%nat -> Py.split_chr c p = [p].
Proof.
  induction p as [|a p IH]; [reflexivity|]. cbn.
  destruct (Ascii.eqb a c); [discriminate|]. cbn. intros H. rewrite (IH H). reflexivity.
Qed.

Lemma split_chr_app (c : ascii) (p rest : string) :
  Py.count_chr c p = 0%nat ->
  Py.split_chr c (p ++ String c rest) = p :: Py.split_chr c rest.
Proof.
  induction p as [|a p IH].
  - intros _. change (EmptyString ++ String c rest) with (String c rest).
    cbn [Py.split_chr]. rewrite Ascii.eqb_refl. reflexivity.
  - change (String a p ++ String c rest) with (String a (p ++ String c rest)).
    cbn. destruct (Ascii.eqb a c); [discriminate|]. cbn. intros H.
    rewrite (IH H). reflexivity.
Qed.

Lemma split_chr_join (c : ascii) (ps : list string) :
  ps <> [] ->
  Forall (fun p => Py.count_chr c p = 0%nat) ps ->
  Py.split_chr c (Py.join (String c EmptyString) ps) = ps.
Proof.
  induction ps as [|p ps IH]; [congruence|]. intros _ Hall.
  inversion Hall as [|? ? Hp Hps]; subst.
  destruct ps as [|q ps].
  - cbn. apply split_chr_none, Hp.
  - change (Py.join (String c EmptyString) (p :: q :: ps))
      with (p ++ String c (Py.join (String c EmptyString) (q :: ps))).
    rewrite split_chr_app by exact Hp. rewrite IH; [reflexivity|discriminate|exact Hps].
Qed.

Lemma csv_parts_clean (s : string) : Forall clean (csv_parts s).
Proof.
  unfold csv_parts. apply List.Forall_forall. intros p Hp.
  apply List.filter_In in Hp as [Hin Ht]. apply List.in_map_iff in Hin as (x & <- & Hx).
  split; [apply truthy_spec, Ht|]. split; [apply strip_idem|].
  apply count_chr_strip.
  pose proof (split_chr_pieces "," s) as Hall. rewrite List.Forall_forall in Hall.
  apply Hall, Hx.
Qed.

Lemma csv_parts_join (ps : list string) :
  Forall clean ps -> csv_parts (Py.join "," ps) = ps.
Proof.
  intros Hall. unfold csv_parts. destruct ps as [|p ps]; [reflexivity|].
  rewrite (split_chr_join "," (p :: ps)); [|discriminate|].
  - induction Hall as [|q qs (Hq1 & Hq2 & Hq3) Hqs IH]; [reflexivity|].
    cbn [List.map List.filter]. rewrite Hq2.
    apply truthy_spec in Hq1. rewrite Hq1, IH. reflexivity.
  - revert Hall. apply List.Forall_impl. intros q (_ & _ & Hq). exact Hq.
Qed.

Lemma normalize_csv (field : RuntimeConfigField) (s : string) :
  field_type field = "csv" ->
  _normalize_value py_repr float_of_str field (PStr s)
  = Ok (PStr (Py.join "," (csv_parts s))).
Proof. intros H. unfold _normalize_value. rewrite H. reflexivity. Qed.

(** X20: a string given as the value of a comma separated field is
    accepted, and what is stored for it is the string of its entries,
    split at the commas, stripped, without the empty ones, joined by
    commas.  The stored value is a fixed point of the validation, and
    the tuple the collector reads from it with get_csv_tuple is the list
    of these entries, none of which is empty, has white space around it
    or holds a comma. *)
Theorem csv_update_then_get (field : RuntimeConfigField) (s : string)
    (m : RuntimeConfigManager) (key : string) (fallback : list string) :
  field_type field = "csv" ->
  let entries := List.filter Py.truthy (List.map Py.strip (Py.split_chr "," s)) in
  let v := PStr (Py.join "," entries) in
  _normalize_value py_repr float_of_str field (PStr s) = Ok v
  /\ _normalize_value py_repr float_of_str field v = Ok v
  /\ (_overrides m !! key = Some v ->
      get_csv_tuple py_repr m key fallback = entries)
  /\ Forall clean entries.
Proof.
  intros H. cbv zeta. fold (csv_parts s).
  pose proof (csv_parts_clean s) as Hc.
  split; [apply normalize_csv, H|]. split; [|split; [|exact Hc]].
  - rewrite (normalize_csv field _ H), (csv_parts_join _ Hc). reflexivity.
  - intros Ho. unfold get_csv_tuple, get. rewrite Ho. cbn [py_str].
    apply csv_parts_join, Hc.
Qed.

(** X21: the tuple read from the environment by _env_csv, joined by
    commas into the default of the manager, is the tuple get_csv_tuple
    returns when the key has no override: its entries are stripped, not
    empty and free of commas, so that joining and splitting them again
    loses nothing. *)
Theorem env_csv_default_round_trip (env_value : option string) (default : string)
    (m : RuntimeConfigManager) (key : string) (fallback : list string) :
  _overrides m !! key = None ->
  dict_get (_defaults m) key = Some (PStr (Py.join "," (_env_csv env_value default))) ->
  get_csv_tuple py_repr m key fallback = _env_csv env_value default
  /\ Forall clean (_env_csv env_value default).
Proof.
  intros Ho Hd. pose proof (csv_parts_clean
    (match env_value with Some v => v | None => default end)) as Hc.
  split; [|exact Hc].
  unfold get_csv_tuple, get. rewrite Ho, Hd. cbn [py_str].
  apply csv_parts_join, Hc.
Qed.

End CsvFacts.

Lemma csv_update_then_get_witness :
  RuntimeConfig._normalize_value Getters_Sample.no_repr Getters_Sample.no_float
    Getters_Sample.detours_field (Storage.PStr " direct , ,block ")
  = Ok (Storage.PStr "direct,block")
  /\ RuntimeConfig._normalize_value Getters_Sample.no_repr Getters_Sample.no_float
       Getters_Sample.detours_field (Storage.PStr "direct,block")
     = Ok (Storage.PStr "direct,block").
Proof.
  destruct (csv_update_then_get Getters_Sample.no_repr Getters_Sample.no_float
              Getters_Sample.detours_field " direct , ,block "
              Getters_Sample.detours_manager "AUDIT_EXCLUDE_DETOURS" [] eq_refl)
    as (H1 & H2 & _).
  split; [exact H1|exact H2].
Defined.

Lemma env_csv_default_round_trip_witness :
  Getters.get_csv_tuple Getters_Sample.no_repr Getters_Sample.detours_manager
    "AUDIT_EXCLUDE_DETOURS" []
  = ["direct"; "block"].
Proof.
  exact (eq_trans
           (proj1 (env_csv_default_round_trip Getters_Sample.no_repr
                     Getters_Sample.detours_env EmptyString
                     Getters_Sample.detours_manager "AUDIT_EXCLUDE_DETOURS" []
                     ltac:(vm_compute; reflexivity) eq_refl))
           ltac:(vm_compute; reflexivity)).
Defined.
(** ** Validated values *)

Section StableFacts.

Import Storage RuntimeConfig Getters.

Variable py_repr : pyval -> string.
Variable float_of_str : string -> option spec_float.

Lemma isspace_lower_chr (a : ascii) : Py.isspace (Py.lower_chr a) = Py.isspace a.
Proof. destruct a as [[] [] [] [] [] [] [] []]; reflexivity. Qed.

Lemma lower_chr_idem (a : ascii) : Py.lower_chr (Py.lower_chr a) = Py.lower_chr a.
Proof. destruct a as [[] [] [] [] [] [] [] []]; reflexivity. Qed.

Lemma lower_idem (s : string) : Py.lower (Py.lower s) = Py.lower s.
Proof.
  induction s as [|a s IH]; [reflexivity|]. cbn. rewrite lower_chr_idem, IH. reflexivity.
Qed.

Lemma lstrip_lower (s : string) :
  Py.lstrip_by Py.isspace (Py.lower s) = Py.lower (Py.lstrip_by Py.isspace s).
Proof.
  induction s as [|a s IH]; [reflexivity|]. cbn. rewrite isspace_lower_chr.
  destruct (Py.isspace a); [exact IH|reflexivity].
Qed.

Lemma rstrip_lower (s : string) :
  Py.rstrip_by Py.isspace (Py.lower s) = Py.lower (Py.rstrip_by Py.isspace s).
Proof.
  induction s as [|a s IH]; [reflexivity|].
  cbn [Py.lower]. rewrite !rstrip_by_cons, IH, isspace_lower_chr.
  destruct (Py.rstrip_by Py.isspace s); cbn; [destruct (Py.isspace a)|]; reflexivity.
Qed.

Lemma strip_lower (s : string) : Py.strip (Py.lower s) = Py.lower (Py.strip s).
Proof. unfold Py.strip. rewrite lstrip_lower, rstrip_lower. reflexivity. Qed.

Lemma lower_strip_idem (s : string) :
  Py.lower (Py.strip (Py.lower (Py.strip s))) = Py.lower (Py.strip s).
Proof. rewrite strip_lower, strip_idem, lower_idem. reflexivity. Qed.

Lemma normalize_value_fixed (field : RuntimeConfigField) (raw v : pyval) :
  _normalize_value py_repr float_of_str field raw = Ok v ->
  (field_type field = "csv" -> forall l, raw <> PList l) ->
  _normalize_value py_repr float_of_str field v = Ok v.
Proof.
  unfold _normalize_value.
  destruct (String.eqb (field_type field) "bool").
  { intros H _.
    assert (Hb : exists b, v = PBool b).
    { destruct raw; try (injection H as <-; eauto; fail);
        destruct (in_strs _ ["1"; "true"; "yes"; "on"]);
        try (injection H as <-; eauto; fail);
        destruct (in_strs _ ["0"; "false"; "no"; "off"]);
        try (injection H as <-; eauto; fail); discriminate. }
    destruct Hb as [b ->]. reflexivity. }
  destruct (String.eqb (field_type field) "int").
  { intros H _. destruct (py_int raw) as [n|]; [|discriminate].
    destruct (float_of_int n) as [x|e] eqn:Hx; [|discriminate].
    destruct (_check_range field x) as [[]|e] eqn:Hr; [|discriminate].
    injection H as <-. cbn [py_int]. rewrite Hx, Hr. reflexivity. }
  destruct (String.eqb (field_type field) "float").
  { intros H _. destruct (py_float float_of_str raw) as [x|]; [|discriminate].
    destruct (_check_range field x) as [[]|e] eqn:Hr; [|discriminate].
    injection H as <-. cbn [py_float]. rewrite Hr. reflexivity. }
  destruct (String.eqb (field_type field) "enum").
  { intros H _.
    destruct (in_strs (Py.lower (Py.strip (py_str py_repr raw))) _) eqn:Hin;
      [|discriminate].
    injection H as <-. cbn [py_str]. rewrite lower_strip_idem, Hin. reflexivity. }
  destruct (String.eqb (field_type field) "csv") eqn:Hcsv.
  { apply String.eqb_eq in Hcsv. intros H Hl. specialize (Hl Hcsv).
    assert (Hs : v = PStr (Py.join "," (csv_parts (py_str py_repr raw)))).
    { destruct raw; try (injection H as <-; reflexivity). exfalso. eapply Hl. reflexivity. }
    subst v. cbn [py_str].
    change (List.filter Py.truthy (List.map Py.strip (Py.split_chr "," ?s)))
      with (csv_parts s).
    rewrite (csv_parts_join _ (csv_parts_clean _)). reflexivity. }
  intros H _. injection H as <-. reflexivity.
Qed.

(** X22: a value accepted by the validation of a field is a fixed point
    of it: validating the stored value again, as every refresh of the
    manager does, accepts it and returns it unchanged.  (For a comma
    separated field the value was not given as a list.) *)
Theorem normalize_value_stable (field : RuntimeConfigField) (raw v : pyval) :
  _normalize_value py_repr float_of_str field raw = Ok v ->
  (field_type field = "csv" -> forall l, raw <> PList l) ->
  _normalize_value py_repr float_of_str field v = Ok v.
Proof. apply normalize_value_fixed. Qed.

End StableFacts.

Lemma normalize_value_stable_witness :
  RuntimeConfig._normalize_value Getters_Sample.no_repr Getters_Sample.no_float
    Getters_Sample.batch_field (Storage.PInt 500)
  = Ok (Storage.PInt 500).
Proof.
  apply (normalize_value_stable Getters_Sample.no_repr Getters_Sample.no_float
           Getters_Sample.batch_field (Storage.PStr " 500 ") (Storage.PInt 500)).
  - vm_compute. reflexivity.
  - intros H. vm_compute in H. discriminate H.
Defined.
(** ** An update of the configuration and what is read after it *)

Section UpdateFacts.

Import Storage RuntimeConfig Getters.

Variable py_repr : pyval -> string.
Variable float_of_str : string -> option spec_float.

Abbreviation normalize := (_normalize_value py_repr float_of_str).

Lemma dict_get_set (d : list (string * pyval)) (k k' : string) (v : pyval) :
  dict_get (dict_set d k v) k' = if String.eqb k k' then Some v else dict_get d k'.
Proof.
  induction d as [|[k0 v0] d IH]; cbn.
  - destruct (String.eqb k k'); reflexivity.
  - destruct (String.eqb k0 k) eqn:H0; cbn.
    + apply String.eqb_eq in H0. subst k0. destruct (String.eqb k k'); reflexivity.
    + rewrite IH. destruct (String.eqb k0 k') eqn:H1; [|reflexivity].
      apply String.eqb_eq in H1. subst k0. rewrite String.eqb_sym, H0. reflexivity.
Qed.

Lemma dict_get_In (d : list (string * pyval)) (k : string) (v : pyval) :
  dict_get d k = Some v -> In (k, v) d.
Proof.
  induction d as [|[k0 v0] d IH]; [discriminate|]. cbn.
  destruct (String.eqb k0 k) eqn:H0.
  - apply String.eqb_eq in H0. intros [= <-]. left. congruence.
  - intros H. right. apply IH, H.
Qed.

Lemma dict_set_keys (d : list (string * pyval)) (k : string) (v : pyval) :
  List.NoDup (List.map fst d) ->
  List.NoDup (List.map fst (dict_set d k v))
  /\ forall k', In k' (List.map fst (dict_set d k v)) -> k' = k \/ In k' (List.map fst d).
Proof.
  induction d as [|[k0 v0] d IH]; intros Hnd; cbn.
  - split; [constructor; [intros []|constructor]|]. intros k' [<-|[]]. auto.
  - inversion Hnd as [|? ? Hk0 Hd]; subst. destruct (IH Hd) as [IH1 IH2].
    destruct (String.eqb k0 k) eqn:H0; cbn.
    + split; [exact Hnd|]. intros k' H. right. exact H.
    + split.
      * constructor; [|exact IH1]. intros Hin. destruct (IH2 _ Hin) as [->|Hin'].
        -- rewrite String.eqb_refl in H0. discriminate.
        -- apply Hk0, Hin'.
      * intros k' [<-|H]; [right; left; reflexivity|].
        destruct (IH2 _ H); auto.
Qed.

(** The validation loop: each item is validated, the last value of a key
    is the one kept. *)
Lemma normalize_items_spec (values : list (string * pyval)) :
  forall acc n,
    List.NoDup (List.map fst values) ->
    normalize_items py_repr float_of_str values acc = Ok n ->
    (forall key raw f v,
        In (key, raw) values -> editable_field key = Some f ->
        normalize f raw = Ok v -> dict_get n key = Some v)
    /\ (forall key, ~ In key (List.map fst values) -> dict_get n key = dict_get acc key)
    /\ (List.NoDup (List.map fst acc) -> List.NoDup (List.map fst n)).
Proof.
  induction values as [|[k raw] values IH]; intros acc n Hnd H.
  - injection H as <-. split; [intros ? ? ? ? []|]. split; auto.
  - cbn [normalize_items] in H. inversion Hnd as [|? ? Hk Hrest]; subst.
    destruct (editable_field k) as [f|] eqn:Hf; [|discriminate].
    destruct (normalize f raw) as [v|e] eqn:Hv; [|discriminate].
    destruct (IH _ _ Hrest H) as (I1 & I2 & I3).
    split; [|split].
    + intros key raw' f' v' [[= <- <-]|Hin] Hf' Hv'.
      * rewrite (I2 k Hk), dict_get_set, String.eqb_refl. congruence.
      * apply (I1 key raw' f' v' Hin Hf' Hv').
    + intros key Hkey. cbn in Hkey. rewrite I2 by tauto.
      rewrite dict_get_set. destruct (String.eqb k key) eqn:Hkk; [|reflexivity].
      apply String.eqb_eq in Hkk. tauto.
    + intros Hacc. apply I3. apply dict_set_keys, Hacc.
Qed.

Lemma dict_set_new (d : list (string * pyval)) (k : string) (v : pyval) :
  ~ In k (List.map fst d) -> dict_set d k v = (d ++ [(k, v)])%list.
Proof.
  induction d as [|[k0 v0] d IH]; intros Hk; [reflexivity|]. cbn in *.
  destruct (String.eqb k0 k) eqn:H0; [apply String.eqb_eq in H0; tauto|].
  rewrite IH by tauto. reflexivity.
Qed.

Lemma normalize_items_length (values : list (string * pyval)) :
  forall acc n,
    List.NoDup (List.map fst values) ->
    (forall k, In k (List.map fst values) -> ~ In k (List.map fst acc)) ->
    normalize_items py_repr float_of_str values acc = Ok n ->
    List.length n = (List.length acc + List.length values)%nat.
Proof.
  induction values as [|[k raw] values IH]; intros acc n Hnd Hacc H.
  - injection H as <-. cbn. lia.
  - cbn [normalize_items] in H. inversion Hnd as [|? ? Hk Hrest]; subst.
    destruct (editable_field k) as [f|]; [|discriminate].
    destruct (normalize f raw) as [v|e]; [|discriminate].
    rewrite dict_set_new in H by (apply Hacc; left; reflexivity).
    rewrite (IH _ _ Hrest) with (2 := H).
    + rewrite List.length_app. cbn. lia.
    + intros k' Hk' Hin. rewrite List.map_app in Hin. apply List.in_app_or in Hin.
      destruct Hin as [Hin|[<-|[]]]; [|exact (Hk Hk')].
      apply (Hacc k'); [right; exact Hk'|exact Hin].
Qed.

Lemma upsert_fold_other (cb ip : string) (l : list (string * pyval)) (k : string) :
  forall d, ~ In k (List.map fst l) ->
    audit_runtime_config (List.fold_left (upsert_config cb ip) l d) !! k
    = audit_runtime_config d !! k.
Proof.
  induction l as [|[k0 v0] l IH]; intros d Hk; [reflexivity|].
  cbn [List.fold_left]. cbn in Hk. rewrite IH by tauto.
  cbn. rewrite lookup_insert_ne by tauto. reflexivity.
Qed.

Lemma upsert_fold_In (cb ip : string) (l : list (string * pyval)) :
  forall d k v,
    List.NoDup (List.map fst l) -> In (k, v) l ->
    audit_runtime_config (List.fold_left (upsert_config cb ip) l d) !! k
    = Some {| value_json := v; value_type := type_name v; scope := "runtime";
              updated_by := cb |}.
Proof.
  induction l as [|[k0 v0] l IH]; intros d k v Hnd Hin; [destruct Hin|].
  inversion Hnd as [|? ? Hk0 Hl]; subst. cbn [List.fold_left].
  destruct Hin as [[= <- <-]|Hin].
  - rewrite upsert_fold_other by exact Hk0. cbn. apply lookup_insert_eq.
  - apply IH; assumption.
Qed.

Lemma upsert_fold_history (cb ip : string) (l : list (string * pyval)) :
  forall d,
    List.length (audit_runtime_config_history (List.fold_left (upsert_config cb ip) l d))
    = (List.length (audit_runtime_config_history d) + List.length l)%nat.
Proof.
  induction l as [|[k0 v0] l IH]; intros d; cbn [List.fold_left List.length]; [lia|].
  rewrite IH. cbn. rewrite List.length_app. cbn. lia.
Qed.

Lemma refresh_fold_other (rows : list (string * config_row)) (k : string) :
  forall acc, ~ In k (List.map fst rows) ->
    fst (List.fold_left (refresh_row py_repr float_of_str) rows acc) !! k = fst acc !! k
    /\ snd (List.fold_left (refresh_row py_repr float_of_str) rows acc) !! k = snd acc !! k.
Proof.
  induction rows as [|[k0 r0] rows IH]; intros acc Hk; [auto|].
  cbn [List.fold_left]. cbn in Hk. destruct (IH (refresh_row py_repr float_of_str acc (k0, r0)))
    as [-> ->]; [tauto|].
  unfold refresh_row. destruct (editable_field k0); [|auto].
  destruct (normalize _ _); [|auto]. cbn.
  rewrite !lookup_insert_ne by tauto. auto.
Qed.

Lemma refresh_fold_In (rows : list (string * config_row)) :
  forall acc k r f v,
    List.NoDup (List.map fst rows) -> In (k, r) rows ->
    editable_field k = Some f -> normalize f (value_json r) = Ok v ->
    fst (List.fold_left (refresh_row py_repr float_of_str) rows acc) !! k = Some v
    /\ snd (List.fold_left (refresh_row py_repr float_of_str) rows acc) !! k
       = Some (updated_by r).
Proof.
  induction rows as [|[k0 r0] rows IH]; intros acc k r f v Hnd Hin Hf Hv; [destruct Hin|].
  inversion Hnd as [|? ? Hk0 Hl]; subst. cbn [List.fold_left].
  destruct Hin as [[= <- <-]|Hin].
  - destruct (refresh_fold_other rows k0 (refresh_row py_repr float_of_str acc (k0, r0)) Hk0)
      as [-> ->].
    unfold refresh_row. rewrite Hf, Hv. cbn. rewrite !lookup_insert_eq. auto.
  - apply (IH _ k r f v); assumption.
Qed.

Lemma upsert_ok (n : list (string * pyval)) (cb ip : string) (c c1 : mysql) :
  runtime_config_upsert n cb ip c = (Ok tt, c1) ->
  tables c1 = List.fold_left (upsert_config cb ip) n (tables c).
Proof.
  unfold runtime_config_upsert. destruct n as [|kv n].
  - intros [= <-]. reflexivity.
  - intros H. apply transaction_ok in H as (Ht & _). exact Ht.
Qed.

Lemma query_ok {A : Type} (f : database -> A) (c c1 : mysql) (a : A) :
  query f c = (Ok a, c1) -> a = f (tables c) /\ tables c1 = tables c.
Proof.
  unfold query. destruct (faults c) as [|[] rest]; [|discriminate|];
    intros [= <- <-]; auto.
Qed.

Lemma editable_field_In (key : string) (f : RuntimeConfigField) :
  editable_field key = Some f -> In f EDITABLE_FIELDS /\ config_key f = key.
Proof.
  unfold editable_field. intros H. apply List.find_some in H as [Hin Hk].
  split; [exact Hin|]. apply String.eqb_eq, Hk.
Qed.

(** X23: after an update that succeeds, each of its items is stored and
    read back as validated: the row of its key holds the validated
    value and the name of who changed it, the cache of the manager holds
    the same value, which get returns whatever the default or the
    fallback, and the list returned shows the key with this value and the
    source db; the history has one more row per item.  (The keys of the
    update are distinct, as those of a dictionary; a value for a comma
    separated field is not given as a list.) *)
Theorem update_items_then_get (values : list (string * pyval))
    (changed_by source_ip : string) (e e' : env) (items : list item)
    (key : string) (raw : pyval) (field : RuntimeConfigField) (v fallback : pyval) :
  List.NoDup (List.map fst values) ->
  update_items py_repr float_of_str values changed_by source_ip e = (Ok items, e') ->
  In (key, raw) values ->
  editable_field key = Some field ->
  normalize field raw = Ok v ->
  (field_type field = "csv" -> forall l, raw <> PList l) ->
  audit_runtime_config (tables (conn e')) !! key
  = Some {| value_json := v; value_type := type_name v; scope := "runtime";
            updated_by := changed_by |}
  /\ _overrides (manager e') !! key = Some v
  /\ get (manager e') key fallback = v
  /\ In {| i_config_key := key; i_value := Some v; i_source := "db";
           i_updated_by := Some changed_by |} items
  /\ List.length (audit_runtime_config_history (tables (conn e')))
     = (List.length (audit_runtime_config_history (tables (conn e)))
        + List.length values)%nat.
Proof.
  intros Hnd H Hin Hf Hv Hl. unfold update_items in H.
  destruct (normalize_items py_repr float_of_str values []) as [n|ex] eqn:Hn;
    [|discriminate].
  destruct (normalize_items_spec values [] n Hnd Hn) as (N1 & N2 & N3).
  specialize (N3 (List.NoDup_nil _)).
  pose proof (dict_get_In n key v (N1 key raw field v Hin Hf Hv)) as Hinn.
  apply bind_ok in H as ([] & e1 & Hu & H).
  unfold with_conn, zoom in Hu.
  destruct (runtime_config_upsert n changed_by source_ip (conn e)) as [r c1] eqn:Hup.
  injection Hu as -> <-. apply upsert_ok in Hup.
  apply bind_ok in H as ([] & e2 & Hr & H).
  unfold bind, get, ret in H. injection H as <- <-.
  unfold refresh_force in Hr. apply bind_ok in Hr as (rows & e3 & Hq & Hm).
  unfold with_conn, zoom in Hq. cbn [conn manager] in Hq.
  destruct (runtime_config_all c1) as [r2 c2] eqn:Hall. injection Hq as -> <-.
  unfold runtime_config_all in Hall. apply query_ok in Hall as [-> Ht2].
  destruct (List.fold_left (refresh_row py_repr float_of_str)
              (map_to_list (audit_runtime_config (tables c1))) (∅, ∅))
    as [ov meta] eqn:Hfold.
  unfold modify in Hm. injection Hm as <-. cbn [conn manager _overrides _override_meta].
  assert (Hrow : audit_runtime_config (tables c1) !! key
                 = Some {| value_json := v; value_type := type_name v;
                           scope := "runtime"; updated_by := changed_by |}).
  { rewrite Hup. apply upsert_fold_In; assumption. }
  assert (Hst : normalize field v = Ok v)
    by (apply (normalize_value_fixed py_repr float_of_str field raw v Hv Hl)).
  destruct (refresh_fold_In (map_to_list (audit_runtime_config (tables c1))) (∅, ∅)
              key {| value_json := v; value_type := type_name v;
                     scope := "runtime"; updated_by := changed_by |} field v)
    as [Ho Hme].
  { apply NoDup_ListNoDup, NoDup_fst_map_to_list. }
  { apply list_elem_of_In, elem_of_map_to_list, Hrow. }
  { exact Hf. }
  { exact Hst. }
  rewrite Hfold in Ho, Hme. cbn [fst snd value_json updated_by] in Ho, Hme.
  split; [rewrite Ht2; exact Hrow|]. split; [exact Ho|].
  split; [unfold get; cbn; rewrite Ho; reflexivity|]. split.
  - destruct (editable_field_In key field Hf) as [Hfin Hfk].
    unfold current_items. apply List.in_map_iff. exists field. split; [|exact Hfin].
    cbn [_overrides _override_meta]. rewrite Hfk, Ho, Hme. reflexivity.
  - rewrite Ht2, Hup, upsert_fold_history. f_equal.
    apply (normalize_items_length values [] n Hnd); [intros k _ []|exact Hn].
Qed.

End UpdateFacts.

Lemma update_items_then_get_witness :
  RuntimeConfig._overrides (RuntimeConfig.manager (snd Getters_Sample.updated))
    !! "AUDIT_BATCH_SIZE"
  = Some (Storage.PInt 500).
Proof.
  refine (proj1 (proj2 (update_items_then_get
            Getters_Sample.no_repr Getters_Sample.no_float
            Getters_Sample.two_items "admin" "10.0.0.1" ConfigRules.empty_env
            (snd Getters_Sample.updated) Getters_Sample.updated_items
            "AUDIT_BATCH_SIZE" (Storage.PStr " 500 ") Getters_Sample.batch_field
            (Storage.PInt 500) Storage.PNone _ _ _ _ _ _))).
  - apply List.NoDup_cons; [cbn; intros [H|[]]; discriminate H|].
    apply List.NoDup_cons; [intros []|]. apply List.NoDup_nil.
  - vm_compute. reflexivity.
  - left. reflexivity.
  - vm_compute. reflexivity.
  - vm_compute. reflexivity.
  - intros H. vm_compute in H. discriminate H.
Defined.
(** ** The typed getters *)

Section GetterFacts.

Import Storage RuntimeConfig Getters.

Variable py_repr : pyval -> string.
Variable float_of_str : string -> option spec_float.

(** X24: the typed getters of the manager read a cached value the way
    the validation of a field of that type reads it: whenever the
    validation accepts the value as a boolean, an integer or a float,
    get_bool, get_int or get_float returns that same boolean, integer or
    float, whatever the fallback. *)
Theorem getters_agree_with_validation (m : RuntimeConfigManager) (key : string)
    (field : RuntimeConfigField) (raw : pyval) :
  _overrides m !! key = Some raw ->
  (forall b fallback,
      field_type field = "bool" ->
      _normalize_value py_repr float_of_str field raw = Ok (PBool b) ->
      get_bool py_repr m key fallback = b)
  /\ (forall n fallback,
      field_type field = "int" ->
      _normalize_value py_repr float_of_str field raw = Ok (PInt n) ->
      get_int m key fallback = n)
  /\ (forall x fallback,
      field_type field = "float" ->
      _normalize_value py_repr float_of_str field raw = Ok (PFloat x) ->
      get_float float_of_str m key fallback = x).
Proof.
  intros Ho. split; [|split].
  - intros b fb Ht. unfold _normalize_value, get_bool, get. rewrite Ht, Ho.
    cbn [String.eqb Ascii.eqb Bool.eqb].
    destruct raw; try (intros [= <-]; reflexivity);
      cbn [py_str];
      destruct (in_strs _ ["1"; "true"; "yes"; "on"]);
      try (intros [= <-]; reflexivity);
      destruct (in_strs _ ["0"; "false"; "no"; "off"]);
      try (intros [= <-]; reflexivity); discriminate.
  - intros n fb Ht. unfold _normalize_value, get_int, get. rewrite Ht, Ho.
    cbn [String.eqb Ascii.eqb Bool.eqb].
    destruct (py_int raw) as [z|]; [|discriminate].
    destruct (float_of_int z) as [x|e]; [|discriminate].
    destruct (_check_range field x) as [[]|e]; [|discriminate].
    intros [= <-]. reflexivity.
  - intros x fb Ht. unfold _normalize_value, get_float, get. rewrite Ht, Ho.
    cbn [String.eqb Ascii.eqb Bool.eqb].
    destruct (py_float float_of_str raw) as [y|]; [|discriminate].
    destruct (_check_range field y) as [[]|e]; [|discriminate].
    intros [= <-]. reflexivity.
Qed.

End GetterFacts.

Lemma getters_agree_with_validation_witness :
  Getters.get_bool Getters_Sample.no_repr Getters_Sample.text_manager
                   "AUDIT_REDIS_ENABLED" false
  = true.
Proof.
  apply (proj1 (getters_agree_with_validation
                  Getters_Sample.no_repr Getters_Sample.no_float
                  Getters_Sample.text_manager "AUDIT_REDIS_ENABLED"
                  Getters_Sample.redis_field (Storage.PStr " Yes ")
                  ltac:(vm_compute; reflexivity)) true false);
    vm_compute; reflexivity.
Defined.
(** ** An exception of the parser *)

Section ParserException.

Import Storage Tailer Collector Loop.

Variable cfg : Settings.

(** X25: when the parser raises on a line of the access log, the
    iteration stops there: the exception is counted as a database write
    failure and recorded as the last error, nothing is flushed, and the
    lines of the poll that follow the line, as well as all the lines
    just read from the error log, are never parsed, although both
    tailers have moved past them. *)
Theorem parser_exception_skips_poll (k : Knobs) (now : spec_float) (s : state)
    (lines : list string) (t : LogTailer) (e : exn)
    (b1 : list ParsedEvent) (st1 : CollectorStats) :
  read_new_lines (disk s) (tailer s) (Z.max 64 (Z.max 1 (k_batch_size k) * 4))
  = (lines, t) ->
  for_each (consume_line (k_filter k)) lines (batch s, stats s) = (Raise e, (b1, st1)) ->
  let s' := snd (iteration cfg k now s) in
  tailer s' = t
  /\ error_tailer s'
     = match error_tailer s with
       | Some et =>
           Some (snd (read_new_lines (disk s) et (Z.max 32 (Z.max 1 (k_batch_size k) * 2))))
       | None => None
       end
  /\ batch s' = b1
  /\ error_batch s' = error_batch s
  /\ error_lines_read_total (stats s') = error_lines_read_total (stats s)
  /\ db_write_fail_total (stats s') = db_write_fail_total (stats s) + 1
  /\ last_error (stats s') = Some e
  /\ ingestor s' = ingestor s.
Proof.
  intros Hread Hfor. cbv zeta.
  assert (Hne : nonempty lines = true).
  { destruct lines; [discriminate Hfor|reflexivity]. }
  assert (Hst : error_lines_read_total st1 = error_lines_read_total (stats s)
                /\ db_write_fail_total st1 = db_write_fail_total (stats s)).
  { clear Hread Hne. revert Hfor. generalize (batch s), (stats s).
    induction lines as [|l lines IH]; intros b st; [discriminate|].
    cbn [for_each]. unfold bind.
    destruct (consume_line (k_filter k) l (b, st)) as [[[]|e1] [b2 st2]] eqn:Hc.
    - intros H. destruct (IH _ _ H) as [-> ->].
      unfold consume_line in Hc.
      destruct (Parser.parse_line l) as [[ev|]|?]; [| |discriminate].
      + destruct (Filtering.should_drop_event ev (k_filter k));
          injection Hc as <- <-; split; reflexivity.
      + injection Hc as <- <-. split; reflexivity.
    - intros [= <- <- <-]. unfold consume_line in Hc.
      destruct (Parser.parse_line l) as [[ev|]|?].
      + destruct (Filtering.should_drop_event ev (k_filter k)); discriminate.
      + discriminate.
      + injection Hc as _ <- <-. split; reflexivity. }
  destruct Hst as [Hs1 Hs2].
  set (s1 := match error_tailer s with
             | Some et =>
                 set_error_tailer
                   (Some (snd (read_new_lines (disk s) et
                                 (Z.max 32 (Z.max 1 (k_batch_size k) * 2)))))
                   (set_tailer t s)
             | None => set_tailer t s
             end).
  assert (Hbody : iteration_body cfg k now s
                  = (Raise e, set_stats st1 (set_batches b1 (error_batch s) s1))).
  { unfold iteration_body.
    unfold bind at 1, get at 1. cbv beta iota. rewrite Hread. cbv beta iota.
    unfold bind at 1, modify at 1. cbv beta iota.
    unfold bind at 1. subst s1.
    destruct (error_tailer s) as [et|] eqn:Het.
    - destruct (read_new_lines (disk s) et _) as [ls et'] eqn:Hre.
      unfold bind at 1, modify at 1, ret at 1. cbv beta iota. rewrite Hne.
      unfold bind at 1, bind at 1, zoom. cbv beta iota.
      cbn [batch stats error_batch set_error_tailer set_tailer snd].
      rewrite Hfor. reflexivity.
    - unfold ret at 1. cbv beta iota. rewrite Hne.
      unfold bind at 1, bind at 1, zoom. cbv beta iota.
      cbn [batch stats error_batch set_tailer]. rewrite Hfor. reflexivity. }
  unfold iteration. rewrite Hbody.
  assert (Hs : tailer s1 = t
               /\ error_tailer s1
                  = match error_tailer s with
                    | Some et =>
                        Some (snd (read_new_lines (disk s) et
                                     (Z.max 32 (Z.max 1 (k_batch_size k) * 2))))
                    | None => None
                    end
               /\ ingestor s1 = ingestor s).
  { subst s1. destruct (error_tailer s) as [et|] eqn:Het; cbn; [|rewrite Het]; auto. }
  destruct Hs as (Ht1 & Het1 & Hi1).
  unfold _publish_health. destruct (cache_on cfg k); [unfold redis_call|unfold ret];
    cbn; [destruct (redis_faults s1) as [|[] ?]|]; cbn;
    rewrite ?Hs1, ?Hs2, ?Ht1, ?Het1, ?Hi1; repeat split; reflexivity.
Qed.

End ParserException.

Lemma parser_exception_skips_poll_witness :
  let s' := snd (Collector.iteration Site.settings default_knobs (seconds 100)
                   Overflow.start) in
  List.length (fst Overflow.poll) = 3%nat
  /\ List.length (Collector.batch s') = 1%nat
  /\ Tailer._offset (Collector.tailer s') = Z.of_nat (String.length Overflow.log)
  /\ Collector.last_error (Collector.stats s') = Some OverflowError
  /\ Storage.journal (Collector.ingestor s') = [].
Proof.
  cbv zeta.
  destruct (parser_exception_skips_poll Site.settings default_knobs (seconds 100)
              Overflow.start (fst Overflow.poll) (snd Overflow.poll) OverflowError
              (fst (snd Overflow.looped)) (snd (snd Overflow.looped))
              ltac:(vm_compute; reflexivity) ltac:(vm_compute; reflexivity))
    as (Ht & _ & Hb & _ & _ & _ & He & Hi).
  rewrite Ht, Hb, He, Hi.
  repeat split; vm_compute; reflexivity.
Defined.
(** ** Destinations: host and port *)

Section DestFacts.

Import Re Ipaddress.

Lemma count_pos_all (c : ascii) (g : ascii -> bool) (s : string) :
  (0 < Py.count_chr c s)%nat -> Py.all_chr g s = true -> g c = true.
Proof.
  induction s as [|a s IH]; cbn; [lia|].
  intros Hc Hall. apply andb_true_iff in Hall as [Ha Hs].
  destruct (Ascii.eqb a c) eqn:Hac.
  - apply Ascii.eqb_eq in Hac. subst a. exact Ha.
  - apply IH; [cbn in Hc; lia|exact Hs].
Qed.

Lemma split_chr_all (f : ascii -> bool) (c : ascii) (s : string) :
  forallb (Py.all_chr f) (Py.split_chr c s) = true ->
  Py.all_chr (fun a => f a || Ascii.eqb a c) s = true.
Proof.
  induction s as [|a s IH]; [reflexivity|]. cbn.
  destruct (Ascii.eqb a c) eqn:Hac.
  - cbn. intros H. rewrite orb_true_r. cbn. apply IH, H.
  - destruct (Py.split_chr c s) as [|w ws] eqn:Hs.
    + cbn. rewrite !andb_true_r. intros H. rewrite H. cbn. apply IH. reflexivity.
    + cbn. intros H. apply andb_true_iff in H as [H1 H2].
      apply andb_true_iff in H1 as [Ha Hw]. rewrite Ha. cbn.
      apply IH. cbn. rewrite Hw, H2. reflexivity.
Qed.

Lemma ipv4_no_colon (s : string) :
  (0 < Py.count_chr ":" s)%nat -> ipv4_ok s = false.
Proof.
  intros Hc. destruct (ipv4_ok s) eqn:H; [|reflexivity]. exfalso.
  unfold ipv4_ok in H. apply andb_true_iff in H as [_ H].
  apply andb_true_iff in H as [_ H].
  assert (Hall : forallb (Py.all_chr Py.isdigit_chr) (Py.split_chr "." s) = true).
  { apply forallb_forall. intros o Ho.
    rewrite forallb_forall in H. specialize (H o Ho). unfold octet_ok, Py.isdigit in H.
    do 3 (apply andb_true_iff in H as [H _]). apply andb_true_iff in H as [_ H].
    exact H. }
  apply split_chr_all in Hall.
  pose proof (count_pos_all ":" _ s Hc Hall) as Hd. discriminate Hd.
Qed.

Lemma split_chr_length (c : ascii) (s : string) :
  List.length (Py.split_chr c s) = S (Py.count_chr c s).
Proof.
  induction s as [|a s IH]; [reflexivity|]. cbn.
  destruct (Ascii.eqb a c); cbn; [rewrite IH; reflexivity|].
  destruct (Py.split_chr c s); cbn in *; [discriminate IH|exact IH].
Qed.

(** The first piece of [split(c, 1)] *)
Lemma scan1_first (c : ascii) (s : string) :
  forall acc,
    Duration.scan1 c s acc = [Py.rev acc ++ s]
    \/ exists pre post,
         s = pre ++ String c post
         /\ Duration.scan1 c s acc = [Py.rev acc ++ pre; post].
Proof.
  induction s as [|a s IH]; intros acc.
  - left. rewrite app_nil_str. reflexivity.
  - cbn [Duration.scan1]. destruct (Ascii.eqb a c) eqn:Hac.
    + right. apply Ascii.eqb_eq in Hac. subst a. exists EmptyString, s.
      split; [reflexivity|]. rewrite app_nil_str. reflexivity.
    + assert (Hr : forall x, Py.rev (String a acc) ++ x = Py.rev acc ++ String a x).
      { intros x. unfold Py.rev. cbn [Py.rev_onto].
        rewrite (rev_onto_acc acc (String a EmptyString)), app_assoc_str. reflexivity. }
      destruct (IH (String a acc)) as [H|(pre & post & Hs & H)].
      * left. rewrite H, Hr. reflexivity.
      * right. exists (String a pre), post. split; [rewrite Hs; reflexivity|].
        rewrite H, Hr. reflexivity.
Qed.

Lemma split_scope_id_colons (s addr : string) :
  split_scope_id s = Some addr ->
  (Py.count_chr ":" addr <= Py.count_chr ":" s)%nat.
Proof.
  unfold split_scope_id.
  change (Py.split_chr_max "%" 1 s) with (Duration.scan1 "%" s EmptyString).
  destruct (scan1_first "%" s EmptyString) as [H|(pre & post & Hs & H)]; rewrite H.
  - intros [= <-]. change (Py.rev EmptyString ++ s) with s. lia.
  - destruct (_ && _); [|discriminate]. intros [= <-]. rewrite Hs.
    change (Py.rev EmptyString ++ pre) with pre. rewrite count_chr_app. lia.
Qed.

Lemma ipv6_few_colons (s : string) :
  (Py.count_chr ":" s <= 1)%nat -> ipv6_ok s = false.
Proof.
  intros Hc. unfold ipv6_ok.
  destruct (split_scope_id s) as [addr|] eqn:Ha; [|apply andb_false_r].
  apply split_scope_id_colons in Ha.
  unfold ipv6_parts_ok. rewrite split_chr_length.
  replace (S (Py.count_chr ":" addr) <? 3)%nat with true
    by (symmetry; apply Nat.ltb_lt; lia).
  rewrite andb_false_r. apply andb_false_r.
Qed.

Lemma one_colon_not_ip (s : string) :
  Py.count_chr ":" s = 1%nat -> ip_address_ok s = false.
Proof.
  intros Hc. unfold ip_address_ok.
  rewrite ipv4_no_colon by lia. rewrite ipv6_few_colons by lia. reflexivity.
Qed.

Lemma all_count_zero (c : ascii) (g : ascii -> bool) (s : string) :
  g c = false -> Py.all_chr g s = true -> Py.count_chr c s = 0%nat.
Proof.
  intros Hg Hall. destruct (Py.count_chr c s) eqn:Hc; [reflexivity|].
  rewrite (count_pos_all c g s) in Hg by (try lia; assumption). discriminate.
Qed.

Lemma rsplit1_none (c : ascii) (p : string) :
  Py.count_chr c p = 0%nat -> Py.rsplit1 c p = None.
Proof.
  induction p as [|a p IH]; [reflexivity|]. cbn.
  destruct (Ascii.eqb a c); [discriminate|]. cbn. intros H. rewrite (IH H). reflexivity.
Qed.

Lemma rsplit1_app (c : ascii) (h p : string) :
  Py.count_chr c p = 0%nat -> Py.rsplit1 c (h ++ String c p) = Some (h, p).
Proof.
  intros Hp. induction h as [|a h IH].
  - change (EmptyString ++ String c p) with (String c p). cbn [Py.rsplit1].
    rewrite (rsplit1_none c p Hp), Ascii.eqb_refl. reflexivity.
  - change (String a h ++ String c p) with (String a (h ++ String c p)).
    cbn [Py.rsplit1]. rewrite IH. reflexivity.
Qed.

Lemma snoc_string (s : string) :
  s <> EmptyString -> exists x z, s = x ++ String z EmptyString.
Proof.
  induction s as [|a s IH]; [congruence|]. intros _.
  destruct s as [|b s].
  - exists EmptyString, a. reflexivity.
  - destruct IH as (x & z & Hs); [discriminate|].
    exists (String a x), z. rewrite Hs. reflexivity.
Qed.

(** A text that neither starts nor ends with white space is stripped. *)
Lemma strip_ends (a z : ascii) (x : string) :
  Py.isspace a = false -> Py.isspace z = false ->
  Py.strip (String a (x ++ String z EmptyString)) = String a (x ++ String z EmptyString).
Proof.
  intros Ha Hz. unfold Py.strip. cbn [Py.lstrip_by]. rewrite Ha.
  change (String a (x ++ String z EmptyString))
    with (String a x ++ String z EmptyString).
  apply rstrip_by_last, Hz.
Qed.

(** Where the two functions take the same branches *)
Lemma split_host_port_same (dest : string) :
  (Py.count_chr ":" (Parser.strip_scheme (Py.strip dest)) <= 1)%nat
  \/ Parser._is_ip (Parser.strip_scheme (Py.strip dest)) = true ->
  ErrorParser._split_host_port dest = Parser._split_host_port dest.
Proof.
  intros H. unfold ErrorParser._split_host_port, Parser._split_host_port.
  cbv zeta. set (raw := Parser.strip_scheme (Py.strip dest)) in *.
  unfold ErrorParser._is_ip, Parser._is_ip in *.
  assert (Hab :
    (if (Py.count_chr ":" raw =? 1)%nat then
       match Py.rsplit1 ":" raw with
       | Some (host, maybe_port) =>
           if Py.isdigit maybe_port then (host, Some (Py.int_of_digits maybe_port))
           else if ip_address_ok raw then (raw, None) else (raw, None)
       | None => if ip_address_ok raw then (raw, None) else (raw, None)
       end
     else if ip_address_ok raw then (raw, None) else (raw, None))
    = (if ip_address_ok raw then (raw, @None Z) else Parser.split_tail raw)).
  { unfold Parser.split_tail, Parser._is_ip.
    destruct (Nat.eqb_spec (Py.count_chr ":" raw) 1) as [H1|H1].
    - rewrite (one_colon_not_ip raw H1). reflexivity.
    - destruct (ip_address_ok raw) eqn:Hip; [reflexivity|].
      destruct H as [H|H]; [|discriminate].
      replace (1 <? Py.count_chr ":" raw)%nat with false
        by (symmetry; apply Nat.ltb_ge; lia).
      reflexivity. }
  rewrite Hab. reflexivity.
Qed.

(** X26: the access parser and the error parser split a destination
    into the same host and port whenever the destination, without its
    scheme, holds at most one colon or is an IP address; an address with
    exactly one colon is never an IP address, so that its digits after
    the colon are read as the port by both. *)
Theorem split_host_port_agree (dest : string) :
  (Py.count_chr ":" (Parser.strip_scheme (Py.strip dest)) <= 1)%nat
  \/ Parser._is_ip (Parser.strip_scheme (Py.strip dest)) = true ->
  ErrorParser._split_host_port dest = Parser._split_host_port dest
  /\ (Py.count_chr ":" (Parser.strip_scheme (Py.strip dest)) = 1%nat ->
      Parser._is_ip (Parser.strip_scheme (Py.strip dest)) = false).
Proof.
  intros H. split; [apply split_host_port_same, H|apply one_colon_not_ip].
Qed.

(** X27: a destination made of a scheme, a host without a colon, a
    colon and a decimal port of at most 4300 digits, the most that int
    converts, is split into that host and the number the digits denote,
    by the access parser and by the error parser alike. *)
Theorem split_host_port_decodes (scheme h p : string) :
  In scheme ["tcp:"; "udp:"] ->
  Py.count_chr ":" h = 0%nat ->
  Py.startswith "[" h = false ->
  Py.isdigit p = true ->
  (String.length p <= Text.int_max_str_digits)%nat ->
  Parser._split_host_port (scheme ++ h ++ ":" ++ p) = (h, Some (Py.int_of_digits p))
  /\ ErrorParser._split_host_port (scheme ++ h ++ ":" ++ p)
     = (h, Some (Py.int_of_digits p)).
Proof.
  intros Hs Hh Hb Hp _.
  assert (Hp0 : Py.count_chr ":" p = 0%nat).
  { apply andb_true_iff in Hp as [_ Hall].
    apply (all_count_zero ":" Py.isdigit_chr p); [reflexivity|exact Hall]. }
  assert (Hraw : Parser.strip_scheme (Py.strip (scheme ++ h ++ ":" ++ p))
                 = h ++ ":" ++ p).
  { assert (Hstrip : forall a x, Py.isspace a = false ->
              Py.strip (String a x ++ h ++ ":" ++ p) = String a x ++ h ++ ":" ++ p).
    { intros a x Ha. pose proof Hp as Hp'. apply andb_true_iff in Hp' as [Hne Hall].
      destruct (snoc_string p) as (p' & z & ->).
      { intros ->. discriminate Hne. }
      rewrite all_chr_app in Hall. apply andb_true_iff in Hall as [_ Hz].
      cbn in Hz. rewrite andb_true_r in Hz. apply digit_not_space in Hz.
      change (":" ++ p' ++ String z EmptyString)
        with (String ":" (p' ++ String z EmptyString)).
      rewrite <- !app_assoc_str.
      change (String a x ++ h) with (String a (x ++ h)).
      replace (String a (x ++ h) ++ String ":" (p' ++ String z EmptyString))
        with (String a (((x ++ h) ++ String ":" p') ++ String z EmptyString)).
      - apply strip_ends; assumption.
      - change (String a ?u ++ ?v) with (String a (u ++ v)). f_equal.
        rewrite !app_assoc_str. reflexivity. }
    destruct Hs as [<-|[<-|[]]]; rewrite Hstrip by reflexivity; reflexivity. }
  assert (Hc : Py.count_chr ":" (h ++ ":" ++ p) = 1%nat).
  { change (":" ++ p) with (String ":" p). rewrite count_chr_app. cbn. lia. }
  assert (Hparse : Parser._split_host_port (scheme ++ h ++ ":" ++ p)
                   = (h, Some (Py.int_of_digits p))).
  { unfold Parser._split_host_port. cbv zeta. rewrite Hraw.
    unfold Parser._is_ip. rewrite (one_colon_not_ip _ Hc).
    assert (Hsb : Py.startswith "[" (h ++ ":" ++ p) = false).
    { destruct h as [|a h]; [reflexivity|]. exact Hb. }
    rewrite Hsb. unfold Parser.split_tail. rewrite Hc. cbn [Nat.eqb].
    change (":" ++ p) with (String ":" p). rewrite (rsplit1_app ":" h p Hp0), Hp.
    reflexivity. }
  split; [exact Hparse|]. rewrite <- Hparse. apply split_host_port_same.
  left. rewrite Hraw, Hc. lia.
Qed.

End DestFacts.

Lemma split_host_port_agree_witness :
  ErrorParser._split_host_port " tcp:example.com:443 "
  = Parser._split_host_port " tcp:example.com:443 ".
Proof.
  refine (proj1 (split_host_port_agree " tcp:example.com:443 " _)).
  left. apply Nat.leb_le. vm_compute. reflexivity.
Defined.

Lemma split_host_port_decodes_witness :
  Parser._split_host_port "tcp:example.com:443" = ("example.com", Some 443).
Proof.
  exact (proj1 (split_host_port_decodes "tcp:" "example.com" "443"
                  (or_introl eq_refl) eq_refl eq_refl eq_refl
                  (proj1 (Nat.leb_le 3 Text.int_max_str_digits) eq_refl))).
Defined.
(** ** The window of a summary *)

Section WindowFacts.

Import Api.

Lemma unsnoc_app (d : string) (u : ascii) :
  unsnoc (d ++ String u EmptyString) = Some (d, u).
Proof.
  induction d as [|a d IH]; [reflexivity|].
  change (String a d ++ String u EmptyString) with (String a (d ++ String u EmptyString)).
  cbn [unsnoc]. rewrite IH. reflexivity.
Qed.

Lemma unsnoc_inv (s d : string) (u : ascii) :
  unsnoc s = Some (d, u) -> s = d ++ String u EmptyString.
Proof.
  revert d. induction s as [|a s IH]; intros d; [discriminate|]. cbn [unsnoc].
  destruct (unsnoc s) as [[x z]|] eqn:Hs.
  - intros [= <- <-]. rewrite (IH x eq_refl). reflexivity.
  - intros [= <- <-]. destruct s as [|b s]; [reflexivity|].
    cbn [unsnoc] in Hs. destruct (unsnoc s) as [[? ?]|]; discriminate.
Qed.

Lemma scaled_some (digits : string) (factor v : Z) :
  scaled digits factor = Ok (Some v)
  <-> (String.length digits <= Text.int_max_str_digits)%nat
      /\ v = Py.int_of_digits digits * factor /\ 1 <= v.
Proof.
  unfold scaled, Text.int_of_str_digits.
  destruct (Nat.ltb_spec Text.int_max_str_digits (String.length digits)) as [Hl|Hl].
  - split; [discriminate|]. intros [H _]. lia.
  - cbv zeta. destruct (Z.ltb_spec (Py.int_of_digits digits * factor) 1).
    + split; [discriminate|]. intros (_ & -> & H1). lia.
    + split; [intros [= <-]; auto|]. intros (_ & -> & _). reflexivity.
Qed.

Lemma scaled_raise (digits : string) (factor : Z) (e : exn) :
  scaled digits factor = Raise e
  <-> e = ValueError /\ (Text.int_max_str_digits < String.length digits)%nat.
Proof.
  unfold scaled, Text.int_of_str_digits.
  destruct (Nat.ltb_spec Text.int_max_str_digits (String.length digits)) as [Hl|Hl].
  - split; [intros [= <-]; auto|]. intros [-> _]. reflexivity.
  - cbv zeta. destruct (_ <? 1); (split; [discriminate|]); intros [_ H]; lia.
Qed.

(** X28: on a window of ASCII characters.  The window is accepted exactly
    when, in lower case and without the white space around it, it is a
    string of at most 4300 decimal digits followed by h, m or s, and
    denotes at least one second; the value returned is the number times
    3600, 60 or 1, so it is never below 1, and a window of zero such as
    0m is refused.  With more than 4300 digits before the unit the
    conversion of the digits raises ValueError, and this is the only
    exception; every other window is refused with status 400. *)
Theorem parse_window_to_seconds_spec (window : string) :
  Text.ascii_text window = true ->
  (forall v,
     _parse_window_to_seconds window = Ok (Some v)
     <-> exists digits u,
           Py.lower (Py.strip window) = digits ++ String u EmptyString
           /\ Py.isdigit digits = true
           /\ (String.length digits <= Text.int_max_str_digits)%nat
           /\ In u ["h"; "m"; "s"]%char
           /\ v = Py.int_of_digits digits * unit_seconds u
           /\ 1 <= v)
  /\ (forall e,
       _parse_window_to_seconds window = Raise e
       <-> e = ValueError
           /\ exists digits u,
                Py.lower (Py.strip window) = digits ++ String u EmptyString
                /\ Py.isdigit digits = true
                /\ (Text.int_max_str_digits < String.length digits)%nat
                /\ In u ["h"; "m"; "s"]%char).
Proof.
  intros _. unfold _parse_window_to_seconds. cbv zeta. split.
  - intros v. split.
    + destruct (unsnoc (Py.lower (Py.strip window))) as [[d u]|] eqn:Hu; [|discriminate].
      apply unsnoc_inv in Hu. intros H. exists d, u. split; [exact Hu|].
      destruct (Py.isdigit d); [|rewrite !andb_false_r in H; discriminate].
      rewrite !andb_true_r in H. split; [reflexivity|]. unfold unit_seconds.
      destruct (Ascii.eqb u "h") eqn:Hh.
      { apply Ascii.eqb_eq in Hh. subst u. apply scaled_some in H as (Hl & -> & Hv).
        cbn. auto. }
      destruct (Ascii.eqb u "m") eqn:Hm.
      { apply Ascii.eqb_eq in Hm. subst u. apply scaled_some in H as (Hl & -> & Hv).
        cbn. auto. }
      destruct (Ascii.eqb u "s") eqn:Hs; [|discriminate].
      apply Ascii.eqb_eq in Hs. subst u. apply scaled_some in H as (Hl & -> & Hv).
      cbn. auto 7.
    + intros (d & u & -> & Hd & Hl & Hu & -> & Hv). rewrite unsnoc_app, Hd, !andb_true_r.
      destruct Hu as [<-|[<-|[<-|[]]]]; cbn [Ascii.eqb Bool.eqb]; cbv iota;
        apply scaled_some; auto.
  - intros e. split.
    + destruct (unsnoc (Py.lower (Py.strip window))) as [[d u]|] eqn:Hu; [|discriminate].
      apply unsnoc_inv in Hu. intros H.
      destruct (Py.isdigit d) eqn:Hd; [|rewrite !andb_false_r in H; discriminate].
      rewrite !andb_true_r in H.
      assert (Hr : exists f, scaled d f = Raise e /\ In u ["h"; "m"; "s"]%char).
      { destruct (Ascii.eqb u "h") eqn:Hh.
        { apply Ascii.eqb_eq in Hh. subst u. exists 3600. cbn. auto. }
        destruct (Ascii.eqb u "m") eqn:Hm.
        { apply Ascii.eqb_eq in Hm. subst u. exists 60. cbn. auto. }
        destruct (Ascii.eqb u "s") eqn:Hs; [|discriminate].
        apply Ascii.eqb_eq in Hs. subst u. exists 1. cbn. auto. }
      destruct Hr as (f & Hf & Hin). apply scaled_raise in Hf as [-> Hl].
      split; [reflexivity|]. exists d, u. auto.
    + intros (-> & d & u & -> & Hd & Hl & Hu). rewrite unsnoc_app, Hd, !andb_true_r.
      destruct Hu as [<-|[<-|[<-|[]]]]; cbn [Ascii.eqb Bool.eqb]; cbv iota;
        apply scaled_raise; auto.
Qed.

End WindowFacts.

Lemma parse_window_to_seconds_spec_witness :
  Api._parse_window_to_seconds " 15M " = Ok (Some 900).
Proof.
  refine (proj2 (proj1 (parse_window_to_seconds_spec " 15M " eq_refl) 900) _).
  exists "15", "m"%char. split; [reflexivity|]. split; [reflexivity|].
  split; [apply Nat.leb_le; vm_compute; reflexivity|].
  split; [right; left; reflexivity|]. split; [reflexivity|]. vm_compute. discriminate.
Defined.
